(** * cc-znp: the request/response transaction engine of [lib/ccznp.js]

    A shallow embedding of the [CcZnp] class: its fields, the closures it
    hands to timers, [setImmediate] and the event emitter, and the event
    loop that runs them.  JavaScript statements become computations in a
    small state-and-exception monad that also logs what leaves the
    engine (callback invocations, frames written, events emitted,
    transport operations). *)

From Stdlib Require Import ZArith List String Bool Arith Lia.
From Stdlib Require Import DecimalString.
Import ListNotations.
Local Open Scope list_scope.
Local Open Scope Z_scope.

Set Implicit Arguments.

(* ================================================================== *)
(** ** JavaScript values that cross the engine's interface *)
(* ================================================================== *)

(** A plain object with numeric fields ([valObj], a parsed payload). *)
Definition Obj := list (string * Z).

(** The bytes of a frame payload (a [Buffer]). *)
Definition Payload := list Z.

Inductive ErrKind := KError | KTypeError | KRangeError.

(** [new Error(msg)], [new TypeError(msg)]. *)
Record Error := mkError { err_kind : ErrKind; err_msg : string }.

(** What [request] and [close] can receive for [valObj] and [callback].
    [JFun f] is a function that returns when it is called, [JThrows g e]
    one that throws [e]; [JNoop] is the engine's own [function(){}]
    literal of [_close]. *)
Inductive jsval :=
| JUndefined
| JNull
| JNum (n : Z)
| JStr (s : string)
| JObj (o : Obj)
| JFun (f : nat)
| JThrows (g : nat) (e : Error)
| JNoop.

(** [subsys] and [cmd] as callers pass them: "String | Number"; a field
    that is missing from a parsed payload reads [undefined]. *)
Inductive ident :=
| IStr (s : string)
| INum (n : Z)
| IUndef.

(** [!v] is false *)
Definition truthy (v : jsval) : bool :=
  match v with
  | JUndefined | JNull => false
  | JNum n => negb (n =? 0)
  | JStr s => negb (String.eqb s "")
  | JObj _ | JFun _ | JThrows _ _ | JNoop => true
  end.

(** [typeof v === 'object'] ([typeof null] is ['object'] too) *)
Definition typeof_object (v : jsval) : bool :=
  match v with
  | JObj _ | JNull => true
  | _ => false
  end.

(** [typeof v === 'function'] *)
Definition typeof_function (v : jsval) : bool :=
  match v with
  | JFun _ | JThrows _ _ | JNoop => true
  | _ => false
  end.

(** [typeof v === 'undefined'] *)
Definition typeof_undefined (v : jsval) : bool :=
  match v with
  | JUndefined => true
  | _ => false
  end.

(** The object a [ZpiObject] constructor call leaves behind: the
    symbolic names, the numeric command id, the wire type, and what a
    call of its [frame()] method does: it returns a payload, returns a
    falsy value ([None]), or throws. *)
Record ArgObj := mkArgObj {
  a_type : string;
  a_subsys : string;
  a_cmd : string;
  a_cmdId : Z;
  a_frame : Error + option Payload
}.

(** A frame as the unpi parser delivers it:
    [{ sof, len, type, subsys, cmd, payload, fcs, csum }]. *)
Record Frame := mkFrame {
  f_sof : Z;
  f_len : Z;
  f_type : Z;
  f_subsys : Z;
  f_cmd : Z;
  f_payload : Payload;
  f_fcs : Z;
  f_csum : Z
}.

(* ================================================================== *)
(** ** Objects the engine keeps *)
(* ================================================================== *)

(** The [ownEvent] object a promotion timer pushes on [_backlog].
    [b_id] is the object's identity: the transaction that created it. *)
Record BacklogEntry := mkBacklogEntry {
  b_id : nat;
  b_evt : string;
  b_subsys : string;
  b_cmd : string
}.

(** References that can sit in the array [backlog] of [_sendSREQ]. *)
Inductive JsRef :=
| RBacklogArray                 (* the array object [self._backlog] *)
| REntry (e : BacklogEntry).    (* an [ownEvent] object *)

(** [===] on object references *)
Definition same_object (x y : JsRef) : bool :=
  match x, y with
  | RBacklogArray, RBacklogArray => true
  | REntry a, REntry b => Nat.eqb (b_id a) (b_id b)
  | _, _ => false
  end.

(** [new Array(x)] with one argument that is not a number: the array
    of length one that holds [x]. *)
Definition new_Array (x : JsRef) : list JsRef := [x].

(** An element of [_txQueue]: [{ subsys, cmd, fn }]; [fn] closes over
    the four arguments of the [request] call that queued it. *)
Record Entry := mkEntry {
  e_subsys : ident;
  e_cmd : ident;
  e_valObj : jsval;
  e_callback : jsval
}.

(** The payload of an [emit]. *)
Inductive EvArg :=
| ATimeout                         (* '__timeout__' *)
| AError                           (* '__error__' *)
| AResult (r : Obj)                (* a parsed payload *)
| AFrame (d : Frame)               (* the frame of a 'data' event *)
| AMsg (subsys ind : string) (data : Obj)   (* { subsys, ind, data } *)
| ANone.

(** The arguments of a callback invocation. *)
Inductive CbArg :=
| CbErr (e : Error)                (* callback(err) *)
| CbNull                           (* callback(null) *)
| CbResult (r : EvArg).            (* callback(null, result) *)

(** The function handed to [once]. *)
Inductive LBody :=
| BSrsp (argObj : ArgObj) (valObj callback : jsval) (backlog : list JsRef)
| BReset (callback : jsval).

(** A registered one-shot listener.  [l_id] is its identity; for the
    listener of [_sendSREQ] it names the transaction. *)
Record Listener := mkListener {
  l_id : nat;
  l_evt : string;
  l_body : LBody
}.

(** The functions handed to [setTimeout]. *)
Inductive TimerKind :=
| TSreqTimeout (txn : nat) (srspEvt : string)
| TSreqNextQueue (txn : nat) (srspEvt : string) (argObj : ArgObj)
| TResetFailsafe.

Record Timer := mkTimer {
  t_due : Z;
  t_kind : TimerKind
}.

(** The functions handed to [setImmediate]. *)
Inductive Immediate :=
| ISweep (backlog : list JsRef)
| ITxDeQueue (entry : Entry).

(** The serial port object, as far as the engine reads and writes it. *)
Record Port := mkPort {
  isOpen : bool;
  _errClosing : bool
}.

(** What leaves the engine. [ECallback] carries the identity of the
    listener that made the call, when one did; [ECallbackThrew] is the
    call of a function that throws. *)
Inductive Effect :=
| ECallback (by_listener : option nat) (f : nat) (a : CbArg)
| ECallbackThrew (by_listener : option nat) (g : nat) (a : CbArg)
| ESend (type subsys : string) (cmdId : Z) (p : Payload)
| EEmit (evt : string) (a : EvArg)
| ESpClose
| ESpFlush
| EThrown (e : Error).

(** The engine, its emitter and the pending work of the event loop. *)
Record State := mkState {
  _init : bool;
  _resetting : bool;
  _sp : option Port;
  _unpi : bool;
  _spinLock : bool;
  _txQueue : list Entry;
  _backlog : list BacklogEntry;
  closeCbs : list jsval;
  listeners : list Listener;
  timers : list Timer;
  immediates : list Immediate;
  flushing : list jsval;
  closing : nat;
  next_id : nat;
  now : Z
}.

Definition set_init v s := mkState v (_resetting s) (_sp s) (_unpi s) (_spinLock s) (_txQueue s) (_backlog s) (closeCbs s) (listeners s) (timers s) (immediates s) (flushing s) (closing s) (next_id s) (now s).
Definition set_resetting v s := mkState (_init s) v (_sp s) (_unpi s) (_spinLock s) (_txQueue s) (_backlog s) (closeCbs s) (listeners s) (timers s) (immediates s) (flushing s) (closing s) (next_id s) (now s).
Definition set_sp v s := mkState (_init s) (_resetting s) v (_unpi s) (_spinLock s) (_txQueue s) (_backlog s) (closeCbs s) (listeners s) (timers s) (immediates s) (flushing s) (closing s) (next_id s) (now s).
Definition set_unpi v s := mkState (_init s) (_resetting s) (_sp s) v (_spinLock s) (_txQueue s) (_backlog s) (closeCbs s) (listeners s) (timers s) (immediates s) (flushing s) (closing s) (next_id s) (now s).
Definition set_spinLock v s := mkState (_init s) (_resetting s) (_sp s) (_unpi s) v (_txQueue s) (_backlog s) (closeCbs s) (listeners s) (timers s) (immediates s) (flushing s) (closing s) (next_id s) (now s).
Definition set_txQueue v s := mkState (_init s) (_resetting s) (_sp s) (_unpi s) (_spinLock s) v (_backlog s) (closeCbs s) (listeners s) (timers s) (immediates s) (flushing s) (closing s) (next_id s) (now s).
Definition set_backlog v s := mkState (_init s) (_resetting s) (_sp s) (_unpi s) (_spinLock s) (_txQueue s) v (closeCbs s) (listeners s) (timers s) (immediates s) (flushing s) (closing s) (next_id s) (now s).
Definition set_closeCbs v s := mkState (_init s) (_resetting s) (_sp s) (_unpi s) (_spinLock s) (_txQueue s) (_backlog s) v (listeners s) (timers s) (immediates s) (flushing s) (closing s) (next_id s) (now s).
Definition set_listeners v s := mkState (_init s) (_resetting s) (_sp s) (_unpi s) (_spinLock s) (_txQueue s) (_backlog s) (closeCbs s) v (timers s) (immediates s) (flushing s) (closing s) (next_id s) (now s).
Definition set_timers v s := mkState (_init s) (_resetting s) (_sp s) (_unpi s) (_spinLock s) (_txQueue s) (_backlog s) (closeCbs s) (listeners s) v (immediates s) (flushing s) (closing s) (next_id s) (now s).
Definition set_immediates v s := mkState (_init s) (_resetting s) (_sp s) (_unpi s) (_spinLock s) (_txQueue s) (_backlog s) (closeCbs s) (listeners s) (timers s) v (flushing s) (closing s) (next_id s) (now s).
Definition set_flushing v s := mkState (_init s) (_resetting s) (_sp s) (_unpi s) (_spinLock s) (_txQueue s) (_backlog s) (closeCbs s) (listeners s) (timers s) (immediates s) v (closing s) (next_id s) (now s).
Definition set_closing v s := mkState (_init s) (_resetting s) (_sp s) (_unpi s) (_spinLock s) (_txQueue s) (_backlog s) (closeCbs s) (listeners s) (timers s) (immediates s) (flushing s) v (next_id s) (now s).
Definition set_next_id v s := mkState (_init s) (_resetting s) (_sp s) (_unpi s) (_spinLock s) (_txQueue s) (_backlog s) (closeCbs s) (listeners s) (timers s) (immediates s) (flushing s) (closing s) v (now s).
Definition set_now v s := mkState (_init s) (_resetting s) (_sp s) (_unpi s) (_spinLock s) (_txQueue s) (_backlog s) (closeCbs s) (listeners s) (timers s) (immediates s) (flushing s) (closing s) (next_id s) v.

(** The fields as the constructor [CcZnp()] leaves them. *)
Definition new_CcZnp : State :=
  mkState false false None false false [] [] [] [] [] [] [] 0%nat 0%nat 0.

(* ================================================================== *)
(** ** The monad of engine code *)
(* ================================================================== *)

(** A computation runs from a state to a value or a thrown exception,
    the state it leaves (assignments made before a [throw] stay), and
    the effects it had, oldest first. *)
Record Res (A : Type) := mkRes {
  r_val : Error + A;
  r_st : State;
  r_out : list Effect
}.

Definition M (A : Type) := State -> Res A.

Definition ret {A} (a : A) : M A := fun s => mkRes (inr a) s [].

Definition bind {A B} (m : M A) (f : A -> M B) : M B :=
  fun s =>
    let r := m s in
    match r_val r with
    | inl e => mkRes (inl e) (r_st r) (r_out r)
    | inr a =>
        let r' := f a (r_st r) in
        mkRes (r_val r') (r_st r') (r_out r ++ r_out r')
    end.

Definition throw {A} (e : Error) : M A := fun s => mkRes (inl e) s [].

(** [try { m } catch (e) { h e }] *)
Definition try_catch {A} (m : M A) (h : Error -> M A) : M A :=
  fun s =>
    let r := m s in
    match r_val r with
    | inl e =>
        let r' := h e (r_st r) in
        mkRes (r_val r') (r_st r') (r_out r ++ r_out r')
    | inr a => r
    end.

Definition get : M State := fun s => mkRes (inr s) s [].
Definition modify (f : State -> State) : M unit := fun s => mkRes (inr tt) (f s) [].
Definition tell (e : Effect) : M unit := fun s => mkRes (inr tt) s [e].

Declare Scope js_scope.
Delimit Scope js_scope with js.
Notation "x <- m ;; k" := (bind m (fun x => k))
  (at level 61, m at next level, right associativity) : js_scope.
Notation "m ;; k" := (bind m (fun _ => k))
  (at level 61, right associativity) : js_scope.
Local Open Scope js_scope.

(** [when c m] is [if (c) { m }]. *)
Definition when (c : bool) (m : M unit) : M unit := if c then m else ret tt.

(** [f(a)] for a value [f] the engine was given as a callback: a
    function is called and returns or throws, anything else is not
    callable. *)
Definition call (by_listener : option nat) (callback : jsval) (a : CbArg) : M unit :=
  match callback with
  | JFun f => tell (ECallback by_listener f a)
  | JThrows g e => tell (ECallbackThrew by_listener g a);; throw e
  | JNoop => ret tt
  | _ => throw (mkError KTypeError "callback is not a function")
  end.

(* ================================================================== *)
(** ** Arrays, timers, the emitter *)
(* ================================================================== *)

(** [Array.prototype.findIndex]; [None] is [-1]. *)
Fixpoint findIndex {A} (p : A -> bool) (l : list A) : option nat :=
  match l with
  | [] => None
  | x :: l' => if p x then Some 0%nat else option_map S (findIndex p l')
  end.

(** [l.splice(pos, 1)] *)
Definition splice1 {A} (pos : nat) (l : list A) : list A :=
  firstn pos l ++ skipn (S pos) l.

(** [self._backlog.indexOf(x)]; [None] is [-1]. *)
Definition indexOf (l : list BacklogEntry) (x : JsRef) : option nat :=
  findIndex (fun e => same_object (REntry e) x) l.

Definition setTimeout (ms : Z) (k : TimerKind) : M unit :=
  modify (fun s => set_timers (timers s ++ [mkTimer (now s + ms) k]) s).

(** [clearTimeout(h)], [h] being the handle of the timer that [which]
    recognises. *)
Definition clearTimeout (which : TimerKind -> bool) : M unit :=
  modify (fun s => set_timers (filter (fun t => negb (which (t_kind t))) (timers s)) s).

Definition is_sreqTimeout (txn : nat) (k : TimerKind) : bool :=
  match k with
  | TSreqTimeout t _ => Nat.eqb t txn
  | _ => false
  end.

Definition is_sreqNextQueue (txn : nat) (k : TimerKind) : bool :=
  match k with
  | TSreqNextQueue t _ _ => Nat.eqb t txn
  | _ => false
  end.

Definition setImmediate (i : Immediate) : M unit :=
  modify (fun s => set_immediates (immediates s ++ [i]) s).

Definition on_evt (evt : string) (l : Listener) : bool := String.eqb (l_evt l) evt.

(** The listeners the constructor attaches with [on] and never
    removes: one for '_ready', one for 'SRSP:RES0:error'. *)
Definition permanent (evt : string) : nat :=
  if (String.eqb evt "_ready" || String.eqb evt "SRSP:RES0:error")%bool then 1%nat else 0%nat.

Definition listenerCount (evt : string) (s : State) : nat :=
  (permanent evt + List.length (filter (on_evt evt) (listeners s)))%nat.

(** [this.once(evt, body)]: the listener goes last and gets a fresh
    identity. *)
Definition once (evt : string) (body : LBody) : M unit :=
  modify (fun s =>
    set_next_id (S (next_id s))
      (set_listeners (listeners s ++ [mkListener (next_id s) evt body]) s)).

(** A listener of identity [id] is registered: its one-shot wrapper
    has not fired. *)
Definition registered (id : nat) (s : State) : bool :=
  existsb (fun l => Nat.eqb (l_id l) id) (listeners s).

Definition removeListener (id : nat) : M unit :=
  modify (fun s => set_listeners (filter (fun l => negb (Nat.eqb (l_id l) id)) (listeners s)) s).

(** The one-shot wrappers of an [emit]: every listener of the snapshot
    that has not fired yet is removed, then called. *)
Fixpoint fire (body : Listener -> EvArg -> M unit) (snapshot : list Listener) (a : EvArg) : M unit :=
  match snapshot with
  | [] => ret tt
  | l :: rest =>
      s <- get;;
      when (registered (l_id l) s) (removeListener (l_id l);; body l a);;
      fire body rest a
  end.

(** [this._unpi.send(type, subsys, cmdId, payload)] *)
Definition unpi_send (type subsys : string) (cmdId : Z) (p : Payload) : M unit :=
  s <- get;;
  if _unpi s then tell (ESend type subsys cmdId p)
  else throw (mkError KTypeError "Cannot read property 'send' of null").

(** The timer the loop runs next: the pending one that is due
    soonest, the one armed first among equals. *)
Fixpoint earliest_from (best : nat * Timer) (i : nat) (ts : list Timer) : nat * Timer :=
  match ts with
  | [] => best
  | t :: rest =>
      earliest_from (if t_due t <? t_due (snd best) then (i, t) else best) (S i) rest
  end.

Definition earliest (ts : list Timer) : option (nat * Timer) :=
  match ts with
  | [] => None
  | t :: rest => Some (earliest_from (0%nat, t) 1%nat rest)
  end.

Definition lookup (k : string) (o : Obj) : option Z :=
  match find (fun kv => String.eqb (fst kv) k) o with
  | Some kv => Some (snd kv)
  | None => None
  end.

(** [data.k] for the argument of an event. *)
Definition field (data : EvArg) (k : string) : option Z :=
  match data with
  | AResult o => lookup k o
  | _ => None
  end.

Local Open Scope string_scope.

(** ['SRSP:' + subsys + ':' + cmd] *)
Definition srsp_evt (subsys cmd : string) : string :=
  "SRSP:" ++ subsys ++ ":" ++ cmd.

Local Close Scope string_scope.

Definition fail_to_build : Error := mkError KError "Fail to build frame".
Definition request_timeout : Error := mkError KError "request timeout".
Definition request_communication_error : Error := mkError KError "request communication error".
Definition not_initialized : Error := mkError KError "ccznp has not been initialized yet".
Definition valObj_not_object : Error := mkError KTypeError "valObj should be an object".
Definition callback_not_function : Error := mkError KTypeError "callback should be a function".
Definition invalid_checksum : Error := mkError KError "Invalid checksum".
Definition stack_overflow : Error := mkError KRangeError "Maximum call stack size exceeded".
Definition null_deref : Error := mkError KTypeError "Cannot read property of null".

(* ================================================================== *)
(** ** Events of the loop *)
(* ================================================================== *)

(** What can happen to the engine: calls of its public methods, and
    what the loop delivers from the port, the timers and the
    [setImmediate] queue.  [init] (lines 157-201) is not embedded:
    [EvInitOpen] stands for an [init] call whose port then reports
    'open'. *)
Inductive Event :=
| EvInitOpen
| EvRequest (subsys cmd : ident) (valObj callback : jsval)
| EvClose (callback : jsval)
| EvData (data : Frame)            (* unpi 'data' *)
| EvAdvance (dt : Z)               (* the clock moves on *)
| EvTimer                          (* the next due timer runs *)
| EvImmediate                      (* the next setImmediate function runs *)
| EvFlushDone                      (* the port calls back from flush *)
| EvSpCloseDone (arg : CbArg)      (* the port calls back from close *)
| EvSpClose                        (* port 'close' *)
| EvSpError                        (* port 'error' *)
| EvPortIsOpen (b : bool).         (* the port's isOpen changes *)

(* ================================================================== *)
(** ** A translator to run the engine with *)
(* ================================================================== *)

Module Sample.

Local Open Scope string_scope.

(** Modelled from the spec: the Command Schema Translator's table of
    subsystems ([zmeta.js] is not among the sources); the subsystems
    the scenarios name, with their codes. *)
Definition subsystems : list (string * Z) :=
  [("RES0", 0); ("SYS", 1); ("ZDO", 5)].

(** Modelled from the spec: the Command Schema Translator's table of
    commands ([zmeta.js] is not among the sources): subsystem, name,
    code, wire type, and whether the command has request parameters. *)
Definition commands : list (string * string * Z * string * bool) :=
  [("SYS", "resetReq", 0, "AREQ", true);
   ("SYS", "ping", 1, "SREQ", true);
   ("SYS", "nvWrite", 9, "SREQ", true);
   ("SYS", "resetInd", 128, "AREQ", false);
   ("ZDO", "bind", 33, "SREQ", true);
   ("RES0", "error", 0, "SRSP", false)].

Definition unrecognized_subsystem : Error := mkError KError "Unrecognized subsystem".
Definition unrecognized_command : Error := mkError KError "Unrecognized command".

Definition names (x : ident) (name : string) (code : Z) : bool :=
  match x with
  | IStr s => String.eqb s name
  | INum n => Z.eqb n code
  | IUndef => false
  end.

(** Modelled from the spec: the Command Schema Translator's
    constructor ([zpiObject.js] is not among the sources).  It resolves
    the subsystem and the command by name or by code and throws when
    either is unknown; [frame()] yields a payload when the command has
    request parameters and an argument object was given. *)
Definition ZpiObject (subsys cmd : ident) (args : jsval) : Error + ArgObj :=
  match find (fun sc => names subsys (fst sc) (snd sc)) subsystems with
  | None => inl unrecognized_subsystem
  | Some (sname, _) =>
      match find (fun c =>
                    match c with
                    | (s, name, code, _, _) => (String.eqb s sname && names cmd name code)%bool
                    end) commands with
      | None => inl unrecognized_command
      | Some (_, name, code, type, has_params) =>
          inr (mkArgObj type sname name code
                 (inr (match args with
                       | JObj o => if has_params then Some (map snd o) else None
                       | _ => None
                       end)))
      end
  end.

(** Modelled from the spec: the wire type selector ([zmeta.js] is not
    among the sources). *)
Definition CmdType_key (type : Z) : option string :=
  if Z.eqb type 0 then Some "POLL"
  else if Z.eqb type 1 then Some "SREQ"
  else if Z.eqb type 2 then Some "AREQ"
  else if Z.eqb type 3 then Some "SRSP"
  else None.

(** Modelled from the spec: the payload decoder ([zpiObject.js] is not
    among the sources); a one-byte payload is a status, a three-byte
    payload the body of the device's error report. *)
Definition parse (argObj : ArgObj) (type : string) (len : Z) (payload : Payload) : Error + Obj :=
  match payload with
  | [st] => inr [("status", st)]
  | [st; ts; c] => inr [("status", st); ("typesubsys", ts); ("cmd", c)]
  | _ => inr []
  end.

(** Decimal strings convert to their number; the empty string to 0. *)
Definition ToNumber (s : string) : option Z :=
  match NilEmpty.uint_of_string s with
  | Some u => Some (Z.of_N (N.of_uint u))
  | None => None
  end.

Definition max_stack : nat := 8.

(** An engine whose port has opened. *)
Definition ready : State :=
  mkState true false (Some (mkPort true false)) true false [] [] [] [] [] [] [] 0%nat 0%nat 0.

Definition frame_of (type subsys cmd : Z) (payload : Payload) : Frame :=
  mkFrame 254 (Z.of_nat (List.length payload)) type subsys cmd payload 0 0.

(** Requests and replies of the scenarios. *)
Definition nvWrite (f : nat) : Event :=
  EvRequest (IStr "SYS") (IStr "nvWrite") (JObj []) (JFun f).
Definition zdo_bind (f : nat) : Event :=
  EvRequest (IStr "ZDO") (IStr "bind") (JObj []) (JFun f).
Definition ping (f : nat) : Event :=
  EvRequest (IStr "SYS") (IStr "ping") (JObj []) (JFun f).
Definition resetReq (f : nat) : Event :=
  EvRequest (IStr "SYS") (IStr "resetReq") (JObj []) (JFun f).
Definition nvWrite_reply : Event := EvData (frame_of 3 1 9 [0]).
Definition zdo_bind_reply : Event := EvData (frame_of 3 5 33 [0]).

(** A slow nvWrite, two binds behind it.  The first bind is promoted
    at 1800 ms; the nvWrite reply at 2000 ms dequeues the second. *)
Definition colliding_run : list Event :=
  [nvWrite 1; zdo_bind 2; zdo_bind 3;
   EvAdvance 1800; EvTimer; EvImmediate;
   EvAdvance 200; nvWrite_reply; EvImmediate; EvImmediate].

(** A slow nvWrite, one bind behind it, promoted at 1800 ms and
    answered at 1900 ms. *)
Definition promoted_run : list Event :=
  [nvWrite 1; zdo_bind 2;
   EvAdvance 1800; EvTimer; EvImmediate;
   EvAdvance 100; zdo_bind_reply].

(** A slow nvWrite, a reset behind it, promoted at 1800 ms. *)
Definition reset_run : list Event :=
  [nvWrite 1; resetReq 2;
   EvAdvance 1800; EvTimer; EvImmediate].

(** The nvWrite reply at 2000 ms; a ping at 31000 ms; the timer that
    is due at 31800 ms. *)
Definition reset_aftermath : list Event :=
  [EvAdvance 200; nvWrite_reply; EvImmediate;
   EvAdvance 29000; ping 3; EvAdvance 800].

End Sample.

Section Engine.

(** *** What the engine requires from [zpiObject.js], [zmeta.js] and
    the language *)

(** [new ZpiObject(subsys, cmd, args)]: the object, or the exception
    the constructor throws. *)
Variable ZpiObject : ident -> ident -> jsval -> Error + ArgObj.

(** [zmeta.CmdType.get(type)]: the key of the enum item, if any. *)
Variable CmdType_key : Z -> option string.

(** [argObj.parse(type, len, payload, callback)]: the [(err, result)]
    it passes to its callback, which it calls before it returns. *)
Variable parse : ArgObj -> string -> Z -> Payload -> Error + Obj.

(** The number a string converts to under [==]; [None] is NaN. *)
Variable ToNumber : string -> option Z.

(** How many [emit] calls can nest inside one another before the
    stack overflows. *)
Variable max_stack : nat.

Definition lift {A} (r : Error + A) : M A :=
  match r with
  | inl e => throw e
  | inr a => ret a
  end.

(** [b == x] for a string [b]. *)
Definition loose_eq (b : string) (x : ident) : bool :=
  match x with
  | IStr s => String.eqb b s
  | INum n => match ToNumber b with
              | Some m => m =? n
              | None => false
              end
  | IUndef => false
  end.

(* ================================================================== *)
(** ** [_scheduleNextSend] (lines 417-448) *)
(* ================================================================== *)

(** The callback of [findIndex]: no entry of [_backlog] has the
    entry's [subsys] and [cmd]. *)
Definition not_in_backlog (bl : list BacklogEntry) (entry : Entry) : bool :=
  negb (existsb (fun b => loose_eq (b_subsys b) (e_subsys entry)
                          && loose_eq (b_cmd b) (e_cmd entry))%bool bl).

Definition _scheduleNextSend (early : bool) : M bool :=
  s <- get;;
  let txQueue := _txQueue s in
  match txQueue with
  | [] => ret false
  | head :: tail =>
      if early then
        match findIndex (not_in_backlog (_backlog s)) txQueue with
        | None => ret false
        | Some entryIndex =>
            let entry := nth entryIndex txQueue head in
            modify (set_txQueue (splice1 entryIndex txQueue));;
            setImmediate (ITxDeQueue entry);;
            ret true
        end
      else
        modify (set_txQueue tail);;
        setImmediate (ITxDeQueue head);;
        ret true
  end.

(* ================================================================== *)
(** ** [_sendSREQ] (lines 280-376) *)
(* ================================================================== *)

(** The [ownEvent] object of transaction [txn]. *)
Definition ownEvent (txn : nat) (srspEvt : string) (argObj : ArgObj) : BacklogEntry :=
  mkBacklogEntry txn srspEvt (a_subsys argObj) (a_cmd argObj).

(** The function of the 3500 ms timer (lines 295-300). *)
Definition sreqTimeout (emit : string -> EvArg -> M unit) (srspEvt : string) : M unit :=
  s <- get;;
  when (0 <? listenerCount srspEvt s)%nat (emit srspEvt ATimeout).

(** The function of the 1800 ms timer (lines 301-318). *)
Definition sreqNextQueue (txn : nat) (srspEvt : string) (argObj : ArgObj) : M unit :=
  modify (fun s => set_backlog (_backlog s ++ [ownEvent txn srspEvt argObj]) s);;
  sent <- _scheduleNextSend true;;
  when sent (modify (set_spinLock false)).

(** The function given to [setImmediate] at settle time (lines
    336-346), [backlog] being the array built when the request
    started. *)
Fixpoint sweep (emit : string -> EvArg -> M unit) (backlog : list JsRef) : M unit :=
  match backlog with
  | [] => ret tt
  | backlogEntry :: rest =>
      s <- get;;
      match indexOf (_backlog s) backlogEntry with
      | Some pos =>
          match backlogEntry with
          | REntry e =>
              when (0 <? listenerCount (b_evt e) s)%nat (emit (b_evt e) ATimeout)
          | RBacklogArray =>
              (* [backlogEntry.evt] is [undefined] *)
              when (0 <? listenerCount "undefined" s)%nat (emit "undefined"%string ATimeout)
          end;;
          modify (fun s' => set_backlog (splice1 pos (_backlog s')) s')
      | None => ret tt
      end;;
      sweep emit rest
  end.

(** The response listener (lines 321-373).  The closure variables
    [sreqTimeout] and [sreqNextQueue] hold a handle exactly while the
    timer is armed or running, so clearing them is removing the timer;
    [ownEvent] is set exactly when the object was pushed, and it is the
    only object of its identity. *)
Definition srsp_listener (txn : nat) (srspEvt : string) (argObj : ArgObj)
    (valObj callback : jsval) (backlog : list JsRef) (result : EvArg) : M unit :=
  s <- get;;
  let hasSent := negb (_spinLock s) in
  when (_spinLock s) (modify (set_spinLock false));;
  clearTimeout (is_sreqTimeout txn);;
  setImmediate (ISweep backlog);;
  modify (fun s' =>
    match indexOf (_backlog s') (REntry (ownEvent txn srspEvt argObj)) with
    | Some pos => set_backlog (splice1 pos (_backlog s')) s'
    | None => s'
    end);;
  clearTimeout (is_sreqNextQueue txn);;
  when (negb hasSent) (_scheduleNextSend false;; ret tt);;
  match result with
  | ATimeout => call (Some txn) callback (CbErr request_timeout)
  | AError => call (Some txn) callback (CbErr request_communication_error)
  | _ =>
      modify (set_resetting false);;
      call (Some txn) callback (CbResult result)
  end.

Definition _sendSREQ (argObj : ArgObj) (valObj callback : jsval) : M unit :=
  s <- get;;
  let payload := a_frame argObj in
  let srspEvt := srsp_evt (a_subsys argObj) (a_cmd argObj) in
  let backlog := new_Array RBacklogArray in
  let txn := next_id s in
  match payload with
  | inl ex => throw ex
  | inr None => call None callback (CbErr fail_to_build)
  | inr (Some payload) =>
      setTimeout 3500 (TSreqTimeout txn srspEvt);;
      setTimeout 1800 (TSreqNextQueue txn srspEvt argObj);;
      once srspEvt (BSrsp argObj valObj callback backlog);;
      unpi_send "SREQ" (a_subsys argObj) (a_cmdId argObj) payload
  end.

(* ================================================================== *)
(** ** [_sendAREQ] (lines 378-415) *)
(* ================================================================== *)

(** The listener of 'AREQ:SYS:RESET' (lines 394-399). *)
Definition reset_listener (id : nat) (callback : jsval) : M unit :=
  modify (set_resetting false);;
  modify (set_spinLock false);;
  call (Some id) callback CbNull.

(** The function of the 30000 ms timer (lines 403-406). *)
Definition reset_failsafe : M unit :=
  s <- get;;
  when (_resetting s) (modify (set_spinLock false)).

Definition is_reset (cmd : string) : bool :=
  (String.eqb cmd "resetReq" || String.eqb cmd "systemReset")%bool.

Definition _sendAREQ (argObj : ArgObj) (callback : jsval) : M unit :=
  match a_frame argObj with
  | inl ex => throw ex
  | inr None => call None callback (CbErr fail_to_build)
  | inr (Some payload) =>
      (if is_reset (a_cmd argObj) then
         modify (set_resetting true);;
         modify (set_txQueue []);;
         once "AREQ:SYS:RESET" (BReset callback);;
         setTimeout 30000 TResetFailsafe
       else
         modify (set_spinLock false);;
         _scheduleNextSend false;;
         call None callback CbNull);;
      unpi_send "AREQ" (a_subsys argObj) (a_cmdId argObj) payload
  end.

(* ================================================================== *)
(** ** [request] (lines 215-257) *)
(* ================================================================== *)

Definition request (subsys cmd : ident) (valObj callback : jsval) : M unit :=
  s <- get;;
  if negb (_init s) then throw not_initialized
  else if (negb (truthy valObj) || negb (typeof_object valObj))%bool then
    throw valObj_not_object
  else if (negb (typeof_function callback) && negb (typeof_undefined callback))%bool then
    throw callback_not_function
  else
    argObj <- lift (ZpiObject subsys cmd valObj);;
    if _spinLock s then
      modify (fun s' => set_txQueue (_txQueue s' ++ [mkEntry subsys cmd valObj callback]) s')
    else
      modify (set_spinLock true);;
      if String.eqb (a_type argObj) "SREQ" then _sendSREQ argObj valObj callback
      else if String.eqb (a_type argObj) "AREQ" then _sendAREQ argObj callback
      else ret tt.

(** The [fn] of a queue entry (lines 236-243). *)
Definition entry_fn (entry : Entry) : M unit :=
  try_catch
    (request (e_subsys entry) (e_cmd entry) (e_valObj entry) (e_callback entry))
    (fun ex => call None (e_callback entry) (CbErr ex)).

(* ================================================================== *)
(** ** The emitter with the constructor's listeners (lines 69-85) *)
(* ================================================================== *)

(** The listener of 'SRSP:RES0:error' (lines 74-85); [emit] is the
    emitter one call deeper. *)
Definition on_error (emit : string -> EvArg -> M unit) (data : EvArg) : M unit :=
  try_catch
    (let subsys :=
       Z.land (match field data "typesubsys" with Some v => v | None => 0 end) 15 in
     let cmd := match field data "cmd" with Some c => INum c | None => IUndef end in
     argObj <- lift (ZpiObject (INum subsys) cmd JUndefined);;
     let srspEvt := srsp_evt (a_subsys argObj) (a_cmd argObj) in
     s <- get;;
     when (0 <? listenerCount srspEvt s)%nat (emit srspEvt AError))
    (fun ex => ret tt).

Definition run_listener (l : Listener) (a : EvArg) : M unit :=
  match l_body l with
  | BSrsp argObj valObj callback backlog =>
      srsp_listener (l_id l) (l_evt l) argObj valObj callback backlog a
  | BReset callback => reset_listener (l_id l) callback
  end.

(** [self.emit(evt, a)] with [stack] nested emits still possible.  The
    constructor's listeners were attached first, so they run first. *)
Fixpoint emit_within (stack : nat) (evt : string) (a : EvArg) {struct stack} : M unit :=
  let nested :=
    match stack with
    | O => fun _ _ => throw stack_overflow
    | S stack' => emit_within stack'
    end in
  tell (EEmit evt a);;
  s <- get;;
  let snapshot := filter (on_evt evt) (listeners s) in
  when (String.eqb evt "_ready") (modify (set_init true);; nested "ready"%string ANone);;
  when (String.eqb evt "SRSP:RES0:error") (on_error nested a);;
  fire run_listener snapshot a.

Definition emit : string -> EvArg -> M unit := emit_within max_stack.

(* ================================================================== *)
(** ** Inbound frames (lines 450-512) *)
(* ================================================================== *)

(** [_mtIncomingDataHdlr(err, data)], [data] carrying the strings
    [type], [subsys], [cmd] and the parsed [payload]. *)
Definition _mtIncomingDataHdlr (err : option Error) (type subsys cmd : string)
    (result : Obj) : M unit :=
  match err with
  | Some _ => ret tt
  | None =>
      if String.eqb type "SRSP" then
        let rxEvt := srsp_evt subsys cmd in
        s <- get;;
        when (0 <? listenerCount rxEvt s)%nat (emit rxEvt (AResult result))
      else if String.eqb type "AREQ" then
        emit "AREQ" (AMsg subsys cmd result);;
        when (String.eqb subsys "SYS" && String.eqb cmd "resetInd")%bool
          (emit "AREQ:SYS:RESET" (AResult result))
      else ret tt
  end.

Definition _parseMtIncomingData (data : Frame) : M unit :=
  emit "data" (AFrame data);;
  try_catch
    (if negb (f_fcs data =? f_csum data) then throw invalid_checksum
     else
       argObj <- lift (ZpiObject (INum (f_subsys data)) (INum (f_cmd data)) JUndefined);;
       type <- match CmdType_key (f_type data) with
               | Some k => ret k
               | None => throw null_deref
               end;;
       match parse argObj type (f_len data) (f_payload data) with
       | inl err => _mtIncomingDataHdlr (Some err) type (a_subsys argObj) (a_cmd argObj) []
       | inr result => _mtIncomingDataHdlr None type (a_subsys argObj) (a_cmd argObj) result
       end)
    (fun e => _mtIncomingDataHdlr (Some e) "" "" "" []).

(* ================================================================== *)
(** ** Closing (lines 87-128, 203-213) *)
(* ================================================================== *)

(** [self._sp.close(function (arg) { ... })]: the port is asked to
    close; the function runs when the port reports completion. *)
Definition sp_close : M unit :=
  tell ESpClose;;
  modify (fun s => set_closing (S (closing s)) s).

(** The function given to [self._sp.close] (lines 95-100). *)
Fixpoint call_all (cbs : list jsval) (arg : CbArg) : M unit :=
  match cbs with
  | [] => ret tt
  | cb :: rest => call None cb arg;; call_all rest arg
  end.

Definition sp_close_done (arg : CbArg) : M unit :=
  s <- get;;
  call_all (closeCbs s) arg;;
  modify (set_closeCbs []).

Definition _close (callback : jsval) : M unit :=
  s <- get;;
  match _sp s with
  | None => call None callback CbNull
  | Some sp =>
      if negb (isOpen sp) then call None callback CbNull
      else
        let callback := if truthy callback then callback else JNoop in
        modify (fun s' => set_closeCbs (closeCbs s' ++ [callback]) s');;
        s' <- get;;
        when (Nat.eqb (List.length (closeCbs s')) 1) sp_close
  end.

(** [CcZnp.prototype.close]; the function given to [flush] waits in
    [flushing] until the port reports the flush done. *)
Definition close (callback : jsval) : M unit :=
  s <- get;;
  if _init s then
    match _sp s with
    | None => throw null_deref
    | Some _ =>
        tell ESpFlush;;
        modify (fun s' => set_flushing (flushing s' ++ [callback]) s')
    end
  else call None callback CbNull.

Definition flush_done : M unit :=
  s <- get;;
  match flushing s with
  | [] => ret tt
  | callback :: rest =>
      modify (set_flushing rest);;
      _close callback
  end.

(** The port's listeners (lines 104-128). *)
Definition spOpen : M unit :=
  s <- get;;
  match _sp s with
  | None => throw null_deref
  | Some _ => emit "_ready" ANone
  end.

Definition spErr : M unit :=
  s <- get;;
  match _sp s with
  | None => throw null_deref
  | Some sp =>
      when (isOpen sp && negb (_errClosing sp))%bool
        (modify (set_sp (Some (mkPort (isOpen sp) true)));;
         _close JUndefined)
  end.

Definition spClose : M unit :=
  s <- get;;
  match _sp s with
  | None => throw null_deref
  | Some _ =>
      modify (set_txQueue []);;
      modify (set_sp None);;
      modify (set_unpi false);;
      modify (set_init false);;
      emit "close" ANone
  end.

(* ================================================================== *)
(** ** The event loop *)
(* ================================================================== *)

Definition run_timer (k : TimerKind) : M unit :=
  match k with
  | TSreqTimeout txn srspEvt => sreqTimeout emit srspEvt
  | TSreqNextQueue txn srspEvt argObj => sreqNextQueue txn srspEvt argObj
  | TResetFailsafe => reset_failsafe
  end.

Definition run_immediate (i : Immediate) : M unit :=
  match i with
  | ISweep backlog => sweep emit backlog
  | ITxDeQueue entry => entry_fn entry
  end.

Definition step (ev : Event) : M unit :=
  match ev with
  | EvInitOpen =>
      modify (fun s =>
        set_unpi true
          (set_sp (Some (mkPort true (match _sp s with
                                      | Some sp => _errClosing sp
                                      | None => false
                                      end))) s));;
      spOpen
  | EvRequest subsys cmd valObj callback => request subsys cmd valObj callback
  | EvClose callback => close callback
  | EvData data => _parseMtIncomingData data
  | EvAdvance dt => modify (fun s => set_now (now s + Z.max 0 dt) s)
  | EvTimer =>
      s <- get;;
      match earliest (timers s) with
      | Some (pos, t) =>
          when (t_due t <=? now s)
            (modify (set_timers (splice1 pos (timers s)));;
             run_timer (t_kind t))
      | None => ret tt
      end
  | EvImmediate =>
      s <- get;;
      match immediates s with
      | [] => ret tt
      | i :: rest => modify (set_immediates rest);; run_immediate i
      end
  | EvFlushDone => flush_done
  | EvSpCloseDone arg =>
      s <- get;;
      match closing s with
      | O => ret tt
      | S n => modify (set_closing n);; sp_close_done arg
      end
  | EvSpClose => spClose
  | EvSpError => spErr
  | EvPortIsOpen b =>
      modify (fun s =>
        match _sp s with
        | Some sp => set_sp (Some (mkPort b (_errClosing sp))) s
        | None => s
        end)
  end.

(** One turn: the state it leaves and what it did; an exception
    that reaches the loop or the caller is logged. *)
Definition exec (ev : Event) (s : State) : State * list Effect :=
  let r := step ev s in
  (r_st r, r_out r ++ match r_val r with
                      | inl e => [EThrown e]
                      | inr _ => []
                      end).

Fixpoint run (evs : list Event) (s : State) : State * list Effect :=
  match evs with
  | [] => (s, [])
  | ev :: rest =>
      let '(s1, out1) := exec ev s in
      let '(s2, out2) := run rest s1 in
      (s2, out1 ++ out2)
  end.

(* ================================================================== *)
(** ** Relations a computation keeps, step by step *)
(* ================================================================== *)

(** A relation between the state before, the state after and the
    effects in between that holds of doing nothing and of doing one
    thing after another. *)
Class Compositional (R : State -> State -> list Effect -> Prop) : Prop := {
  comp_refl : forall s, R s s [];
  comp_trans : forall s1 s2 s3 o1 o2, R s1 s2 o1 -> R s2 s3 o2 -> R s1 s3 (o1 ++ o2)
}.

(** Running [m] from [s] stays within [R], thrown or not. *)
Definition obeys_at (R : State -> State -> list Effect -> Prop) {A} (m : M A) (s : State) : Prop :=
  R s (r_st (m s)) (r_out (m s)).

(** The relation of keeping an invariant. *)
Definition keeps (I : State -> Prop) : State -> State -> list Effect -> Prop :=
  fun s s' _ => I s -> I s'.

(** A listener is registered under the event its body belongs to. *)
Definition listener_ok (l : Listener) : Prop :=
  match l_body l with
  | BSrsp argObj _ _ _ => l_evt l = srsp_evt (a_subsys argObj) (a_cmd argObj)
  | BReset _ => l_evt l = "AREQ:SYS:RESET"%string
  end.

Definition names_ok (s : State) : Prop := Forall listener_ok (listeners s).

(** The states the loop can reach from a fresh engine. *)
Definition reachable (s : State) : Prop :=
  exists evs, s = fst (run evs new_CcZnp).

(** The emitter one call deeper than [emit_within stack]. *)
Definition nested_emit (stack : nat) : string -> EvArg -> M unit :=
  match stack with
  | O => fun _ _ => throw stack_overflow
  | S stack' => emit_within stack'
  end.

(** A queue entry collides with the backlog: some backlog entry has
    its [subsys] and its [cmd] under [==]. *)
Definition collides (bl : list BacklogEntry) (entry : Entry) : Prop :=
  exists b, In b bl /\
    loose_eq (b_subsys b) (e_subsys entry) = true /\
    loose_eq (b_cmd b) (e_cmd entry) = true.

(** The (subsystem, command) pairs of the synchronous transactions
    that were sent and have not settled: those whose response listener
    is registered. *)
Definition outstanding (s : State) : list (string * string) :=
  flat_map (fun l => match l_body l with
                     | BSrsp argObj _ _ _ => [(a_subsys argObj, a_cmd argObj)]
                     | BReset _ => []
                     end) (listeners s).

(** No close is under way: the engine is initialized, its port
    reports open, and no callback waits on a flush or on a close. *)
Definition open_and_idle (s : State) : Prop :=
  _init s = true /\
  (exists errClosing, _sp s = Some (mkPort true errClosing)) /\
  closeCbs s = [] /\
  flushing s = [].

(** The traffic of a close: [close] called with a function that
    returns, and the port reporting a flush done. *)
Definition close_traffic (ev : Event) : Prop :=
  match ev with
  | EvClose (JFun _) => True
  | EvFlushDone => True
  | _ => False
  end.

(** The functions [close] was called with, in call order. *)
Definition closers (evs : list Event) : list nat :=
  flat_map (fun ev => match ev with
                      | EvClose (JFun f) => [f]
                      | _ => []
                      end) evs.

(** How many times the port was asked to close. *)
Definition transport_closes (out : list Effect) : nat :=
  List.length (filter (fun e => match e with ESpClose => true | _ => false end) out).

(** The callback invocations of a trace: which function, with what. *)
Definition callbacks (out : list Effect) : list (nat * CbArg) :=
  flat_map (fun e => match e with
                     | ECallback _ f a => [(f, a)]
                     | _ => []
                     end) out.

(** The state of a close under way on [s0]: [done] callers are past
    their flush and wait for the port, [pending] ones wait for their
    flush. *)
Definition close_state (s0 : State) (done pending : list nat) : State :=
  set_closing (closing s0 + match done with [] => 0 | _ => 1 end)%nat
    (set_flushing (map JFun pending)
       (set_closeCbs (map JFun done) s0)).

(** How many closes the port has been asked for once [done] callers
    are past their flush. *)
Definition asked (done : list nat) : nat :=
  match done with
  | [] => 0%nat
  | _ => 1%nat
  end.

(** How often a listener of identity [t] called its callback. *)
Definition fired (t : nat) (out : list Effect) : nat :=
  List.length (filter (fun e => match e with
                                | ECallback (Some t') _ _ => Nat.eqb t' t
                                | ECallbackThrew (Some t') _ _ => Nat.eqb t' t
                                | _ => false
                                end) out).

(** 1 while a listener of identity [t] is registered, 0 otherwise. *)
Definition pend (t : nat) (s : State) : nat :=
  if registered t s then 1%nat else 0%nat.

(** Identities in use are below the next fresh one. *)
Definition ids_bounded (s : State) : Prop :=
  Forall (fun l => (l_id l < next_id s)%nat) (listeners s).

(** What [fired] and [pend] of the state after add up to, seen from the
    state before: an identity that existed keeps its pending listener
    or has it fire; an identity issued in between gets one listener. *)
Definition issued (t : nat) (s s' : State) : nat :=
  if (t <? next_id s)%nat then pend t s
  else if (t <? next_id s')%nat then 1%nat else 0%nat.

Definition callback_of (l : Listener) : jsval :=
  match l_body l with
  | BSrsp _ _ callback _ => callback
  | BReset callback => callback
  end.

(** The value is a function that returns when it is called. *)
Definition is_function (v : jsval) : Prop := exists f, v = JFun f.

Definition immediate_ok (i : Immediate) : Prop :=
  match i with
  | ITxDeQueue entry => is_function (e_callback entry)
  | ISweep _ => True
  end.

(** Every callback the engine holds for a request is a function. *)
Definition cbs_ok (s : State) : Prop :=
  Forall (fun l => is_function (callback_of l)) (listeners s) /\
  Forall (fun entry => is_function (e_callback entry)) (_txQueue s) /\
  Forall immediate_ok (immediates s).

(** The relation of settling: a listener's callback is called at most
    once, by its own firing; exactly once when the callbacks are
    functions ([ok] stands for: those handed in from outside are). *)
Definition settles (ok : Prop) : State -> State -> list Effect -> Prop :=
  fun s s' out =>
    ids_bounded s ->
    ids_bounded s' /\
    (next_id s <= next_id s')%nat /\
    (forall t, (fired t out + pend t s' <= issued t s s')%nat) /\
    (ok -> cbs_ok s ->
     cbs_ok s' /\ forall t, (fired t out + pend t s')%nat = issued t s s').

(** The relation of leaving listeners alone. *)
Definition quiet (ok : Prop) : State -> State -> list Effect -> Prop :=
  fun s s' out =>
    listeners s' = listeners s /\
    next_id s' = next_id s /\
    (forall t, fired t out = 0%nat) /\
    (ok -> cbs_ok s -> cbs_ok s').

(** The response listener up to its last statement: lines 322-360. *)
Definition settle_prefix (txn : nat) (srspEvt : string) (argObj : ArgObj)
    (backlog : list JsRef) : M unit :=
  s <- get;;
  let hasSent := negb (_spinLock s) in
  when (_spinLock s) (modify (set_spinLock false));;
  clearTimeout (is_sreqTimeout txn);;
  setImmediate (ISweep backlog);;
  modify (fun s' =>
    match indexOf (_backlog s') (REntry (ownEvent txn srspEvt argObj)) with
    | Some pos => set_backlog (splice1 pos (_backlog s')) s'
    | None => s'
    end);;
  clearTimeout (is_sreqNextQueue txn);;
  when (negb hasSent) (_scheduleNextSend false;; ret tt).

(** What the response listener passes to the callback. *)
Definition outcome (result : EvArg) : CbArg :=
  match result with
  | ATimeout => CbErr request_timeout
  | AError => CbErr request_communication_error
  | _ => CbResult result
  end.

(** The last statement of the response listener: lines 362-372. *)
Definition settle_final (txn : nat) (callback : jsval) (result : EvArg) : M unit :=
  match result with
  | ATimeout => call (Some txn) callback (CbErr request_timeout)
  | AError => call (Some txn) callback (CbErr request_communication_error)
  | _ =>
      modify (set_resetting false);;
      call (Some txn) callback (CbResult result)
  end.

(** The callbacks an event hands to the engine for a request are
    functions. *)
Definition ev_ok (ev : Event) : Prop :=
  match ev with
  | EvRequest _ _ _ callback => is_function callback
  | _ => True
  end.

(** The transaction a timer belongs to. *)
Definition owner (k : TimerKind) : option nat :=
  match k with
  | TSreqTimeout txn _ => Some txn
  | TSreqNextQueue txn _ _ => Some txn
  | TResetFailsafe => None
  end.

(** A response listener listens for a response event and has its
    3500 ms timer pending. *)
Definition armed_listener (l : Listener) (s : State) : Prop :=
  match l_body l with
  | BSrsp _ _ _ _ =>
      (exists subsys cmd, l_evt l = srsp_evt subsys cmd) /\
      exists tm, In tm (timers s) /\ t_kind tm = TSreqTimeout (l_id l) (l_evt l)
  | BReset _ => True
  end.

Definition armed (s : State) : Prop :=
  forall l, In l (listeners s) -> armed_listener l s.

(** The relation of leaving listeners, timers and the clock alone. *)
Definition still : State -> State -> list Effect -> Prop :=
  fun s s' _ =>
    listeners s' = listeners s /\ timers s' = timers s /\ next_id s' = next_id s /\
    now s' = now s.

(** The relation of a listener's function: it leaves the listeners
    alone and clears no timer but those of its own transaction. *)
Definition clears (id : nat) : State -> State -> list Effect -> Prop :=
  fun s s' _ =>
    listeners s' = listeners s /\
    next_id s' = next_id s /\
    forall tm, In tm (timers s) -> In tm (timers s') \/ owner (t_kind tm) = Some id.

(** The relation that keeps response listeners armed: identities are
    not reused, a timer is cleared only for a transaction whose
    listener is gone, and a listener that appears comes with its
    timer. *)
Definition arms : State -> State -> list Effect -> Prop :=
  fun s s' _ =>
    ids_bounded s ->
    ids_bounded s' /\
    (next_id s <= next_id s')%nat /\
    (forall t, registered t s' = true -> registered t s = true \/ (next_id s <= t)%nat) /\
    (forall tm, In tm (timers s) ->
       In tm (timers s') \/
       exists txn, owner (t_kind tm) = Some txn /\ (txn < next_id s')%nat /\
                   registered txn s' = false) /\
    (forall l, In l (listeners s') -> In l (listeners s) \/ armed_listener l s').

(** The delay a timer of the engine is armed with (lines 300, 318 and
    404 of the source). *)
Definition span (k : TimerKind) : Z :=
  match k with
  | TSreqTimeout _ _ => 3500
  | TSreqNextQueue _ _ _ => 1800
  | TResetFailsafe => 30000
  end.

(** The timers the loop would run now. *)
Definition is_due (s : State) (tm : Timer) : bool := t_due tm <=? now s.

Definition due_count (s : State) : nat := List.length (filter (is_due s) (timers s)).

(** No timer is due later than its delay from now. *)
Definition timely (s : State) : Prop :=
  forall tm, In tm (timers s) -> t_due tm <= now s + span (t_kind tm).

(** The relation of a turn of the loop on the timers: the clock
    stands, no timer becomes due, and a timer that appears is armed
    with its delay from now, for a transaction that starts in this
    turn. *)
Definition tardy : State -> State -> list Effect -> Prop :=
  fun s s' _ =>
    now s' = now s /\ (next_id s <= next_id s')%nat /\
    (due_count s' <= due_count s)%nat /\
    forall tm, In tm (timers s') ->
      In tm (timers s) \/
      (t_due tm = now s + span (t_kind tm) /\
       forall txn, owner (t_kind tm) = Some txn -> (next_id s <= txn)%nat).

(** What is checked of a response listener. *)
Definition is_response (l : Listener) : bool :=
  match l_body l with
  | BSrsp _ _ _ _ => true
  | BReset _ => false
  end.

(** No two listeners share an identity. *)
Definition ids_unique (s : State) : Prop := NoDup (map l_id (listeners s)).

(** The relation of handing out identities: a listener that appears
    gets an identity no listener had before. *)
Definition fresh : State -> State -> list Effect -> Prop :=
  fun s s' _ =>
    ids_bounded s -> ids_unique s ->
    ids_bounded s' /\ ids_unique s' /\ (next_id s <= next_id s')%nat /\
    forall l, In l (listeners s') -> In l (listeners s) \/ (next_id s <= l_id l)%nat.

(** The function [f] is held nowhere in the engine: it is the callback
    of no listener, of no queued or dequeued entry, and of no pending
    [close]. *)
Definition immediate_free (f : nat) (i : Immediate) : Prop :=
  match i with
  | ITxDeQueue entry => e_callback entry <> JFun f
  | ISweep _ => True
  end.

Definition free (f : nat) (s : State) : Prop :=
  Forall (fun l => callback_of l <> JFun f) (listeners s) /\
  Forall (fun entry => e_callback entry <> JFun f) (_txQueue s) /\
  Forall (immediate_free f) (immediates s) /\
  Forall (fun cb => cb <> JFun f) (closeCbs s) /\
  Forall (fun cb => cb <> JFun f) (flushing s).

(** The function [f] is not called. *)
Definition silent (f : nat) (out : list Effect) : Prop :=
  forall by_listener a, ~ In (ECallback by_listener f a) out.

(** The relation of calling only what is held: a function held nowhere
    is not called and does not come to be held. *)
Definition mute (f : nat) : State -> State -> list Effect -> Prop :=
  fun s s' out => free f s -> free f s' /\ silent f out.

(** The event hands [f] to the engine. *)
Definition passes (f : nat) (ev : Event) : Prop :=
  match ev with
  | EvRequest _ _ _ callback => callback = JFun f
  | EvClose callback => callback = JFun f
  | _ => False
  end.

(** The relation of waiting for one's event: a listener stays
    registered as long as its event is not emitted. *)
Definition waits (l : Listener) : State -> State -> list Effect -> Prop :=
  fun s s' out =>
    ids_bounded s -> ids_unique s -> In l (listeners s) ->
    (forall a, ~ In (EEmit (l_evt l) a) out) ->
    ids_bounded s' /\ ids_unique s' /\ In l (listeners s').

(** The function a callback is, when it is one. *)
Definition fn_of (callback : jsval) : nat :=
  match callback with
  | JFun f => f
  | _ => 0%nat
  end.

(** What the listener of the reset notification has passed to its
    callback. *)
Definition reset_call (l : Listener) : Effect :=
  ECallback (Some (l_id l)) (fn_of (callback_of l)) CbNull.

(** The state the listeners of the reset notification leave, [gone]
    being the listeners that ran. *)
Definition after_reset (gone : list Listener) (s : State) : State :=
  match gone with
  | [] => s
  | _ :: _ =>
      set_spinLock false
        (set_resetting false
           (set_listeners
              (filter (fun l' => negb (existsb (fun l => Nat.eqb (l_id l') (l_id l)) gone))
                 (listeners s)) s))
  end.

(** The event was emitted. *)
Definition emitted (evt : string) (out : list Effect) : bool :=
  existsb (fun e => match e with
                    | EEmit evt' _ => String.eqb evt' evt
                    | _ => false
                    end) out.

(** The gate is taken and nothing is pending that could release it:
    no listener, no timer, no function waiting for the next turn of
    the loop. *)
Definition wedged (s : State) : Prop :=
  _spinLock s = true /\ listeners s = [] /\ timers s = [] /\ immediates s = [].

(** Nothing is written to the device. *)
Definition sendless (out : list Effect) : Prop :=
  forall type subsys cmdId p, ~ In (ESend type subsys cmdId p) out.

(** The relation of staying wedged. *)
Definition wedge : State -> State -> list Effect -> Prop :=
  fun s s' out => wedged s -> wedged s' /\ sendless out.

(** The frame cannot be decoded: its checksum is wrong, the translator
    does not know its command or its wire type, or the payload does not
    parse. *)
Definition undecodable (data : Frame) : Prop :=
  f_fcs data <> f_csum data \/
  (exists e, ZpiObject (INum (f_subsys data)) (INum (f_cmd data)) JUndefined = inl e) \/
  (exists argObj,
     ZpiObject (INum (f_subsys data)) (INum (f_cmd data)) JUndefined = inr argObj /\
     (CmdType_key (f_type data) = None \/
      exists type err,
        CmdType_key (f_type data) = Some type /\
        parse argObj type (f_len data) (f_payload data) = inl err)).

(** The transactions that wait for their promotion (their 1800 ms
    timer is pending) and those that were promoted (their entry is in
    the backlog). *)
Definition nq_txn (tm : Timer) : list nat :=
  match t_kind tm with
  | TSreqNextQueue txn _ _ => [txn]
  | _ => []
  end.

Definition young (s : State) : list nat := flat_map nq_txn (timers s).

Definition promoted (s : State) : list nat := map b_id (_backlog s).

(** Transaction [txn] is pending: its response listener is registered. *)
Definition pending_response (txn : nat) (s : State) : Prop :=
  exists l, In l (listeners s) /\ l_id l = txn /\ is_response l = true.

(** Nothing outlives its transaction: every timer of a transaction and
    every backlog entry belongs to a pending transaction, and a pending
    transaction waits for its promotion or was promoted, never both
    and never twice. *)
Definition tidy (s : State) : Prop :=
  (forall tm txn, In tm (timers s) -> owner (t_kind tm) = Some txn ->
     pending_response txn s) /\
  (forall txn, In txn (promoted s) -> pending_response txn s) /\
  NoDup (young s) /\
  NoDup (promoted s) /\
  (forall txn, In txn (young s) -> ~ In txn (promoted s)).

(** The relation of keeping the engine tidy, with what [fresh] says
    of the listeners. *)
Definition tidies : State -> State -> list Effect -> Prop :=
  fun s s' _ =>
    ids_bounded s -> ids_unique s -> tidy s ->
    (ids_bounded s' /\ ids_unique s' /\ tidy s') /\
    (next_id s <= next_id s')%nat /\
    forall l, In l (listeners s') -> In l (listeners s) \/ (next_id s <= l_id l)%nat.

(** What a listener's function leaves of the timers and of the
    backlog. *)
Definition purged_timers (txn : nat) (ts : list Timer) : list Timer :=
  filter (fun t => negb (is_sreqNextQueue txn (t_kind t)))
    (filter (fun t => negb (is_sreqTimeout txn (t_kind t))) ts).

Definition purged_backlog (e : BacklogEntry) (bl : list BacklogEntry) : list BacklogEntry :=
  match indexOf bl (REntry e) with
  | Some pos => splice1 pos bl
  | None => bl
  end.

(** A listener of the snapshot that has not fired is still the
    listener registered under its identity. *)
Definition current (snapshot : list Listener) (s : State) : Prop :=
  forall l, In l snapshot -> registered (l_id l) s = true -> In l (listeners s).

(** The references of a sweep name no event that is the port's. *)
Definition sweep_ok (bl : list JsRef) : Prop :=
  forall e, In (REntry e) bl -> String.eqb (b_evt e) "_ready" = false.

Definition listener_sweep_ok (l : Listener) : Prop :=
  match l_body l with
  | BSrsp _ _ _ bl => sweep_ok bl
  | BReset _ => True
  end.

Definition timer_wired (tm : Timer) : Prop :=
  match t_kind tm with
  | TSreqTimeout _ evt => String.eqb evt "_ready" = false
  | _ => True
  end.

Definition immediate_wired (i : Immediate) : Prop :=
  match i with
  | ISweep bl => sweep_ok bl
  | ITxDeQueue _ => True
  end.

(** An initialized engine has its port and its unpi, and nothing the
    engine keeps will emit the port's '_ready'. *)
Definition wired (s : State) : Prop :=
  (_init s = true -> _unpi s = true /\ _sp s <> None) /\
  Forall timer_wired (timers s) /\
  Forall immediate_wired (immediates s) /\
  Forall listener_sweep_ok (listeners s).

(* ================================================================== *)
(** ** Counting the calls of a function *)
(* ================================================================== *)

(** 1 when the callback is the function [f], 0 otherwise. *)
Definition owed (f : nat) (callback : jsval) : nat :=
  match callback with
  | JFun g => if Nat.eqb g f then 1%nat else 0%nat
  | _ => 0%nat
  end.

Definition immediate_owed (f : nat) (i : Immediate) : nat :=
  match i with
  | ITxDeQueue entry => owed f (e_callback entry)
  | ISweep _ => 0%nat
  end.

(** How many times the engine holds [f] to call it later: as the
    callback of a listener, of a queued or a dequeued entry, of a
    [close] that waits for its flush, or of a [_close] whose port close
    is under way. *)
Definition holds (f : nat) (s : State) : nat :=
  (list_sum (map (fun l => owed f (callback_of l)) (listeners s)) +
   list_sum (map (fun entry => owed f (e_callback entry)) (_txQueue s)) +
   list_sum (map (immediate_owed f) (immediates s)) +
   list_sum (map (owed f) (flushing s)) +
   (if Nat.eqb (closing s) 0 then 0 else list_sum (map (owed f) (closeCbs s))))%nat.

(** How many times [f] was called. *)
Definition calls (f : nat) (out : list Effect) : nat :=
  List.length (filter (fun e => match e with
                                | ECallback _ g _ => Nat.eqb g f
                                | _ => false
                                end) out).

(** How many times an event hands [f] to the engine. *)
Definition handed (f : nat) (ev : Event) : nat :=
  match ev with
  | EvRequest _ _ _ callback => owed f callback
  | EvClose callback => owed f callback
  | _ => 0%nat
  end.

(** The relation of spending: every call of [f] uses up one holding of
    it, [c] calls or holdings apart. *)
Definition spends (f : nat) (c : nat) : State -> State -> list Effect -> Prop :=
  fun s s' out => (calls f out + holds f s' <= holds f s + c)%nat.

(** The same, for computations that emit: with what [fresh] says of
    the listeners. *)
Definition tally (f : nat) : State -> State -> list Effect -> Prop :=
  fun s s' out =>
    fresh s s' out /\ (ids_bounded s -> ids_unique s -> spends f 0 s s' out).

(** At most one port close is under way, and none when no callback
    waits for it. *)
Definition close_ok (s : State) : Prop :=
  (closing s <= 1)%nat /\ (closeCbs s = [] -> closing s = 0%nat).

(** The relation of leaving the pending close alone. *)
Definition shut : State -> State -> list Effect -> Prop :=
  fun s s' out =>
    closing s' = closing s /\ closeCbs s' = closeCbs s /\ transport_closes out = 0%nat.

(** 1 for the port calling back from a close, 0 for any other event. *)
Definition completes (ev : Event) : nat :=
  match ev with
  | EvSpCloseDone _ => 1%nat
  | _ => 0%nat
  end.

(* ================================================================== *)
(** ** Counting the calls of a function that throws *)
(* ================================================================== *)

(** 1 when the callback is the throwing function [g], 0 otherwise. *)
Definition owed_thrower (g : nat) (callback : jsval) : nat :=
  match callback with
  | JThrows h _ => if Nat.eqb h g then 1%nat else 0%nat
  | _ => 0%nat
  end.

Definition immediate_owed_thrower (g : nat) (i : Immediate) : nat :=
  match i with
  | ITxDeQueue entry => owed_thrower g (e_callback entry)
  | ISweep _ => 0%nat
  end.

(** How many times the engine holds the throwing function [g] to call
    it later; the places are those of [holds]. *)
Definition holds_thrower (g : nat) (s : State) : nat :=
  (list_sum (map (fun l => owed_thrower g (callback_of l)) (listeners s)) +
   list_sum (map (fun entry => owed_thrower g (e_callback entry)) (_txQueue s)) +
   list_sum (map (immediate_owed_thrower g) (immediates s)) +
   list_sum (map (owed_thrower g) (flushing s)) +
   (if Nat.eqb (closing s) 0 then 0
    else list_sum (map (owed_thrower g) (closeCbs s))))%nat.

(** How many times the throwing function [g] was called. *)
Definition threw (g : nat) (out : list Effect) : nat :=
  List.length (filter (fun e => match e with
                                | ECallbackThrew _ h _ => Nat.eqb h g
                                | _ => false
                                end) out).

(** How many times an event hands the throwing function [g] to the
    engine. *)
Definition handed_thrower (g : nat) (ev : Event) : nat :=
  match ev with
  | EvRequest _ _ _ callback => owed_thrower g callback
  | EvClose callback => owed_thrower g callback
  | _ => 0%nat
  end.

(** The relation of spending for a function that throws: every
    holding of [g] pays for two calls of it, [c] calls apart. *)
Definition twice (g : nat) (c : nat) : State -> State -> list Effect -> Prop :=
  fun s s' out => (threw g out + 2 * holds_thrower g s' <= 2 * holds_thrower g s + c)%nat.

(** The same, for computations that emit: with what [fresh] says of
    the listeners. *)
Definition twice_tally (g : nat) : State -> State -> list Effect -> Prop :=
  fun s s' out =>
    fresh s s' out /\ (ids_bounded s -> ids_unique s -> twice g 0 s s' out).

(* ================================================================== *)
(** ** Counting the frames written *)
(* ================================================================== *)

(** How many frames were written to the device. *)
Definition sends (out : list Effect) : nat :=
  List.length (filter (fun e => match e with
                                | ESend _ _ _ _ => true
                                | _ => false
                                end) out).

Definition is_dequeued (i : Immediate) : bool :=
  match i with
  | ITxDeQueue _ => true
  | ISweep _ => false
  end.

(** How many requests wait to be dispatched: in the Transmit Queue, or
    dequeued and waiting for the loop. *)
Definition queued (s : State) : nat :=
  (List.length (_txQueue s) + List.length (filter is_dequeued (immediates s)))%nat.

(** 1 for a call of [request], 0 for any other event. *)
Definition requested (ev : Event) : nat :=
  match ev with
  | EvRequest _ _ _ _ => 1%nat
  | _ => 0%nat
  end.

(** The relation of writing: every frame written uses up one waiting
    request, [c] frames or requests apart. *)
Definition writes (c : nat) : State -> State -> list Effect -> Prop :=
  fun s s' out => (sends out + queued s' <= queued s + c)%nat.

(** The engine is at rest: initialized, with its unpi, the gate Idle,
    and nothing queued, outstanding or scheduled. *)
Definition at_rest (s : State) : Prop :=
  _init s = true /\ _unpi s = true /\ _spinLock s = false /\
  _txQueue s = [] /\ _backlog s = [] /\ listeners s = [] /\
  timers s = [] /\ immediates s = [].

(* ================================================================== *)
(** ** A queue nobody serves *)
(* ================================================================== *)

(** No synchronous transaction is outstanding and nothing is
    scheduled: the only listeners wait for the reset notification, the
    only timers are reset fail-safes, and the loop holds no function. *)
Definition stalled (s : State) : Prop :=
  Forall (fun l => is_response l = false) (listeners s) /\
  immediates s = [] /\
  Forall (fun tm => t_kind tm = TResetFailsafe) (timers s).

(** The relation of leaving the queue alone: nothing is written, and
    the queue stays as it is unless the port's 'close' empties it. *)
Definition strands : State -> State -> list Effect -> Prop :=
  fun s s' out =>
    stalled s ->
    stalled s' /\
    (_txQueue s' = _txQueue s \/ (_txQueue s' = [] /\ emitted "close" out = true)) /\
    sends out = 0%nat.

(** Any event but a call of [request]. *)
Definition bystander (ev : Event) : bool :=
  match ev with
  | EvRequest _ _ _ _ => false
  | _ => true
  end.

Unset Implicit Arguments.

(* ================================================================== *)
(** ** Laws of the monad *)
(* ================================================================== *)

Lemma res_eta {A} (r : Res A) : mkRes (r_val r) (r_st r) (r_out r) = r.
Proof. destruct r; reflexivity. Qed.

Lemma bind_ret_l {A B} (a : A) (f : A -> M B) (s : State) : bind (ret a) f s = f a s.
Proof. unfold bind, ret; simpl. apply res_eta. Qed.

Lemma bind_get {A} (k : State -> M A) (s : State) : bind get k s = k s s.
Proof. unfold bind, get; simpl. apply res_eta. Qed.

Lemma bind_modify {A} (f : State -> State) (k : M A) (s : State) :
  bind (modify f) (fun _ => k) s = k (f s).
Proof. unfold bind, modify; simpl. apply res_eta. Qed.

Lemma bind_throw {A B} (e : Error) (f : A -> M B) (s : State) :
  bind (throw e) f s = mkRes (inl e) s [].
Proof. reflexivity. Qed.

Lemma bind_tell {A} (e : Effect) (k : M A) (s : State) :
  bind (tell e) (fun _ => k) s = mkRes (r_val (k s)) (r_st (k s)) (e :: r_out (k s)).
Proof. reflexivity. Qed.

Lemma bind_assoc {A B C} (m : M A) (f : A -> M B) (g : B -> M C) (s : State) :
  bind (bind m f) g s = bind m (fun a => bind (f a) g) s.
Proof.
  unfold bind. destruct (m s) as [[e|a] s1 o1]; simpl; [reflexivity|].
  destruct (f a s1) as [[e|b] s2 o2]; simpl; [reflexivity|].
  rewrite app_assoc. reflexivity.
Qed.

Lemma state_ext (s t : State) :
  _init s = _init t -> _resetting s = _resetting t -> _sp s = _sp t -> _unpi s = _unpi t ->
  _spinLock s = _spinLock t -> _txQueue s = _txQueue t -> _backlog s = _backlog t ->
  closeCbs s = closeCbs t -> listeners s = listeners t -> timers s = timers t ->
  immediates s = immediates t -> flushing s = flushing t -> closing s = closing t ->
  next_id s = next_id t -> now s = now t ->
  s = t.
Proof. destruct s, t; cbn; intros; subst; reflexivity. Qed.

(** Reads fields through field updates. *)
Ltac projs :=
  cbn [_init _resetting _sp _unpi _spinLock _txQueue _backlog closeCbs listeners timers
       immediates flushing closing next_id now
       set_init set_resetting set_sp set_unpi set_spinLock set_txQueue set_backlog
       set_closeCbs set_listeners set_timers set_immediates set_flushing set_closing
       set_next_id set_now].

(** Two states are equal field by field. *)
Ltac state_eq := apply state_ext; projs; try reflexivity.

(** Runs a computation on its state by the laws above. *)
Ltac mrun :=
  repeat first
    [ rewrite bind_assoc
    | rewrite bind_get
    | rewrite bind_modify
    | rewrite bind_ret_l
    | rewrite bind_throw
    | progress unfold when
    | progress cbv beta zeta
    | progress cbn [r_val r_st r_out] ].

(* ================================================================== *)
(** ** Admission (C7), translator failures (C5), the retry closure (C10) *)
(* ================================================================== *)

(** What [request] does once the gate is claimed: the branch on the
    wire type of lines 250-256. *)
Definition dispatch (argObj : ArgObj) (valObj callback : jsval) : M unit :=
  if String.eqb (a_type argObj) "SREQ" then _sendSREQ argObj valObj callback
  else if String.eqb (a_type argObj) "AREQ" then _sendAREQ argObj callback
  else ret tt.

(** The arguments pass the checks of lines 224-227. *)
Definition valid_call (valObj callback : jsval) : bool :=
  (truthy valObj && typeof_object valObj
   && (typeof_function callback || typeof_undefined callback))%bool.

Lemma request_valid (s : State) (subsys cmd : ident) (valObj callback : jsval) :
  _init s = true ->
  valid_call valObj callback = true ->
  request subsys cmd valObj callback s =
    match ZpiObject subsys cmd valObj with
    | inl e => mkRes (inl e) s []
    | inr argObj =>
        if _spinLock s then
          mkRes (inr tt) (set_txQueue (_txQueue s ++ [mkEntry subsys cmd valObj callback]) s) []
        else dispatch argObj valObj callback (set_spinLock true s)
    end.
Proof.
  intros Hinit Hvalid. unfold request. rewrite bind_get, Hinit. simpl.
  unfold valid_call in Hvalid.
  apply andb_prop in Hvalid as [Hv Hcb]. apply andb_prop in Hv as [Ht Ho].
  rewrite Ht, Ho. simpl.
  replace (negb (typeof_function callback) && negb (typeof_undefined callback))%bool
    with false by (destruct (typeof_function callback), (typeof_undefined callback);
                   simpl in *; congruence).
  destruct (ZpiObject subsys cmd valObj) as [e|argObj]; simpl.
  - reflexivity.
  - rewrite bind_ret_l. destruct (_spinLock s).
    + reflexivity.
    + rewrite bind_modify. reflexivity.
Qed.

(** C7: on an initialized engine, with arguments that pass the checks
    and a command the translator resolves, [request] either queues or
    dispatches.  With the gate Busy it returns normally having appended
    one entry (the four arguments its retry closure re-submits) to the
    transmit queue, and nothing else changes or leaves the engine.
    With the gate Idle it sets the gate Busy and runs the dispatch of
    the command's wire type within the same call; for a synchronous
    request whose frame was built, that call writes the frame and
    leaves the gate Busy. *)
Theorem request_admission (s : State) (subsys cmd : ident) (valObj callback : jsval)
    (argObj : ArgObj) :
  _init s = true ->
  valid_call valObj callback = true ->
  ZpiObject subsys cmd valObj = inr argObj ->
  (_spinLock s = true ->
     request subsys cmd valObj callback s =
       mkRes (inr tt)
         (set_txQueue (_txQueue s ++ [mkEntry subsys cmd valObj callback]) s) []) /\
  (_spinLock s = false ->
     request subsys cmd valObj callback s =
       dispatch argObj valObj callback (set_spinLock true s)) /\
  (_spinLock s = false -> a_type argObj = "SREQ"%string -> _unpi s = true ->
     forall payload, a_frame argObj = inr (Some payload) ->
       let r := request subsys cmd valObj callback s in
       r_val r = inr tt /\
       r_out r = [ESend "SREQ" (a_subsys argObj) (a_cmdId argObj) payload] /\
       _spinLock (r_st r) = true /\
       _txQueue (r_st r) = _txQueue s).
Proof.
  intros Hinit Hvalid Hzpi.
  pose proof (request_valid s subsys cmd valObj callback Hinit Hvalid) as Hreq.
  rewrite Hzpi in Hreq.
  split; [|split].
  - intros Hlock. rewrite Hreq, Hlock. reflexivity.
  - intros Hlock. rewrite Hreq, Hlock. reflexivity.
  - intros Hlock Htype Hunpi payload Hframe r. subst r.
    rewrite Hreq, Hlock. unfold dispatch. rewrite Htype, String.eqb_refl.
    unfold _sendSREQ. rewrite bind_get. cbv zeta. rewrite Hframe.
    unfold setTimeout, once, unpi_send.
    rewrite !bind_modify, bind_get. simpl. rewrite Hunpi. simpl. auto.
Qed.

Lemma entry_fn_unfold (entry : Entry) (s : State) :
  entry_fn entry s =
    try_catch
      (request (e_subsys entry) (e_cmd entry) (e_valObj entry) (e_callback entry))
      (fun ex => call None (e_callback entry) (CbErr ex)) s.
Proof. reflexivity. Qed.

Lemma dispatch_other_type (argObj : ArgObj) (valObj callback : jsval) (s : State) :
  a_type argObj <> "SREQ"%string ->
  a_type argObj <> "AREQ"%string ->
  dispatch argObj valObj callback s = mkRes (inr tt) s [].
Proof.
  intros Hs Ha. unfold dispatch.
  apply String.eqb_neq in Hs. apply String.eqb_neq in Ha. rewrite Hs, Ha. reflexivity.
Qed.

Lemma dispatch_frame_throws (argObj : ArgObj) (valObj callback : jsval) (s : State)
    (ex : Error) :
  a_frame argObj = inl ex ->
  (a_type argObj = "SREQ" \/ a_type argObj = "AREQ")%string ->
  dispatch argObj valObj callback s = mkRes (inl ex) s [].
Proof.
  intros Hframe [Htype|Htype]; unfold dispatch; rewrite Htype; simpl.
  - unfold _sendSREQ. rewrite bind_get. cbv zeta. rewrite Hframe. reflexivity.
  - unfold _sendAREQ. rewrite Hframe. reflexivity.
Qed.

Lemma dispatch_no_frame_call (argObj : ArgObj) (valObj callback : jsval) (s : State) :
  a_frame argObj = inr None ->
  (a_type argObj = "SREQ" \/ a_type argObj = "AREQ")%string ->
  dispatch argObj valObj callback s = call None callback (CbErr fail_to_build) s.
Proof.
  intros Hframe [Htype|Htype]; unfold dispatch; rewrite Htype; simpl.
  - unfold _sendSREQ. rewrite bind_get. cbv zeta. rewrite Hframe. reflexivity.
  - unfold _sendAREQ. rewrite Hframe. reflexivity.
Qed.

Lemma call_sends_nothing (by_listener : option nat) (callback : jsval) (a : CbArg)
    (s : State) :
  sends (r_out (call by_listener callback a s)) = 0%nat.
Proof. destruct callback; reflexivity. Qed.

Lemma call_eta (by_listener : option nat) (callback : jsval) (a : CbArg) (s : State) :
  mkRes (r_val (call by_listener callback a s)) (r_st (call by_listener callback a s))
    (r_out (call by_listener callback a s)) =
  call by_listener callback a s.
Proof. destruct callback; reflexivity. Qed.

Lemma try_catch_sends_nothing (m : M unit) (h : Error -> M unit) (s : State) :
  sends (r_out (m s)) = 0%nat ->
  (forall ex s', sends (r_out (h ex s')) = 0%nat) ->
  sends (r_out (try_catch m h s)) = 0%nat.
Proof.
  intros Hm Hh. unfold try_catch. cbv zeta.
  destruct (r_val (m s)) as [ex|u]; [|exact Hm].
  cbn [r_out]. unfold sends in *. rewrite filter_app, length_app, Hm, Hh. reflexivity.
Qed.

(** C5, as the code has it.  [s] is any state of an initialized
    engine and the arguments pass the checks of lines 224-227 (the
    callback is a function or undefined); [r] is the call of
    [request], [retry] the [fn] of the request's queue entry run in
    [s].

    - A translator that cannot resolve the command (the constructor on
      line 229 throws) makes [request] throw to its caller with nothing
      changed, called or written; the retry passes the exception to
      the callback.
    - With the command resolved and the gate Busy, the request is
      queued, by the call and by the retry alike.
    - With the command resolved and the gate Idle, the gate is taken,
      and then: a wire type other than SREQ and AREQ ends the call
      with nothing called and nothing written; a [frame()] that throws
      makes [request] throw to its caller with the gate left taken,
      while the retry passes the exception to the callback; a
      [frame()] that returns nothing has 'Fail to build frame' passed
      to the callback, and in the retry whatever that call of the
      callback throws is passed to the callback again.  A callback
      that is a function and returns is called exactly once, with the
      build error.
    - Whenever the translator comes up with no frame, nothing is
      written to the port. *)
Theorem translator_failures (s : State) (subsys cmd : ident) (valObj callback : jsval) :
  _init s = true ->
  valid_call valObj callback = true ->
  let entry := mkEntry subsys cmd valObj callback in
  let taken := set_spinLock true s in
  let r := request subsys cmd valObj callback s in
  let retry := entry_fn entry s in
  (forall e, ZpiObject subsys cmd valObj = inl e ->
     r = mkRes (inl e) s [] /\
     retry = call None callback (CbErr e) s) /\
  (forall argObj, ZpiObject subsys cmd valObj = inr argObj ->
     (_spinLock s = true ->
        r = mkRes (inr tt) (set_txQueue (_txQueue s ++ [entry]) s) [] /\
        retry = r) /\
     (_spinLock s = false ->
        (a_type argObj <> "SREQ"%string -> a_type argObj <> "AREQ"%string ->
           r = mkRes (inr tt) taken [] /\
           retry = r) /\
        ((a_type argObj = "SREQ" \/ a_type argObj = "AREQ")%string ->
           (forall ex, a_frame argObj = inl ex ->
              r = mkRes (inl ex) taken [] /\
              retry = call None callback (CbErr ex) taken) /\
           (a_frame argObj = inr None ->
              r = call None callback (CbErr fail_to_build) taken /\
              retry = try_catch (call None callback (CbErr fail_to_build))
                        (fun ex => call None callback (CbErr ex)) taken /\
              forall f, callback = JFun f ->
                r = mkRes (inr tt) taken [ECallback None f (CbErr fail_to_build)] /\
                retry = r)))) /\
  ((forall argObj payload, ZpiObject subsys cmd valObj = inr argObj ->
      a_frame argObj <> inr (Some payload)) ->
   sends (r_out r) = 0%nat /\ sends (r_out retry) = 0%nat).
Proof.
  intros Hinit Hvalid entry taken r retry.
  pose proof (request_valid s subsys cmd valObj callback Hinit Hvalid) as Hreq.
  fold r in Hreq.
  assert (Hretry : retry =
            match r_val r with
            | inl ex =>
                mkRes (r_val (call None callback (CbErr ex) (r_st r)))
                  (r_st (call None callback (CbErr ex) (r_st r)))
                  (r_out r ++ r_out (call None callback (CbErr ex) (r_st r)))
            | inr _ => r
            end) by reflexivity.
  split; [|split].
  - intros e He. rewrite He in Hreq. split; [exact Hreq|].
    rewrite Hretry, Hreq. cbn [r_val r_st r_out app]. apply call_eta.
  - intros argObj Hzpi. rewrite Hzpi in Hreq. split.
    + intros Hlock. rewrite Hlock in Hreq. split; [exact Hreq|].
      rewrite Hretry, Hreq. reflexivity.
    + intros Hlock. rewrite Hlock in Hreq. fold taken in Hreq. split.
      * intros Hs Ha. rewrite dispatch_other_type in Hreq by assumption.
        split; [exact Hreq|]. rewrite Hretry, Hreq. reflexivity.
      * intros Htype. split.
        -- intros ex Hframe. rewrite (dispatch_frame_throws _ _ _ _ ex) in Hreq by assumption.
           split; [exact Hreq|].
           rewrite Hretry, Hreq. cbn [r_val r_st r_out app]. apply call_eta.
        -- intros Hframe. rewrite dispatch_no_frame_call in Hreq by assumption.
           split; [exact Hreq|]. split.
           ++ rewrite Hretry, Hreq. reflexivity.
           ++ intros f Hf. rewrite Hretry, Hreq, Hf. split; reflexivity.
  - intros Hnone.
    assert (Hr : sends (r_out r) = 0%nat).
    { rewrite Hreq. destruct (ZpiObject subsys cmd valObj) as [e|argObj] eqn:Hzpi;
        [reflexivity|].
      destruct (_spinLock s); [reflexivity|]. fold taken.
      destruct (string_dec (a_type argObj) "SREQ") as [Hs|Hs];
        [|destruct (string_dec (a_type argObj) "AREQ") as [Ha|Ha]].
      3: { rewrite dispatch_other_type by assumption. reflexivity. }
      all: destruct (a_frame argObj) as [ex|[payload|]] eqn:Hframe;
        [ rewrite (dispatch_frame_throws _ _ _ _ ex) by auto; reflexivity
        | exfalso; exact (Hnone argObj payload eq_refl Hframe)
        | rewrite dispatch_no_frame_call by auto; apply call_sends_nothing ]. }
    split; [exact Hr|].
    apply try_catch_sends_nothing; [exact Hr|].
    intros ex s'. apply call_sends_nothing.
Qed.

(** C10, as the code has it.  The [fn] of a queue entry runs
    [request] again inside a try (lines 236-243); [inner] is that
    call.  When [inner] returns, so does the closure, with nothing
    added.  When [inner] throws, the closure calls the entry's
    callback with the exception, after whatever [inner] had done, and
    ends as that call of the callback ends.
    - A callback that is a function and returns: the closure never
      throws; on an engine that is no longer initialized the callback
      receives the error of line 221 and nothing else happens.
    - No callback (line 226 lets a request without one be queued):
      the closure throws the TypeError of calling it.
    - A callback that throws: the closure throws what it threw. *)
Theorem retry_closure_catches (s : State) (entry : Entry) :
  let callback := e_callback entry in
  let inner := request (e_subsys entry) (e_cmd entry) (e_valObj entry) callback s in
  (r_val inner = inr tt -> entry_fn entry s = inner) /\
  (forall ex, r_val inner = inl ex ->
     let handler := call None callback (CbErr ex) (r_st inner) in
     entry_fn entry s =
       mkRes (r_val handler) (r_st handler) (r_out inner ++ r_out handler)) /\
  (forall f, callback = JFun f ->
     r_val (entry_fn entry s) = inr tt /\
     (forall ex, r_val inner = inl ex ->
        entry_fn entry s =
          mkRes (inr tt) (r_st inner) (r_out inner ++ [ECallback None f (CbErr ex)])) /\
     (_init s = false ->
        entry_fn entry s = mkRes (inr tt) s [ECallback None f (CbErr not_initialized)])) /\
  (callback = JUndefined ->
     (forall ex, r_val inner = inl ex ->
        entry_fn entry s =
          mkRes (inl (mkError KTypeError "callback is not a function")) (r_st inner)
            (r_out inner)) /\
     (_init s = false ->
        entry_fn entry s =
          mkRes (inl (mkError KTypeError "callback is not a function")) s [])) /\
  (forall g e, callback = JThrows g e ->
     forall ex, r_val inner = inl ex ->
       entry_fn entry s =
         mkRes (inl e) (r_st inner) (r_out inner ++ [ECallbackThrew None g (CbErr ex)])).
Proof.
  intros callback inner. subst callback inner. rewrite entry_fn_unfold. unfold try_catch.
  cbv zeta.
  assert (Huninit : _init s = false ->
            request (e_subsys entry) (e_cmd entry) (e_valObj entry) (e_callback entry) s =
              mkRes (inl not_initialized) s []).
  { intros Hinit. unfold request. rewrite bind_get, Hinit. reflexivity. }
  split; [|split; [|split; [|split]]].
  - intros Hval. rewrite Hval. reflexivity.
  - intros ex Hval. rewrite Hval. reflexivity.
  - intros f Hcb. split; [|split].
    + destruct (r_val (request _ _ _ _ s)) as [ex|[]] eqn:Hval; simpl.
      * rewrite Hcb. reflexivity.
      * assumption.
    + intros ex Hval. rewrite Hval. rewrite Hcb. reflexivity.
    + intros Hinit. rewrite (Huninit Hinit). cbn [r_val r_st r_out app].
      rewrite Hcb. reflexivity.
  - intros Hcb. split.
    + intros ex Hval. rewrite Hval. rewrite Hcb. cbn [call throw r_val r_st r_out].
      rewrite app_nil_r. reflexivity.
    + intros Hinit. rewrite (Huninit Hinit). cbn [r_val r_st r_out app].
      rewrite Hcb. reflexivity.
  - intros g e Hcb ex Hval. rewrite Hval. rewrite Hcb. reflexivity.
Qed.

(* ================================================================== *)
(** ** Rules for compositional relations *)
(* ================================================================== *)

Section Rules.

Context (R : State -> State -> list Effect -> Prop) {HR : Compositional R}.

Lemma obeys_at_ret {A} (a : A) (s : State) : obeys_at R (ret a) s.
Proof. apply comp_refl. Qed.

Lemma obeys_at_throw {A} (e : Error) (s : State) : obeys_at R (@throw A e) s.
Proof. apply comp_refl. Qed.

Lemma obeys_at_lift {A} (r : Error + A) (s : State) : obeys_at R (lift r) s.
Proof. destruct r; apply comp_refl. Qed.

Lemma obeys_at_modify (f : State -> State) (s : State) :
  R s (f s) [] -> obeys_at R (modify f) s.
Proof. intros H; exact H. Qed.

Lemma obeys_at_tell (e : Effect) (s : State) :
  R s s [e] -> obeys_at R (tell e) s.
Proof. intros H; exact H. Qed.

Lemma obeys_at_bind {A B} (m : M A) (f : A -> M B) (s : State) :
  obeys_at R m s ->
  (forall a, r_val (m s) = inr a -> obeys_at R (f a) (r_st (m s))) ->
  obeys_at R (bind m f) s.
Proof.
  unfold obeys_at, bind. intros Hm Hf.
  destruct (r_val (m s)) as [e|a] eqn:Hval; simpl.
  - exact Hm.
  - eapply comp_trans; [exact Hm | apply Hf; reflexivity].
Qed.

Lemma obeys_at_get_bind {A} (k : State -> M A) (s : State) :
  obeys_at R (k s) s -> obeys_at R (bind get k) s.
Proof. unfold obeys_at. rewrite bind_get. auto. Qed.

Lemma obeys_at_modify_bind {A} (f : State -> State) (k : M A) (s : State) :
  R s (f s) [] -> obeys_at R k (f s) -> obeys_at R (bind (modify f) (fun _ => k)) s.
Proof.
  intros Hf Hk. apply obeys_at_bind; [exact Hf | intros; exact Hk].
Qed.

Lemma obeys_at_tell_bind {A} (e : Effect) (k : M A) (s : State) :
  R s s [e] -> obeys_at R k s -> obeys_at R (bind (tell e) (fun _ => k)) s.
Proof.
  intros He Hk. apply obeys_at_bind; [exact He | intros; exact Hk].
Qed.

Lemma obeys_at_try {A} (m : M A) (h : Error -> M A) (s : State) :
  obeys_at R m s ->
  (forall e, r_val (m s) = inl e -> obeys_at R (h e) (r_st (m s))) ->
  obeys_at R (try_catch m h) s.
Proof.
  unfold obeys_at, try_catch. intros Hm Hh.
  destruct (r_val (m s)) as [e|a] eqn:Hval; simpl.
  - eapply comp_trans; [exact Hm | apply Hh; reflexivity].
  - exact Hm.
Qed.

End Rules.

#[local] Instance keeps_compositional (I : State -> Prop) : Compositional (keeps I).
Proof. split; unfold keeps; auto. Qed.

(** Takes a computation apart along its binds and branches.  [known]
    is tried first on every computation, [leaf] on what remains. *)
Ltac obey_step known leaf :=
  first
    [ lazymatch goal with
      | |- obeys_at _ _ _ => solve [known]
      end
    | lazymatch goal with
      | |- obeys_at _ (ret _) _ => apply obeys_at_ret; try typeclasses eauto
      | |- obeys_at _ (throw _) _ => apply obeys_at_throw; try typeclasses eauto
      | |- obeys_at _ (lift _) _ => apply obeys_at_lift; try typeclasses eauto
      | |- obeys_at _ (bind get _) _ => apply obeys_at_get_bind; cbv beta zeta
      | |- obeys_at _ (bind (modify _) _) _ => apply obeys_at_modify_bind; [typeclasses eauto| |]
      | |- obeys_at _ (bind (tell _) _) _ => apply obeys_at_tell_bind; [typeclasses eauto| |]
      | |- obeys_at _ (bind _ _) _ => apply obeys_at_bind; [typeclasses eauto| |intros ? _]
      | |- obeys_at _ (modify _) _ => apply obeys_at_modify
      | |- obeys_at _ (tell _) _ => apply obeys_at_tell
      | |- obeys_at _ (try_catch _ _) _ => apply obeys_at_try; [typeclasses eauto| |intros ? _]
      | |- obeys_at _ (when ?c _) _ => unfold when; destruct c eqn:?
      | |- obeys_at _ (if ?c then _ else _) _ => destruct c eqn:?
      | |- obeys_at _ (match ?x with _ => _ end) _ => destruct x eqn:?
      | |- _ => progress leaf
      end ].

Ltac obey_with known leaf := repeat obey_step known leaf.

(* ================================================================== *)
(** ** Listeners stay under the event of their body *)
(* ================================================================== *)

Lemma Forall_filter {A} (P : A -> Prop) (p : A -> bool) (l : list A) :
  Forall P l -> Forall P (filter p l).
Proof.
  induction 1 as [|x l Hx Hl IH]; simpl; [constructor|].
  destruct (p x); auto.
Qed.

Create HintDb names discriminated.

Ltac names_leaf :=
  solve [unfold keeps, names_ok; simpl; auto using Forall_filter].

Ltac names := obey_with ltac:(auto with names) names_leaf.

Lemma call_names by_l cb a s : obeys_at (keeps names_ok) (call by_l cb a) s.
Proof. unfold call. destruct cb; names. Qed.

Lemma setTimeout_names ms k s : obeys_at (keeps names_ok) (setTimeout ms k) s.
Proof. unfold setTimeout. names. Qed.

Lemma clearTimeout_names which s : obeys_at (keeps names_ok) (clearTimeout which) s.
Proof. unfold clearTimeout. names. Qed.

Lemma setImmediate_names i s : obeys_at (keeps names_ok) (setImmediate i) s.
Proof. unfold setImmediate. names. Qed.

Lemma removeListener_names id s : obeys_at (keeps names_ok) (removeListener id) s.
Proof. unfold removeListener. names. Qed.

Lemma once_names evt body s :
  (forall id, listener_ok (mkListener id evt body)) ->
  obeys_at (keeps names_ok) (once evt body) s.
Proof.
  intros Hok. unfold once. apply obeys_at_modify.
  unfold keeps, names_ok; simpl. intros H. apply Forall_app. auto.
Qed.

Lemma unpi_send_names t sub c p s : obeys_at (keeps names_ok) (unpi_send t sub c p) s.
Proof. unfold unpi_send. names. Qed.

Lemma _scheduleNextSend_names early s :
  obeys_at (keeps names_ok) (_scheduleNextSend early) s.
Proof. unfold _scheduleNextSend, setImmediate. names. Qed.

#[local] Hint Resolve call_names setTimeout_names clearTimeout_names setImmediate_names
  removeListener_names unpi_send_names _scheduleNextSend_names : names.

Lemma srsp_listener_names txn evt argObj valObj cb bl a s :
  obeys_at (keeps names_ok) (srsp_listener txn evt argObj valObj cb bl a) s.
Proof.
  unfold srsp_listener. names.
  all: unfold keeps, names_ok; simpl;
    try match goal with |- context [indexOf ?b ?x] => destruct (indexOf b x) end; auto.
Qed.

Lemma reset_listener_names id cb s : obeys_at (keeps names_ok) (reset_listener id cb) s.
Proof. unfold reset_listener. names. Qed.

#[local] Hint Resolve srsp_listener_names reset_listener_names : names.

Lemma run_listener_names l a s : obeys_at (keeps names_ok) (run_listener l a) s.
Proof. unfold run_listener. names. Qed.

#[local] Hint Resolve run_listener_names : names.

Lemma fire_names snapshot a s : obeys_at (keeps names_ok) (fire run_listener snapshot a) s.
Proof.
  revert s. induction snapshot as [|l rest IH]; intros s; simpl; names.
Qed.

#[local] Hint Resolve fire_names : names.

Lemma on_error_names (em : string -> EvArg -> M unit) data s :
  (forall evt a s', obeys_at (keeps names_ok) (em evt a) s') ->
  obeys_at (keeps names_ok) (on_error em data) s.
Proof. intros Hem. unfold on_error. names. Qed.

Lemma emit_within_names stack evt a s :
  obeys_at (keeps names_ok) (emit_within stack evt a) s.
Proof.
  revert evt a s. induction stack as [|stack IH]; intros evt a s; simpl.
  - names. apply on_error_names. intros. names.
  - names. apply on_error_names. intros. names.
Qed.

Lemma emit_names evt a s : obeys_at (keeps names_ok) (emit evt a) s.
Proof. apply emit_within_names. Qed.

#[local] Hint Resolve emit_names : names.

Lemma sreqTimeout_names evt s : obeys_at (keeps names_ok) (sreqTimeout emit evt) s.
Proof. unfold sreqTimeout. names. Qed.

Lemma sreqNextQueue_names txn evt argObj s :
  obeys_at (keeps names_ok) (sreqNextQueue txn evt argObj) s.
Proof. unfold sreqNextQueue. names. Qed.

Lemma sweep_names backlog s : obeys_at (keeps names_ok) (sweep emit backlog) s.
Proof.
  revert s. induction backlog as [|x rest IH]; intros s; simpl; names.
Qed.

Lemma reset_failsafe_names s : obeys_at (keeps names_ok) reset_failsafe s.
Proof. unfold reset_failsafe. names. Qed.

Lemma _sendSREQ_names argObj valObj cb s :
  obeys_at (keeps names_ok) (_sendSREQ argObj valObj cb) s.
Proof.
  unfold _sendSREQ. names. apply once_names. intros id. reflexivity.
Qed.

Lemma _sendAREQ_names argObj cb s : obeys_at (keeps names_ok) (_sendAREQ argObj cb) s.
Proof.
  unfold _sendAREQ. names. apply once_names. intros id. reflexivity.
Qed.

#[local] Hint Resolve sreqTimeout_names sreqNextQueue_names sweep_names reset_failsafe_names
  _sendSREQ_names _sendAREQ_names : names.

Lemma request_names subsys cmd valObj cb s :
  obeys_at (keeps names_ok) (request subsys cmd valObj cb) s.
Proof. unfold request. names. Qed.

#[local] Hint Resolve request_names : names.

Lemma entry_fn_names entry s : obeys_at (keeps names_ok) (entry_fn entry) s.
Proof. unfold entry_fn. names. Qed.

Lemma _mtIncomingDataHdlr_names err type subsys cmd result s :
  obeys_at (keeps names_ok) (_mtIncomingDataHdlr err type subsys cmd result) s.
Proof. unfold _mtIncomingDataHdlr. names. Qed.

#[local] Hint Resolve entry_fn_names _mtIncomingDataHdlr_names : names.

Lemma _parseMtIncomingData_names data s :
  obeys_at (keeps names_ok) (_parseMtIncomingData data) s.
Proof. unfold _parseMtIncomingData. names. Qed.

Lemma call_all_names cbs arg s : obeys_at (keeps names_ok) (call_all cbs arg) s.
Proof. revert s. induction cbs as [|cb rest IH]; intros s; simpl; names. Qed.

#[local] Hint Resolve _parseMtIncomingData_names call_all_names : names.

Lemma _close_names cb s : obeys_at (keeps names_ok) (_close cb) s.
Proof. unfold _close, sp_close. names. Qed.

#[local] Hint Resolve _close_names : names.

Lemma step_names ev s : obeys_at (keeps names_ok) (step ev) s.
Proof.
  destruct ev; unfold step, close, flush_done, sp_close_done, spOpen, spErr, spClose,
    run_timer, run_immediate; names.
  all: unfold keeps, names_ok; simpl; try destruct (_sp s); auto.
Qed.

(* ================================================================== *)
(** ** From one turn of the loop to a run *)
(* ================================================================== *)

Lemma run_cons (ev : Event) (rest : list Event) (s : State) :
  run (ev :: rest) s =
    (fst (run rest (fst (exec ev s))), snd (exec ev s) ++ snd (run rest (fst (exec ev s)))).
Proof.
  change (run (ev :: rest) s)
    with (let '(s1, out1) := exec ev s in
          let '(s2, out2) := run rest s1 in (s2, out1 ++ out2)).
  destruct (exec ev s) as [s1 out1]. cbn [fst snd].
  destruct (run rest s1); reflexivity.
Qed.

Lemma run_keeps (I : State -> Prop) :
  (forall ev s, obeys_at (keeps I) (step ev) s) ->
  forall evs s, I s -> I (fst (run evs s)).
Proof.
  intros Hstep evs. induction evs as [|ev rest IH]; intros s Hs; [exact Hs|].
  rewrite run_cons. cbn [fst]. apply IH. apply (Hstep ev s). exact Hs.
Qed.

Lemma run_obeys (R : State -> State -> list Effect -> Prop) {HR : Compositional R} :
  (forall s s' out e, R s s' out -> R s s' (out ++ [EThrown e])) ->
  (forall ev s, obeys_at R (step ev) s) ->
  forall evs s, R s (fst (run evs s)) (snd (run evs s)).
Proof.
  intros Hthrown Hstep evs. induction evs as [|ev rest IH]; intros s.
  - apply comp_refl.
  - rewrite run_cons. cbn [fst snd].
    eapply comp_trans; [|apply IH].
    pose proof (Hstep ev s) as H. unfold obeys_at in H. unfold exec. cbn [fst snd].
    destruct (r_val (step ev s)); [apply Hthrown; exact H|].
    rewrite app_nil_r. exact H.
Qed.

Lemma run_app (evs1 evs2 : list Event) (s : State) :
  run (evs1 ++ evs2) s =
    (fst (run evs2 (fst (run evs1 s))), snd (run evs1 s) ++ snd (run evs2 (fst (run evs1 s)))).
Proof.
  revert s. induction evs1 as [|ev rest IH]; intros s.
  - cbn [app run fst snd]. destruct (run evs2 s); reflexivity.
  - rewrite <- app_comm_cons, !run_cons, IH. cbn [fst snd].
    rewrite app_assoc. reflexivity.
Qed.

Lemma reachable_names_ok (s : State) : reachable s -> names_ok s.
Proof.
  intros [evs ->]. apply run_keeps; [apply step_names|]. constructor.
Qed.

(* ================================================================== *)
(** ** Frames with a bad checksum (C4) *)
(* ================================================================== *)

Lemma emit_within_eq (stack : nat) (evt : string) (a : EvArg) :
  emit_within stack evt a =
    (tell (EEmit evt a);;
     s <- get;;
     let snapshot := filter (on_evt evt) (listeners s) in
     when (String.eqb evt "_ready") (modify (set_init true);; nested_emit stack "ready"%string ANone);;
     when (String.eqb evt "SRSP:RES0:error") (on_error (nested_emit stack) a);;
     fire run_listener snapshot a).
Proof. destruct stack; reflexivity. Qed.

Lemma listener_ok_not_data (l : Listener) : listener_ok l -> on_evt "data" l = false.
Proof.
  unfold listener_ok, on_evt. destruct (l_body l); intros ->; reflexivity.
Qed.

Lemma no_listener_on_data (s : State) :
  names_ok s -> filter (on_evt "data") (listeners s) = [].
Proof.
  unfold names_ok. induction 1 as [|l ls Hl Hls IH]; simpl; [reflexivity|].
  rewrite (listener_ok_not_data l Hl). exact IH.
Qed.

(** C4, as the code has it: in every state the engine can reach, a
    frame whose [fcs] differs from its [csum] is announced by the
    generic 'data' event and by nothing else; processing it returns
    normally and leaves the whole state, with every pending
    transaction, as it was. *)
Theorem checksum_mismatch_only_data (evs : list Event) (data : Frame) :
  f_fcs data <> f_csum data ->
  let s := fst (run evs new_CcZnp) in
  _parseMtIncomingData data s = mkRes (inr tt) s [EEmit "data" (AFrame data)].
Proof.
  intros Hsum s.
  assert (Hnames : names_ok s) by (apply reachable_names_ok; exists evs; reflexivity).
  unfold _parseMtIncomingData, emit. rewrite emit_within_eq.
  rewrite bind_assoc, bind_tell, bind_assoc, bind_get. cbv zeta.
  rewrite (no_listener_on_data s Hnames). simpl.
  destruct (f_fcs data =? f_csum data) eqn:Heq.
  - apply Z.eqb_eq in Heq. contradiction.
  - reflexivity.
Qed.

(* ================================================================== *)
(** ** The early dequeue (C2) *)
(* ================================================================== *)

Lemma not_in_backlog_false (bl : list BacklogEntry) (entry : Entry) :
  not_in_backlog bl entry = false <-> collides bl entry.
Proof.
  unfold not_in_backlog, collides. rewrite negb_false_iff, existsb_exists.
  split; intros [b [Hin H]]; exists b; split; auto.
  - apply andb_prop in H. exact H.
  - destruct H as [H1 H2]. rewrite H1, H2. reflexivity.
Qed.

Lemma not_in_backlog_true (bl : list BacklogEntry) (entry : Entry) :
  not_in_backlog bl entry = true <-> ~ collides bl entry.
Proof.
  rewrite <- not_in_backlog_false. destruct (not_in_backlog bl entry); split; congruence.
Qed.

Lemma findIndex_None {A} (p : A -> bool) (l : list A) :
  findIndex p l = None <-> forall x, In x l -> p x = false.
Proof.
  induction l as [|x l IH]; simpl.
  - split; [intros _ y []|reflexivity].
  - destruct (p x) eqn:Hp.
    + split; [discriminate|]. intros H. rewrite (H x) in Hp by auto. discriminate.
    + destruct (findIndex p l) eqn:Hf; simpl.
      * split; [discriminate|]. intros H.
        assert (Some n = None) by (apply IH; auto). discriminate.
      * split; [|reflexivity]. intros _ y [<-|Hy]; [exact Hp|]. apply IH; auto.
Qed.

Lemma findIndex_Some {A} (p : A -> bool) (l : list A) (i : nat) (d : A) :
  findIndex p l = Some i ->
  exists before x behind,
    l = before ++ x :: behind /\
    (forall y, In y before -> p y = false) /\
    p x = true /\
    nth i l d = x /\
    splice1 i l = before ++ behind.
Proof.
  revert i. induction l as [|x l IH]; intros i; simpl; [discriminate|].
  destruct (p x) eqn:Hp.
  - intros [= <-]. exists [], x, l. repeat split; auto. intros y [].
  - destruct (findIndex p l) as [j|] eqn:Hf; simpl; [|discriminate].
    intros [= <-]. destruct (IH j eq_refl) as (before & y & behind & -> & Hb & Hy & Hn & Hs).
    exists (x :: before), y, behind. repeat split; auto.
    + intros z [<-|Hz]; auto.
    + unfold splice1 in *. simpl. f_equal. exact Hs.
Qed.

(** C2, as the code has it: the early dequeue returns false and
    touches nothing when every queued entry collides with the backlog,
    so the promotion timer only records its own entry and leaves the
    gate alone; otherwise it takes the first entry that collides with
    no backlog entry, skipping the colliding ones before it, and hands
    it to [setImmediate].  Pairs are compared as submitted, with
    [==]. *)
Theorem early_promotion_skips_collisions (s : State) :
  let r := _scheduleNextSend true s in
  ((forall entry, In entry (_txQueue s) -> collides (_backlog s) entry) ->
     r = mkRes (inr false) s []) /\
  (forall entry, In entry (_txQueue s) -> ~ collides (_backlog s) entry ->
     exists before chosen behind,
       _txQueue s = before ++ chosen :: behind /\
       (forall e, In e before -> collides (_backlog s) e) /\
       ~ collides (_backlog s) chosen /\
       r = mkRes (inr true)
             (set_immediates (immediates s ++ [ITxDeQueue chosen])
                (set_txQueue (before ++ behind) s)) []) /\
  (forall txn srspEvt argObj,
     let s1 := set_backlog (_backlog s ++ [ownEvent txn srspEvt argObj]) s in
     (forall entry, In entry (_txQueue s) -> collides (_backlog s1) entry) ->
     sreqNextQueue txn srspEvt argObj s = mkRes (inr tt) s1 []).
Proof.
  assert (Hnone : forall s0,
            (forall entry, In entry (_txQueue s0) -> collides (_backlog s0) entry) ->
            _scheduleNextSend true s0 = mkRes (inr false) s0 []).
  { intros s0 Hall. unfold _scheduleNextSend. rewrite bind_get. cbv zeta.
    destruct (_txQueue s0) as [|head tail] eqn:Hq; [reflexivity|].
    replace (findIndex (not_in_backlog (_backlog s0)) (head :: tail)) with (@None nat);
      [reflexivity|].
    symmetry. apply findIndex_None. intros x Hx. apply not_in_backlog_false. auto. }
  intros r. subst r. split; [|split].
  - apply Hnone.
  - intros entry Hin Hfree. unfold _scheduleNextSend. rewrite bind_get. cbv zeta.
    destruct (_txQueue s) as [|head tail] eqn:Hq; [destruct Hin|].
    destruct (findIndex (not_in_backlog (_backlog s)) (head :: tail)) as [i|] eqn:Hf.
    + destruct (findIndex_Some _ _ _ head Hf)
        as (before & chosen & behind & Heq & Hbefore & Hchosen & Hnth & Hsplice).
      exists before, chosen, behind. split; [exact Heq|]. split; [|split].
      * intros e He. apply not_in_backlog_false. auto.
      * apply not_in_backlog_true. exact Hchosen.
      * rewrite Hnth, Hsplice. reflexivity.
    + exfalso. apply Hfree. apply not_in_backlog_false.
      apply (proj1 (findIndex_None _ _) Hf). exact Hin.
  - intros txn srspEvt argObj s1 Hall. unfold sreqNextQueue.
    rewrite bind_modify. fold s1. unfold bind.
    rewrite (Hnone s1) by exact Hall. reflexivity.
Qed.

(* ================================================================== *)
(** ** The sweep at settle time (C3) and the reset flag (C9) *)
(* ================================================================== *)

Lemma indexOf_backlog_array (bl : list BacklogEntry) : indexOf bl RBacklogArray = None.
Proof.
  unfold indexOf. apply findIndex_None. reflexivity.
Qed.

(** The array a request builds at its start holds one reference, to
    [_backlog] itself, which [_backlog] never contains: its sweep
    finds nothing to resolve or remove. *)
Lemma sweep_finds_nothing (s : State) :
  sweep emit (new_Array RBacklogArray) s = mkRes (inr tt) s [].
Proof.
  unfold new_Array. simpl. rewrite bind_get. rewrite indexOf_backlog_array. reflexivity.
Qed.

Lemma srsp_listener_success_resets (txn : nat) (evt : string) (argObj : ArgObj)
    (valObj cb : jsval) (bl : list JsRef) (result : EvArg) (s : State) :
  result <> ATimeout -> result <> AError ->
  _resetting (r_st (srsp_listener txn evt argObj valObj cb bl result s)) = false.
Proof.
  intros Ht He. unfold srsp_listener, clearTimeout, setImmediate, _scheduleNextSend.
  destruct result; try congruence;
    destruct (_spinLock s) eqn:Hlock; mrun;
    repeat match goal with
    | |- context [match ?x with _ => _ end] => destruct x; mrun
    end;
    destruct cb; reflexivity.
Qed.

(* ================================================================== *)
(** ** Coalesced closes (C8) *)
(* ================================================================== *)

Lemma exec_close_call (s0 : State) (done pending : list nat) (f : nat) :
  open_and_idle s0 ->
  exec (EvClose (JFun f)) (close_state s0 done pending) =
    (close_state s0 done (pending ++ [f]), [ESpFlush]).
Proof.
  intros (Hinit & [e Hsp] & _ & _). unfold exec, step, close. mrun.
  cbn [close_state _init _sp set_closing set_flushing set_closeCbs].
  rewrite Hinit, Hsp. rewrite bind_tell. cbn [r_val r_st r_out modify].
  unfold close_state. cbn. rewrite map_app. reflexivity.
Qed.

Lemma exec_flush_done (s0 : State) (done pending : list nat) (f : nat) :
  open_and_idle s0 ->
  exec EvFlushDone (close_state s0 done (f :: pending)) =
    (close_state s0 (done ++ [f]) pending,
     match done with [] => [ESpClose] | _ => [] end).
Proof.
  intros (Hinit & [e Hsp] & _ & _). unfold exec, step, flush_done. mrun.
  cbn [close_state flushing set_closing set_flushing set_closeCbs map]. mrun.
  unfold _close. mrun. cbn [_sp close_state set_flushing set_closing set_closeCbs].
  rewrite Hsp. cbn [isOpen negb truthy]. mrun.
  cbn [close_state closeCbs set_closeCbs set_flushing set_closing].
  change [JFun f] with (map JFun [f]).
  rewrite <- (map_app JFun done [f]), length_map, length_app. cbn [List.length].
  destruct done as [|d done'].
  - cbn. unfold close_state. f_equal. state_eq. lia.
  - replace (List.length (d :: done') + 1 =? 1)%nat with false
      by (symmetry; apply Nat.eqb_neq; cbn; lia).
    reflexivity.
Qed.

Lemma exec_flush_done_idle (s0 : State) (done : list nat) :
  exec EvFlushDone (close_state s0 done []) = (close_state s0 done [], []).
Proof. reflexivity. Qed.

Lemma close_state_idle (s0 : State) : open_and_idle s0 -> close_state s0 [] [] = s0.
Proof.
  intros (_ & _ & Hcbs & Hfl). unfold close_state. state_eq; auto; cbn; lia.
Qed.

Lemma transport_closes_app (o1 o2 : list Effect) :
  transport_closes (o1 ++ o2) = (transport_closes o1 + transport_closes o2)%nat.
Proof. unfold transport_closes. rewrite filter_app, length_app. reflexivity. Qed.

Lemma callbacks_app (o1 o2 : list Effect) :
  callbacks (o1 ++ o2) = callbacks o1 ++ callbacks o2.
Proof. unfold callbacks. apply flat_map_app. Qed.

Lemma asked_step (done : list nat) (f : nat) :
  (asked done + transport_closes (match done with [] => [ESpClose] | _ => [] end))%nat
    = asked (done ++ [f]).
Proof. destruct done; reflexivity. Qed.

Lemma run_close_traffic (s0 : State) (evs : list Event) :
  open_and_idle s0 ->
  Forall close_traffic evs ->
  forall done pending,
  exists done' pending',
    fst (run evs (close_state s0 done pending)) = close_state s0 done' pending' /\
    done' ++ pending' = done ++ pending ++ closers evs /\
    callbacks (snd (run evs (close_state s0 done pending))) = [] /\
    (asked done + transport_closes (snd (run evs (close_state s0 done pending))))%nat
      = asked done'.
Proof.
  intros Hidle Htraffic. induction Htraffic as [|ev rest Hev _ IH]; intros done pending.
  - exists done, pending. cbn. rewrite !app_nil_r. auto.
  - rewrite run_cons. destruct ev as [| | [| | | | |f| |] | | | | | | | | |]; try contradiction.
    + rewrite exec_close_call by assumption. cbn [fst snd].
      destruct (IH done (pending ++ [f])) as (done' & pending' & Hst & Happ & Hcb & Hn).
      exists done', pending'. split; [exact Hst|]. split; [|split].
      * rewrite Happ. cbn. rewrite <- !app_assoc. reflexivity.
      * exact Hcb.
      * rewrite transport_closes_app. cbn. exact Hn.
    + destruct pending as [|f pending].
      * rewrite exec_flush_done_idle. cbn [fst snd].
        destruct (IH done []) as (done' & pending' & Hst & Happ & Hcb & Hn).
        exists done', pending'. auto.
      * rewrite exec_flush_done by assumption. cbn [fst snd].
        destruct (IH (done ++ [f]) pending) as (done' & pending' & Hst & Happ & Hcb & Hn).
        exists done', pending'. split; [exact Hst|]. split; [|split].
        -- rewrite Happ. cbn. rewrite <- !app_assoc. reflexivity.
        -- rewrite callbacks_app, Hcb. destruct done; reflexivity.
        -- rewrite transport_closes_app, <- Hn, <- (asked_step done f). lia.
Qed.

Lemma run_drain (s0 : State) (pending : list nat) :
  open_and_idle s0 ->
  forall done,
    fst (run (repeat EvFlushDone (List.length pending)) (close_state s0 done pending))
      = close_state s0 (done ++ pending) [] /\
    callbacks (snd (run (repeat EvFlushDone (List.length pending))
                      (close_state s0 done pending))) = [] /\
    (asked done + transport_closes
                    (snd (run (repeat EvFlushDone (List.length pending))
                            (close_state s0 done pending))))%nat
      = asked (done ++ pending).
Proof.
  intros Hidle. induction pending as [|f pending IH]; intros done.
  - cbn. rewrite app_nil_r. auto.
  - cbn [List.length repeat]. rewrite run_cons, exec_flush_done by assumption.
    cbn [fst snd]. destruct (IH (done ++ [f])) as (Hst & Hcb & Hn).
    rewrite <- app_assoc in Hst, Hn. cbn in Hst, Hn.
    split; [exact Hst|]. split.
    + rewrite callbacks_app, Hcb. destruct done; reflexivity.
    + rewrite transport_closes_app, <- Hn, <- (asked_step done f). lia.
Qed.

Lemma call_all_functions (fs : list nat) (arg : CbArg) (s : State) :
  call_all (map JFun fs) arg s = mkRes (inr tt) s (map (fun f => ECallback None f arg) fs).
Proof.
  induction fs as [|f fs IH]; [reflexivity|].
  cbn [map call_all call]. rewrite bind_tell, IH. reflexivity.
Qed.

Lemma exec_close_done (s0 : State) (done : list nat) (arg : CbArg) :
  done <> [] ->
  exec (EvSpCloseDone arg) (close_state s0 done []) =
    (close_state s0 [] [], map (fun f => ECallback None f arg) done).
Proof.
  intros Hdone. unfold exec, step. mrun.
  destruct done as [|d done']; [congruence|].
  cbn [close_state closing set_closing set_flushing set_closeCbs asked].
  replace (closing s0 + 1)%nat with (S (closing s0)) by lia. mrun.
  unfold sp_close_done. mrun.
  cbn [closeCbs close_state set_closing set_flushing set_closeCbs].
  unfold bind. rewrite call_all_functions. cbn [r_val r_st r_out modify].
  rewrite !app_nil_r. unfold close_state. f_equal. state_eq. cbn. lia.
Qed.

(** C8, as the code has it: on an engine whose port reports open and
    on which no close is under way, take any sequence of [close] calls
    whose callbacks are functions that return, interleaved in any way
    with the port reporting flushes done, the port reporting open all
    the while (the test of line 89); let the remaining flushes be
    reported done and only then let the port report that it has
    closed, with [arg].  The port was asked to close exactly once; no
    callback ran before the port reported; then every caller's
    callback ran exactly once with [arg], in call order; nothing is
    left waiting. *)
Theorem close_calls_coalesced (s : State) (evs : list Event) (arg : CbArg) :
  open_and_idle s ->
  Forall close_traffic evs ->
  closers evs <> [] ->
  let calls := run evs s in
  let completion :=
    run (repeat EvFlushDone (List.length (flushing (fst calls))) ++ [EvSpCloseDone arg])
      (fst calls) in
  transport_closes (snd calls ++ snd completion) = 1%nat /\
  callbacks (snd calls) = [] /\
  callbacks (snd completion) = map (fun f => (f, arg)) (closers evs) /\
  closeCbs (fst completion) = [] /\
  flushing (fst completion) = [].
Proof.
  intros Hidle Htraffic Hsome calls completion.
  destruct (run_close_traffic s evs Hidle Htraffic [] [])
    as (done & pending & Hst & Happ & Hcb & Hn).
  rewrite (close_state_idle s Hidle) in Hst, Hcb, Hn. cbn in Happ.
  fold calls in Hst, Hcb, Hn.
  assert (Hfl : flushing (fst calls) = map JFun pending) by (rewrite Hst; reflexivity).
  subst completion. rewrite Hfl, length_map, run_app, Hst. cbn [fst snd].
  destruct (run_drain s pending Hidle done) as (Hst2 & Hcb2 & Hn2).
  rewrite Hst2, Happ.
  assert (Hne : closers evs <> []) by exact Hsome.
  rewrite run_cons, (exec_close_done s (closers evs) arg Hne). cbn [fst snd run].
  rewrite app_nil_r. split; [|split; [|split; [|split]]].
  - rewrite !transport_closes_app.
    assert (Hz : transport_closes (map (fun f => ECallback None f arg) (closers evs)) = 0%nat).
    { unfold transport_closes. clear. induction (closers evs); cbn; auto. }
    rewrite Hz. rewrite Happ in Hn2.
    destruct (closers evs) eqn:E; [congruence|]. cbn in Hn, Hn2 |- *.
    destruct done; cbn in Hn, Hn2; lia.
  - exact Hcb.
  - rewrite callbacks_app, Hcb2. cbn.
    unfold callbacks. clear. induction (closers evs) as [|f fs IHfs]; cbn; [reflexivity|].
    f_equal. apply IHfs.
  - reflexivity.
  - reflexivity.
Qed.

(* ================================================================== *)
(** ** Single settlement (C1) *)
(* ================================================================== *)

Lemma fired_app (t : nat) (o1 o2 : list Effect) :
  fired t (o1 ++ o2) = (fired t o1 + fired t o2)%nat.
Proof. unfold fired. rewrite filter_app, length_app. reflexivity. Qed.

Lemma pend_le_1 (t : nat) (s : State) : (pend t s <= 1)%nat.
Proof. unfold pend. destruct (registered t s); lia. Qed.

Lemma pend_unbounded (t : nat) (s : State) :
  ids_bounded s -> (next_id s <= t)%nat -> pend t s = 0%nat.
Proof.
  unfold ids_bounded, pend, registered. intros Hb Ht.
  destruct (existsb _ (listeners s)) eqn:E; [|reflexivity].
  apply existsb_exists in E as [l [Hin Heq]]. apply Nat.eqb_eq in Heq.
  rewrite Forall_forall in Hb. specialize (Hb l Hin). lia.
Qed.

Lemma issued_same (t : nat) (s : State) : ids_bounded s -> issued t s s = pend t s.
Proof.
  intros Hb. unfold issued. destruct (t <? next_id s)%nat eqn:E; [reflexivity|].
  apply Nat.ltb_ge in E. symmetry. apply pend_unbounded; assumption.
Qed.

#[local] Instance quiet_compositional (ok : Prop) : Compositional (quiet ok).
Proof.
  split; unfold quiet.
  - intros s. split; [|split; [|split]]; auto.
  - intros s1 s2 s3 o1 o2 (Hl1 & Hn1 & Hf1 & Hc1) (Hl2 & Hn2 & Hf2 & Hc2).
    split; [|split; [|split]]; try congruence; auto.
    intros t. rewrite fired_app, Hf1, Hf2. reflexivity.
Qed.

Ltac issued_cases s1 s2 s3 t :=
  unfold issued in *;
  pose proof (pend_le_1 t s1); pose proof (pend_le_1 t s2); pose proof (pend_le_1 t s3);
  destruct (Nat.ltb_spec t (next_id s1)), (Nat.ltb_spec t (next_id s2)),
           (Nat.ltb_spec t (next_id s3));
  try lia.

Lemma issued_trans_le (t : nat) (s1 s2 s3 : State) (a1 a2 : nat) :
  ids_bounded s2 ->
  (next_id s1 <= next_id s2)%nat -> (next_id s2 <= next_id s3)%nat ->
  (a1 + pend t s2 <= issued t s1 s2)%nat ->
  (a2 + pend t s3 <= issued t s2 s3)%nat ->
  (a1 + a2 + pend t s3 <= issued t s1 s3)%nat.
Proof.
  intros Hb Hn1 Hn2 H1 H2. pose proof (pend_unbounded t s2 Hb) as Hz.
  issued_cases s1 s2 s3 t.
Qed.

Lemma issued_trans_eq (t : nat) (s1 s2 s3 : State) (a1 a2 : nat) :
  ids_bounded s2 ->
  (next_id s1 <= next_id s2)%nat -> (next_id s2 <= next_id s3)%nat ->
  (a1 + pend t s2)%nat = issued t s1 s2 ->
  (a2 + pend t s3)%nat = issued t s2 s3 ->
  (a1 + a2 + pend t s3)%nat = issued t s1 s3.
Proof.
  intros Hb Hn1 Hn2 H1 H2. pose proof (pend_unbounded t s2 Hb) as Hz.
  issued_cases s1 s2 s3 t.
Qed.

#[local] Instance settles_compositional (ok : Prop) : Compositional (settles ok).
Proof.
  split; unfold settles.
  - intros s Hb. split; [exact Hb|]. split; [lia|].
    assert (Hi : forall t, (fired t [] + pend t s)%nat = issued t s s).
    { intros t. rewrite issued_same by assumption. reflexivity. }
    split; [intros t; rewrite Hi; lia|]. intros _ Hc. split; [exact Hc|exact Hi].
  - intros s1 s2 s3 o1 o2 H1 H2 Hb1.
    destruct (H1 Hb1) as (Hb2 & Hn1 & Hle1 & Heq1).
    destruct (H2 Hb2) as (Hb3 & Hn2 & Hle2 & Heq2).
    split; [exact Hb3|]. split; [lia|]. split.
    + intros t. rewrite fired_app. apply (issued_trans_le t s1 s2 s3); auto.
    + intros Hok Hc1. destruct (Heq1 Hok Hc1) as (Hc2 & He1).
      destruct (Heq2 Hok Hc2) as (Hc3 & He2). split; [exact Hc3|].
      intros t. rewrite fired_app. apply (issued_trans_eq t s1 s2 s3); auto.
Qed.

Lemma quiet_settles (ok : Prop) (s s' : State) (out : list Effect) :
  quiet ok s s' out -> settles ok s s' out.
Proof.
  unfold quiet, settles. intros (Hl & Hn & Hf & Hc) Hb.
  assert (Hp : forall t, pend t s' = pend t s)
    by (intros t; unfold pend, registered; rewrite Hl; reflexivity).
  assert (Hi : forall t, (fired t out + pend t s')%nat = issued t s s').
  { intros t. rewrite Hf, Hp. unfold issued. rewrite Hn. fold (issued t s s).
    rewrite issued_same by assumption. reflexivity. }
  split; [unfold ids_bounded in *; rewrite Hl, Hn; exact Hb|].
  split; [lia|]. split; [intros t; rewrite Hi; lia|].
  intros Hok Hcs. split; [auto|exact Hi].
Qed.

Lemma settles_weaken (ok ok' : Prop) (s s' : State) (out : list Effect) :
  (ok' -> ok) -> settles ok s s' out -> settles ok' s s' out.
Proof.
  unfold settles. intros Himp H Hb. destruct (H Hb) as (H1 & H2 & H3 & H4).
  split; [|split; [|split]]; auto.
Qed.

Lemma settles_self (ok : Prop) (s s' : State) (out : list Effect) :
  settles (ok /\ cbs_ok s) s s' out -> settles ok s s' out.
Proof.
  unfold settles. intros H Hb. destruct (H Hb) as (H1 & H2 & H3 & H4).
  split; [|split; [|split]]; auto.
Qed.

Lemma quiet_weaken (ok ok' : Prop) (s s' : State) (out : list Effect) :
  (ok' -> ok) -> quiet ok s s' out -> quiet ok' s s' out.
Proof.
  unfold quiet. intros Himp (H1 & H2 & H3 & H4). split; [|split; [|split]]; auto.
Qed.

Lemma srsp_listener_split (txn : nat) (evt : string) (argObj : ArgObj)
    (valObj cb : jsval) (bl : list JsRef) (result : EvArg) (s : State) :
  srsp_listener txn evt argObj valObj cb bl result s =
    (settle_prefix txn evt argObj bl;; settle_final txn cb result) s.
Proof.
  unfold srsp_listener, settle_prefix, settle_final, clearTimeout, setImmediate.
  destruct (_spinLock s) eqn:Hlock; mrun; rewrite Hlock; mrun; reflexivity.
Qed.

Lemma Forall_splice1 {A} (P : A -> Prop) (l : list A) (pos : nat) :
  Forall P l -> Forall P (splice1 pos l).
Proof.
  intros H. revert pos. induction H as [|x l Hx Hl IH]; intros [|pos]; unfold splice1 in *; cbn.
  - constructor.
  - constructor.
  - exact Hl.
  - constructor; [exact Hx|apply IH].
Qed.

Lemma Forall_nth_default {A} (P : A -> Prop) (l : list A) (pos : nat) (d : A) :
  P d -> Forall P l -> P (nth pos l d).
Proof.
  intros Hd H. revert pos. induction H as [|x l Hx Hl IH]; intros [|pos]; cbn; auto.
Qed.

Create HintDb quiet discriminated.

(** Solves [ok -> cbs_ok s -> cbs_ok s'] when [s'] is [s] with fields
    updated from parts of [s]. *)
Ltac cbs :=
  let Hl := fresh "Hl" in
  let Hq := fresh "Hq" in
  let Hi := fresh "Hi" in
  intros ? (Hl & Hq & Hi); unfold cbs_ok; projs;
  repeat match goal with
         | |- _ /\ _ => split
         | |- Forall _ (_ ++ _) => apply Forall_app; split
         | |- Forall _ (splice1 _ _) => apply Forall_splice1
         | |- Forall _ (filter _ _) => apply Forall_filter
         | |- Forall _ [] => constructor
         | |- Forall _ [_] => constructor; [|constructor]
         end;
  cbn [immediate_ok]; auto.

Ltac quiet_parts :=
  unfold quiet;
  split; [try reflexivity|
  split; [try reflexivity|
  split; [intros; reflexivity|try solve [cbs]]]].

Ltac quiet_leaf :=
  first
    [ solve [apply comp_refl]
    | try match goal with |- context [indexOf ?b ?x] => destruct (indexOf b x) end;
      quiet_parts ].

Ltac quiet_tac := obey_with ltac:(auto with quiet) quiet_leaf.

Lemma call_quiet (ok : Prop) cb a s : obeys_at (quiet ok) (call None cb a) s.
Proof. unfold call. destruct cb; quiet_tac. Qed.

Lemma setTimeout_quiet (ok : Prop) ms k s : obeys_at (quiet ok) (setTimeout ms k) s.
Proof. unfold setTimeout. quiet_tac. Qed.

Lemma clearTimeout_quiet (ok : Prop) which s : obeys_at (quiet ok) (clearTimeout which) s.
Proof. unfold clearTimeout. quiet_tac. Qed.

Lemma setImmediate_sweep_quiet (ok : Prop) bl s :
  obeys_at (quiet ok) (setImmediate (ISweep bl)) s.
Proof. unfold setImmediate. quiet_tac. Qed.

Lemma unpi_send_quiet (ok : Prop) t sub c p s : obeys_at (quiet ok) (unpi_send t sub c p) s.
Proof. unfold unpi_send. quiet_tac. Qed.

Lemma _scheduleNextSend_quiet (ok : Prop) early s :
  obeys_at (quiet ok) (_scheduleNextSend early) s.
Proof.
  unfold obeys_at, _scheduleNextSend, setImmediate. mrun.
  destruct (_txQueue s) as [|head tail] eqn:Hqueue; [apply comp_refl|].
  destruct early.
  - destruct (findIndex (not_in_backlog (_backlog s)) (head :: tail)) as [pos|];
      [|apply comp_refl].
    mrun. unfold quiet. split; [|split; [|split]]; try reflexivity.
    intros _ (Hl & Hq & Hi). unfold cbs_ok. projs. rewrite Hqueue in Hq.
    split; [exact Hl|]. split.
    + apply Forall_splice1. exact Hq.
    + apply Forall_app. split; [exact Hi|]. constructor; [|constructor].
      unfold immediate_ok. apply Forall_nth_default; [|exact Hq]. inversion Hq; assumption.
  - mrun. unfold quiet. split; [|split; [|split]]; try reflexivity.
    intros _ (Hl & Hq & Hi). unfold cbs_ok. projs. rewrite Hqueue in Hq.
    inversion Hq; subst. split; [exact Hl|]. split; [assumption|].
    apply Forall_app. split; [exact Hi|]. constructor; [assumption|constructor].
Qed.

#[local] Hint Resolve call_quiet setTimeout_quiet clearTimeout_quiet setImmediate_sweep_quiet
  unpi_send_quiet _scheduleNextSend_quiet : quiet.

Lemma settle_prefix_quiet (ok : Prop) txn evt argObj bl s :
  obeys_at (quiet ok) (settle_prefix txn evt argObj bl) s.
Proof. unfold settle_prefix. quiet_tac. Qed.

Lemma sreqNextQueue_quiet (ok : Prop) txn evt argObj s :
  obeys_at (quiet ok) (sreqNextQueue txn evt argObj) s.
Proof. unfold sreqNextQueue. quiet_tac. Qed.

Lemma reset_failsafe_quiet (ok : Prop) s : obeys_at (quiet ok) reset_failsafe s.
Proof. unfold reset_failsafe. quiet_tac. Qed.

Lemma call_all_quiet (ok : Prop) cbs arg s : obeys_at (quiet ok) (call_all cbs arg) s.
Proof. revert s. induction cbs as [|cb rest IH]; intros s; cbn [call_all]; quiet_tac. Qed.

#[local] Hint Resolve settle_prefix_quiet sreqNextQueue_quiet reset_failsafe_quiet
  call_all_quiet : quiet.

Lemma _close_quiet (ok : Prop) cb s : obeys_at (quiet ok) (_close cb) s.
Proof. unfold _close, sp_close. quiet_tac. Qed.

#[local] Hint Resolve _close_quiet : quiet.

Lemma close_quiet (ok : Prop) cb s : obeys_at (quiet ok) (close cb) s.
Proof. unfold close. quiet_tac. Qed.

Lemma flush_done_quiet (ok : Prop) s : obeys_at (quiet ok) flush_done s.
Proof. unfold flush_done. quiet_tac. Qed.

Lemma sp_close_done_quiet (ok : Prop) arg s : obeys_at (quiet ok) (sp_close_done arg) s.
Proof. unfold sp_close_done. quiet_tac. Qed.

Lemma spErr_quiet (ok : Prop) s : obeys_at (quiet ok) spErr s.
Proof. unfold spErr. quiet_tac. Qed.

#[local] Hint Resolve close_quiet flush_done_quiet sp_close_done_quiet spErr_quiet : quiet.

Lemma registered_filter_same (id : nat) (ls : list Listener) :
  existsb (fun l => Nat.eqb (l_id l) id)
    (filter (fun l => negb (Nat.eqb (l_id l) id)) ls) = false.
Proof.
  induction ls as [|l ls IH]; cbn; [reflexivity|].
  destruct (Nat.eqb (l_id l) id) eqn:E; cbn; [exact IH|]. rewrite E. exact IH.
Qed.

Lemma registered_filter_other (id t : nat) (ls : list Listener) :
  t <> id ->
  existsb (fun l => Nat.eqb (l_id l) t)
    (filter (fun l => negb (Nat.eqb (l_id l) id)) ls)
  = existsb (fun l => Nat.eqb (l_id l) t) ls.
Proof.
  intros Hne. induction ls as [|l ls IH]; cbn; [reflexivity|].
  destruct (Nat.eqb (l_id l) id) eqn:E; cbn.
  - apply Nat.eqb_eq in E. replace (Nat.eqb (l_id l) t) with false; [exact IH|].
    symmetry. apply Nat.eqb_neq. congruence.
  - rewrite IH. reflexivity.
Qed.

Lemma registered_bounded (id : nat) (s : State) :
  ids_bounded s -> registered id s = true -> (id < next_id s)%nat.
Proof.
  intros Hb Hr. destruct (Nat.ltb_spec id (next_id s)) as [|Hge]; [assumption|].
  pose proof (pend_unbounded id s Hb Hge) as Hz. unfold pend in Hz.
  rewrite Hr in Hz. discriminate.
Qed.

(** The last statement of the response listener calls the callback
    once when it is a function, and does nothing else to the listeners. *)
Lemma settle_final_spec (txn : nat) (cb : jsval) (result : EvArg) (s : State) :
  let r := settle_final txn cb result s in
  listeners (r_st r) = listeners s /\
  next_id (r_st r) = next_id s /\
  _txQueue (r_st r) = _txQueue s /\
  immediates (r_st r) = immediates s /\
  r_out r = match cb with
            | JFun f => [ECallback (Some txn) f (outcome result)]
            | JThrows g _ => [ECallbackThrew (Some txn) g (outcome result)]
            | _ => []
            end.
Proof.
  unfold settle_final, call. destruct result, cb; cbn; repeat split.
Qed.

Lemma reset_listener_spec (id : nat) (cb : jsval) (s : State) :
  let r := reset_listener id cb s in
  listeners (r_st r) = listeners s /\
  next_id (r_st r) = next_id s /\
  _txQueue (r_st r) = _txQueue s /\
  immediates (r_st r) = immediates s /\
  r_out r = match cb with
            | JFun f => [ECallback (Some id) f CbNull]
            | JThrows g _ => [ECallbackThrew (Some id) g CbNull]
            | _ => []
            end.
Proof.
  unfold reset_listener, call. destruct cb; cbn; repeat split.
Qed.

Lemma settle_prefix_returns (txn : nat) (evt : string) (argObj : ArgObj) (bl : list JsRef)
    (s : State) :
  r_val (settle_prefix txn evt argObj bl s) = inr tt.
Proof.
  unfold settle_prefix, clearTimeout, _scheduleNextSend, setImmediate.
  destruct (_spinLock s) eqn:Hlock; mrun; rewrite ?Hlock; cbn [negb]; mrun.
  - projs. match goal with |- context [indexOf ?b ?x] => destruct (indexOf b x) end;
      projs; destruct (_txQueue s); mrun; reflexivity.
  - reflexivity.
Qed.

(** What a listener's function does, for the relation of settling. *)
Lemma run_listener_spec (ok : Prop) (l : Listener) (a : EvArg) (s : State) :
  let r := run_listener l a s in
  listeners (r_st r) = listeners s /\
  next_id (r_st r) = next_id s /\
  (forall t, t <> l_id l -> fired t (r_out r) = 0%nat) /\
  (fired (l_id l) (r_out r) <= 1)%nat /\
  (is_function (callback_of l) -> fired (l_id l) (r_out r) = 1%nat) /\
  (ok -> cbs_ok s -> cbs_ok (r_st r)).
Proof.
  unfold run_listener, callback_of. destruct (l_body l) as [argObj valObj cb bl|cb].
  - rewrite srsp_listener_split. unfold bind.
    rewrite settle_prefix_returns.
    pose proof (settle_prefix_quiet ok (l_id l) (l_evt l) argObj bl s) as Hq.
    unfold obeys_at, quiet in Hq. destruct Hq as (Hl & Hn & Hf & Hc).
    set (s1 := r_st (settle_prefix (l_id l) (l_evt l) argObj bl s)) in *.
    destruct (settle_final_spec (l_id l) cb a s1) as (Hl2 & Hn2 & Hq2 & Hi2 & Hout).
    cbn [r_st r_out r_val]. rewrite Hout.
    split; [congruence|]. split; [congruence|]. split; [|split; [|split]].
    + intros t Ht. rewrite fired_app, Hf. destruct cb; try reflexivity;
        unfold fired; cbn; (replace (Nat.eqb (l_id l) t) with false; [reflexivity|]);
        symmetry; apply Nat.eqb_neq; congruence.
    + rewrite fired_app, Hf. destruct cb; cbn; try lia;
        unfold fired; cbn; rewrite Nat.eqb_refl; cbn; lia.
    + intros [f ->]. rewrite fired_app, Hf. unfold fired. cbn.
      rewrite Nat.eqb_refl. reflexivity.
    + intros Hok Hcs. specialize (Hc Hok Hcs). unfold cbs_ok in *.
      rewrite Hl2, Hq2, Hi2. exact Hc.
  - destruct (reset_listener_spec (l_id l) cb s) as (Hl2 & Hn2 & Hq2 & Hi2 & Hout).
    cbn zeta. rewrite Hout.
    split; [assumption|]. split; [assumption|]. split; [|split; [|split]].
    + intros t Ht. destruct cb; try reflexivity;
        unfold fired; cbn; (replace (Nat.eqb (l_id l) t) with false; [reflexivity|]);
        symmetry; apply Nat.eqb_neq; congruence.
    + destruct cb; cbn; try lia; unfold fired; cbn; rewrite Nat.eqb_refl; cbn; lia.
    + intros [f ->]. unfold fired. cbn. rewrite Nat.eqb_refl. reflexivity.
    + intros _ Hcs. unfold cbs_ok in *. rewrite Hl2, Hq2, Hi2. exact Hcs.
Qed.

(** One wrapper firing: the listener leaves, its callback is called. *)
Lemma fire_one_settles (ok : Prop) (l : Listener) (a : EvArg) (s : State) :
  registered (l_id l) s = true ->
  (ok -> is_function (callback_of l)) ->
  obeys_at (settles ok) (removeListener (l_id l);; run_listener l a) s.
Proof.
  intros Hreg Hfun. unfold obeys_at, removeListener. rewrite bind_modify.
  set (s1 := set_listeners (filter (fun l' => negb (Nat.eqb (l_id l') (l_id l))) (listeners s)) s).
  destruct (run_listener_spec ok l a s1) as (Hl & Hn & Hother & Hle & Heq & Hc).
  set (r := run_listener l a s1) in *.
  intros Hb.
  assert (Hp_same : pend (l_id l) (r_st r) = 0%nat).
  { unfold pend, registered. rewrite Hl. subst s1. projs.
    rewrite registered_filter_same. reflexivity. }
  assert (Hp_other : forall t, t <> l_id l -> pend t (r_st r) = pend t s).
  { intros t Ht. unfold pend, registered. rewrite Hl. subst s1. projs.
    rewrite registered_filter_other by assumption. reflexivity. }
  assert (Hb' : ids_bounded (r_st r)).
  { unfold ids_bounded. rewrite Hl, Hn. subst s1. projs. apply Forall_filter. exact Hb. }
  assert (Hlt : (l_id l < next_id s)%nat) by (apply registered_bounded; assumption).
  assert (Hps : pend (l_id l) s = 1%nat) by (unfold pend; rewrite Hreg; reflexivity).
  assert (Hiss : forall t, issued t s (r_st r) = pend t s).
  { intros t. unfold issued. rewrite Hn. subst s1. projs.
    fold (issued t s s). apply issued_same. exact Hb. }
  split; [exact Hb'|]. split; [rewrite Hn; subst s1; projs; lia|]. split.
  - intros t. rewrite Hiss. destruct (Nat.eq_dec t (l_id l)) as [->|Hne].
    + rewrite Hp_same, Hps. lia.
    + rewrite Hother, Hp_other by assumption. lia.
  - intros Hok Hcs. split.
    + apply Hc; [exact Hok|]. subst s1. destruct Hcs as (H1 & H2 & H3).
      unfold cbs_ok. projs. split; [apply Forall_filter; exact H1|]. split; assumption.
    + intros t. rewrite Hiss. destruct (Nat.eq_dec t (l_id l)) as [->|Hne].
      * rewrite Hp_same, Hps, Heq by auto. reflexivity.
      * rewrite Hother, Hp_other by assumption. reflexivity.
Qed.

Lemma obeys_quiet_settles (ok : Prop) {A} (m : M A) (s : State) :
  obeys_at (quiet ok) m s -> obeys_at (settles ok) m s.
Proof. unfold obeys_at. apply quiet_settles. Qed.

Create HintDb settle discriminated.

Ltac settle_known :=
  first
    [ solve [auto with settle]
    | solve [apply obeys_quiet_settles; auto with quiet] ].

Ltac settle_leaf :=
  first
    [ solve [apply comp_refl]
    | solve [apply quiet_settles; quiet_leaf] ].

Ltac settle := obey_with settle_known settle_leaf.

Lemma fire_settles (ok : Prop) (snapshot : list Listener) (a : EvArg) (s : State) :
  (ok -> Forall (fun l => is_function (callback_of l)) snapshot) ->
  obeys_at (settles ok) (fire run_listener snapshot a) s.
Proof.
  revert s. induction snapshot as [|l rest IH]; intros s Hfun; cbn [fire].
  - settle.
  - assert (Hl : ok -> is_function (callback_of l))
      by (intros Hok; specialize (Hfun Hok); inversion Hfun; assumption).
    assert (Hrest : ok -> Forall (fun l => is_function (callback_of l)) rest)
      by (intros Hok; specialize (Hfun Hok); inversion Hfun; assumption).
    pose proof fire_one_settles as Hone.
    settle.
Qed.

#[local] Hint Resolve fire_settles : settle.

Lemma on_error_settles (ok : Prop) (em : string -> EvArg -> M unit) data s :
  (forall evt a s', obeys_at (settles ok) (em evt a) s') ->
  obeys_at (settles ok) (on_error em data) s.
Proof. intros Hem. unfold on_error. settle. Qed.

Lemma obeys_settles_self (ok : Prop) {A} (m : M A) (s : State) :
  obeys_at (settles (ok /\ cbs_ok s)) m s -> obeys_at (settles ok) m s.
Proof. unfold obeys_at. apply settles_self. Qed.

Lemma obeys_settles_weaken (ok ok' : Prop) {A} (m : M A) (s : State) :
  (ok' -> ok) -> obeys_at (settles ok) m s -> obeys_at (settles ok') m s.
Proof. unfold obeys_at. apply settles_weaken. Qed.

Lemma nested_emit_settles (stack : nat) :
  (forall ok evt a s, obeys_at (settles ok) (emit_within stack evt a) s) ->
  forall ok evt a s, obeys_at (settles ok) (nested_emit (S stack) evt a) s.
Proof. intros IH ok evt a s. apply IH. Qed.

Lemma emit_within_settles :
  forall stack ok evt a s, obeys_at (settles ok) (emit_within stack evt a) s.
Proof.
  assert (Hbody : forall stack,
            (forall ok evt a s, obeys_at (settles ok) (nested_emit stack evt a) s) ->
            forall ok evt a s, obeys_at (settles ok) (emit_within stack evt a) s).
  { intros stack Hnested ok evt a s. apply obeys_settles_self.
    rewrite emit_within_eq.
    pose proof on_error_settles as Herr.
    settle. apply fire_settles. intros [_ (Hl & _ & _)]. apply Forall_filter. exact Hl. }
  induction stack as [|stack IH]; apply Hbody.
  - intros ok evt a s. cbn. settle.
  - exact IH.
Qed.

Lemma emit_settles (ok : Prop) (evt : string) (a : EvArg) (s : State) :
  obeys_at (settles ok) (emit evt a) s.
Proof. apply emit_within_settles. Qed.

#[local] Hint Resolve emit_settles : settle.

Lemma sreqTimeout_settles (ok : Prop) evt s : obeys_at (settles ok) (sreqTimeout emit evt) s.
Proof. unfold sreqTimeout. settle. Qed.

Lemma sweep_settles (ok : Prop) backlog s : obeys_at (settles ok) (sweep emit backlog) s.
Proof.
  revert s. induction backlog as [|x rest IH]; intros s; cbn [sweep]; settle.
Qed.

#[local] Hint Resolve sreqTimeout_settles sweep_settles : settle.

Lemma registered_snoc (t : nat) (ls : list Listener) (l : Listener) :
  existsb (fun l' => Nat.eqb (l_id l') t) (ls ++ [l])
  = (existsb (fun l' => Nat.eqb (l_id l') t) ls || Nat.eqb (l_id l) t)%bool.
Proof. rewrite existsb_app. cbn. rewrite orb_false_r. reflexivity. Qed.

Lemma once_settles (ok : Prop) (evt : string) (body : LBody) (s : State) :
  (ok -> is_function (callback_of (mkListener 0 evt body))) ->
  obeys_at (settles ok) (once evt body) s.
Proof.
  intros Hfun. unfold once. apply obeys_at_modify. intros Hb.
  set (s' := set_next_id _ _).
  assert (Hb' : ids_bounded s').
  { unfold ids_bounded. subst s'. projs. apply Forall_app. split.
    - eapply Forall_impl; [|exact Hb]. cbn. intros; lia.
    - constructor; [cbn; lia|constructor]. }
  assert (Heq : forall t, (fired t [] + pend t s')%nat = issued t s s').
  { intros t. unfold issued. change (fired t []) with 0%nat. rewrite Nat.add_0_l.
    destruct (Nat.ltb_spec t (next_id s)) as [Hlt|Hge].
    - unfold pend, registered. subst s'. projs. rewrite registered_snoc. cbn [l_id].
      replace (Nat.eqb (next_id s) t) with false
        by (symmetry; apply Nat.eqb_neq; lia).
      rewrite orb_false_r. reflexivity.
    - destruct (Nat.ltb_spec t (next_id s')) as [Hlt'|Hge'].
      + subst s'. revert Hlt'. projs. intros Hlt'. assert (t = next_id s) by lia. subst t.
        unfold pend, registered. projs. rewrite registered_snoc. cbn [l_id].
        rewrite Nat.eqb_refl, orb_true_r. reflexivity.
      + apply pend_unbounded; assumption. }
  split; [exact Hb'|]. split; [subst s'; projs; lia|]. split.
  - intros t. rewrite Heq. lia.
  - intros Hok (Hl & Hq & Hi). split; [|exact Heq].
    unfold cbs_ok. subst s'. projs. split; [|split; assumption].
    apply Forall_app. split; [exact Hl|]. constructor; [|constructor].
    apply Hfun. exact Hok.
Qed.

Lemma _sendSREQ_settles (ok : Prop) argObj valObj cb s :
  (ok -> is_function cb) ->
  obeys_at (settles ok) (_sendSREQ argObj valObj cb) s.
Proof.
  intros Hfun. unfold _sendSREQ. pose proof (once_settles ok) as Honce. settle.
Qed.

Lemma _sendAREQ_settles (ok : Prop) argObj cb s :
  (ok -> is_function cb) ->
  obeys_at (settles ok) (_sendAREQ argObj cb) s.
Proof.
  intros Hfun. unfold _sendAREQ. pose proof (once_settles ok) as Honce. settle.
Qed.

#[local] Hint Resolve _sendSREQ_settles _sendAREQ_settles : settle.

Lemma request_settles (ok : Prop) subsys cmd valObj cb s :
  (ok -> is_function cb) ->
  obeys_at (settles ok) (request subsys cmd valObj cb) s.
Proof.
  intros Hfun. unfold request. settle.
Qed.

#[local] Hint Resolve request_settles : settle.

Lemma entry_fn_settles (ok : Prop) entry s :
  (ok -> is_function (e_callback entry)) ->
  obeys_at (settles ok) (entry_fn entry) s.
Proof. intros Hfun. unfold entry_fn. settle. Qed.

Lemma _mtIncomingDataHdlr_settles (ok : Prop) err type subsys cmd result s :
  obeys_at (settles ok) (_mtIncomingDataHdlr err type subsys cmd result) s.
Proof. unfold _mtIncomingDataHdlr. settle. Qed.

#[local] Hint Resolve entry_fn_settles _mtIncomingDataHdlr_settles : settle.

Lemma _parseMtIncomingData_settles (ok : Prop) data s :
  obeys_at (settles ok) (_parseMtIncomingData data) s.
Proof. unfold _parseMtIncomingData. settle. Qed.

#[local] Hint Resolve _parseMtIncomingData_settles : settle.

Lemma step_settles (ev : Event) (s : State) : obeys_at (settles (ev_ok ev)) (step ev) s.
Proof.
  destruct ev; cbn [ev_ok]; unfold step, spOpen, spClose, run_timer, run_immediate.
  - settle.
  - settle.
  - settle.
  - settle.
  - settle.
  - settle.
  - apply obeys_settles_self. settle.
    + apply quiet_settles. unfold quiet. projs. split; [|split; [|split]]; try reflexivity.
      intros _ (Hl & Hq & Hi). unfold cbs_ok. projs. repeat split; auto.
      match goal with H : immediates s = _ |- _ => rewrite H in Hi end.
      inversion Hi; assumption.
    + apply entry_fn_settles. intros [_ (_ & _ & Hi)].
      match goal with H : immediates s = _ |- _ => rewrite H in Hi end.
      inversion Hi; assumption.
  - settle.
  - settle.
  - settle.
    all: apply quiet_settles; unfold quiet; projs; split; [|split; [|split]];
      try reflexivity; intros _ (Hl & Hq & Hi); unfold cbs_ok; projs; repeat split; auto.
  - settle.
  - settle. destruct (_sp s); settle_leaf.
Qed.

Lemma fired_thrown (t : nat) (out : list Effect) (e : Error) :
  fired t (out ++ [EThrown e]) = fired t out.
Proof. rewrite fired_app. cbn. lia. Qed.

Lemma settles_thrown (ok : Prop) (s s' : State) (out : list Effect) (e : Error) :
  settles ok s s' out -> settles ok s s' (out ++ [EThrown e]).
Proof.
  unfold settles. intros H Hb. destruct (H Hb) as (H1 & H2 & H3 & H4).
  split; [exact H1|]. split; [exact H2|]. split.
  - intros t. rewrite fired_thrown. apply H3.
  - intros Hok Hc. destruct (H4 Hok Hc) as [H5 H6]. split; [exact H5|].
    intros t. rewrite fired_thrown. apply H6.
Qed.

Lemma run_settles (evs : list Event) (s : State) :
  settles (Forall ev_ok evs) s (fst (run evs s)) (snd (run evs s)).
Proof.
  revert s. induction evs as [|ev rest IH]; intros s.
  - apply comp_refl.
  - rewrite run_cons. cbn [fst snd].
    apply (@comp_trans _ (settles_compositional (Forall ev_ok (ev :: rest)))
             s (fst (exec ev s))).
    + apply settles_weaken with (ok := ev_ok ev).
      { intros H. inversion H; assumption. }
      unfold exec. cbn [fst snd].
      pose proof (step_settles ev s) as Hstep. unfold obeys_at in Hstep.
      destruct (r_val (step ev s)); [apply settles_thrown; exact Hstep|].
      rewrite app_nil_r. exact Hstep.
    + apply settles_weaken with (ok := Forall ev_ok rest).
      { intros H. inversion H; assumption. }
      apply IH.
Qed.

Lemma ids_bounded_new : ids_bounded new_CcZnp.
Proof. constructor. Qed.

Lemma cbs_ok_new : cbs_ok new_CcZnp.
Proof. repeat split; constructor. Qed.

(** Take any run of a fresh engine, cut anywhere into a first part
    and a later part, and any listener identity [t].  The callback of
    [t] is called at most once in the whole run.  If after the first
    part [t] has been sent and its listener is gone, nothing in the
    later part calls its callback.  When every request was made with a
    function as callback, each transaction sent by the end of the run
    is either still pending or has had its callback called exactly
    once. *)
Lemma settled_once (evs1 evs2 : list Event) (t : nat) :
  let first := run evs1 new_CcZnp in
  let later := run evs2 (fst first) in
  (fired t (snd first ++ snd later) <= 1)%nat /\
  ((t < next_id (fst first))%nat -> registered t (fst first) = false ->
   fired t (snd later) = 0%nat) /\
  (Forall ev_ok (evs1 ++ evs2) -> (t < next_id (fst later))%nat ->
   (fired t (snd first ++ snd later) + pend t (fst later))%nat = 1%nat).
Proof.
  intros first later.
  pose proof (run_settles (evs1 ++ evs2) new_CcZnp ids_bounded_new) as Hall.
  rewrite run_app in Hall. cbn [fst snd] in Hall. fold first in Hall. fold later in Hall.
  destruct Hall as (_ & _ & Hle & Heq).
  pose proof (run_settles evs1 new_CcZnp ids_bounded_new) as Hfirst.
  fold first in Hfirst. destruct Hfirst as (Hb1 & _ & _ & _).
  pose proof (run_settles evs2 (fst first) Hb1) as Hlater.
  fold later in Hlater. destruct Hlater as (_ & _ & Hle2 & _).
  split; [|split].
  - specialize (Hle t). unfold issued in Hle. cbn [next_id new_CcZnp] in Hle.
    change (t <? 0)%nat with false in Hle. cbv iota in Hle.
    destruct (t <? next_id (fst later))%nat; lia.
  - intros Hlt Hreg. specialize (Hle2 t). unfold issued in Hle2.
    destruct (Nat.ltb_spec t (next_id (fst first))); [|lia].
    unfold pend at 2 in Hle2. rewrite Hreg in Hle2. lia.
  - intros Hok Hlt. destruct (Heq Hok cbs_ok_new) as [_ He]. specialize (He t).
    unfold issued in He. cbn [next_id new_CcZnp] in He.
    change (t <? 0)%nat with false in He. cbv iota in He.
    destruct (Nat.ltb_spec t (next_id (fst later))); [exact He|lia].
Qed.

(* ================================================================== *)
(** ** A trigger settles every listener of its event *)
(* ================================================================== *)

Lemma run_listener_returns (l : Listener) (a : EvArg) (s : State) :
  is_function (callback_of l) -> r_val (run_listener l a s) = inr tt.
Proof.
  unfold run_listener, callback_of. destruct (l_body l) as [argObj valObj cb bl|cb];
    intros [f ->].
  - rewrite srsp_listener_split. unfold bind. rewrite settle_prefix_returns.
    cbn [r_val]. unfold settle_final. destruct a; reflexivity.
  - reflexivity.
Qed.

Lemma try_catch_swallows (m : M unit) (s : State) :
  r_val (try_catch m (fun _ => ret tt) s) = inr tt.
Proof. unfold try_catch. destruct (m s) as [[e|[]] s' o]; reflexivity. Qed.

Lemma on_error_returns (em : string -> EvArg -> M unit) (data : EvArg) (s : State) :
  r_val (on_error em data s) = inr tt.
Proof. unfold on_error. apply try_catch_swallows. Qed.

(** Identities that existed and were free stay free. *)
Lemma settles_stays_free (ok : Prop) (s s' : State) (out : list Effect) (t : nat) :
  settles ok s s' out -> ids_bounded s ->
  (t < next_id s)%nat -> registered t s = false -> registered t s' = false.
Proof.
  intros H Hb Hlt Hreg. destruct (H Hb) as (_ & _ & Hle & _). specialize (Hle t).
  unfold issued in Hle. destruct (Nat.ltb_spec t (next_id s)); [|lia].
  unfold pend in Hle. rewrite Hreg in Hle.
  destruct (registered t s'); [lia|reflexivity].
Qed.

Lemma fire_removes (snapshot : list Listener) (a : EvArg) (s : State) :
  ids_bounded s ->
  Forall (fun l => is_function (callback_of l)) snapshot ->
  Forall (fun l => (l_id l < next_id s)%nat) snapshot ->
  let r := fire run_listener snapshot a s in
  r_val r = inr tt /\ forall l, In l snapshot -> registered (l_id l) (r_st r) = false.
Proof.
  revert s. induction snapshot as [|l rest IH]; intros s Hb Hfun Hlt; cbn zeta.
  - split; [reflexivity|]. intros l [].
  - inversion Hfun as [|? ? Hl Hrest]; subst. inversion Hlt as [|? ? Hl_lt Hrest_lt]; subst.
    cbn [fire]. rewrite bind_get.
    set (m1 := when (registered (l_id l) s) (removeListener (l_id l);; run_listener l a)).
    assert (H1 : r_val (m1 s) = inr tt /\ registered (l_id l) (r_st (m1 s)) = false /\
                 next_id (r_st (m1 s)) = next_id s /\ ids_bounded (r_st (m1 s))).
    { subst m1. unfold when. destruct (registered (l_id l) s) eqn:Hreg.
      - unfold removeListener. rewrite bind_modify.
        set (s1 := set_listeners _ s).
        destruct (run_listener_spec True l a s1) as (Hls & Hn & _).
        split; [apply run_listener_returns; exact Hl|]. split; [|split].
        + unfold registered. rewrite Hls. subst s1. projs. apply registered_filter_same.
        + rewrite Hn. reflexivity.
        + unfold ids_bounded. rewrite Hls, Hn. subst s1. projs.
          apply Forall_filter. exact Hb.
      - cbn. auto. }
    destruct H1 as (Hval & Hgone & Hnext & Hb1).
    unfold bind. rewrite Hval. cbn [r_val r_st r_out].
    assert (Hlt1 : Forall (fun l' => (l_id l' < next_id (r_st (m1 s)))%nat) rest)
      by (rewrite Hnext; exact Hrest_lt).
    destruct (IH (r_st (m1 s)) Hb1 Hrest Hlt1) as (Hval2 & Hgone2).
    split; [exact Hval2|]. intros l' [<-|Hin]; [|apply Hgone2; exact Hin].
    eapply settles_stays_free; [apply (fire_settles True rest a (r_st (m1 s)))| | |].
    + intros _. exact Hrest.
    + exact Hb1.
    + rewrite Hnext. exact Hl_lt.
    + exact Hgone.
Qed.

(** [emit] on an event other than '_ready' leaves no listener of that
    event registered, when the callbacks are functions. *)
Lemma emit_within_removes (stack : nat) (evt : string) (a : EvArg) (s : State) :
  ids_bounded s -> cbs_ok s ->
  String.eqb evt "_ready" = false ->
  forall l, In l (listeners s) -> l_evt l = evt ->
    registered (l_id l) (r_st (emit_within stack evt a s)) = false.
Proof.
  intros Hb (Hfun & _ & _) Hready l Hin Hevt.
  rewrite emit_within_eq, bind_tell. cbn [r_st]. rewrite bind_get. cbv zeta.
  rewrite Hready. unfold when at 1. rewrite bind_ret_l.
  set (m2 := when (String.eqb evt "SRSP:RES0:error") (on_error (nested_emit stack) a)).
  assert (Hm2 : obeys_at (settles True) m2 s).
  { subst m2. pose proof on_error_settles as Herr.
    assert (Hnested : forall ok evt a s, obeys_at (settles ok) (nested_emit stack evt a) s).
    { destruct stack; cbn; intros; [settle|apply emit_within_settles]. }
    settle. }
  assert (Hval : r_val (m2 s) = inr tt).
  { subst m2. unfold when. destruct (String.eqb evt "SRSP:RES0:error");
      [apply on_error_returns|reflexivity]. }
  destruct (Hm2 Hb) as (Hb2 & Hn2 & _ & _).
  unfold bind. rewrite Hval. cbn [r_st].
  apply fire_removes.
  - exact Hb2.
  - apply Forall_filter. exact Hfun.
  - apply Forall_filter. eapply Forall_impl; [|exact Hb]. cbn. intros; lia.
  - apply filter_In. split; [exact Hin|]. unfold on_evt. rewrite Hevt. apply String.eqb_refl.
Qed.

Lemma srsp_evt_not_ready (subsys cmd : string) :
  String.eqb (srsp_evt subsys cmd) "_ready" = false.
Proof. reflexivity. Qed.

Lemma listenerCount_pos (evt : string) (l : Listener) (s : State) :
  In l (listeners s) -> l_evt l = evt -> (0 <? listenerCount evt s)%nat = true.
Proof.
  intros Hin Hevt. apply Nat.ltb_lt. unfold listenerCount.
  assert (In l (filter (on_evt evt) (listeners s))).
  { apply filter_In. split; [exact Hin|]. unfold on_evt. rewrite Hevt. apply String.eqb_refl. }
  destruct (filter (on_evt evt) (listeners s)); [contradiction|cbn; lia].
Qed.

(** The three triggers of a response listener: the 3500 ms timer, a
    reply frame, the device's error report. *)
Lemma triggers_settle (l : Listener) (s : State) :
  ids_bounded s -> cbs_ok s ->
  In l (listeners s) ->
  forall subsys cmd, l_evt l = srsp_evt subsys cmd ->
    registered (l_id l) (r_st (sreqTimeout emit (l_evt l) s)) = false /\
    (forall result,
       registered (l_id l) (r_st (_mtIncomingDataHdlr None "SRSP" subsys cmd result s)) = false) /\
    (forall data argObj,
       ZpiObject (INum (Z.land (match field data "typesubsys" with Some v => v | None => 0 end) 15))
                 (match field data "cmd" with Some c => INum c | None => IUndef end)
                 JUndefined = inr argObj ->
       a_subsys argObj = subsys -> a_cmd argObj = cmd ->
       registered (l_id l) (r_st (on_error emit data s)) = false).
Proof.
  intros Hb Hc Hin subsys cmd Hevt.
  assert (Hready : String.eqb (l_evt l) "_ready" = false)
    by (rewrite Hevt; apply srsp_evt_not_ready).
  pose proof (listenerCount_pos (l_evt l) l s Hin eq_refl) as Hcount.
  split; [|split].
  - unfold sreqTimeout. rewrite bind_get, Hcount. unfold when, emit.
    apply emit_within_removes; auto.
  - intros result. unfold _mtIncomingDataHdlr. cbn [String.eqb Ascii.eqb Bool.eqb].
    rewrite bind_get. rewrite <- Hevt, Hcount. unfold when, emit.
    apply emit_within_removes; auto.
  - intros data argObj Hzpi Hsub Hcmd. unfold on_error, try_catch.
    rewrite Hzpi. cbn [lift]. rewrite bind_ret_l, bind_get.
    rewrite Hsub, Hcmd, <- Hevt, Hcount. unfold when.
    assert (Hgone : registered (l_id l) (r_st (emit (l_evt l) AError s)) = false)
      by (unfold emit; apply emit_within_removes; auto).
    destruct (r_val (emit (l_evt l) AError s)); cbn [r_st]; exact Hgone.
Qed.

(* ================================================================== *)
(** ** A pending response listener has its timer armed *)
(* ================================================================== *)

#[local] Instance still_compositional : Compositional still.
Proof.
  split; unfold still.
  - intros s. auto.
  - intros s1 s2 s3 _ _ (H1 & H2 & H3 & H3') (H4 & H5 & H6 & H6').
    repeat split; congruence.
Qed.

#[local] Instance clears_compositional (id : nat) : Compositional (clears id).
Proof.
  split; unfold clears.
  - intros s. auto.
  - intros s1 s2 s3 _ _ (H1 & H2 & H3) (H4 & H5 & H6).
    split; [congruence|]. split; [congruence|].
    intros tm Hin. destruct (H3 tm Hin) as [Hin2|Hown]; [|right; exact Hown].
    apply H6. exact Hin2.
Qed.

Lemma registered_In (l : Listener) (s : State) :
  In l (listeners s) -> registered (l_id l) s = true.
Proof.
  intros Hin. unfold registered. apply existsb_exists. exists l.
  split; [exact Hin|apply Nat.eqb_refl].
Qed.

Lemma armed_listener_kept (l : Listener) (s s' : State) :
  (forall tm, In tm (timers s) ->
     In tm (timers s') \/
     exists txn, owner (t_kind tm) = Some txn /\ (txn < next_id s')%nat /\
                 registered txn s' = false) ->
  In l (listeners s') -> armed_listener l s -> armed_listener l s'.
Proof.
  intros Hk Hin. unfold armed_listener. destruct (l_body l); [|auto].
  intros (Hevt & tm & Htm & Hkind). split; [exact Hevt|].
  destruct (Hk tm Htm) as [Htm'|(txn & Hown & _ & Hfree)].
  - exists tm. auto.
  - rewrite Hkind in Hown. cbn in Hown. injection Hown as <-.
    rewrite (registered_In l s' Hin) in Hfree. discriminate.
Qed.

#[local] Instance arms_compositional : Compositional arms.
Proof.
  split; unfold arms.
  - intros s Hb. split; [exact Hb|]. split; [lia|]. split; [auto|]. split; auto.
  - intros s1 s2 s3 _ _ H1 H2 Hb1.
    destruct (H1 Hb1) as (Hb2 & Hn1 & Hs1 & Hk1 & Hw1).
    destruct (H2 Hb2) as (Hb3 & Hn2 & Hs2 & Hk2 & Hw2).
    split; [exact Hb3|]. split; [lia|]. split; [|split].
    + intros t Hreg. destruct (Hs2 t Hreg) as [Hreg2|Hge]; [|right; lia].
      destruct (Hs1 t Hreg2) as [Hreg1|Hge]; [left; exact Hreg1|right; lia].
    + intros tm Hin. destruct (Hk1 tm Hin) as [Hin2|(txn & Hown & Hlt & Hfree)].
      * apply Hk2. exact Hin2.
      * right. exists txn. split; [exact Hown|]. split; [lia|].
        destruct (registered txn s3) eqn:Hreg; [|reflexivity].
        destruct (Hs2 txn Hreg) as [Hreg2|Hge]; [congruence|lia].
    + intros l Hin. destruct (Hw2 l Hin) as [Hin2|Harmed]; [|right; exact Harmed].
      destruct (Hw1 l Hin2) as [Hin1|Harmed]; [left; exact Hin1|].
      right. exact (armed_listener_kept l s2 s3 Hk2 Hin Harmed).
Qed.

Lemma still_clears (id : nat) (s s' : State) (out : list Effect) :
  still s s' out -> clears id s s' out.
Proof.
  unfold still, clears. intros (H1 & H2 & H3 & _). rewrite H2. auto.
Qed.

Lemma same_arms (s s' : State) (out : list Effect) :
  listeners s' = listeners s -> timers s' = timers s -> next_id s' = next_id s ->
  arms s s' out.
Proof.
  unfold arms. intros H1 H2 H3 Hb.
  split; [unfold ids_bounded in *; rewrite H1, H3; exact Hb|].
  split; [lia|]. split; [|split].
  - intros t Hreg. left. unfold registered in *. rewrite <- H1. exact Hreg.
  - intros tm Hin. left. rewrite H2. exact Hin.
  - intros l Hin. left. rewrite <- H1. exact Hin.
Qed.

Lemma still_arms (s s' : State) (out : list Effect) : still s s' out -> arms s s' out.
Proof. intros (H1 & H2 & H3 & _). apply same_arms; assumption. Qed.

Lemma arms_armed (s s' : State) (out : list Effect) :
  arms s s' out -> ids_bounded s -> armed s -> armed s'.
Proof.
  intros H Hb Harmed. destruct (H Hb) as (_ & _ & _ & Hk & Hw).
  intros l Hin. destruct (Hw l Hin) as [Hin0|Ha]; [|exact Ha].
  exact (armed_listener_kept l s s' Hk Hin (Harmed l Hin0)).
Qed.

Create HintDb still discriminated.

Ltac still_leaf :=
  first
    [ solve [apply comp_refl]
    | try match goal with |- context [indexOf ?b ?x] => destruct (indexOf b x) end;
      try match goal with |- context [_sp ?s] => destruct (_sp s) end;
      unfold still; projs; repeat split; reflexivity ].

Ltac still_tac := obey_with ltac:(auto with still) still_leaf.

Lemma call_still by_l cb a s : obeys_at still (call by_l cb a) s.
Proof. unfold call. destruct cb; still_tac. Qed.

Lemma setImmediate_still i s : obeys_at still (setImmediate i) s.
Proof. unfold setImmediate. still_tac. Qed.

Lemma unpi_send_still t sub c p s : obeys_at still (unpi_send t sub c p) s.
Proof. unfold unpi_send. still_tac. Qed.

#[local] Hint Resolve call_still setImmediate_still unpi_send_still : still.

Lemma _scheduleNextSend_still early s : obeys_at still (_scheduleNextSend early) s.
Proof. unfold _scheduleNextSend. still_tac. Qed.

#[local] Hint Resolve _scheduleNextSend_still : still.

Lemma sreqNextQueue_still txn evt argObj s : obeys_at still (sreqNextQueue txn evt argObj) s.
Proof. unfold sreqNextQueue. still_tac. Qed.

Lemma reset_failsafe_still s : obeys_at still reset_failsafe s.
Proof. unfold reset_failsafe. still_tac. Qed.

Lemma call_all_still cbs arg s : obeys_at still (call_all cbs arg) s.
Proof. revert s. induction cbs as [|cb rest IH]; intros s; cbn [call_all]; still_tac. Qed.

#[local] Hint Resolve sreqNextQueue_still reset_failsafe_still call_all_still : still.

Lemma _close_still cb s : obeys_at still (_close cb) s.
Proof. unfold _close, sp_close. still_tac. Qed.

#[local] Hint Resolve _close_still : still.

Lemma close_still cb s : obeys_at still (close cb) s.
Proof. unfold close. still_tac. Qed.

Lemma flush_done_still s : obeys_at still flush_done s.
Proof. unfold flush_done. still_tac. Qed.

Lemma sp_close_done_still arg s : obeys_at still (sp_close_done arg) s.
Proof. unfold sp_close_done. still_tac. Qed.

Lemma spErr_still s : obeys_at still spErr s.
Proof. unfold spErr. still_tac. Qed.

Lemma settle_final_still txn cb result s : obeys_at still (settle_final txn cb result) s.
Proof. unfold settle_final. still_tac. Qed.

Lemma reset_listener_still id cb s : obeys_at still (reset_listener id cb) s.
Proof. unfold reset_listener. still_tac. Qed.

#[local] Hint Resolve close_still flush_done_still sp_close_done_still spErr_still
  settle_final_still reset_listener_still : still.

Lemma obeys_still_clears (id : nat) {A} (m : M A) (s : State) :
  obeys_at still m s -> obeys_at (clears id) m s.
Proof. unfold obeys_at. apply still_clears. Qed.

Lemma obeys_still_arms {A} (m : M A) (s : State) :
  obeys_at still m s -> obeys_at arms m s.
Proof. unfold obeys_at. apply still_arms. Qed.

Lemma clearTimeout_clears (id : nat) (which : TimerKind -> bool) (s : State) :
  (forall k, which k = true -> owner k = Some id) ->
  obeys_at (clears id) (clearTimeout which) s.
Proof.
  intros Hwhich. unfold clearTimeout. apply obeys_at_modify. unfold clears. projs.
  split; [reflexivity|]. split; [reflexivity|]. intros tm Hin.
  destruct (which (t_kind tm)) eqn:E.
  - right. apply Hwhich. exact E.
  - left. apply filter_In. split; [exact Hin|]. rewrite E. reflexivity.
Qed.

Lemma is_sreqTimeout_owner (id : nat) (k : TimerKind) :
  is_sreqTimeout id k = true -> owner k = Some id.
Proof. destruct k; cbn; try discriminate. intros H. apply Nat.eqb_eq in H. congruence. Qed.

Lemma is_sreqNextQueue_owner (id : nat) (k : TimerKind) :
  is_sreqNextQueue id k = true -> owner k = Some id.
Proof. destruct k; cbn; try discriminate. intros H. apply Nat.eqb_eq in H. congruence. Qed.

Ltac clears_known :=
  first
    [ solve [apply clearTimeout_clears; auto using is_sreqTimeout_owner, is_sreqNextQueue_owner]
    | solve [apply obeys_still_clears; auto with still] ].

Ltac clears_leaf :=
  first
    [ solve [apply comp_refl]
    | solve [apply still_clears; still_leaf] ].

Lemma run_listener_clears (l : Listener) (a : EvArg) (s : State) :
  obeys_at (clears (l_id l)) (run_listener l a) s.
Proof.
  unfold run_listener. destruct (l_body l).
  - unfold srsp_listener. obey_with clears_known clears_leaf.
  - obey_with clears_known clears_leaf.
Qed.

Lemma fire_one_arms (l : Listener) (a : EvArg) (s : State) :
  registered (l_id l) s = true ->
  obeys_at arms (removeListener (l_id l);; run_listener l a) s.
Proof.
  intros Hreg. unfold obeys_at, removeListener. rewrite bind_modify.
  set (s1 := set_listeners (filter (fun l' => negb (Nat.eqb (l_id l') (l_id l))) (listeners s)) s).
  pose proof (run_listener_clears l a s1) as (Hl & Hn & Hk).
  set (r := run_listener l a s1) in *. intros Hb.
  assert (Hb' : ids_bounded (r_st r)).
  { unfold ids_bounded. rewrite Hl, Hn. subst s1. projs. apply Forall_filter. exact Hb. }
  split; [exact Hb'|]. split; [rewrite Hn; subst s1; projs; lia|]. split; [|split].
  - intros t Ht. left. unfold registered in *. rewrite Hl in Ht. subst s1. revert Ht. projs.
    intros Ht. apply existsb_exists in Ht as (l' & Hin & Heq).
    apply existsb_exists. exists l'. split; [|exact Heq].
    apply filter_In in Hin. tauto.
  - intros tm Hin. destruct (Hk tm Hin) as [Hin'|Hown]; [left; exact Hin'|].
    right. exists (l_id l). split; [exact Hown|]. split.
    + rewrite Hn. subst s1. projs. apply registered_bounded; assumption.
    + unfold registered. rewrite Hl. subst s1. projs. apply registered_filter_same.
  - intros l' Hin. left. rewrite Hl in Hin. subst s1. revert Hin. projs.
    intros Hin. apply filter_In in Hin. tauto.
Qed.

Create HintDb arm discriminated.

Ltac arm_known :=
  first
    [ solve [auto with arm]
    | solve [apply obeys_still_arms; auto with still] ].

Ltac arm_leaf :=
  first
    [ solve [apply comp_refl]
    | solve [apply still_arms; still_leaf] ].

Ltac arm := obey_with arm_known arm_leaf.

#[local] Hint Resolve fire_one_arms : arm.

Lemma fire_arms (snapshot : list Listener) (a : EvArg) (s : State) :
  obeys_at arms (fire run_listener snapshot a) s.
Proof.
  revert s. induction snapshot as [|l rest IH]; intros s; cbn [fire]; arm.
Qed.

#[local] Hint Resolve fire_arms : arm.

Lemma on_error_arms (em : string -> EvArg -> M unit) data s :
  (forall evt a s', obeys_at arms (em evt a) s') ->
  obeys_at arms (on_error em data) s.
Proof. intros Hem. unfold on_error. arm. Qed.

Lemma emit_within_arms :
  forall stack evt a s, obeys_at arms (emit_within stack evt a) s.
Proof.
  assert (Hbody : forall stack,
            (forall evt a s, obeys_at arms (nested_emit stack evt a) s) ->
            forall evt a s, obeys_at arms (emit_within stack evt a) s).
  { intros stack Hnested evt a s. rewrite emit_within_eq.
    pose proof on_error_arms as Herr. arm. }
  induction stack as [|stack IH]; apply Hbody.
  - intros evt a s. cbn. arm.
  - exact IH.
Qed.

Lemma emit_arms (evt : string) (a : EvArg) (s : State) : obeys_at arms (emit evt a) s.
Proof. apply emit_within_arms. Qed.

#[local] Hint Resolve emit_arms : arm.

Lemma sreqTimeout_arms evt s : obeys_at arms (sreqTimeout emit evt) s.
Proof. unfold sreqTimeout. arm. Qed.

Lemma sweep_arms backlog s : obeys_at arms (sweep emit backlog) s.
Proof. revert s. induction backlog as [|x rest IH]; intros s; cbn [sweep]; arm. Qed.

#[local] Hint Resolve sreqTimeout_arms sweep_arms : arm.

Lemma setTimeout_arms ms k s : obeys_at arms (setTimeout ms k) s.
Proof.
  unfold setTimeout. apply obeys_at_modify. unfold arms. projs. intros Hb.
  split; [exact Hb|]. split; [lia|]. split; [auto|]. split; [|auto].
  intros tm Hin. left. apply in_or_app. left. exact Hin.
Qed.

(** Registering a listener whose timer, if it needs one, is there. *)
Lemma once_arms (evt : string) (body : LBody) (s : State) :
  armed_listener (mkListener (next_id s) evt body) s ->
  obeys_at arms (once evt body) s.
Proof.
  intros Harmed. unfold once. apply obeys_at_modify. unfold arms. projs. intros Hb.
  split; [|split; [lia|split; [|split]]].
  - unfold ids_bounded. projs. apply Forall_app. split.
    + eapply Forall_impl; [|exact Hb]. cbn. intros; lia.
    + constructor; [cbn; lia|constructor].
  - intros t Ht. unfold registered in *. revert Ht. projs. rewrite registered_snoc. cbn [l_id].
    intros Ht. apply orb_prop in Ht as [Ht|Ht]; [left; exact Ht|].
    right. apply Nat.eqb_eq in Ht. lia.
  - intros tm Hin. left. exact Hin.
  - intros l Hin. apply in_app_or in Hin as [Hin|[<-|[]]]; [left; exact Hin|].
    right. unfold armed_listener in *. cbn [l_body l_id l_evt] in *.
    destruct body; [|exact I]. exact Harmed.
Qed.

Lemma _sendSREQ_arms argObj valObj cb s : obeys_at arms (_sendSREQ argObj valObj cb) s.
Proof.
  unfold _sendSREQ. apply obeys_at_get_bind. cbv zeta.
  destruct (a_frame argObj) as [ex|[payload|]]; [arm| |arm].
  pose proof setTimeout_arms as Hset. arm.
  apply once_arms. unfold armed_listener. cbn [l_body l_id l_evt].
  split; [eauto|]. eexists. split;
    [unfold setTimeout; cbn [r_st modify]; projs;
     apply in_or_app; left; apply in_or_app; right; left; reflexivity
    |reflexivity].
Qed.

Lemma _sendAREQ_arms argObj cb s : obeys_at arms (_sendAREQ argObj cb) s.
Proof.
  unfold _sendAREQ. pose proof setTimeout_arms as Hset.
  assert (Honce : forall s', obeys_at arms (once "AREQ:SYS:RESET" (BReset cb)) s')
    by (intros s'; apply once_arms; exact I).
  arm.
Qed.

#[local] Hint Resolve _sendSREQ_arms _sendAREQ_arms : arm.

Lemma request_arms subsys cmd valObj cb s : obeys_at arms (request subsys cmd valObj cb) s.
Proof. unfold request. arm. Qed.

#[local] Hint Resolve request_arms : arm.

Lemma entry_fn_arms entry s : obeys_at arms (entry_fn entry) s.
Proof. unfold entry_fn. arm. Qed.

Lemma _mtIncomingDataHdlr_arms err type subsys cmd result s :
  obeys_at arms (_mtIncomingDataHdlr err type subsys cmd result) s.
Proof. unfold _mtIncomingDataHdlr. arm. Qed.

#[local] Hint Resolve entry_fn_arms _mtIncomingDataHdlr_arms : arm.

Lemma _parseMtIncomingData_arms data s : obeys_at arms (_parseMtIncomingData data) s.
Proof. unfold _parseMtIncomingData. arm. Qed.

#[local] Hint Resolve _parseMtIncomingData_arms : arm.

Lemma run_timer_arms k s : obeys_at arms (run_timer k) s.
Proof. unfold run_timer. destruct k; arm. Qed.

Lemma step_arms (ev : Event) (s : State) : ev <> EvTimer -> obeys_at arms (step ev) s.
Proof.
  intros Hev. destruct ev; try congruence;
    unfold step, spOpen, spClose, run_immediate; arm.
  apply same_arms; reflexivity.
Qed.

Lemma earliest_from_nth (ts pre : list Timer) (best : nat * Timer) :
  nth_error (pre ++ ts) (fst best) = Some (snd best) ->
  nth_error (pre ++ ts) (fst (earliest_from best (List.length pre) ts))
  = Some (snd (earliest_from best (List.length pre) ts)).
Proof.
  revert pre best. induction ts as [|t rest IH]; intros pre best Hbest; cbn [earliest_from].
  - exact Hbest.
  - specialize (IH (pre ++ [t])). rewrite <- app_assoc, length_app, Nat.add_1_r in IH.
    cbn [app] in IH. apply IH.
    destruct (t_due t <? t_due (snd best)); [|exact Hbest].
    cbn [fst snd]. rewrite nth_error_app2 by lia. rewrite Nat.sub_diag. reflexivity.
Qed.

Lemma earliest_nth (ts : list Timer) (pos : nat) (t : Timer) :
  earliest ts = Some (pos, t) -> nth_error ts pos = Some t.
Proof.
  destruct ts as [|t0 rest]; [discriminate|]. cbn [earliest]. intros H.
  injection H as H.
  pose proof (earliest_from_nth rest [t0] (0%nat, t0) eq_refl) as Hnth.
  cbn [List.length app] in Hnth. rewrite H in Hnth. exact Hnth.
Qed.

Lemma splice1_split {A} (l1 l2 : list A) (a : A) :
  splice1 (List.length l1) (l1 ++ a :: l2) = l1 ++ l2.
Proof.
  unfold splice1. induction l1 as [|x l1 IH]; [reflexivity|].
  cbn [List.length app firstn skipn] in *. f_equal. exact IH.
Qed.

Lemma In_splice1 {A} (l : list A) (pos : nat) (t x : A) :
  nth_error l pos = Some t -> In x l -> x = t \/ In x (splice1 pos l).
Proof.
  intros Hnth Hin. apply nth_error_split in Hnth as (l1 & l2 & -> & <-).
  rewrite splice1_split. apply in_app_or in Hin as [Hin|[->|Hin]].
  - right. apply in_or_app. left. exact Hin.
  - left. reflexivity.
  - right. apply in_or_app. right. exact Hin.
Qed.

Lemma step_timer_armed (s : State) :
  ids_bounded s -> cbs_ok s -> armed s -> armed (r_st (step EvTimer s)).
Proof.
  intros Hb Hc Harmed. cbn [step]. rewrite bind_get.
  destruct (earliest (timers s)) as [[pos t]|] eqn:He; [|exact Harmed].
  apply earliest_nth in He. unfold when.
  destruct (t_due t <=? now s); [|exact Harmed].
  rewrite bind_modify.
  set (s1 := set_timers (splice1 pos (timers s)) s).
  assert (Hb1 : ids_bounded s1) by exact Hb.
  assert (Hc1 : cbs_ok s1) by exact Hc.
  pose proof (run_timer_arms (t_kind t) s1) as Harm.
  destruct (Harm Hb1) as (_ & _ & _ & Hk & Hw).
  intros l Hin. destruct (Hw l Hin) as [Hin1|Ha]; [|exact Ha].
  change (In l (listeners s)) in Hin1.
  pose proof (Harmed l Hin1) as Hl.
  assert (Hcases : armed_listener l s1 \/
                   exists subsys cmd, l_evt l = srsp_evt subsys cmd /\
                                      t_kind t = TSreqTimeout (l_id l) (l_evt l)).
  { unfold armed_listener in *. destruct (l_body l); [|left; exact I].
    destruct Hl as ((subsys & cmd & Hevt) & tm & Htm & Hkind).
    destruct (In_splice1 _ _ _ _ He Htm) as [->|Htm1].
    - right. exists subsys, cmd. auto.
    - left. split; [eauto|]. exists tm. auto. }
  destruct Hcases as [Hl1|(subsys & cmd & Hevt & Hkind)].
  - exact (armed_listener_kept l s1 _ Hk Hin Hl1).
  - exfalso. apply registered_In in Hin. rewrite Hkind in Hin. cbn [run_timer] in Hin.
    destruct (triggers_settle l s1 Hb1 Hc1 Hin1 subsys cmd Hevt) as (Hgone & _).
    rewrite Hgone in Hin. discriminate.
Qed.

Lemma step_armed (ev : Event) (s : State) :
  ids_bounded s -> cbs_ok s -> armed s -> armed (r_st (step ev s)).
Proof.
  intros Hb Hc Harmed.
  assert (Hev : ev = EvTimer \/ ev <> EvTimer)
    by (destruct ev; first [left; reflexivity|right; discriminate]).
  destruct Hev as [->|Hev].
  - apply step_timer_armed; assumption.
  - exact (arms_armed s _ (r_out (step ev s)) (step_arms ev s Hev) Hb Harmed).
Qed.

Lemma armed_new : armed new_CcZnp.
Proof. intros l []. Qed.

(** In a run whose requests come with functions as callbacks, every
    pending response listener has its 3500 ms timer pending. *)
Lemma run_armed (evs : list Event) :
  Forall ev_ok evs -> armed (fst (run evs new_CcZnp)).
Proof.
  induction evs as [|ev evs IH] using rev_ind; intros Hok.
  - exact armed_new.
  - apply Forall_app in Hok as [Hok _]. rewrite run_app. cbn [fst].
    destruct (run_settles evs new_CcZnp ids_bounded_new) as (Hb & _ & _ & Hc).
    destruct (Hc Hok cbs_ok_new) as [Hc' _].
    rewrite run_cons. cbn [fst run exec].
    apply step_armed; auto.
Qed.

(* ================================================================== *)
(** ** Every due timer gets its turn *)
(* ================================================================== *)

#[local] Instance tardy_compositional : Compositional tardy.
Proof.
  split; unfold tardy.
  - intros s. split; [reflexivity|]. split; [lia|]. split; [lia|]. auto.
  - intros s1 s2 s3 _ _ (Hn1 & Hi1 & Hd1 & Ht1) (Hn2 & Hi2 & Hd2 & Ht2).
    split; [congruence|]. split; [lia|]. split; [lia|].
    intros tm Hin. destruct (Ht2 tm Hin) as [Hin2|(Hdue & Hown)].
    + apply Ht1. exact Hin2.
    + right. split; [congruence|]. intros txn Htxn. specialize (Hown txn Htxn). lia.
Qed.

Lemma same_timers_tardy (s s' : State) (out : list Effect) :
  timers s' = timers s -> now s' = now s -> (next_id s <= next_id s')%nat ->
  tardy s s' out.
Proof.
  unfold tardy, due_count, is_due. intros H1 H2 H3. rewrite H1, H2.
  split; [reflexivity|]. split; [exact H3|]. split; [lia|]. auto.
Qed.

Lemma still_tardy (s s' : State) (out : list Effect) : still s s' out -> tardy s s' out.
Proof. intros (_ & H2 & H3 & H4). apply same_timers_tardy; [assumption..|lia]. Qed.

Lemma obeys_still_tardy {A} (m : M A) (s : State) :
  obeys_at still m s -> obeys_at tardy m s.
Proof. unfold obeys_at. apply still_tardy. Qed.

Lemma filter_filter_length {A} (p q : A -> bool) (l : list A) :
  (List.length (filter p (filter q l)) <= List.length (filter p l))%nat.
Proof.
  induction l as [|x l IH]; [reflexivity|]. cbn [filter].
  destruct (q x), (p x) eqn:E; cbn [filter List.length]; rewrite ?E; cbn [List.length]; lia.
Qed.

Lemma clearTimeout_tardy (which : TimerKind -> bool) (s : State) :
  obeys_at tardy (clearTimeout which) s.
Proof.
  unfold clearTimeout. apply obeys_at_modify. unfold tardy, due_count, is_due. projs.
  split; [reflexivity|]. split; [lia|]. split; [apply filter_filter_length|].
  intros tm Hin. left. apply filter_In in Hin. tauto.
Qed.

Lemma setTimeout_tardy (ms : Z) (k : TimerKind) (s : State) :
  ms = span k ->
  (forall txn, owner k = Some txn -> (next_id s <= txn)%nat) ->
  obeys_at tardy (setTimeout ms k) s.
Proof.
  intros -> Hown. unfold setTimeout. apply obeys_at_modify.
  unfold tardy, due_count, is_due. projs.
  split; [reflexivity|]. split; [lia|]. split.
  - rewrite filter_app. cbn [filter t_due].
    assert (Hlate : (now s + span k <=? now s) = false)
      by (apply Z.leb_gt; destruct k; cbn; lia).
    rewrite Hlate, app_nil_r. lia.
  - intros tm Hin. apply in_app_or in Hin as [Hin|[<-|[]]]; [left; exact Hin|].
    right. cbn [t_due t_kind]. auto.
Qed.

Create HintDb tardy discriminated.

Ltac tardy_known :=
  first
    [ solve [auto with tardy]
    | solve [apply obeys_still_tardy; auto with still]
    | solve [apply setTimeout_tardy;
             [reflexivity
             |cbn [owner]; intros ? ?; try discriminate;
              match goal with H : Some _ = Some _ |- _ => injection H as <- end;
              unfold setTimeout; cbn [r_st modify]; projs; lia]] ].

Ltac tardy_leaf :=
  first
    [ solve [apply comp_refl]
    | try match goal with |- context [indexOf ?b ?x] => destruct (indexOf b x) end;
      try match goal with |- context [_sp ?s] => destruct (_sp s) end;
      apply same_timers_tardy; projs; solve [reflexivity|lia] ].

Ltac tardy_tac := obey_with tardy_known tardy_leaf.

#[local] Hint Resolve clearTimeout_tardy : tardy.

Lemma run_listener_tardy (l : Listener) (a : EvArg) (s : State) :
  obeys_at tardy (run_listener l a) s.
Proof.
  unfold run_listener. destruct (l_body l).
  - unfold srsp_listener. tardy_tac.
  - tardy_tac.
Qed.

#[local] Hint Resolve run_listener_tardy : tardy.

Lemma fire_tardy (snapshot : list Listener) (a : EvArg) (s : State) :
  obeys_at tardy (fire run_listener snapshot a) s.
Proof.
  revert s. induction snapshot as [|l rest IH]; intros s; cbn [fire]; unfold removeListener;
    tardy_tac.
Qed.

#[local] Hint Resolve fire_tardy : tardy.

Lemma on_error_tardy (em : string -> EvArg -> M unit) data s :
  (forall evt a s', obeys_at tardy (em evt a) s') ->
  obeys_at tardy (on_error em data) s.
Proof. intros Hem. unfold on_error. tardy_tac. Qed.

Lemma emit_within_tardy :
  forall stack evt a s, obeys_at tardy (emit_within stack evt a) s.
Proof.
  assert (Hbody : forall stack,
            (forall evt a s, obeys_at tardy (nested_emit stack evt a) s) ->
            forall evt a s, obeys_at tardy (emit_within stack evt a) s).
  { intros stack Hnested evt a s. rewrite emit_within_eq.
    pose proof on_error_tardy as Herr. tardy_tac. }
  induction stack as [|stack IH]; apply Hbody.
  - intros evt a s. cbn. tardy_tac.
  - exact IH.
Qed.

Lemma emit_tardy (evt : string) (a : EvArg) (s : State) : obeys_at tardy (emit evt a) s.
Proof. apply emit_within_tardy. Qed.

#[local] Hint Resolve emit_tardy : tardy.

Lemma sreqTimeout_tardy evt s : obeys_at tardy (sreqTimeout emit evt) s.
Proof. unfold sreqTimeout. tardy_tac. Qed.

Lemma sweep_tardy backlog s : obeys_at tardy (sweep emit backlog) s.
Proof. revert s. induction backlog as [|x rest IH]; intros s; cbn [sweep]; tardy_tac. Qed.

#[local] Hint Resolve sreqTimeout_tardy sweep_tardy : tardy.

Lemma _sendSREQ_tardy argObj valObj cb s : obeys_at tardy (_sendSREQ argObj valObj cb) s.
Proof. unfold _sendSREQ, once. tardy_tac. Qed.

Lemma _sendAREQ_tardy argObj cb s : obeys_at tardy (_sendAREQ argObj cb) s.
Proof. unfold _sendAREQ, once. tardy_tac. Qed.

#[local] Hint Resolve _sendSREQ_tardy _sendAREQ_tardy : tardy.

Lemma request_tardy subsys cmd valObj cb s : obeys_at tardy (request subsys cmd valObj cb) s.
Proof. unfold request. tardy_tac. Qed.

#[local] Hint Resolve request_tardy : tardy.

Lemma entry_fn_tardy entry s : obeys_at tardy (entry_fn entry) s.
Proof. unfold entry_fn. tardy_tac. Qed.

Lemma _mtIncomingDataHdlr_tardy err type subsys cmd result s :
  obeys_at tardy (_mtIncomingDataHdlr err type subsys cmd result) s.
Proof. unfold _mtIncomingDataHdlr. tardy_tac. Qed.

#[local] Hint Resolve entry_fn_tardy _mtIncomingDataHdlr_tardy : tardy.

Lemma _parseMtIncomingData_tardy data s : obeys_at tardy (_parseMtIncomingData data) s.
Proof. unfold _parseMtIncomingData. tardy_tac. Qed.

#[local] Hint Resolve _parseMtIncomingData_tardy : tardy.

Lemma run_timer_tardy k s : obeys_at tardy (run_timer k) s.
Proof. unfold run_timer. destruct k; tardy_tac. Qed.

(* ================================================================== *)
(** ** Listener identities are not reused *)
(* ================================================================== *)

#[local] Instance fresh_compositional : Compositional fresh.
Proof.
  split; unfold fresh.
  - intros s Hb Hu. auto.
  - intros s1 s2 s3 _ _ H1 H2 Hb1 Hu1.
    destruct (H1 Hb1 Hu1) as (Hb2 & Hu2 & Hn1 & Hl1).
    destruct (H2 Hb2 Hu2) as (Hb3 & Hu3 & Hn2 & Hl2).
    split; [exact Hb3|]. split; [exact Hu3|]. split; [lia|].
    intros l Hin. destruct (Hl2 l Hin) as [Hin2|Hge]; [|right; lia].
    apply Hl1. exact Hin2.
Qed.

Lemma same_listeners_fresh (s s' : State) (out : list Effect) :
  listeners s' = listeners s -> next_id s' = next_id s -> fresh s s' out.
Proof.
  unfold fresh, ids_bounded, ids_unique. intros H1 H3 Hb Hu.
  rewrite H1, H3. split; [exact Hb|]. split; [exact Hu|]. split; [lia|]. auto.
Qed.

Lemma still_fresh (s s' : State) (out : list Effect) : still s s' out -> fresh s s' out.
Proof. intros (H1 & _ & H3 & _). apply same_listeners_fresh; assumption. Qed.

Lemma obeys_still_fresh {A} (m : M A) (s : State) :
  obeys_at still m s -> obeys_at fresh m s.
Proof. unfold obeys_at. apply still_fresh. Qed.

Lemma ids_unique_filter (keep : Listener -> bool) (ls : list Listener) :
  NoDup (map l_id ls) -> NoDup (map l_id (filter keep ls)).
Proof.
  intros Hu. induction ls as [|l ls IH]; cbn [map filter] in *; [exact Hu|].
  inversion Hu as [|? ? Hnot Hrest]; subst. destruct (keep l); [|auto].
  cbn [map]. constructor; [|auto]. intros Hin. apply Hnot.
  apply in_map_iff in Hin as (l' & Hid & Hin). apply in_map_iff. exists l'.
  apply filter_In in Hin. tauto.
Qed.

Lemma removeListener_fresh (id : nat) (s : State) : obeys_at fresh (removeListener id) s.
Proof.
  unfold removeListener. apply obeys_at_modify. unfold fresh, ids_bounded, ids_unique. projs.
  intros Hb Hu. split; [apply Forall_filter; exact Hb|].
  split; [apply ids_unique_filter; exact Hu|]. split; [lia|].
  intros l Hin. left. apply filter_In in Hin. tauto.
Qed.

Lemma once_fresh (evt : string) (body : LBody) (s : State) : obeys_at fresh (once evt body) s.
Proof.
  unfold once. apply obeys_at_modify. unfold fresh, ids_bounded, ids_unique. projs.
  intros Hb Hu. split; [|split; [|split; [lia|]]].
  - apply Forall_app. split.
    + eapply Forall_impl; [|exact Hb]. cbn. intros; lia.
    + constructor; [cbn; lia|constructor].
  - rewrite map_app. cbn [map l_id]. apply NoDup_app; [exact Hu|repeat constructor; auto|].
    intros id Hin [<-|[]]. apply in_map_iff in Hin as (l & Hid & Hin).
    rewrite Forall_forall in Hb. specialize (Hb l Hin). lia.
  - intros l Hin. apply in_app_or in Hin as [Hin|[<-|[]]]; [left; exact Hin|].
    right. cbn. lia.
Qed.

Create HintDb fresh discriminated.

Ltac fresh_known :=
  first
    [ solve [auto with fresh]
    | solve [apply obeys_still_fresh; auto with still] ].

Ltac fresh_leaf :=
  first
    [ solve [apply comp_refl]
    | try match goal with |- context [indexOf ?b ?x] => destruct (indexOf b x) end;
      try match goal with |- context [_sp ?s] => destruct (_sp s) end;
      apply same_listeners_fresh; projs; reflexivity ].

Ltac fresh_tac := obey_with fresh_known fresh_leaf.

#[local] Hint Resolve removeListener_fresh once_fresh : fresh.

Lemma run_listener_fresh (l : Listener) (a : EvArg) (s : State) :
  obeys_at fresh (run_listener l a) s.
Proof.
  unfold run_listener. destruct (l_body l).
  - unfold srsp_listener, clearTimeout. fresh_tac.
  - fresh_tac.
Qed.

#[local] Hint Resolve run_listener_fresh : fresh.

Lemma fire_fresh (snapshot : list Listener) (a : EvArg) (s : State) :
  obeys_at fresh (fire run_listener snapshot a) s.
Proof.
  revert s. induction snapshot as [|l rest IH]; intros s; cbn [fire]; fresh_tac.
Qed.

#[local] Hint Resolve fire_fresh : fresh.

Lemma on_error_fresh (em : string -> EvArg -> M unit) data s :
  (forall evt a s', obeys_at fresh (em evt a) s') ->
  obeys_at fresh (on_error em data) s.
Proof. intros Hem. unfold on_error. fresh_tac. Qed.

Lemma emit_within_fresh :
  forall stack evt a s, obeys_at fresh (emit_within stack evt a) s.
Proof.
  assert (Hbody : forall stack,
            (forall evt a s, obeys_at fresh (nested_emit stack evt a) s) ->
            forall evt a s, obeys_at fresh (emit_within stack evt a) s).
  { intros stack Hnested evt a s. rewrite emit_within_eq.
    pose proof on_error_fresh as Herr. fresh_tac. }
  induction stack as [|stack IH]; apply Hbody.
  - intros evt a s. cbn. fresh_tac.
  - exact IH.
Qed.

Lemma emit_fresh (evt : string) (a : EvArg) (s : State) : obeys_at fresh (emit evt a) s.
Proof. apply emit_within_fresh. Qed.

#[local] Hint Resolve emit_fresh : fresh.

Lemma sreqTimeout_fresh evt s : obeys_at fresh (sreqTimeout emit evt) s.
Proof. unfold sreqTimeout. fresh_tac. Qed.

Lemma sweep_fresh backlog s : obeys_at fresh (sweep emit backlog) s.
Proof. revert s. induction backlog as [|x rest IH]; intros s; cbn [sweep]; fresh_tac. Qed.

#[local] Hint Resolve sreqTimeout_fresh sweep_fresh : fresh.

Lemma _sendSREQ_fresh argObj valObj cb s : obeys_at fresh (_sendSREQ argObj valObj cb) s.
Proof. unfold _sendSREQ, setTimeout. fresh_tac. Qed.

Lemma _sendAREQ_fresh argObj cb s : obeys_at fresh (_sendAREQ argObj cb) s.
Proof. unfold _sendAREQ, setTimeout. fresh_tac. Qed.

#[local] Hint Resolve _sendSREQ_fresh _sendAREQ_fresh : fresh.

Lemma request_fresh subsys cmd valObj cb s : obeys_at fresh (request subsys cmd valObj cb) s.
Proof. unfold request. fresh_tac. Qed.

#[local] Hint Resolve request_fresh : fresh.

Lemma entry_fn_fresh entry s : obeys_at fresh (entry_fn entry) s.
Proof. unfold entry_fn. fresh_tac. Qed.

Lemma _mtIncomingDataHdlr_fresh err type subsys cmd result s :
  obeys_at fresh (_mtIncomingDataHdlr err type subsys cmd result) s.
Proof. unfold _mtIncomingDataHdlr. fresh_tac. Qed.

#[local] Hint Resolve entry_fn_fresh _mtIncomingDataHdlr_fresh : fresh.

Lemma _parseMtIncomingData_fresh data s : obeys_at fresh (_parseMtIncomingData data) s.
Proof. unfold _parseMtIncomingData. fresh_tac. Qed.

#[local] Hint Resolve _parseMtIncomingData_fresh : fresh.

Lemma step_fresh (ev : Event) (s : State) : obeys_at fresh (step ev) s.
Proof.
  destruct ev; unfold step, spOpen, spClose, run_timer, run_immediate; fresh_tac.
Qed.

Lemma run_fresh (evs : list Event) (s : State) :
  fresh s (fst (run evs s)) (snd (run evs s)).
Proof. apply run_obeys; [typeclasses eauto|auto|apply step_fresh]. Qed.

Lemma ids_unique_new : ids_unique new_CcZnp.
Proof. constructor. Qed.

Lemma earliest_from_min (ts : list Timer) (best : nat * Timer) (i : nat) :
  t_due (snd (earliest_from best i ts)) <= t_due (snd best) /\
  forall tm, In tm ts -> t_due (snd (earliest_from best i ts)) <= t_due tm.
Proof.
  revert best i. induction ts as [|t rest IH]; intros best i; cbn [earliest_from].
  - split; [lia|intros tm []].
  - destruct (IH (if t_due t <? t_due (snd best) then (i, t) else best) (S i)) as [Hbest Hrest].
    destruct (Z.ltb_spec (t_due t) (t_due (snd best))); cbn [snd] in Hbest.
    + split; [lia|]. intros tm [<-|Hin]; [lia|auto].
    + split; [lia|]. intros tm [<-|Hin]; [lia|auto].
Qed.

Lemma earliest_min (ts : list Timer) (pos : nat) (t : Timer) :
  earliest ts = Some (pos, t) -> forall tm, In tm ts -> t_due t <= t_due tm.
Proof.
  destruct ts as [|t0 rest]; [discriminate|]. cbn [earliest]. intros H. injection H as H.
  destruct (earliest_from_min rest (0%nat, t0) 1) as [Hbest Hrest].
  rewrite H in Hbest, Hrest. cbn [snd] in *.
  intros tm [<-|Hin]; auto.
Qed.

Lemma due_count_splice (s : State) (pos : nat) (t : Timer) :
  nth_error (timers s) pos = Some t ->
  (due_count (set_timers (splice1 pos (timers s)) s) + (if is_due s t then 1 else 0)
   = due_count s)%nat.
Proof.
  intros Hnth. unfold due_count. projs.
  change (is_due (set_timers (splice1 pos (timers s)) s)) with (is_due s).
  apply nth_error_split in Hnth as (l1 & l2 & -> & <-).
  rewrite splice1_split, !filter_app. cbn [filter].
  destruct (is_due s t); rewrite !length_app; cbn [List.length]; lia.
Qed.

Lemma splice1_In {A} (l : list A) (pos : nat) (t x : A) :
  nth_error l pos = Some t -> In x (splice1 pos l) -> In x l.
Proof.
  intros Hnth. apply nth_error_split in Hnth as (l1 & l2 & -> & <-).
  rewrite splice1_split. intros Hin. apply in_app_or in Hin as [Hin|Hin];
    apply in_or_app; [left|right; right]; exact Hin.
Qed.

Lemma splice1_tardy (s : State) (pos : nat) (t : Timer) :
  nth_error (timers s) pos = Some t ->
  tardy s (set_timers (splice1 pos (timers s)) s) [].
Proof.
  intros Hnth. unfold tardy. split; [reflexivity|]. split; [projs; lia|]. split.
  - pose proof (due_count_splice s pos t Hnth). lia.
  - projs. intros tm Hin. left. exact (splice1_In _ _ _ _ Hnth Hin).
Qed.

Lemma step_timer_tardy (s : State) : obeys_at tardy (step EvTimer) s.
Proof.
  cbn [step]. apply obeys_at_get_bind. cbv zeta.
  destruct (earliest (timers s)) as [[pos t]|] eqn:He; [|tardy_tac].
  apply earliest_nth in He. unfold when.
  destruct (t_due t <=? now s); [|tardy_tac].
  apply obeys_at_modify_bind; [typeclasses eauto| |apply run_timer_tardy].
  exact (splice1_tardy s pos t He).
Qed.

Lemma step_tardy (ev : Event) (s : State) :
  (forall dt, ev <> EvAdvance dt) -> obeys_at tardy (step ev) s.
Proof.
  intros Hev. destruct ev; try (exfalso; eapply Hev; reflexivity);
    try apply step_timer_tardy;
    unfold step, spOpen, spClose, run_immediate; tardy_tac.
Qed.

(** One turn of the timers runs a due timer when there is one. *)
Lemma step_timer_turn (s : State) :
  (0 < due_count s)%nat ->
  (due_count (r_st (step EvTimer s)) < due_count s)%nat.
Proof.
  intros Hdue. cbn [step]. rewrite bind_get.
  assert (Hsome : exists tm, In tm (timers s) /\ is_due s tm = true).
  { unfold due_count in Hdue. destruct (filter (is_due s) (timers s)) as [|tm rest] eqn:Hf;
      [cbn in Hdue; lia|].
    exists tm. apply filter_In. rewrite Hf. left. reflexivity. }
  destruct Hsome as (tm & Hin & Htm).
  destruct (earliest (timers s)) as [[pos t]|] eqn:He.
  - pose proof (earliest_min _ _ _ He tm Hin) as Hmin.
    apply earliest_nth in He. unfold is_due in Htm. apply Z.leb_le in Htm.
    assert (Ht : (t_due t <=? now s) = true) by (apply Z.leb_le; lia).
    rewrite Ht. unfold when. rewrite bind_modify.
    pose proof (due_count_splice s pos t He) as Hsplice.
    unfold is_due in Hsplice. rewrite Ht in Hsplice.
    destruct (run_timer_tardy (t_kind t) (set_timers (splice1 pos (timers s)) s))
      as (_ & _ & Hle & _).
    lia.
  - destruct (timers s); [destruct Hin|discriminate].
Qed.

Lemma run_timers (n : nat) (s : State) :
  tardy s (fst (run (repeat EvTimer n) s)) [] /\
  (due_count (fst (run (repeat EvTimer n) s)) <= due_count s - n)%nat.
Proof.
  revert s. induction n as [|n IH]; intros s; cbn [repeat].
  - cbn [run fst]. split; [apply comp_refl|lia].
  - rewrite run_cons. cbn [fst exec].
    pose proof (step_timer_tardy s) as Hstep. unfold obeys_at in Hstep.
    destruct (IH (r_st (step EvTimer s))) as [Hrest Hcount].
    split.
    + exact (@comp_trans _ tardy_compositional _ _ _ _ [] Hstep Hrest).
    + destruct (Nat.eq_dec (due_count s) 0) as [Hz|Hpos].
      * destruct Hstep as (_ & _ & Hle & _). lia.
      * pose proof (step_timer_turn s ltac:(lia)). lia.
Qed.

Lemma tardy_timely (s s' : State) (out : list Effect) :
  tardy s s' out -> timely s -> timely s'.
Proof.
  intros (Hnow & _ & _ & Ht) Hs tm Hin. rewrite Hnow.
  destruct (Ht tm Hin) as [Hold|[Hdue _]]; [auto|lia].
Qed.

Lemma step_timely (ev : Event) (s : State) : obeys_at (keeps timely) (step ev) s.
Proof.
  assert (Hev : (exists dt, ev = EvAdvance dt) \/ forall dt, ev <> EvAdvance dt)
    by (destruct ev; first [left; eexists; reflexivity|right; discriminate]).
  destruct Hev as [[dt ->]|Hev].
  - cbn [step]. apply obeys_at_modify. unfold keeps, timely. projs.
    intros Hs tm Hin. specialize (Hs tm Hin). lia.
  - unfold obeys_at, keeps. apply (tardy_timely s _ (r_out (step ev s))).
    apply step_tardy. exact Hev.
Qed.

Lemma timely_new : timely new_CcZnp.
Proof. intros tm []. Qed.

Lemma NoDup_map_same {A B} (f : A -> B) (l : list A) (x y : A) :
  NoDup (map f l) -> In x l -> In y l -> f x = f y -> x = y.
Proof.
  induction l as [|z l IH]; cbn [map]; [intros _ []|].
  intros H. inversion H as [|? ? Hnot Hrest]; subst.
  intros [->|Hx] [->|Hy] Hf; auto.
  - exfalso. apply Hnot. rewrite Hf. apply in_map. exact Hy.
  - exfalso. apply Hnot. rewrite <- Hf. apply in_map. exact Hx.
Qed.

(** The 3500 ms timer ends a transaction that nothing else ended:
    once 3500 ms have passed and the loop has run the timers that are
    due, no response listener that was pending is left. *)
Lemma timeout_settles (evs : list Event) (l : Listener) (dt : Z) (n : nat) :
  Forall ev_ok evs ->
  In l (listeners (fst (run evs new_CcZnp))) -> is_response l = true ->
  3500 <= dt -> (List.length (timers (fst (run evs new_CcZnp))) <= n)%nat ->
  registered (l_id l)
    (fst (run (EvAdvance dt :: repeat EvTimer n) (fst (run evs new_CcZnp)))) = false.
Proof.
  intros Hok Hin Hresp Hdt Hn.
  assert (Hall : Forall ev_ok (evs ++ EvAdvance dt :: repeat EvTimer n)).
  { apply Forall_app. split; [exact Hok|]. constructor; [exact I|].
    apply Forall_forall. intros ev Hev. apply repeat_spec in Hev. subst. exact I. }
  pose proof (run_armed _ Hall) as Harmed. rewrite run_app in Harmed. cbn [fst] in Harmed.
  destruct (run_settles evs new_CcZnp ids_bounded_new) as (Hb & _ & _ & _).
  destruct (run_fresh evs new_CcZnp ids_bounded_new ids_unique_new) as (_ & Hu & _ & _).
  pose proof (run_keeps timely step_timely evs new_CcZnp timely_new) as Htimely.
  set (s := fst (run evs new_CcZnp)) in *.
  rewrite run_cons in *. cbn [fst exec step r_st modify] in *.
  set (sA := set_now (now s + Z.max 0 dt) s) in *.
  destruct (run_timers n sA) as [Htardy Hcount].
  destruct (run_fresh (repeat EvTimer n) sA Hb Hu) as (_ & _ & _ & Hold).
  set (sn := fst (run (repeat EvTimer n) sA)) in *.
  destruct (registered (l_id l) sn) eqn:Hreg; [exfalso|reflexivity].
  apply existsb_exists in Hreg as (l' & Hin' & Heq). apply Nat.eqb_eq in Heq.
  assert (Hlt : (l_id l < next_id s)%nat).
  { unfold ids_bounded in Hb. rewrite Forall_forall in Hb. exact (Hb l Hin). }
  destruct (Hold l' Hin') as [Hin0|Hge]; [|change (next_id sA) with (next_id s) in Hge; lia].
  assert (l' = l) by (exact (NoDup_map_same l_id _ l' l Hu Hin0 Hin Heq)). subst l'.
  pose proof (Harmed l Hin') as Hl. unfold armed_listener, is_response in *.
  destruct (l_body l); [|discriminate]. destruct Hl as (_ & tm & Htm & Hkind).
  destruct Htardy as (Hnow & _ & _ & Ht).
  destruct (Ht tm Htm) as [Htm0|[_ Hown]].
  - pose proof (Htimely tm Htm0) as Hdue. rewrite Hkind in Hdue. cbn [span] in Hdue.
    assert (Hisdue : is_due sn tm = true).
    { unfold is_due. apply Z.leb_le. rewrite Hnow. subst sA. projs. lia. }
    assert (Hpos : (0 < due_count sn)%nat).
    { unfold due_count.
      assert (Hf : In tm (filter (is_due sn) (timers sn))) by (apply filter_In; auto).
      destruct (filter (is_due sn) (timers sn)); [destruct Hf|cbn; lia]. }
    assert (Hle : (due_count sA <= List.length (timers s))%nat)
      by (unfold due_count; apply filter_length_le).
    lia.
  - rewrite Hkind in Hown. specialize (Hown (l_id l) eq_refl).
    change (next_id sA) with (next_id s) in Hown. lia.
Qed.

Lemma ev_ok_timers (dt : Z) (n : nat) : Forall ev_ok (EvAdvance dt :: repeat EvTimer n).
Proof.
  constructor; [exact I|]. apply Forall_forall. intros ev Hev.
  apply repeat_spec in Hev. subst. exact I.
Qed.


(* ================================================================== *)
(** ** A callback the engine does not hold is not called *)
(* ================================================================== *)

#[local] Instance mute_compositional (f : nat) : Compositional (mute f).
Proof.
  split; unfold mute, silent.
  - intros s H. split; [exact H|]. intros ? ? [].
  - intros s1 s2 s3 o1 o2 H1 H2 Hf. destruct (H1 Hf) as [Hf2 Hs1].
    destruct (H2 Hf2) as [Hf3 Hs2]. split; [exact Hf3|].
    intros b a Hin. apply in_app_or in Hin as [Hin|Hin]; [eapply Hs1|eapply Hs2]; eauto.
Qed.

Lemma obeys_mute_assume (f : nat) {A} (m : M A) (s : State) :
  (free f s -> obeys_at (mute f) m s) -> obeys_at (mute f) m s.
Proof. unfold obeys_at, mute. intros H Hf. exact (H Hf Hf). Qed.

Lemma silent_nil (f : nat) : silent f [].
Proof. intros ? ? []. Qed.

Ltac free_parts :=
  unfold free; projs;
  repeat match goal with
         | |- _ /\ _ => split
         | |- Forall _ (_ ++ _) => apply Forall_app; split
         | |- Forall _ (splice1 _ _) => apply Forall_splice1
         | |- Forall _ (filter _ _) => apply Forall_filter
         | |- Forall _ [] => constructor
         | |- Forall _ [_] => constructor; [|constructor]
         end;
  cbn [immediate_free callback_of l_body e_callback]; auto; try discriminate.

Ltac mute_leaf :=
  first
    [ solve [apply comp_refl]
    | try match goal with |- context [indexOf ?b ?x] => destruct (indexOf b x) end;
      try match goal with |- context [_sp ?s] => destruct (_sp s) end;
      let Hl := fresh "Hl" in
      let Hq := fresh "Hq" in
      let Hi := fresh "Hi" in
      let Hc := fresh "Hc" in
      let Hf := fresh "Hf" in
      intros (Hl & Hq & Hi & Hc & Hf);
      split; [solve [free_parts]|apply silent_nil] ].

Create HintDb mute discriminated.

Ltac mute_tac := obey_with ltac:(auto with mute) mute_leaf.

Lemma call_mute (f : nat) by_l cb a s :
  cb <> JFun f -> obeys_at (mute f) (call by_l cb a) s.
Proof.
  intros Hcb. unfold call. destruct cb; mute_tac.
  - intros Hf. split; [exact Hf|]. intros b' a' [Heq|[]]. injection Heq as _ -> _.
    apply Hcb. reflexivity.
  - intros Hf. split; [exact Hf|]. intros b' a' [Heq|[]]. discriminate Heq.
Qed.

Lemma setTimeout_mute (f : nat) ms k s : obeys_at (mute f) (setTimeout ms k) s.
Proof. unfold setTimeout. mute_tac. Qed.

Lemma clearTimeout_mute (f : nat) which s : obeys_at (mute f) (clearTimeout which) s.
Proof. unfold clearTimeout. mute_tac. Qed.

Lemma setImmediate_sweep_mute (f : nat) bl s :
  obeys_at (mute f) (setImmediate (ISweep bl)) s.
Proof. unfold setImmediate. mute_tac. Qed.

Lemma unpi_send_mute (f : nat) t sub c p s : obeys_at (mute f) (unpi_send t sub c p) s.
Proof.
  unfold unpi_send. mute_tac. intros Hf. split; [exact Hf|].
  intros b a [Heq|[]]. discriminate.
Qed.

Lemma removeListener_mute (f : nat) id s : obeys_at (mute f) (removeListener id) s.
Proof. unfold removeListener. mute_tac. Qed.

Lemma once_mute (f : nat) evt body s :
  callback_of (mkListener 0 evt body) <> JFun f -> obeys_at (mute f) (once evt body) s.
Proof. intros Hcb. unfold once. mute_tac. Qed.

#[local] Hint Resolve call_mute setTimeout_mute clearTimeout_mute setImmediate_sweep_mute
  unpi_send_mute removeListener_mute once_mute : mute.

Lemma _scheduleNextSend_mute (f : nat) early s :
  obeys_at (mute f) (_scheduleNextSend early) s.
Proof.
  apply obeys_mute_assume. intros (Hl & Hq & Hi & Hc & Hf).
  unfold _scheduleNextSend, setImmediate. apply obeys_at_get_bind. cbv zeta.
  destruct (_txQueue s) as [|head tail] eqn:Hqueue; [mute_tac|].
  assert (Hentry : forall pos, e_callback (nth pos (head :: tail) head) <> JFun f).
  { intros pos. rewrite Forall_forall in Hq.
    destruct (Nat.ltb_spec pos (List.length (head :: tail))).
    - apply Hq. apply nth_In. assumption.
    - rewrite nth_overflow by assumption. apply Hq. left. reflexivity. }
  destruct early.
  - destruct (findIndex (not_in_backlog (_backlog s)) (head :: tail)) as [pos|]; [|mute_tac].
    specialize (Hentry pos). mute_tac.
  - specialize (Hentry 0%nat). cbn [nth] in Hentry.
    assert (Htail : Forall (fun entry => e_callback entry <> JFun f) tail)
      by (inversion Hq; assumption).
    mute_tac.
Qed.

#[local] Hint Resolve _scheduleNextSend_mute : mute.

Lemma sreqNextQueue_mute (f : nat) txn evt argObj s :
  obeys_at (mute f) (sreqNextQueue txn evt argObj) s.
Proof. unfold sreqNextQueue. mute_tac. Qed.

Lemma reset_failsafe_mute (f : nat) s : obeys_at (mute f) reset_failsafe s.
Proof. unfold reset_failsafe. mute_tac. Qed.

#[local] Hint Resolve sreqNextQueue_mute reset_failsafe_mute : mute.

Lemma run_listener_mute (f : nat) (l : Listener) (a : EvArg) (s : State) :
  callback_of l <> JFun f -> obeys_at (mute f) (run_listener l a) s.
Proof.
  unfold run_listener, callback_of. destruct (l_body l); intros Hcb.
  - unfold srsp_listener. mute_tac.
  - unfold reset_listener. mute_tac.
Qed.

#[local] Hint Resolve run_listener_mute : mute.

Lemma fire_mute (f : nat) (snapshot : list Listener) (a : EvArg) (s : State) :
  Forall (fun l => callback_of l <> JFun f) snapshot ->
  obeys_at (mute f) (fire run_listener snapshot a) s.
Proof.
  revert s. induction snapshot as [|l rest IH]; intros s Hall; cbn [fire].
  - mute_tac.
  - inversion Hall; subst. mute_tac.
Qed.

Lemma on_error_mute (f : nat) (em : string -> EvArg -> M unit) data s :
  (forall evt a s', obeys_at (mute f) (em evt a) s') ->
  obeys_at (mute f) (on_error em data) s.
Proof. intros Hem. unfold on_error. mute_tac. Qed.

Lemma tell_emit_mute (f : nat) evt a s : mute f s s [EEmit evt a].
Proof. intros Hf. split; [exact Hf|]. intros b a' [Heq|[]]. discriminate. Qed.

Lemma emit_within_mute (f : nat) :
  forall stack evt a s, obeys_at (mute f) (emit_within stack evt a) s.
Proof.
  assert (Hbody : forall stack,
            (forall evt a s, obeys_at (mute f) (nested_emit stack evt a) s) ->
            forall evt a s, obeys_at (mute f) (emit_within stack evt a) s).
  { intros stack Hnested evt a s. rewrite emit_within_eq.
    apply obeys_at_tell_bind; [typeclasses eauto|apply tell_emit_mute|].
    apply obeys_at_get_bind. cbv zeta.
    apply obeys_mute_assume. intros (Hl & _).
    assert (Hsnap : Forall (fun l => callback_of l <> JFun f)
                      (filter (on_evt evt) (listeners s)))
      by (apply Forall_filter; exact Hl).
    pose proof on_error_mute as Herr. pose proof fire_mute as Hfire. mute_tac. }
  induction stack as [|stack IH]; apply Hbody.
  - intros evt a s. cbn. mute_tac.
  - exact IH.
Qed.

Lemma emit_mute (f : nat) (evt : string) (a : EvArg) (s : State) :
  obeys_at (mute f) (emit evt a) s.
Proof. apply emit_within_mute. Qed.

#[local] Hint Resolve emit_mute : mute.

Lemma sreqTimeout_mute (f : nat) evt s : obeys_at (mute f) (sreqTimeout emit evt) s.
Proof. unfold sreqTimeout. mute_tac. Qed.

Lemma sweep_mute (f : nat) backlog s : obeys_at (mute f) (sweep emit backlog) s.
Proof. revert s. induction backlog as [|x rest IH]; intros s; cbn [sweep]; mute_tac. Qed.

#[local] Hint Resolve sreqTimeout_mute sweep_mute : mute.

Lemma _sendSREQ_mute (f : nat) argObj valObj cb s :
  cb <> JFun f -> obeys_at (mute f) (_sendSREQ argObj valObj cb) s.
Proof. intros Hcb. unfold _sendSREQ. mute_tac. Qed.

Lemma _sendAREQ_mute (f : nat) argObj cb s :
  cb <> JFun f -> obeys_at (mute f) (_sendAREQ argObj cb) s.
Proof. intros Hcb. unfold _sendAREQ. mute_tac. Qed.

#[local] Hint Resolve _sendSREQ_mute _sendAREQ_mute : mute.

Lemma request_mute (f : nat) subsys cmd valObj cb s :
  cb <> JFun f -> obeys_at (mute f) (request subsys cmd valObj cb) s.
Proof. intros Hcb. unfold request. mute_tac. Qed.

#[local] Hint Resolve request_mute : mute.

Lemma entry_fn_mute (f : nat) entry s :
  e_callback entry <> JFun f -> obeys_at (mute f) (entry_fn entry) s.
Proof. intros Hcb. unfold entry_fn. mute_tac. Qed.

Lemma _mtIncomingDataHdlr_mute (f : nat) err type subsys cmd result s :
  obeys_at (mute f) (_mtIncomingDataHdlr err type subsys cmd result) s.
Proof. unfold _mtIncomingDataHdlr. mute_tac. Qed.

#[local] Hint Resolve entry_fn_mute _mtIncomingDataHdlr_mute : mute.

Lemma _parseMtIncomingData_mute (f : nat) data s :
  obeys_at (mute f) (_parseMtIncomingData data) s.
Proof. unfold _parseMtIncomingData. mute_tac. Qed.

#[local] Hint Resolve _parseMtIncomingData_mute : mute.

Lemma sp_close_mute (f : nat) s : obeys_at (mute f) sp_close s.
Proof.
  unfold sp_close. mute_tac. intros Hf. split; [exact Hf|].
  intros b a [Heq|[]]. discriminate.
Qed.

Lemma call_all_mute (f : nat) (cbs : list jsval) (arg : CbArg) (s : State) :
  Forall (fun cb => cb <> JFun f) cbs -> obeys_at (mute f) (call_all cbs arg) s.
Proof.
  revert s. induction cbs as [|cb rest IH]; intros s Hall; cbn [call_all].
  - mute_tac.
  - inversion Hall; subst. mute_tac.
Qed.

#[local] Hint Resolve sp_close_mute call_all_mute : mute.

Lemma sp_close_done_mute (f : nat) arg s : obeys_at (mute f) (sp_close_done arg) s.
Proof.
  apply obeys_mute_assume. intros (_ & _ & _ & Hc & _).
  unfold sp_close_done. mute_tac.
Qed.

Lemma _close_mute (f : nat) cb s : cb <> JFun f -> obeys_at (mute f) (_close cb) s.
Proof.
  intros Hcb. unfold _close.
  assert (Hcb' : (if truthy cb then cb else JNoop) <> JFun f)
    by (destruct (truthy cb); [exact Hcb|discriminate]).
  mute_tac.
Qed.

#[local] Hint Resolve sp_close_done_mute _close_mute : mute.

Lemma close_mute (f : nat) cb s : cb <> JFun f -> obeys_at (mute f) (close cb) s.
Proof.
  intros Hcb. unfold close. mute_tac.
  intros Hf. split; [exact Hf|]. intros b a [Heq|[]]. discriminate.
Qed.

Lemma flush_done_mute (f : nat) s : obeys_at (mute f) flush_done s.
Proof.
  apply obeys_mute_assume. intros (_ & _ & _ & _ & Hf).
  unfold flush_done. apply obeys_at_get_bind. cbv zeta.
  destruct (flushing s) as [|cb rest] eqn:Hflush; [mute_tac|].
  inversion Hf; subst. mute_tac.
Qed.

Lemma spErr_mute (f : nat) s : obeys_at (mute f) spErr s.
Proof.
  unfold spErr. assert (Hundef : JUndefined <> JFun f) by discriminate. mute_tac.
Qed.

#[local] Hint Resolve close_mute flush_done_mute spErr_mute : mute.

Lemma run_timer_mute (f : nat) k s : obeys_at (mute f) (run_timer k) s.
Proof. unfold run_timer. destruct k; mute_tac. Qed.

Lemma run_immediate_mute (f : nat) i s :
  immediate_free f i -> obeys_at (mute f) (run_immediate i) s.
Proof. unfold run_immediate, immediate_free. destruct i; intros Hi; mute_tac. Qed.

#[local] Hint Resolve run_timer_mute run_immediate_mute : mute.

Lemma step_mute (f : nat) (ev : Event) (s : State) :
  ~ passes f ev -> obeys_at (mute f) (step ev) s.
Proof.
  intros Hev. apply obeys_mute_assume. intros (Hl & Hq & Hi & Hc & Hf).
  destruct ev; cbn [passes] in Hev; unfold step, spOpen, spClose.
  - mute_tac.
  - mute_tac.
  - mute_tac.
  - mute_tac.
  - mute_tac.
  - mute_tac.
  - apply obeys_at_get_bind. cbv zeta.
    destruct (immediates s) as [|i rest] eqn:Himm; [mute_tac|].
    inversion Hi; subst. mute_tac.
  - mute_tac.
  - mute_tac.
  - mute_tac.
  - mute_tac.
  - mute_tac.
Qed.

Lemma mute_thrown (f : nat) (s s' : State) (out : list Effect) (e : Error) :
  mute f s s' out -> mute f s s' (out ++ [EThrown e]).
Proof.
  intros H Hf. destruct (H Hf) as [Hf' Hs]. split; [exact Hf'|].
  intros b a Hin. apply in_app_or in Hin as [Hin|[Heq|[]]]; [eapply Hs; eauto|discriminate].
Qed.

(** A function that is held nowhere and that no event hands in is
    never called. *)
Lemma run_mute (f : nat) (evs : list Event) (s : State) :
  Forall (fun ev => ~ passes f ev) evs ->
  mute f s (fst (run evs s)) (snd (run evs s)).
Proof.
  revert s. induction evs as [|ev rest IH]; intros s Hall.
  - apply comp_refl.
  - inversion Hall; subst. rewrite run_cons. cbn [fst snd].
    eapply comp_trans; [|apply IH; assumption].
    pose proof (step_mute f ev s ltac:(assumption)) as H. unfold obeys_at in H.
    unfold exec. cbn [fst snd].
    destruct (r_val (step ev s)); [apply mute_thrown; exact H|].
    rewrite app_nil_r. exact H.
Qed.

Lemma free_new (f : nat) : free f new_CcZnp.
Proof. repeat split; constructor. Qed.

(** In a run, a function is called only if the engine holds it or an
    event hands it in: a function that is the callback of no listener,
    no queued or dequeued entry and no pending [close], and that no
    [request] or [close] of the run is given, is never called and never
    comes to be held. *)
Theorem only_given_callbacks_are_called (f : nat) (evs : list Event) (s : State) :
  free f s -> Forall (fun ev => ~ passes f ev) evs ->
  silent f (snd (run evs s)) /\ free f (fst (run evs s)).
Proof.
  intros Hfree Hevs. destruct (run_mute f evs s Hevs Hfree). auto.
Qed.

Lemma _sendAREQ_reset (argObj : ArgObj) (cb : jsval) (payload : Payload) (s : State) :
  is_reset (a_cmd argObj) = true -> a_frame argObj = inr (Some payload) ->
  let s' := set_timers (timers s ++ [mkTimer (now s + 30000) TResetFailsafe])
              (set_next_id (S (next_id s))
                 (set_listeners
                    (listeners s ++ [mkListener (next_id s) "AREQ:SYS:RESET" (BReset cb)])
                    (set_txQueue [] (set_resetting true s)))) in
  _sendAREQ argObj cb s =
    if _unpi s
    then mkRes (inr tt) s' [ESend "AREQ" (a_subsys argObj) (a_cmdId argObj) payload]
    else mkRes (inl (mkError KTypeError "Cannot read property 'send' of null")) s' [].
Proof.
  intros Hreset Hframe. cbv zeta. unfold _sendAREQ. rewrite Hframe, Hreset.
  unfold once, setTimeout, unpi_send. mrun. projs.
  destruct (_unpi s); reflexivity.
Qed.

(** Issuing the reset command (lines 388-406): the Transmit Queue is
    emptied, Reset State is set, the gate is left as it is, one
    listener of the reset notification and one 30000 ms timer are
    added, and nothing is called; at most the frame is written.  A
    function that was held in the queue and nowhere else, and that is
    not handed in again, is never called afterwards. *)
Theorem reset_discards_queue (argObj : ArgObj) (cb : jsval) (payload : Payload) (s : State) :
  is_reset (a_cmd argObj) = true -> a_frame argObj = inr (Some payload) ->
  let r := _sendAREQ argObj cb s in
  _txQueue (r_st r) = [] /\
  _resetting (r_st r) = true /\
  _spinLock (r_st r) = _spinLock s /\
  listeners (r_st r) = listeners s ++ [mkListener (next_id s) "AREQ:SYS:RESET" (BReset cb)] /\
  timers (r_st r) = timers s ++ [mkTimer (now s + 30000) TResetFailsafe] /\
  r_out r = (if _unpi s
             then [ESend "AREQ" (a_subsys argObj) (a_cmdId argObj) payload] else []) /\
  (forall f evs,
     free f (set_txQueue [] s) -> cb <> JFun f ->
     Forall (fun ev => ~ passes f ev) evs ->
     silent f (snd (run evs (r_st r)))).
Proof.
  intros Hreset Hframe r. subst r. rewrite (_sendAREQ_reset _ cb _ s Hreset Hframe).
  cbv zeta.
  assert (Hst : forall (b : bool) (x y : Res unit),
            r_st x = r_st y -> r_st (if b then x else y) = r_st x)
    by (intros [] x y H; congruence).
  rewrite Hst by reflexivity. cbn [r_st]. projs.
  split; [reflexivity|]. split; [reflexivity|]. split; [reflexivity|].
  split; [reflexivity|]. split; [reflexivity|].
  split; [destruct (_unpi s); reflexivity|].
  intros f evs (Hl & Hq & Hi & Hc & Hf) Hcb Hevs.
  refine (proj2 (run_mute f evs _ Hevs _)).
  revert Hl Hq Hi Hc Hf. unfold free. projs. intros Hl Hq Hi Hc Hf.
  split; [|auto]. apply Forall_app. split; [exact Hl|].
  constructor; [exact Hcb|constructor].
Qed.

(** An event of no listener of the engine's own: the emitter only
    announces it. *)
Lemma emit_plain (evt : string) (a : EvArg) (s : State) :
  (forall l, listener_ok l -> on_evt evt l = false) ->
  String.eqb evt "_ready" = false -> String.eqb evt "SRSP:RES0:error" = false ->
  names_ok s ->
  emit evt a s = mkRes (inr tt) s [EEmit evt a].
Proof.
  intros Hnone Hready Herror Hnames. unfold emit. rewrite emit_within_eq.
  rewrite bind_tell, bind_get. cbv zeta. rewrite Hready, Herror.
  assert (Hsnap : filter (on_evt evt) (listeners s) = []).
  { unfold names_ok in Hnames. induction Hnames as [|l ls Hl Hls IH]; [reflexivity|].
    cbn [filter]. rewrite (Hnone l Hl). exact IH. }
  rewrite Hsnap. reflexivity.
Qed.

Lemma listener_ok_not_close (l : Listener) : listener_ok l -> on_evt "close" l = false.
Proof.
  unfold listener_ok, on_evt. destruct (l_body l); intros ->; reflexivity.
Qed.

(** The port's 'close' (lines 117-124), in a state the engine can
    reach: the queue is emptied, the port, the unpi and the initialized
    flag are dropped, 'close' is emitted and nothing else happens.
    Every request made then throws; a function that was held in the
    queue and nowhere else is never called, unless it is handed in
    again. *)
Theorem port_close_discards_queue (sp : Port) (s : State) :
  reachable s -> _sp s = Some sp ->
  let s' := set_init false (set_unpi false (set_sp None (set_txQueue [] s))) in
  step EvSpClose s = mkRes (inr tt) s' [EEmit "close" ANone] /\
  (forall subsys cmd valObj cb,
     request subsys cmd valObj cb s' = mkRes (inl not_initialized) s' []) /\
  (forall f evs,
     free f (set_txQueue [] s) ->
     Forall (fun ev => ~ passes f ev) evs ->
     silent f (snd (run evs s'))).
Proof.
  intros Hreach Hsp s'. split; [|split].
  - cbn [step]. unfold spClose. rewrite bind_get, Hsp. rewrite !bind_modify.
    apply emit_plain; try reflexivity.
    + exact listener_ok_not_close.
    + apply reachable_names_ok in Hreach. exact Hreach.
  - intros subsys cmd valObj cb. unfold request. rewrite bind_get. reflexivity.
  - intros f evs Hfree Hevs. exact (proj2 (run_mute f evs s' Hevs Hfree)).
Qed.

(* ================================================================== *)
(** ** A listener stays until its event is emitted *)
(* ================================================================== *)

#[local] Instance waits_compositional (l : Listener) : Compositional (waits l).
Proof.
  split; unfold waits.
  - intros s Hb Hu Hin _. auto.
  - intros s1 s2 s3 o1 o2 H1 H2 Hb Hu Hin Hno.
    destruct (H1 Hb Hu Hin) as (Hb2 & Hu2 & Hin2).
    { intros a Ha. apply (Hno a). apply in_or_app. left. exact Ha. }
    apply (H2 Hb2 Hu2 Hin2).
    intros a Ha. apply (Hno a). apply in_or_app. right. exact Ha.
Qed.

Lemma obeys_waits_assume (l : Listener) {A} (m : M A) (s : State) :
  (ids_bounded s -> ids_unique s -> In l (listeners s) -> obeys_at (waits l) m s) ->
  obeys_at (waits l) m s.
Proof. unfold obeys_at, waits. intros H Hb Hu Hin. exact (H Hb Hu Hin Hb Hu Hin). Qed.

Lemma fresh_waits (l : Listener) (s s' : State) (out : list Effect) :
  fresh s s' out -> (In l (listeners s) -> In l (listeners s')) -> waits l s s' out.
Proof.
  intros Hfresh Hkeep Hb Hu Hin _. destruct (Hfresh Hb Hu) as (Hb' & Hu' & _).
  auto.
Qed.

Lemma same_listeners_waits (l : Listener) (s s' : State) (out : list Effect) :
  listeners s' = listeners s -> next_id s' = next_id s -> waits l s s' out.
Proof.
  intros H1 H2. apply fresh_waits; [apply same_listeners_fresh; assumption|].
  rewrite H1. auto.
Qed.

Lemma still_waits (l : Listener) (s s' : State) (out : list Effect) :
  still s s' out -> waits l s s' out.
Proof. intros (H1 & _ & H3 & _). apply same_listeners_waits; assumption. Qed.

Lemma obeys_still_waits (l : Listener) {A} (m : M A) (s : State) :
  obeys_at still m s -> obeys_at (waits l) m s.
Proof. unfold obeys_at. apply still_waits. Qed.

Lemma once_waits (l : Listener) evt body s : obeys_at (waits l) (once evt body) s.
Proof.
  unfold obeys_at. apply fresh_waits; [apply once_fresh|].
  unfold once. cbn [r_st modify]. projs. intros Hin. apply in_or_app. left. exact Hin.
Qed.

Lemma removeListener_waits (l : Listener) (id : nat) (s : State) :
  id <> l_id l -> obeys_at (waits l) (removeListener id) s.
Proof.
  intros Hid. unfold obeys_at. apply fresh_waits; [apply removeListener_fresh|].
  unfold removeListener. cbn [r_st modify]. projs. intros Hin.
  apply filter_In. split; [exact Hin|]. apply negb_true_iff. apply Nat.eqb_neq. congruence.
Qed.

Create HintDb waits discriminated.

Ltac waits_known :=
  first
    [ solve [auto with waits]
    | solve [apply obeys_still_waits; auto with still] ].

Ltac waits_leaf :=
  first
    [ solve [apply comp_refl]
    | try match goal with |- context [indexOf ?b ?x] => destruct (indexOf b x) end;
      try match goal with |- context [_sp ?s] => destruct (_sp s) end;
      apply same_listeners_waits; projs; reflexivity ].

Ltac waits_tac := obey_with waits_known waits_leaf.

#[local] Hint Resolve once_waits removeListener_waits : waits.

Lemma run_listener_waits (l l' : Listener) (a : EvArg) (s : State) :
  obeys_at (waits l) (run_listener l' a) s.
Proof.
  unfold run_listener. destruct (l_body l').
  - unfold srsp_listener, clearTimeout. waits_tac.
  - waits_tac.
Qed.

#[local] Hint Resolve run_listener_waits : waits.

Lemma fire_waits (l : Listener) (snapshot : list Listener) (a : EvArg) (s : State) :
  Forall (fun l' => l_id l' <> l_id l) snapshot ->
  obeys_at (waits l) (fire run_listener snapshot a) s.
Proof.
  revert s. induction snapshot as [|l' rest IH]; intros s Hall; cbn [fire].
  - waits_tac.
  - inversion Hall; subst. waits_tac.
Qed.

Lemma on_error_waits (l : Listener) (em : string -> EvArg -> M unit) data s :
  (forall evt a s', obeys_at (waits l) (em evt a) s') ->
  obeys_at (waits l) (on_error em data) s.
Proof. intros Hem. unfold on_error. waits_tac. Qed.

Lemma tell_waits (l : Listener) (e : Effect) (s : State) : waits l s s [e].
Proof. intros Hb Hu Hin _. auto. Qed.

Lemma emit_within_waits (l : Listener) :
  forall stack evt a s, obeys_at (waits l) (emit_within stack evt a) s.
Proof.
  assert (Hbody : forall stack,
            (forall evt a s, obeys_at (waits l) (nested_emit stack evt a) s) ->
            forall evt a s, obeys_at (waits l) (emit_within stack evt a) s).
  { intros stack Hnested evt a s. rewrite emit_within_eq.
    destruct (String.eqb (l_evt l) evt) eqn:Hevt.
    - apply String.eqb_eq in Hevt. unfold obeys_at, waits. intros _ _ _ Hno.
      exfalso. apply (Hno a). rewrite bind_tell. cbn [r_out]. left. congruence.
    - apply String.eqb_neq in Hevt.
      apply obeys_at_tell_bind; [typeclasses eauto|apply tell_waits|].
      apply obeys_at_get_bind. cbv zeta.
      apply obeys_waits_assume. intros Hb Hu Hin.
      assert (Hsnap : Forall (fun l' => l_id l' <> l_id l)
                        (filter (on_evt evt) (listeners s))).
      { apply Forall_forall. intros l' Hl' Hid. apply filter_In in Hl' as [Hl' Hon].
        unfold on_evt in Hon. apply String.eqb_eq in Hon.
        assert (l' = l) by (exact (NoDup_map_same l_id _ l' l Hu Hl' Hin Hid)).
        subst l'. contradiction. }
      pose proof on_error_waits as Herr. pose proof fire_waits as Hfire. waits_tac. }
  induction stack as [|stack IH]; apply Hbody.
  - intros evt a s. cbn. waits_tac.
  - exact IH.
Qed.

Lemma emit_waits (l : Listener) (evt : string) (a : EvArg) (s : State) :
  obeys_at (waits l) (emit evt a) s.
Proof. apply emit_within_waits. Qed.

#[local] Hint Resolve emit_waits : waits.

Lemma sreqTimeout_waits (l : Listener) evt s : obeys_at (waits l) (sreqTimeout emit evt) s.
Proof. unfold sreqTimeout. waits_tac. Qed.

Lemma sweep_waits (l : Listener) backlog s : obeys_at (waits l) (sweep emit backlog) s.
Proof. revert s. induction backlog as [|x rest IH]; intros s; cbn [sweep]; waits_tac. Qed.

#[local] Hint Resolve sreqTimeout_waits sweep_waits : waits.

Lemma _sendSREQ_waits (l : Listener) argObj valObj cb s :
  obeys_at (waits l) (_sendSREQ argObj valObj cb) s.
Proof. unfold _sendSREQ, setTimeout. waits_tac. Qed.

Lemma _sendAREQ_waits (l : Listener) argObj cb s :
  obeys_at (waits l) (_sendAREQ argObj cb) s.
Proof. unfold _sendAREQ, setTimeout. waits_tac. Qed.

#[local] Hint Resolve _sendSREQ_waits _sendAREQ_waits : waits.

Lemma request_waits (l : Listener) subsys cmd valObj cb s :
  obeys_at (waits l) (request subsys cmd valObj cb) s.
Proof. unfold request. waits_tac. Qed.

#[local] Hint Resolve request_waits : waits.

Lemma entry_fn_waits (l : Listener) entry s : obeys_at (waits l) (entry_fn entry) s.
Proof. unfold entry_fn. waits_tac. Qed.

Lemma _mtIncomingDataHdlr_waits (l : Listener) err type subsys cmd result s :
  obeys_at (waits l) (_mtIncomingDataHdlr err type subsys cmd result) s.
Proof. unfold _mtIncomingDataHdlr. waits_tac. Qed.

#[local] Hint Resolve entry_fn_waits _mtIncomingDataHdlr_waits : waits.

Lemma _parseMtIncomingData_waits (l : Listener) data s :
  obeys_at (waits l) (_parseMtIncomingData data) s.
Proof. unfold _parseMtIncomingData. waits_tac. Qed.

#[local] Hint Resolve _parseMtIncomingData_waits : waits.

Lemma step_waits (l : Listener) (ev : Event) (s : State) : obeys_at (waits l) (step ev) s.
Proof.
  destruct ev; unfold step, spOpen, spClose, run_timer, run_immediate; waits_tac.
Qed.

Lemma run_waits (l : Listener) (evs : list Event) (s : State) :
  waits l s (fst (run evs s)) (snd (run evs s)).
Proof.
  apply run_obeys; [typeclasses eauto| |apply step_waits].
  intros s1 s2 out e H Hb Hu Hin Hno. apply (H Hb Hu Hin).
  intros a Ha. apply (Hno a). apply in_or_app. left. exact Ha.
Qed.

(** A listener leaves, and its callback is called, only when its
    event is emitted: in a state the engine can reach, a listener that
    is registered stays registered through every run in which its event
    is not emitted, and nothing in that run calls its callback.  The
    event is the response event of the command for a response
    listener, 'AREQ:SYS:RESET' for the listener a reset registers. *)
Theorem listener_waits_for_its_event (evs0 evs : list Event) (l : Listener) :
  In l (listeners (fst (run evs0 new_CcZnp))) ->
  emitted (l_evt l) (snd (run evs (fst (run evs0 new_CcZnp)))) = false ->
  In l (listeners (fst (run evs (fst (run evs0 new_CcZnp))))) /\
  fired (l_id l) (snd (run evs (fst (run evs0 new_CcZnp)))) = 0%nat /\
  match l_body l with
  | BSrsp argObj _ _ _ => l_evt l = srsp_evt (a_subsys argObj) (a_cmd argObj)
  | BReset _ => l_evt l = "AREQ:SYS:RESET"%string
  end.
Proof.
  intros Hin Hnone. set (s := fst (run evs0 new_CcZnp)) in *.
  assert (Hno : forall a, ~ In (EEmit (l_evt l) a) (snd (run evs s))).
  { intros a Ha. unfold emitted in Hnone.
    assert (Hex : existsb (fun e => match e with
                                    | EEmit evt' _ => String.eqb evt' (l_evt l)
                                    | _ => false
                                    end) (snd (run evs s)) = true).
    { apply existsb_exists. eexists. split; [exact Ha|]. apply String.eqb_refl. }
    congruence. }
  destruct (run_settles evs0 new_CcZnp ids_bounded_new) as (Hb & _ & _ & _).
  destruct (run_fresh evs0 new_CcZnp ids_bounded_new ids_unique_new) as (_ & Hu & _ & _).
  fold s in Hb, Hu.
  destruct (run_waits l evs s Hb Hu Hin Hno) as (Hb' & Hu' & Hin').
  split; [exact Hin'|]. split.
  - destruct (run_settles evs s Hb) as (_ & _ & Hle & _). specialize (Hle (l_id l)).
    unfold issued, pend in Hle.
    rewrite (registered_In l s Hin), (registered_In l _ Hin') in Hle.
    assert (Hlt : (l_id l < next_id s)%nat).
    { unfold ids_bounded in Hb. rewrite Forall_forall in Hb. exact (Hb l Hin). }
    apply Nat.ltb_lt in Hlt. rewrite Hlt in Hle. lia.
  - assert (Hnames : names_ok s) by (apply reachable_names_ok; exists evs0; reflexivity).
    unfold names_ok in Hnames. rewrite Forall_forall in Hnames. exact (Hnames l Hin).
Qed.

Lemma filter_twice (ls : list Listener) (p q : Listener -> bool) :
  filter p (filter q ls) = filter (fun l => (q l && p l)%bool) ls.
Proof.
  induction ls as [|l ls IH]; [reflexivity|]. cbn [filter].
  destruct (q l); cbn [filter andb]; [destruct (p l)|]; rewrite IH; reflexivity.
Qed.

Lemma fire_resets (snapshot : list Listener) (a : EvArg) (s : State) :
  Forall (fun l => exists g, l_body l = BReset (JFun g)) snapshot ->
  NoDup (map l_id snapshot) ->
  Forall (fun l => registered (l_id l) s = true) snapshot ->
  fire run_listener snapshot a s =
    mkRes (inr tt) (after_reset snapshot s) (map reset_call snapshot).
Proof.
  revert s. induction snapshot as [|l rest IH]; intros s Hbody Hu Hreg; [reflexivity|].
  inversion Hbody as [|? ? [g Hg] Hbody']; subst.
  inversion Hu as [|? ? Hnot Hu']; subst.
  inversion Hreg as [|? ? Hl Hreg']; subst.
  assert (Hrun : forall s0, run_listener l a s0 =
            mkRes (inr tt) (set_spinLock false (set_resetting false s0))
              [ECallback (Some (l_id l)) g CbNull])
    by (intros s0; unfold run_listener; rewrite Hg; reflexivity).
  cbn [fire]. rewrite bind_get, Hl. unfold when, removeListener.
  rewrite bind_assoc, bind_modify.
  set (s1 := set_spinLock false (set_resetting false
               (set_listeners (filter (fun l' => negb (Nat.eqb (l_id l') (l_id l)))
                                 (listeners s)) s))).
  assert (Hreg1 : Forall (fun l' => registered (l_id l') s1 = true) rest).
  { apply Forall_forall. intros l' Hl'. rewrite Forall_forall in Hreg'.
    specialize (Hreg' l' Hl'). unfold registered in *. subst s1. projs.
    rewrite registered_filter_other; [exact Hreg'|].
    intros Heq. apply Hnot. rewrite <- Heq. apply in_map. exact Hl'. }
  unfold bind. rewrite Hrun. cbn [r_val r_st r_out].
  change (set_spinLock false (set_resetting false
            (set_listeners (filter (fun l' => negb (Nat.eqb (l_id l') (l_id l)))
                              (listeners s)) s))) with s1.
  rewrite (IH s1 Hbody' Hu' Hreg1).
  assert (Hcall : reset_call l = ECallback (Some (l_id l)) g CbNull)
    by (unfold reset_call, callback_of; rewrite Hg; reflexivity).
  cbn [r_val r_st r_out map app]. rewrite Hcall. f_equal.
  destruct rest as [|l2 rest']; cbn [after_reset].
  - subst s1. state_eq. apply filter_ext. intros l'. cbn [existsb].
    rewrite orb_false_r. reflexivity.
  - subst s1. state_eq. rewrite filter_twice. apply filter_ext. intros l'.
    cbn [existsb]. rewrite !negb_orb. reflexivity.
Qed.

Lemma filter_none (keep : Listener -> bool) (ls : list Listener) :
  (forall l, In l ls -> keep l = false) -> filter keep ls = [].
Proof.
  induction ls as [|l ls IH]; intros Hnone; [reflexivity|]. cbn [filter].
  rewrite Hnone by (left; reflexivity). apply IH. intros l' Hl'. apply Hnone.
  right. exact Hl'.
Qed.

Lemma listener_ok_not_AREQ (l : Listener) : listener_ok l -> on_evt "AREQ" l = false.
Proof.
  unfold listener_ok, on_evt. destruct (l_body l); intros ->; reflexivity.
Qed.


(* ================================================================== *)
(** ** A gate nobody is left to release *)
(* ================================================================== *)

#[local] Instance wedge_compositional : Compositional wedge.
Proof.
  split; unfold wedge, sendless.
  - intros s H. split; [exact H|]. intros ? ? ? ? [].
  - intros s1 s2 s3 o1 o2 H1 H2 Hw. destruct (H1 Hw) as [Hw2 Hs1].
    destruct (H2 Hw2) as [Hw3 Hs2]. split; [exact Hw3|].
    intros t sub c p Hin. apply in_app_or in Hin as [Hin|Hin]; [eapply Hs1|eapply Hs2]; eauto.
Qed.

Lemma obeys_wedge_assume {A} (m : M A) (s : State) :
  (wedged s -> obeys_at wedge m s) -> obeys_at wedge m s.
Proof. unfold obeys_at, wedge. intros H Hw. exact (H Hw Hw). Qed.

Lemma same_wedge (s s' : State) :
  _spinLock s' = _spinLock s -> listeners s' = listeners s -> timers s' = timers s ->
  immediates s' = immediates s -> wedge s s' [].
Proof.
  unfold wedge, wedged. intros H1 H2 H3 H4 Hw. rewrite H1, H2, H3, H4.
  split; [exact Hw|]. intros ? ? ? ? [].
Qed.

Lemma tell_wedge (e : Effect) (s : State) :
  (forall type subsys cmdId p, e <> ESend type subsys cmdId p) -> wedge s s [e].
Proof.
  intros He Hw. split; [exact Hw|]. intros t sub c p [Heq|[]]. exact (He _ _ _ _ Heq).
Qed.

Ltac wedge_leaf :=
  first
    [ solve [apply comp_refl]
    | solve [apply tell_wedge; discriminate]
    | try match goal with |- context [_sp ?s] => destruct (_sp s) end;
      apply same_wedge; projs; reflexivity ].

Create HintDb wedge discriminated.

Ltac wedge_tac := obey_with ltac:(auto with wedge) wedge_leaf.

Lemma call_wedge by_l cb a s : obeys_at wedge (call by_l cb a) s.
Proof. unfold call. destruct cb; wedge_tac. Qed.

#[local] Hint Resolve call_wedge : wedge.

Lemma on_error_wedge (em : string -> EvArg -> M unit) data s :
  (forall evt a s', obeys_at wedge (em evt a) s') ->
  obeys_at wedge (on_error em data) s.
Proof. intros Hem. unfold on_error. wedge_tac. Qed.

Lemma emit_within_wedge :
  forall stack evt a s, obeys_at wedge (emit_within stack evt a) s.
Proof.
  assert (Hbody : forall stack,
            (forall evt a s, obeys_at wedge (nested_emit stack evt a) s) ->
            forall evt a s, obeys_at wedge (emit_within stack evt a) s).
  { intros stack Hnested evt a s. rewrite emit_within_eq.
    apply obeys_at_tell_bind; [typeclasses eauto|apply tell_wedge; discriminate|].
    apply obeys_at_get_bind. cbv zeta.
    apply obeys_wedge_assume. intros (_ & Hl & _). rewrite Hl. cbn [filter fire].
    pose proof on_error_wedge as Herr. wedge_tac. }
  induction stack as [|stack IH]; apply Hbody.
  - intros evt a s. cbn. wedge_tac.
  - exact IH.
Qed.

Lemma emit_wedge (evt : string) (a : EvArg) (s : State) : obeys_at wedge (emit evt a) s.
Proof. apply emit_within_wedge. Qed.

#[local] Hint Resolve emit_wedge : wedge.

Lemma request_wedge subsys cmd valObj cb s : obeys_at wedge (request subsys cmd valObj cb) s.
Proof.
  apply obeys_wedge_assume. intros (Hlock & _).
  unfold request. apply obeys_at_get_bind. rewrite Hlock. wedge_tac.
Qed.

Lemma _mtIncomingDataHdlr_wedge err type subsys cmd result s :
  obeys_at wedge (_mtIncomingDataHdlr err type subsys cmd result) s.
Proof. unfold _mtIncomingDataHdlr. wedge_tac. Qed.

#[local] Hint Resolve request_wedge _mtIncomingDataHdlr_wedge : wedge.

Lemma _parseMtIncomingData_wedge data s : obeys_at wedge (_parseMtIncomingData data) s.
Proof. unfold _parseMtIncomingData. wedge_tac. Qed.

Lemma call_all_wedge (cbs : list jsval) (arg : CbArg) (s : State) :
  obeys_at wedge (call_all cbs arg) s.
Proof. revert s. induction cbs as [|cb rest IH]; intros s; cbn [call_all]; wedge_tac. Qed.

#[local] Hint Resolve _parseMtIncomingData_wedge call_all_wedge : wedge.

Lemma _close_wedge cb s : obeys_at wedge (_close cb) s.
Proof. unfold _close, sp_close. wedge_tac. Qed.

#[local] Hint Resolve _close_wedge : wedge.

Lemma step_wedge (ev : Event) (s : State) : obeys_at wedge (step ev) s.
Proof.
  apply obeys_wedge_assume. intros (_ & _ & Htimers & Himm).
  destruct ev; unfold step, close, flush_done, sp_close_done, spOpen, spErr, spClose.
  - wedge_tac.
  - wedge_tac.
  - wedge_tac.
  - wedge_tac.
  - wedge_tac.
  - apply obeys_at_get_bind. rewrite Htimers. cbn [earliest]. wedge_tac.
  - apply obeys_at_get_bind. rewrite Himm. wedge_tac.
  - wedge_tac.
  - wedge_tac.
  - wedge_tac.
  - wedge_tac.
  - wedge_tac.
Qed.

Lemma run_wedge (evs : list Event) (s : State) :
  wedge s (fst (run evs s)) (snd (run evs s)).
Proof.
  apply run_obeys; [typeclasses eauto| |apply step_wedge].
  intros s1 s2 out e H Hw. destruct (H Hw) as [Hw2 Hs]. split; [exact Hw2|].
  intros t sub c p Hin. apply in_app_or in Hin as [Hin|[Heq|[]]];
    [eapply Hs; eauto|discriminate].
Qed.

(** A dispatch that sends nothing leaves the gate taken for good
    (lines 247-256, 289-292, 383-386).  On an initialized engine whose
    gate is Idle and that has nothing pending, a valid request whose
    command is resolved but builds no frame, or is of a wire type other
    than SREQ and AREQ, takes the gate, writes nothing and returns with
    the gate still taken; from then on, whatever happens - requests,
    frames, timers, the port closing and opening again - the gate stays
    taken and nothing is ever written to the device. *)
Theorem failed_dispatch_wedges_gate (s : State) (subsys cmd : ident) (valObj cb : jsval)
    (argObj : ArgObj) (evs : list Event) :
  _init s = true -> valid_call valObj cb = true -> _spinLock s = false ->
  listeners s = [] -> timers s = [] -> immediates s = [] ->
  ZpiObject subsys cmd valObj = inr argObj ->
  a_frame argObj = inr None \/
  (String.eqb (a_type argObj) "SREQ" = false /\ String.eqb (a_type argObj) "AREQ" = false) ->
  let r := request subsys cmd valObj cb s in
  r_st r = set_spinLock true s /\ sendless (r_out r) /\
  _spinLock (fst (run evs (r_st r))) = true /\
  sendless (snd (run evs (r_st r))).
Proof.
  intros Hinit Hvalid Hlock Hl Ht Hi Hzpi Hcase r. subst r.
  rewrite request_valid by assumption. rewrite Hzpi, Hlock.
  assert (Hst : r_st (dispatch argObj valObj cb (set_spinLock true s)) = set_spinLock true s /\
                sendless (r_out (dispatch argObj valObj cb (set_spinLock true s)))).
  { unfold dispatch, _sendSREQ, _sendAREQ, call.
    destruct Hcase as [Hframe|[H1 H2]].
    - rewrite Hframe.
      destruct (String.eqb (a_type argObj) "SREQ"), (String.eqb (a_type argObj) "AREQ");
        mrun; destruct cb; cbn; (split; [reflexivity|]);
        intros t sub c p Hin; cbn in Hin; intuition discriminate.
    - rewrite H1, H2. split; [reflexivity|]. intros t sub c p []. }
  destruct Hst as [Hst Hout]. split; [exact Hst|]. split; [exact Hout|].
  rewrite Hst.
  assert (Hw : wedged (set_spinLock true s)) by (unfold wedged; projs; auto).
  destruct (run_wedge evs _ Hw) as [(Hlock' & _) Hsend]. auto.
Qed.


(* ================================================================== *)
(** ** Nothing outlives its transaction *)
(* ================================================================== *)

#[local] Instance tidies_compositional : Compositional tidies.
Proof.
  split; unfold tidies.
  - intros s Hb Hu Ht. split; [auto|]. split; [lia|auto].
  - intros s1 s2 s3 _ _ H1 H2 Hb Hu Ht.
    destruct (H1 Hb Hu Ht) as ((Hb2 & Hu2 & Ht2) & Hn1 & Hl1).
    destruct (H2 Hb2 Hu2 Ht2) as (Hinv3 & Hn2 & Hl2).
    split; [exact Hinv3|]. split; [lia|].
    intros l Hin. destruct (Hl2 l Hin) as [Hin2|Hge]; [|right; lia].
    apply Hl1. exact Hin2.
Qed.

Lemma obeys_tidies_assume {A} (m : M A) (s : State) :
  (ids_bounded s -> ids_unique s -> tidy s -> obeys_at tidies m s) ->
  obeys_at tidies m s.
Proof. unfold obeys_at, tidies. intros H Hb Hu Ht. exact (H Hb Hu Ht Hb Hu Ht). Qed.

Lemma tidies_intro (s s' : State) (out : list Effect) :
  fresh s s' out -> (ids_bounded s -> ids_unique s -> tidy s -> tidy s') ->
  tidies s s' out.
Proof.
  intros Hf Ht Hb Hu Htidy. destruct (Hf Hb Hu) as (Hb' & Hu' & Hn & Hl). auto 6.
Qed.

Lemma pending_response_same (txn : nat) (s s' : State) :
  listeners s' = listeners s -> pending_response txn s -> pending_response txn s'.
Proof. unfold pending_response. intros ->. auto. Qed.

(** Timers and backlog entries go, none comes. *)
Lemma tidy_shrinks (s s' : State) :
  listeners s' = listeners s ->
  (forall tm, In tm (timers s') -> In tm (timers s)) ->
  (forall txn, In txn (young s') -> In txn (young s)) ->
  (forall txn, In txn (promoted s') -> In txn (promoted s)) ->
  (NoDup (young s) -> NoDup (young s')) ->
  (NoDup (promoted s) -> NoDup (promoted s')) ->
  tidy s -> tidy s'.
Proof.
  intros Hl Ht Hy Hp Hny Hnp (T1 & T2 & T3 & T4 & T5).
  split; [|split; [|split; [|split]]].
  - intros tm txn Hin Hown. apply (pending_response_same txn s s' Hl). eauto.
  - intros txn Hin. apply (pending_response_same txn s s' Hl). auto.
  - auto.
  - auto.
  - intros txn Hin Hin'. apply (T5 txn); auto.
Qed.

Lemma young_filter_In (keep : Timer -> bool) (ts : list Timer) (txn : nat) :
  In txn (flat_map nq_txn (filter keep ts)) -> In txn (flat_map nq_txn ts).
Proof.
  intros Hin. apply in_flat_map in Hin as (tm & Htm & Hin). apply in_flat_map.
  exists tm. apply filter_In in Htm. tauto.
Qed.

Lemma young_filter_NoDup (keep : Timer -> bool) (ts : list Timer) :
  NoDup (flat_map nq_txn ts) -> NoDup (flat_map nq_txn (filter keep ts)).
Proof.
  induction ts as [|tm ts IH]; cbn [flat_map filter]; [auto|]. intros Hnd.
  assert (Hrest : NoDup (flat_map nq_txn ts)) by (eapply NoDup_app_remove_l; exact Hnd).
  destruct (keep tm); [|auto]. cbn [flat_map].
  assert (Hnq : nq_txn tm = [] \/ exists txn, nq_txn tm = [txn])
    by (unfold nq_txn; destruct (t_kind tm); eauto).
  destruct Hnq as [Hnq|[txn Hnq]]; rewrite Hnq in *; cbn [app] in *; [auto|].
  inversion Hnd as [|? ? Hnot _]; subst. constructor; [|auto].
  intros Hin. apply Hnot. eapply young_filter_In. exact Hin.
Qed.

Lemma splice1_cons {A} (x : A) (l : list A) (pos : nat) :
  splice1 (S pos) (x :: l) = x :: splice1 pos l.
Proof. reflexivity. Qed.

Lemma promoted_splice_In (bl : list BacklogEntry) (pos txn : nat) :
  In txn (map b_id (splice1 pos bl)) -> In txn (map b_id bl).
Proof.
  revert pos. induction bl as [|b bl IH]; intros pos.
  - destruct pos; unfold splice1; cbn; auto.
  - destruct pos as [|pos].
    + unfold splice1. cbn [firstn skipn app map In]. auto.
    + rewrite splice1_cons. cbn [map In]. intros [H|H]; eauto.
Qed.

Lemma promoted_splice_NoDup (bl : list BacklogEntry) (pos : nat) :
  NoDup (map b_id bl) -> NoDup (map b_id (splice1 pos bl)).
Proof.
  revert pos. induction bl as [|b bl IH]; intros pos Hnd.
  - destruct pos; unfold splice1; cbn; constructor.
  - inversion Hnd as [|? ? Hnot Hrest]; subst. destruct pos as [|pos].
    + unfold splice1. cbn [firstn skipn app]. exact Hrest.
    + rewrite splice1_cons. cbn [map]. constructor; [|auto].
      intros Hin. apply Hnot. eapply promoted_splice_In. exact Hin.
Qed.

Lemma same_tidies (s s' : State) (out : list Effect) :
  listeners s' = listeners s -> timers s' = timers s -> _backlog s' = _backlog s ->
  next_id s' = next_id s -> tidies s s' out.
Proof.
  intros Hl Ht Hbl Hn. apply tidies_intro; [apply same_listeners_fresh; assumption|].
  intros _ _. apply tidy_shrinks; unfold young, promoted; rewrite ?Ht, ?Hbl; auto.
Qed.

Lemma clearTimeout_tidies which s : obeys_at tidies (clearTimeout which) s.
Proof.
  unfold clearTimeout. apply obeys_at_modify.
  apply tidies_intro; [apply same_listeners_fresh; reflexivity|].
  intros _ _. apply tidy_shrinks; unfold young, promoted; projs; auto.
  - intros tm Hin. apply filter_In in Hin. tauto.
  - intros txn. apply young_filter_In.
  - apply young_filter_NoDup.
Qed.

Lemma splice_backlog_tidies (pos : nat) (s : State) :
  tidies s (set_backlog (splice1 pos (_backlog s)) s) [].
Proof.
  apply tidies_intro; [apply same_listeners_fresh; reflexivity|].
  intros _ _. apply tidy_shrinks; unfold young, promoted; projs; auto.
  - intros txn. apply promoted_splice_In.
  - apply promoted_splice_NoDup.
Qed.

Lemma settle_prefix_purges txn evt argObj bl s :
  listeners (r_st (settle_prefix txn evt argObj bl s)) = listeners s /\
  next_id (r_st (settle_prefix txn evt argObj bl s)) = next_id s /\
  timers (r_st (settle_prefix txn evt argObj bl s)) = purged_timers txn (timers s) /\
  _backlog (r_st (settle_prefix txn evt argObj bl s))
  = purged_backlog (ownEvent txn evt argObj) (_backlog s).
Proof.
  unfold settle_prefix, clearTimeout, _scheduleNextSend, setImmediate, purged_timers,
    purged_backlog.
  destruct (_spinLock s) eqn:Hlock; mrun; rewrite ?Hlock; cbn [negb]; mrun; projs.
  - destruct (indexOf (_backlog s) (REntry (ownEvent txn evt argObj)));
      projs; destruct (_txQueue s); mrun; projs; repeat split; reflexivity.
  - destruct (indexOf (_backlog s) (REntry (ownEvent txn evt argObj)));
      projs; repeat split; reflexivity.
Qed.

Lemma settle_final_calm txn cb result s :
  listeners (r_st (settle_final txn cb result s)) = listeners s /\
  next_id (r_st (settle_final txn cb result s)) = next_id s /\
  timers (r_st (settle_final txn cb result s)) = timers s /\
  _backlog (r_st (settle_final txn cb result s)) = _backlog s.
Proof. unfold settle_final, call. destruct result, cb; cbn; repeat split. Qed.

Lemma run_listener_purges (l : Listener) (a : EvArg) (s : State) :
  listeners (r_st (run_listener l a s)) = listeners s /\
  next_id (r_st (run_listener l a s)) = next_id s /\
  (if is_response l
   then timers (r_st (run_listener l a s)) = purged_timers (l_id l) (timers s) /\
        exists e, b_id e = l_id l /\
                  _backlog (r_st (run_listener l a s)) = purged_backlog e (_backlog s)
   else timers (r_st (run_listener l a s)) = timers s /\
        _backlog (r_st (run_listener l a s)) = _backlog s).
Proof.
  unfold run_listener, is_response. destruct (l_body l) as [argObj valObj cb bl|cb].
  - rewrite srsp_listener_split. unfold bind. rewrite settle_prefix_returns.
    cbn [r_st].
    destruct (settle_prefix_purges (l_id l) (l_evt l) argObj bl s) as (H1 & H2 & H3 & H4).
    destruct (settle_final_calm (l_id l) cb a
                (r_st (settle_prefix (l_id l) (l_evt l) argObj bl s))) as (F1 & F2 & F3 & F4).
    rewrite F1, F2, F3, F4, H1, H2, H3, H4. repeat split.
    exists (ownEvent (l_id l) (l_evt l) argObj). split; reflexivity.
  - unfold reset_listener, call. destruct cb; cbn; repeat split.
Qed.

Lemma purged_timers_In (txn : nat) (ts : list Timer) (tm : Timer) :
  In tm (purged_timers txn ts) -> In tm ts /\ owner (t_kind tm) <> Some txn.
Proof.
  unfold purged_timers. intros Hin. apply filter_In in Hin as [Hin H2].
  apply filter_In in Hin as [Hin H1]. split; [exact Hin|].
  destruct (t_kind tm); cbn in *; try discriminate.
  - apply negb_true_iff, Nat.eqb_neq in H1. congruence.
  - apply negb_true_iff, Nat.eqb_neq in H2. congruence.
Qed.

Lemma purged_backlog_In (e : BacklogEntry) (bl : list BacklogEntry) (txn : nat) :
  NoDup (map b_id bl) -> In txn (map b_id (purged_backlog e bl)) ->
  In txn (map b_id bl) /\ txn <> b_id e.
Proof.
  unfold purged_backlog, indexOf. intros Hnd Hin.
  destruct (findIndex (fun b => same_object (REntry b) (REntry e)) bl) as [pos|] eqn:Hf.
  - destruct (findIndex_Some _ bl pos e Hf) as (before & x & behind & -> & _ & Hx & _ & Hs).
    rewrite Hs in Hin. cbn [same_object] in Hx. apply Nat.eqb_eq in Hx.
    rewrite map_app in Hnd. cbn [map] in Hnd. apply NoDup_remove_2 in Hnd.
    rewrite map_app in Hin |- *. cbn [map]. split.
    + apply in_app_or in Hin as [H|H]; apply in_or_app; [left|right; right]; exact H.
    + intros ->. apply Hnd. rewrite Hx. exact Hin.
  - split; [exact Hin|]. intros ->. apply in_map_iff in Hin as (b & Hid & Hb).
    rewrite findIndex_None in Hf. specialize (Hf b Hb). cbn [same_object] in Hf.
    apply Nat.eqb_neq in Hf. contradiction.
Qed.

Lemma purged_backlog_NoDup (e : BacklogEntry) (bl : list BacklogEntry) :
  NoDup (map b_id bl) -> NoDup (map b_id (purged_backlog e bl)).
Proof.
  unfold purged_backlog. destruct (indexOf bl (REntry e)); [|auto].
  apply promoted_splice_NoDup.
Qed.

(** The one-shot wrapper of a registered listener. *)
Lemma fire_one_tidies (l : Listener) (a : EvArg) (s : State) :
  In l (listeners s) ->
  obeys_at tidies (removeListener (l_id l);; run_listener l a) s.
Proof.
  intros Hin. unfold obeys_at. apply tidies_intro.
  { pose proof removeListener_fresh as Hrm. pose proof run_listener_fresh as Hrun.
    change (obeys_at fresh (removeListener (l_id l);; run_listener l a) s). fresh_tac. }
  intros Hb Hu (T1 & T2 & T3 & T4 & T5).
  unfold removeListener. rewrite bind_modify.
  set (s1 := set_listeners (filter (fun l' => negb (Nat.eqb (l_id l') (l_id l))) (listeners s)) s).
  destruct (run_listener_purges l a s1) as (Hl & _ & Hrest).
  set (s2 := r_st (run_listener l a s1)) in *.
  assert (Hkeep : forall txn, txn <> l_id l -> pending_response txn s ->
                    pending_response txn s2).
  { intros txn Hne (l' & Hl' & Hid & Hresp). exists l'. rewrite Hl. subst s1. projs.
    split; [|auto]. apply filter_In. split; [exact Hl'|].
    apply negb_true_iff, Nat.eqb_neq. congruence. }
  assert (Hother : is_response l = false -> forall txn, pending_response txn s ->
                     txn <> l_id l).
  { intros Hno txn (l' & Hl' & Hid & Hresp) ->.
    assert (l' = l) by (exact (NoDup_map_same l_id _ l' l Hu Hl' Hin Hid)).
    subst l'. congruence. }
  destruct (is_response l) eqn:Hresp.
  - destruct Hrest as (Ht & e & He & Hbl).
    assert (Hy : forall txn, In txn (young s2) -> In txn (young s)).
    { intros txn. unfold young. rewrite Ht. subst s1. projs. unfold purged_timers.
      intros H. apply young_filter_In in H. apply young_filter_In in H. exact H. }
    split; [|split; [|split; [|split]]].
    + intros tm txn Htm Hown. rewrite Ht in Htm. subst s1. revert Htm. projs. intros Htm.
      apply purged_timers_In in Htm as [Htm Hne]. apply Hkeep; [congruence|]. eauto.
    + intros txn Htxn. unfold promoted in Htxn. rewrite Hbl in Htxn.
      apply purged_backlog_In in Htxn as [Htxn Hne]; [|exact T4].
      apply Hkeep; [congruence|]. auto.
    + unfold young. rewrite Ht. subst s1. projs. unfold purged_timers.
      apply young_filter_NoDup, young_filter_NoDup. exact T3.
    + unfold promoted. rewrite Hbl. apply purged_backlog_NoDup. exact T4.
    + intros txn Htxn Hp. unfold promoted in Hp. rewrite Hbl in Hp.
      apply purged_backlog_In in Hp as [Hp _]; [|exact T4].
      apply (T5 txn); auto.
  - destruct Hrest as (Ht & Hbl).
    split; [|split; [|split; [|split]]].
    + intros tm txn Htm Hown. rewrite Ht in Htm.
      assert (Hp : pending_response txn s) by eauto.
      apply Hkeep; [apply Hother; auto|exact Hp].
    + intros txn Htxn. unfold promoted in Htxn. rewrite Hbl in Htxn.
      assert (Hp : pending_response txn s) by auto.
      apply Hkeep; [apply Hother; auto|exact Hp].
    + unfold young. rewrite Ht. exact T3.
    + unfold promoted. rewrite Hbl. exact T4.
    + unfold young, promoted. rewrite Ht, Hbl. exact T5.
Qed.

Lemma current_fresh (snapshot : list Listener) (s s' : State) (out : list Effect) :
  ids_bounded s -> ids_unique s ->
  (forall l, In l snapshot -> In l (listeners s)) ->
  fresh s s' out -> current snapshot s'.
Proof.
  intros Hb Hu Hsnap Hf l Hl Hreg. destruct (Hf Hb Hu) as (_ & _ & _ & Hold).
  apply existsb_exists in Hreg as (l' & Hl' & Hid). apply Nat.eqb_eq in Hid.
  specialize (Hsnap l Hl).
  assert (Hlt : (l_id l < next_id s)%nat).
  { unfold ids_bounded in Hb. rewrite Forall_forall in Hb. exact (Hb l Hsnap). }
  destruct (Hold l' Hl') as [Hin0|Hge]; [|lia].
  assert (l' = l) by (exact (NoDup_map_same l_id _ l' l Hu Hin0 Hsnap Hid)).
  subst l'. exact Hl'.
Qed.

Ltac tidy_leaf :=
  first
    [ solve [apply comp_refl]
    | solve [apply splice_backlog_tidies]
    | try match goal with |- context [indexOf ?b ?x] => destruct (indexOf b x) end;
      try match goal with |- context [_sp ?s] => destruct (_sp s) end;
      first [ solve [apply splice_backlog_tidies]
            | apply same_tidies; projs; reflexivity ] ].

Create HintDb tidy discriminated.

Ltac tidy_tac := obey_with ltac:(auto with tidy) tidy_leaf.

#[local] Hint Resolve clearTimeout_tidies : tidy.

Lemma call_tidies by_l cb a s : obeys_at tidies (call by_l cb a) s.
Proof. unfold call. destruct cb; tidy_tac. Qed.

Lemma _scheduleNextSend_tidies early s : obeys_at tidies (_scheduleNextSend early) s.
Proof. unfold _scheduleNextSend, setImmediate. tidy_tac. Qed.

Lemma unpi_send_tidies t sub c p s : obeys_at tidies (unpi_send t sub c p) s.
Proof. unfold unpi_send. tidy_tac. Qed.

#[local] Hint Resolve call_tidies _scheduleNextSend_tidies unpi_send_tidies : tidy.

Lemma fire_tidies (snapshot : list Listener) (a : EvArg) (s : State) :
  current snapshot s ->
  obeys_at tidies (fire run_listener snapshot a) s.
Proof.
  revert s. induction snapshot as [|l rest IH]; intros s Hcur; cbn [fire].
  - tidy_tac.
  - apply obeys_at_get_bind. cbv zeta.
    apply obeys_at_bind; [typeclasses eauto| |intros ? _].
    + unfold when. destruct (registered (l_id l) s) eqn:Hreg; [|tidy_tac].
      apply fire_one_tidies. apply Hcur; [left; reflexivity|exact Hreg].
    + apply IH.
      set (s1 := r_st (when (registered (l_id l) s)
                         (removeListener (l_id l);; run_listener l a) s)).
      intros l' Hl' Hreg'.
      assert (Hls : listeners s1
                    = if registered (l_id l) s
                      then filter (fun x => negb (Nat.eqb (l_id x) (l_id l))) (listeners s)
                      else listeners s).
      { subst s1. unfold when. destruct (registered (l_id l) s); [|reflexivity].
        unfold removeListener. rewrite bind_modify.
        destruct (run_listener_purges l a
                    (set_listeners (filter (fun x => negb (Nat.eqb (l_id x) (l_id l)))
                                      (listeners s)) s)) as (Hl & _).
        rewrite Hl. reflexivity. }
      unfold registered in Hreg'. rewrite Hls in Hreg' |- *.
      destruct (registered (l_id l) s) eqn:Hreg.
      * apply existsb_exists in Hreg' as (x & Hx & Hid). apply Nat.eqb_eq in Hid.
        apply filter_In in Hx as [Hx Hne].
        apply negb_true_iff, Nat.eqb_neq in Hne.
        apply filter_In. split.
        -- apply Hcur; [right; exact Hl'|]. apply existsb_exists. exists x.
           split; [exact Hx|apply Nat.eqb_eq; exact Hid].
        -- apply negb_true_iff, Nat.eqb_neq. congruence.
      * apply Hcur; [right; exact Hl'|exact Hreg'].
Qed.

Lemma on_error_tidies (em : string -> EvArg -> M unit) data s :
  (forall evt a s', obeys_at tidies (em evt a) s') ->
  obeys_at tidies (on_error em data) s.
Proof. intros Hem. unfold on_error. tidy_tac. Qed.

Lemma nested_emit_fresh (stack : nat) evt a s : obeys_at fresh (nested_emit stack evt a) s.
Proof. destruct stack; cbn; [fresh_tac|apply emit_within_fresh]. Qed.

Lemma emit_within_tidies :
  forall stack evt a s, obeys_at tidies (emit_within stack evt a) s.
Proof.
  assert (Hbody : forall stack,
            (forall evt a s, obeys_at tidies (nested_emit stack evt a) s) ->
            forall evt a s, obeys_at tidies (emit_within stack evt a) s).
  { intros stack Hnested evt a s. rewrite emit_within_eq.
    apply obeys_at_tell_bind; [typeclasses eauto|apply same_tidies; reflexivity|].
    apply obeys_at_get_bind. cbv zeta.
    apply obeys_tidies_assume. intros Hb Hu _.
    set (snapshot := filter (on_evt evt) (listeners s)).
    set (m1 := when (String.eqb evt "_ready")
                 (modify (set_init true);; nested_emit stack "ready"%string ANone)).
    set (m2 := when (String.eqb evt "SRSP:RES0:error") (on_error (nested_emit stack) a)).
    pose proof on_error_tidies as Herr.
    assert (H1 : obeys_at tidies m1 s) by (subst m1; tidy_tac).
    assert (H2 : forall s', obeys_at tidies m2 s') by (intros s'; subst m2; tidy_tac).
    pose proof on_error_fresh as Herrf. pose proof nested_emit_fresh as Hnf.
    assert (F1 : obeys_at fresh m1 s) by (subst m1; fresh_tac).
    assert (F2 : forall s', obeys_at fresh m2 s') by (intros s'; subst m2; fresh_tac).
    apply obeys_at_bind; [typeclasses eauto|exact H1|intros ? _].
    apply obeys_at_bind; [typeclasses eauto|apply H2|intros ? _].
    apply fire_tidies.
    apply (current_fresh snapshot s _ (r_out (m1 s) ++ r_out (m2 (r_st (m1 s)))) Hb Hu).
    - intros l Hl. subst snapshot. apply filter_In in Hl. tauto.
    - eapply comp_trans; [exact F1|apply F2]. }
  induction stack as [|stack IH]; apply Hbody.
  - intros evt a s. cbn. tidy_tac.
  - exact IH.
Qed.

Lemma emit_tidies (evt : string) (a : EvArg) (s : State) : obeys_at tidies (emit evt a) s.
Proof. apply emit_within_tidies. Qed.

#[local] Hint Resolve emit_tidies : tidy.

Lemma sreqTimeout_tidies evt s : obeys_at tidies (sreqTimeout emit evt) s.
Proof. unfold sreqTimeout. tidy_tac. Qed.

Lemma sweep_tidies backlog s : obeys_at tidies (sweep emit backlog) s.
Proof. revert s. induction backlog as [|x rest IH]; intros s; cbn [sweep]; tidy_tac. Qed.

#[local] Hint Resolve sreqTimeout_tidies sweep_tidies : tidy.

Lemma pending_response_bounded (txn : nat) (s : State) :
  ids_bounded s -> pending_response txn s -> (txn < next_id s)%nat.
Proof.
  intros Hb (l & Hl & <- & _). unfold ids_bounded in Hb. rewrite Forall_forall in Hb.
  exact (Hb l Hl).
Qed.

Lemma pending_response_grows (txn : nat) (s s' : State) (more : list Listener) :
  listeners s' = listeners s ++ more -> pending_response txn s -> pending_response txn s'.
Proof.
  intros Hl (l & Hin & Hid & Hr). exists l. rewrite Hl. split; [|auto].
  apply in_or_app. left. exact Hin.
Qed.

Lemma young_In (txn : nat) (s : State) :
  In txn (young s) ->
  exists tm, In tm (timers s) /\ owner (t_kind tm) = Some txn.
Proof.
  unfold young. intros Hin. apply in_flat_map in Hin as (tm & Htm & Hin).
  exists tm. split; [exact Htm|]. unfold nq_txn in Hin.
  destruct (t_kind tm); cbn in *; try contradiction. destruct Hin as [->|[]]. reflexivity.
Qed.

Lemma _sendSREQ_tidies argObj valObj cb s : obeys_at tidies (_sendSREQ argObj valObj cb) s.
Proof.
  unfold _sendSREQ. apply obeys_at_get_bind. cbv zeta.
  destruct (a_frame argObj) as [ex|[payload|]]; [tidy_tac| |tidy_tac].
  set (evt := srsp_evt (a_subsys argObj) (a_cmd argObj)).
  set (s2 := set_timers
               ((timers s ++ [mkTimer (now s + 3500) (TSreqTimeout (next_id s) evt)])
                ++ [mkTimer (now s + 1800) (TSreqNextQueue (next_id s) evt argObj)]) s).
  set (s' := r_st (once evt (BSrsp argObj valObj cb (new_Array RBacklogArray)) s2)).
  unfold obeys_at, setTimeout. rewrite !bind_modify.
  unfold bind. change (r_val (once evt (BSrsp argObj valObj cb (new_Array RBacklogArray))
                                (set_timers
                                   (timers (set_timers (timers s ++ [mkTimer (now s + 3500)
                                      (TSreqTimeout (next_id s) evt)]) s)
                                    ++ [mkTimer (now (set_timers (timers s ++
                                          [mkTimer (now s + 3500)
                                             (TSreqTimeout (next_id s) evt)]) s) + 1800)
                                          (TSreqNextQueue (next_id s) evt argObj)])
                                   (set_timers (timers s ++ [mkTimer (now s + 3500)
                                      (TSreqTimeout (next_id s) evt)]) s))))
    with (@inr Error unit tt). cbv iota. cbn [r_st r_out].
  change (r_st (once evt (BSrsp argObj valObj cb (new_Array RBacklogArray)) _)) with s'.
  apply (@comp_trans _ tidies_compositional s s' _ [] _);
    [|apply (unpi_send_tidies "SREQ" (a_subsys argObj) (a_cmdId argObj) payload s')].
  apply tidies_intro.
  { apply (@comp_trans _ fresh_compositional s s2 s' [] []).
    - apply same_listeners_fresh; reflexivity.
    - exact (once_fresh evt (BSrsp argObj valObj cb (new_Array RBacklogArray)) s2). }
  intros Hb Hu (T1 & T2 & T3 & T4 & T5).
  assert (Hl : listeners s' = listeners s ++
                 [mkListener (next_id s) evt (BSrsp argObj valObj cb (new_Array RBacklogArray))])
    by reflexivity.
  assert (Ht : timers s' = (timers s ++ [mkTimer (now s + 3500) (TSreqTimeout (next_id s) evt)])
                            ++ [mkTimer (now s + 1800) (TSreqNextQueue (next_id s) evt argObj)])
    by reflexivity.
  assert (Hbl : _backlog s' = _backlog s) by reflexivity.
  assert (Hnew : pending_response (next_id s) s').
  { eexists. rewrite Hl. split; [apply in_or_app; right; left; reflexivity|].
    split; reflexivity. }
  assert (Hy : young s' = young s ++ [next_id s]).
  { unfold young. rewrite Ht, !flat_map_app. cbn. rewrite app_nil_r. reflexivity. }
  assert (Hfresh_y : ~ In (next_id s) (young s)).
  { intros Hin. apply young_In in Hin as (tm & Htm & Hown).
    pose proof (pending_response_bounded _ s Hb (T1 tm _ Htm Hown)). lia. }
  assert (Hfresh_p : ~ In (next_id s) (promoted s)).
  { intros Hin. pose proof (pending_response_bounded _ s Hb (T2 _ Hin)). lia. }
  split; [|split; [|split; [|split]]].
  - intros tm txn Htm Hown. rewrite Ht in Htm.
    apply in_app_or in Htm as [Htm|[<-|[]]];
      [apply in_app_or in Htm as [Htm|[<-|[]]]|].
    + eapply pending_response_grows; [exact Hl|]. eauto.
    + cbn in Hown. injection Hown as <-. exact Hnew.
    + cbn in Hown. injection Hown as <-. exact Hnew.
  - intros txn Hin. unfold promoted in Hin. rewrite Hbl in Hin.
    eapply pending_response_grows; [exact Hl|]. auto.
  - rewrite Hy. apply NoDup_app; [exact T3|repeat constructor; auto|].
    intros txn Hin [<-|[]]. contradiction.
  - unfold promoted. rewrite Hbl. exact T4.
  - intros txn Hin Hp. unfold promoted in Hp. rewrite Hbl in Hp. rewrite Hy in Hin.
    apply in_app_or in Hin as [Hin|[<-|[]]]; [apply (T5 txn); auto|contradiction].
Qed.

Lemma once_reset_tidies cb s : obeys_at tidies (once "AREQ:SYS:RESET" (BReset cb)) s.
Proof.
  unfold obeys_at. apply tidies_intro; [apply once_fresh|].
  intros _ _ (T1 & T2 & T3 & T4 & T5). unfold once. cbn [r_st modify].
  set (s' := set_next_id _ _).
  assert (Hl : listeners s' = listeners s ++
                 [mkListener (next_id s) "AREQ:SYS:RESET" (BReset cb)]) by reflexivity.
  split; [|split; [|split; [|split]]].
  - intros tm txn Htm Hown. eapply pending_response_grows; [exact Hl|].
    apply (T1 tm); assumption.
  - intros txn Hin. eapply pending_response_grows; [exact Hl|]. apply T2. exact Hin.
  - exact T3.
  - exact T4.
  - exact T5.
Qed.

Lemma failsafe_timer_tidies ms s : obeys_at tidies (setTimeout ms TResetFailsafe) s.
Proof.
  unfold setTimeout. apply obeys_at_modify.
  apply tidies_intro; [apply same_listeners_fresh; reflexivity|].
  intros _ _ (T1 & T2 & T3 & T4 & T5).
  assert (Hy : young (set_timers (timers s ++ [mkTimer (now s + ms) TResetFailsafe]) s)
               = young s).
  { unfold young. projs. rewrite flat_map_app. cbn. apply app_nil_r. }
  split; [|split; [|split; [|split]]].
  - projs. intros tm txn Htm Hown. apply in_app_or in Htm as [Htm|[<-|[]]].
    + apply (T1 tm); assumption.
    + discriminate.
  - exact T2.
  - rewrite Hy. exact T3.
  - exact T4.
  - rewrite Hy. exact T5.
Qed.

#[local] Hint Resolve _sendSREQ_tidies once_reset_tidies failsafe_timer_tidies : tidy.

Lemma _sendAREQ_tidies argObj cb s : obeys_at tidies (_sendAREQ argObj cb) s.
Proof. unfold _sendAREQ. tidy_tac. Qed.

#[local] Hint Resolve _sendAREQ_tidies : tidy.

Lemma request_tidies subsys cmd valObj cb s :
  obeys_at tidies (request subsys cmd valObj cb) s.
Proof. unfold request. tidy_tac. Qed.

#[local] Hint Resolve request_tidies : tidy.

Lemma entry_fn_tidies entry s : obeys_at tidies (entry_fn entry) s.
Proof. unfold entry_fn. tidy_tac. Qed.

Lemma _mtIncomingDataHdlr_tidies err type subsys cmd result s :
  obeys_at tidies (_mtIncomingDataHdlr err type subsys cmd result) s.
Proof. unfold _mtIncomingDataHdlr. tidy_tac. Qed.

#[local] Hint Resolve entry_fn_tidies _mtIncomingDataHdlr_tidies : tidy.

Lemma _parseMtIncomingData_tidies data s : obeys_at tidies (_parseMtIncomingData data) s.
Proof. unfold _parseMtIncomingData. tidy_tac. Qed.

Lemma call_all_tidies (cbs : list jsval) (arg : CbArg) (s : State) :
  obeys_at tidies (call_all cbs arg) s.
Proof. revert s. induction cbs as [|cb rest IH]; intros s; cbn [call_all]; tidy_tac. Qed.

#[local] Hint Resolve _parseMtIncomingData_tidies call_all_tidies : tidy.

Lemma _close_tidies cb s : obeys_at tidies (_close cb) s.
Proof. unfold _close, sp_close. tidy_tac. Qed.

#[local] Hint Resolve _close_tidies : tidy.

(** The promotion of a pending transaction that is neither waiting
    for its promotion any more nor promoted yet. *)
Lemma sreqNextQueue_tidies txn evt argObj s :
  pending_response txn s -> ~ In txn (young s) -> ~ In txn (promoted s) ->
  obeys_at tidies (sreqNextQueue txn evt argObj) s.
Proof.
  intros Hp Hny Hnp. unfold sreqNextQueue.
  apply obeys_at_modify_bind; [typeclasses eauto| |tidy_tac].
  apply tidies_intro; [apply same_listeners_fresh; reflexivity|].
  intros _ _ (T1 & T2 & T3 & T4 & T5).
  assert (Hpr : promoted (set_backlog (_backlog s ++ [ownEvent txn evt argObj]) s)
                = promoted s ++ [txn]).
  { unfold promoted. projs. rewrite map_app. reflexivity. }
  split; [|split; [|split; [|split]]].
  - exact T1.
  - rewrite Hpr. intros t Hin. apply in_app_or in Hin as [Hin|[<-|[]]]; [|exact Hp].
    apply T2 in Hin. exact Hin.
  - exact T3.
  - rewrite Hpr. apply NoDup_app; [exact T4|repeat constructor; auto|].
    intros t Hin [<-|[]]. contradiction.
  - rewrite Hpr. intros t Hin Hin'. apply in_app_or in Hin' as [Hin'|[<-|[]]].
    + apply (T5 t); assumption.
    + apply Hny. exact Hin.
Qed.

Lemma reset_failsafe_tidies s : obeys_at tidies reset_failsafe s.
Proof. unfold reset_failsafe. tidy_tac. Qed.

Lemma step_timer_tidies (s : State) : obeys_at tidies (step EvTimer) s.
Proof.
  cbn [step]. apply obeys_at_get_bind. cbv zeta.
  destruct (earliest (timers s)) as [[pos t]|] eqn:He; [|tidy_tac].
  apply earliest_nth in He. unfold when.
  destruct (t_due t <=? now s); [|tidy_tac].
  apply obeys_tidies_assume. intros Hb Hu (T1 & T2 & T3 & T4 & T5).
  pose proof He as Hsplit. apply nth_error_split in Hsplit as (l1 & l2 & Hts & Hlen).
  assert (Hs1 : splice1 pos (timers s) = l1 ++ l2)
    by (rewrite Hts, <- Hlen; apply splice1_split).
  assert (Hy : young s = flat_map nq_txn l1 ++ nq_txn t ++ flat_map nq_txn l2).
  { unfold young. rewrite Hts, flat_map_app. reflexivity. }
  assert (Hy1 : young (set_timers (splice1 pos (timers s)) s)
                = flat_map nq_txn l1 ++ flat_map nq_txn l2).
  { unfold young. projs. rewrite Hs1, flat_map_app. reflexivity. }
  apply obeys_at_modify_bind; [typeclasses eauto| |].
  - apply tidies_intro; [apply same_listeners_fresh; reflexivity|].
    intros _ _ _. apply (tidy_shrinks s); try reflexivity.
    + projs. intros tm Hin. exact (splice1_In _ _ _ _ He Hin).
    + intros txn. rewrite Hy1, Hy. intros Hin.
      apply in_app_or in Hin as [Hin|Hin]; apply in_or_app; [left; exact Hin|right].
      apply in_or_app. right. exact Hin.
    + intros txn Hin. exact Hin.
    + rewrite Hy1, Hy. intros Hnd. unfold nq_txn at 2 in Hnd.
      destruct (t_kind t); cbn [app] in Hnd; try exact Hnd.
      apply NoDup_remove_1 in Hnd. exact Hnd.
    + auto.
    + repeat split; assumption.
  - destruct (t_kind t) as [txn evt|txn evt argObj|] eqn:Hk; cbn [run_timer].
    + apply sreqTimeout_tidies.
    + apply sreqNextQueue_tidies.
      * apply (pending_response_same txn s); [reflexivity|].
        apply (T1 t); [eapply nth_error_In; exact He|rewrite Hk; reflexivity].
      * rewrite Hy1. rewrite Hy in T3. unfold nq_txn at 2 in T3. rewrite Hk in T3.
        cbn [app] in T3. apply NoDup_remove_2 in T3. exact T3.
      * apply T5. rewrite Hy. unfold nq_txn at 2. rewrite Hk.
        apply in_or_app. right. left. reflexivity.
    + apply reset_failsafe_tidies.
Qed.

Lemma step_tidies (ev : Event) (s : State) : obeys_at tidies (step ev) s.
Proof.
  destruct ev; try apply step_timer_tidies;
    unfold step, close, flush_done, sp_close_done, spOpen, spErr, spClose, run_immediate;
    tidy_tac.
Qed.

Lemma tidy_new : tidy new_CcZnp.
Proof.
  repeat split; try constructor; cbn; intros; contradiction.
Qed.

Lemma run_tidies (evs : list Event) (s : State) :
  tidies s (fst (run evs s)) (snd (run evs s)).
Proof. apply run_obeys; [typeclasses eauto|auto|apply step_tidies]. Qed.

(** Nothing outlives its transaction.  In every state the engine can
    reach: a pending timer of a transaction (its 3500 ms timeout or its
    1800 ms promotion) and an entry of the backlog belong to a
    transaction whose response listener is still registered; no
    transaction has two promotion timers or two backlog entries, or
    one of each.  So when no listener is registered, the backlog is
    empty and the only timers left are fail-safes of resets. *)
Theorem nothing_outlives_its_transaction (evs : list Event) :
  let s := fst (run evs new_CcZnp) in
  (forall tm txn, In tm (timers s) -> owner (t_kind tm) = Some txn ->
     exists l, In l (listeners s) /\ l_id l = txn /\ is_response l = true) /\
  (forall b, In b (_backlog s) ->
     exists l, In l (listeners s) /\ l_id l = b_id b /\ is_response l = true) /\
  NoDup (young s ++ promoted s) /\
  (listeners s = [] ->
   _backlog s = [] /\ Forall (fun tm => t_kind tm = TResetFailsafe) (timers s)).
Proof.
  intros s.
  destruct (run_tidies evs new_CcZnp ids_bounded_new ids_unique_new tidy_new)
    as ((_ & _ & T1 & T2 & T3 & T4 & T5) & _).
  fold s in T1, T2, T3, T4, T5.
  split; [exact T1|]. split; [|split].
  - intros b Hb. apply T2. unfold promoted. apply in_map. exact Hb.
  - apply NoDup_app; assumption.
  - intros Hnone. split.
    + destruct (_backlog s) as [|b bl] eqn:Hbl; [reflexivity|].
      destruct (T2 (b_id b)) as (l & Hl & _).
      { unfold promoted. rewrite Hbl. left. reflexivity. }
      rewrite Hnone in Hl. destruct Hl.
    + apply Forall_forall. intros tm Htm.
      destruct (t_kind tm) as [txn evt|txn evt argObj|] eqn:Hk; [| |reflexivity].
      * destruct (T1 tm txn Htm) as (l & Hl & _); [rewrite Hk; reflexivity|].
        rewrite Hnone in Hl. destruct Hl.
      * destruct (T1 tm txn Htm) as (l & Hl & _); [rewrite Hk; reflexivity|].
        rewrite Hnone in Hl. destruct Hl.
Qed.

(* ================================================================== *)
(** ** An initialized engine has its port *)
(* ================================================================== *)

Lemma obeys_wired_assume {A} (m : M A) (s : State) :
  (wired s -> obeys_at (keeps wired) m s) -> obeys_at (keeps wired) m s.
Proof. unfold obeys_at, keeps. intros H Hw. exact (H Hw Hw). Qed.

Ltac wired_parts :=
  unfold wired; projs;
  repeat match goal with
         | |- _ /\ _ => split
         | |- Forall _ (_ ++ _) => apply Forall_app; split
         | |- Forall _ (splice1 _ _) => apply Forall_splice1
         | |- Forall _ (filter _ _) => apply Forall_filter
         | |- Forall _ [] => constructor
         | |- Forall _ [_] => constructor; [|constructor]
         end;
  cbn [timer_wired immediate_wired listener_sweep_ok t_kind l_body];
  auto; try discriminate; try exact I.

Ltac wired_leaf :=
  first
    [ solve [apply comp_refl]
    | try match goal with |- context [indexOf ?b ?x] => destruct (indexOf b x) end;
      try match goal with |- context [_sp ?s] => destruct (_sp s) end;
      let H0 := fresh "H0" in
      let Ht := fresh "Ht" in
      let Hi := fresh "Hi" in
      let Hl := fresh "Hl" in
      intros (H0 & Ht & Hi & Hl); solve [wired_parts] ].

Create HintDb wired discriminated.

Ltac wired_tac := obey_with ltac:(auto with wired) wired_leaf.

Lemma call_wired by_l cb a s : obeys_at (keeps wired) (call by_l cb a) s.
Proof. unfold call. destruct cb; wired_tac. Qed.

Lemma _scheduleNextSend_wired early s : obeys_at (keeps wired) (_scheduleNextSend early) s.
Proof. unfold _scheduleNextSend, setImmediate. wired_tac. Qed.

Lemma unpi_send_wired t sub c p s : obeys_at (keeps wired) (unpi_send t sub c p) s.
Proof. unfold unpi_send. wired_tac. Qed.

Lemma clearTimeout_wired which s : obeys_at (keeps wired) (clearTimeout which) s.
Proof. unfold clearTimeout. wired_tac. Qed.

Lemma removeListener_wired id s : obeys_at (keeps wired) (removeListener id) s.
Proof. unfold removeListener. wired_tac. Qed.

Lemma setImmediate_sweep_wired bl s :
  sweep_ok bl -> obeys_at (keeps wired) (setImmediate (ISweep bl)) s.
Proof. intros Hok. unfold setImmediate. wired_tac. Qed.

#[local] Hint Resolve call_wired _scheduleNextSend_wired unpi_send_wired clearTimeout_wired
  removeListener_wired setImmediate_sweep_wired : wired.

Lemma run_listener_wired (l : Listener) (a : EvArg) (s : State) :
  listener_sweep_ok l -> obeys_at (keeps wired) (run_listener l a) s.
Proof.
  unfold run_listener, listener_sweep_ok. destruct (l_body l); intros Hok.
  - unfold srsp_listener. wired_tac.
  - unfold reset_listener. wired_tac.
Qed.

#[local] Hint Resolve run_listener_wired : wired.

Lemma fire_wired (snapshot : list Listener) (a : EvArg) (s : State) :
  Forall listener_sweep_ok snapshot ->
  obeys_at (keeps wired) (fire run_listener snapshot a) s.
Proof.
  revert s. induction snapshot as [|l rest IH]; intros s Hall; cbn [fire].
  - wired_tac.
  - inversion Hall; subst. wired_tac.
Qed.

Lemma on_error_wired (em : string -> EvArg -> M unit) data s :
  (forall subsys cmd a s', obeys_at (keeps wired) (em (srsp_evt subsys cmd) a) s') ->
  obeys_at (keeps wired) (on_error em data) s.
Proof. intros Hem. unfold on_error. wired_tac. Qed.

(** Emitting anything but the port's '_ready'. *)
Lemma emit_within_wired :
  forall stack evt a s,
    String.eqb evt "_ready" = false ->
    obeys_at (keeps wired) (emit_within stack evt a) s.
Proof.
  assert (Hbody : forall stack,
            (forall evt a s, String.eqb evt "_ready" = false ->
               obeys_at (keeps wired) (nested_emit stack evt a) s) ->
            forall evt a s, String.eqb evt "_ready" = false ->
              obeys_at (keeps wired) (emit_within stack evt a) s).
  { intros stack Hnested evt a s Hevt. rewrite emit_within_eq. rewrite Hevt.
    apply obeys_at_tell_bind; [typeclasses eauto|intros H; exact H|].
    apply obeys_at_get_bind. cbv zeta.
    apply obeys_wired_assume. intros (_ & _ & _ & Hl).
    assert (Hsnap : Forall listener_sweep_ok (filter (on_evt evt) (listeners s)))
      by (apply Forall_filter; exact Hl).
    pose proof fire_wired as Hfire.
    assert (Herr : forall data s', obeys_at (keeps wired) (on_error (nested_emit stack) data) s')
      by (intros; apply on_error_wired; intros; apply Hnested; apply srsp_evt_not_ready).
    wired_tac. }
  induction stack as [|stack IH]; apply Hbody.
  - intros evt a s _. cbn. wired_tac.
  - exact IH.
Qed.

Lemma emit_wired (evt : string) (a : EvArg) (s : State) :
  String.eqb evt "_ready" = false -> obeys_at (keeps wired) (emit evt a) s.
Proof. apply emit_within_wired. Qed.

#[local] Hint Resolve emit_wired srsp_evt_not_ready : wired.

(** Emitting '_ready' on an engine with its port and its unpi. *)
Lemma emit_ready_wired (s : State) :
  _unpi s = true -> _sp s <> None -> obeys_at (keeps wired) (emit "_ready" ANone) s.
Proof.
  intros Hunpi Hsp. unfold emit. rewrite emit_within_eq.
  cbn [String.eqb Ascii.eqb Bool.eqb].
  apply obeys_at_tell_bind; [typeclasses eauto|intros H; exact H|].
  apply obeys_at_get_bind. cbv zeta.
  apply obeys_wired_assume. intros (_ & _ & _ & Hl).
  assert (Hsnap : Forall listener_sweep_ok (filter (on_evt "_ready") (listeners s)))
    by (apply Forall_filter; exact Hl).
  pose proof fire_wired as Hfire.
  assert (Hnested : obeys_at (keeps wired) (nested_emit max_stack "ready" ANone)
                      (set_init true s)).
  { destruct max_stack; cbn; [wired_tac|]. apply emit_within_wired. reflexivity. }
  unfold when at 1. apply obeys_at_bind; [typeclasses eauto| |intros ? _; wired_tac].
  apply obeys_at_modify_bind; [typeclasses eauto| |exact Hnested].
  intros (H0 & Ht & Hi & Hl'). wired_parts.
Qed.

Lemma sreqTimeout_wired evt s :
  String.eqb evt "_ready" = false -> obeys_at (keeps wired) (sreqTimeout emit evt) s.
Proof. intros Hevt. unfold sreqTimeout. wired_tac. Qed.

Lemma sweep_wired backlog s : sweep_ok backlog -> obeys_at (keeps wired) (sweep emit backlog) s.
Proof.
  revert s. induction backlog as [|x rest IH]; intros s Hok; cbn [sweep]; [wired_tac|].
  assert (Hrest : sweep_ok rest) by (intros e He; apply Hok; right; exact He).
  assert (Hx : forall e, x = REntry e -> String.eqb (b_evt e) "_ready" = false)
    by (intros e ->; apply Hok; left; reflexivity).
  destruct x as [|e]; [|specialize (Hx e eq_refl)]; wired_tac.
Qed.

#[local] Hint Resolve sreqTimeout_wired sweep_wired : wired.

Lemma sweep_ok_new : sweep_ok (new_Array RBacklogArray).
Proof. intros e [He|[]]. discriminate. Qed.

Lemma setTimeout_wired ms k s :
  timer_wired (mkTimer 0 k) -> obeys_at (keeps wired) (setTimeout ms k) s.
Proof. unfold timer_wired. cbn [t_kind]. intros Hk. unfold setTimeout. wired_tac. Qed.

Lemma once_wired evt body s :
  listener_sweep_ok (mkListener 0 evt body) -> obeys_at (keeps wired) (once evt body) s.
Proof. unfold listener_sweep_ok. cbn [l_body]. intros Hb. unfold once. wired_tac. Qed.

Lemma _sendSREQ_wired argObj valObj cb s : obeys_at (keeps wired) (_sendSREQ argObj valObj cb) s.
Proof.
  unfold _sendSREQ. apply obeys_at_get_bind. cbv zeta.
  destruct (a_frame argObj) as [ex|[payload|]]; [wired_tac| |wired_tac].
  apply obeys_at_bind; [typeclasses eauto| |intros ? _].
  { apply setTimeout_wired. apply srsp_evt_not_ready. }
  apply obeys_at_bind; [typeclasses eauto| |intros ? _].
  { apply setTimeout_wired. exact I. }
  apply obeys_at_bind; [typeclasses eauto| |intros ? _; wired_tac].
  apply once_wired. exact sweep_ok_new.
Qed.

Lemma _sendAREQ_wired argObj cb s : obeys_at (keeps wired) (_sendAREQ argObj cb) s.
Proof.
  assert (Honce : forall s', obeys_at (keeps wired) (once "AREQ:SYS:RESET" (BReset cb)) s')
    by (intros; apply once_wired; exact I).
  assert (Hset : forall s', obeys_at (keeps wired) (setTimeout 30000 TResetFailsafe) s')
    by (intros; apply setTimeout_wired; exact I).
  unfold _sendAREQ. wired_tac.
Qed.

#[local] Hint Resolve _sendSREQ_wired _sendAREQ_wired : wired.

Lemma request_wired subsys cmd valObj cb s :
  obeys_at (keeps wired) (request subsys cmd valObj cb) s.
Proof. unfold request. wired_tac. Qed.

#[local] Hint Resolve request_wired : wired.

Lemma entry_fn_wired entry s : obeys_at (keeps wired) (entry_fn entry) s.
Proof. unfold entry_fn. wired_tac. Qed.

Lemma _mtIncomingDataHdlr_wired err type subsys cmd result s :
  obeys_at (keeps wired) (_mtIncomingDataHdlr err type subsys cmd result) s.
Proof.
  unfold _mtIncomingDataHdlr.
  assert (H1 : String.eqb "AREQ" "_ready" = false) by reflexivity.
  assert (H2 : String.eqb "AREQ:SYS:RESET" "_ready" = false) by reflexivity.
  wired_tac.
Qed.

#[local] Hint Resolve entry_fn_wired _mtIncomingDataHdlr_wired : wired.

Lemma _parseMtIncomingData_wired data s :
  obeys_at (keeps wired) (_parseMtIncomingData data) s.
Proof.
  unfold _parseMtIncomingData.
  assert (H1 : String.eqb "data" "_ready" = false) by reflexivity.
  wired_tac.
Qed.

Lemma call_all_wired (cbs : list jsval) (arg : CbArg) (s : State) :
  obeys_at (keeps wired) (call_all cbs arg) s.
Proof. revert s. induction cbs as [|cb rest IH]; intros s; cbn [call_all]; wired_tac. Qed.

#[local] Hint Resolve _parseMtIncomingData_wired call_all_wired : wired.

Lemma _close_wired cb s : obeys_at (keeps wired) (_close cb) s.
Proof. unfold _close, sp_close. wired_tac. Qed.

#[local] Hint Resolve _close_wired : wired.

Lemma run_timer_wired (tm : Timer) (s : State) :
  timer_wired tm -> obeys_at (keeps wired) (run_timer (t_kind tm)) s.
Proof.
  unfold timer_wired, run_timer. destruct (t_kind tm); intros Hk.
  - apply sreqTimeout_wired. exact Hk.
  - unfold sreqNextQueue. wired_tac.
  - unfold reset_failsafe. wired_tac.
Qed.

Lemma run_immediate_wired (i : Immediate) (s : State) :
  immediate_wired i -> obeys_at (keeps wired) (run_immediate i) s.
Proof.
  unfold immediate_wired, run_immediate. destruct i; intros Hi.
  - apply sweep_wired. exact Hi.
  - apply entry_fn_wired.
Qed.

Lemma step_wired (ev : Event) (s : State) : obeys_at (keeps wired) (step ev) s.
Proof.
  apply obeys_wired_assume. intros (H0 & Ht & Hi & Hl).
  destruct ev; unfold step, close, flush_done, sp_close_done, spErr.
  - apply obeys_at_modify_bind; [typeclasses eauto| |].
    + intros _. unfold wired. projs. split; [|auto]. intros _. split; [reflexivity|discriminate].
    + unfold spOpen. apply obeys_at_get_bind. projs. apply emit_ready_wired.
      * reflexivity.
      * projs. discriminate.
  - wired_tac.
  - wired_tac.
  - wired_tac.
  - wired_tac.
  - apply obeys_at_get_bind. cbv zeta.
    destruct (earliest (timers s)) as [[pos t]|] eqn:He; [|wired_tac].
    apply earliest_nth in He. unfold when. destruct (t_due t <=? now s); [|wired_tac].
    apply obeys_at_modify_bind; [typeclasses eauto| |].
    + intros _. unfold wired. projs. split; [exact H0|]. split; [|auto].
      apply Forall_splice1. exact Ht.
    + apply run_timer_wired. rewrite Forall_forall in Ht. apply Ht.
      eapply nth_error_In. exact He.
  - apply obeys_at_get_bind. cbv zeta.
    destruct (immediates s) as [|i rest] eqn:Himm; [wired_tac|].
    inversion Hi; subst.
    apply obeys_at_modify_bind; [typeclasses eauto| |].
    + intros _. unfold wired. projs. auto.
    + apply run_immediate_wired. assumption.
  - wired_tac.
  - wired_tac.
  - unfold spClose. apply obeys_at_get_bind. destruct (_sp s); [|wired_tac].
    unfold obeys_at. rewrite !bind_modify. intros _.
    apply (emit_wired "close" ANone _ eq_refl). unfold wired. projs.
    split; [discriminate|auto].
  - wired_tac.
    all: intros _; unfold wired; projs; split; [|auto];
      intros Hinit; destruct (H0 Hinit) as [Hu Hs]; split; [exact Hu|discriminate].
  - apply obeys_at_modify. unfold keeps. intros Hw.
    destruct (_sp s) as [p|]; [|exact Hw].
    unfold wired. projs. split; [|auto].
    intros Hinit. destruct (H0 Hinit) as [Hu Hs]. split; [exact Hu|discriminate].
Qed.

Lemma wired_new : wired new_CcZnp.
Proof. split; [discriminate|]. repeat split; constructor. Qed.

Lemma reachable_wired (s : State) : reachable s -> wired s.
Proof. intros [evs ->]. apply run_keeps; [apply step_wired|exact wired_new]. Qed.

Lemma unpi_send_wired_returns t sub c p s :
  _unpi s = true -> unpi_send t sub c p s = mkRes (inr tt) s [ESend t sub c p].
Proof. intros H. unfold unpi_send. rewrite bind_get, H. reflexivity. Qed.

Lemma call_throws by_l cb a s e :
  r_val (call by_l cb a s) = inl e ->
  r_st (call by_l cb a s) = s /\
  ((typeof_function cb = false /\ e = mkError KTypeError "callback is not a function" /\
    r_out (call by_l cb a s) = []) \/
   (exists g, cb = JThrows g e /\ r_out (call by_l cb a s) = [ECallbackThrew by_l g a])).
Proof.
  unfold call. destruct cb; cbn; intros H; try discriminate;
    injection H as <-; (split; [reflexivity|]);
    first [solve [left; repeat split; reflexivity]
          |right; eexists; split; reflexivity].
Qed.

(** What [dispatch] throws on an engine that has its unpi: what
    [frame()] throws, before anything is done; or what calling the
    callback throws - a TypeError when it is no function, its own
    exception otherwise - before anything is written. *)
Lemma dispatch_throws argObj valObj cb s e :
  _unpi s = true ->
  r_val (dispatch argObj valObj cb s) = inl e ->
  (a_frame argObj = inl e /\ dispatch argObj valObj cb s = mkRes (inl e) s []) \/
  (typeof_function cb = false /\ e = mkError KTypeError "callback is not a function" /\
   r_out (dispatch argObj valObj cb s) = []) \/
  (exists g a, cb = JThrows g e /\
     r_out (dispatch argObj valObj cb s) = [ECallbackThrew None g a]).
Proof.
  intros Hunpi. unfold dispatch.
  assert (Hcall : forall a,
            r_val (call None cb a s) = inl e ->
            (typeof_function cb = false /\
             e = mkError KTypeError "callback is not a function" /\
             r_out (call None cb a s) = []) \/
            (exists g a', cb = JThrows g e /\ r_out (call None cb a s) = [ECallbackThrew None g a'])).
  { intros a H. destruct (call_throws _ _ _ _ _ H) as (_ & [H1|(g & H1 & H2)]);
      [left; exact H1|right; exists g, a; auto]. }
  destruct (String.eqb (a_type argObj) "SREQ").
  - unfold _sendSREQ. rewrite bind_get. cbv zeta. destruct (a_frame argObj) as [ex|[payload|]].
    + intros [= <-]. left. split; reflexivity.
    + unfold setTimeout, once, unpi_send. mrun. projs. rewrite Hunpi. discriminate.
    + intros H. right. apply Hcall. exact H.
  - destruct (String.eqb (a_type argObj) "AREQ"); [|discriminate].
    unfold _sendAREQ. destruct (a_frame argObj) as [ex|[payload|]].
    + intros [= <-]. left. split; reflexivity.
    + destruct (is_reset (a_cmd argObj)).
      * unfold setTimeout, once, unpi_send. mrun. projs. rewrite Hunpi. discriminate.
      * unfold _scheduleNextSend, setImmediate, unpi_send. mrun. projs.
        destruct (_txQueue s) as [|head tail]; mrun; projs;
          destruct cb; cbn; rewrite ?Hunpi; cbn; intros H; try discriminate H;
          injection H as <-; right;
          first [left; repeat split; reflexivity
                |right; eexists; eexists; split; reflexivity].
    + intros H. right. apply Hcall. exact H.
Qed.

(** What [request] throws on an engine that has its unpi whenever it
    is initialized.  Before the gate is claimed: the errors of its own
    checks and the translator's, with nothing changed.  After: what
    [frame()] throws, with the gate left taken; or what calling the
    callback throws.  A frame is written in none of these cases. *)
Lemma request_throws (subsys cmd : ident) (valObj cb : jsval) (s : State) (e : Error) :
  (_init s = true -> _unpi s = true) ->
  r_val (request subsys cmd valObj cb s) = inl e ->
  (request subsys cmd valObj cb s = mkRes (inl e) s [] /\
   (e = not_initialized \/ e = valObj_not_object \/ e = callback_not_function \/
    ZpiObject subsys cmd valObj = inl e)) \/
  (exists argObj,
     ZpiObject subsys cmd valObj = inr argObj /\ a_frame argObj = inl e /\
     _spinLock s = false /\
     request subsys cmd valObj cb s = mkRes (inl e) (set_spinLock true s) []) \/
  (cb = JUndefined /\ e = mkError KTypeError "callback is not a function" /\
   r_out (request subsys cmd valObj cb s) = []) \/
  (exists g a, cb = JThrows g e /\
     r_out (request subsys cmd valObj cb s) = [ECallbackThrew None g a]).
Proof.
  intros W1. unfold request. rewrite bind_get.
  destruct (_init s) eqn:Hinit; cbn [negb];
    [|intros [= <-]; left; split; [reflexivity|auto]].
  destruct (negb (truthy valObj) || negb (typeof_object valObj))%bool;
    [intros [= <-]; left; split; [reflexivity|auto]|].
  destruct (negb (typeof_function cb) && negb (typeof_undefined cb))%bool eqn:Hcb;
    [intros [= <-]; left; split; [reflexivity|auto]|].
  destruct (ZpiObject subsys cmd valObj) as [e'|argObj] eqn:Hzpi; cbn [lift].
  - rewrite bind_throw. intros [= <-]. left. split; [reflexivity|auto].
  - rewrite bind_ret_l. destruct (_spinLock s) eqn:Hlock; [discriminate|].
    rewrite bind_modify. fold (dispatch argObj valObj cb).
    intros Hthrow. right.
    destruct (dispatch_throws argObj valObj cb (set_spinLock true s) e)
      as [[Hframe Hd]|[(Hf & He & Hout)|(g & a & Hg & Hout)]].
    + projs. apply W1. reflexivity.
    + exact Hthrow.
    + left. exists argObj. auto.
    + right. left. split; [|split; [exact He|exact Hout]].
      destruct cb; cbn in Hf, Hcb; try discriminate. reflexivity.
    + right. right. exists g, a. auto.
Qed.

(** The exceptions of [request] (lines 215-257, 283, 381), in every
    state the engine can reach.  An initialized engine has its port
    and its unpi, so writing the frame never fails.  [request] throws
    only: 'ccznp has not been initialized yet', the two TypeErrors of
    its argument checks or what the translator throws for the command,
    with nothing changed, written or called; what [frame()] throws,
    with nothing written or called but the gate left taken; 'callback
    is not a function' when it was given no callback and has to call
    one; or what the callback throws when it is called.  A request
    that throws has written no frame. *)
Theorem request_exceptions (evs : list Event) (subsys cmd : ident) (valObj cb : jsval)
    (e : Error) :
  r_val (request subsys cmd valObj cb (fst (run evs new_CcZnp))) = inl e ->
  let s := fst (run evs new_CcZnp) in
  let r := request subsys cmd valObj cb s in
  (_init s = true -> _unpi s = true /\ _sp s <> None) /\
  sends (r_out r) = 0%nat /\
  ((r = mkRes (inl e) s [] /\
    (e = not_initialized \/ e = valObj_not_object \/ e = callback_not_function \/
     ZpiObject subsys cmd valObj = inl e)) \/
   (exists argObj,
      ZpiObject subsys cmd valObj = inr argObj /\ a_frame argObj = inl e /\
      _spinLock s = false /\ r = mkRes (inl e) (set_spinLock true s) []) \/
   (cb = JUndefined /\ e = mkError KTypeError "callback is not a function" /\
    r_out r = []) \/
   (exists g a, cb = JThrows g e /\ r_out r = [ECallbackThrew None g a])).
Proof.
  intros Hthrow s r. subst r. fold s in Hthrow.
  assert (Hw : wired s) by (apply reachable_wired; exists evs; reflexivity).
  destruct Hw as (W1 & _). split; [exact W1|].
  assert (Hup : _init s = true -> _unpi s = true) by (intros Hinit; apply W1; exact Hinit).
  destruct (request_throws subsys cmd valObj cb s e Hup Hthrow)
    as [[Hr He]|[(argObj & Hz & Hf & Hlock & Hr)|[(Hcb & He & Hout)|(g & a & Hg & Hout)]]].
  - split; [rewrite Hr; reflexivity|]. left. auto.
  - split; [rewrite Hr; reflexivity|]. right. left. exists argObj. auto.
  - split; [rewrite Hout; reflexivity|]. right. right. left. auto.
  - split; [rewrite Hout; reflexivity|]. right. right. right. exists g, a. auto.
Qed.

(* ================================================================== *)
(** ** No function is called more often than it was handed in *)
(* ================================================================== *)

Lemma calls_app (f : nat) (o1 o2 : list Effect) :
  calls f (o1 ++ o2) = (calls f o1 + calls f o2)%nat.
Proof. unfold calls. rewrite filter_app, length_app. reflexivity. Qed.

Lemma spends_trans (f c d : nat) (s1 s2 s3 : State) (o1 o2 : list Effect) :
  spends f c s1 s2 o1 -> spends f d s2 s3 o2 -> spends f (c + d) s1 s3 (o1 ++ o2).
Proof. unfold spends. rewrite calls_app. lia. Qed.

#[local] Instance spends_compositional (f : nat) : Compositional (spends f 0).
Proof.
  split.
  - intros s. unfold spends. cbn. lia.
  - intros s1 s2 s3 o1 o2 H1 H2. exact (spends_trans f 0 0 _ _ _ _ _ H1 H2).
Qed.

(** A computation that spends nothing, then one that may spend [c]. *)
Lemma spends_then {A B} (f c : nat) (m : M A) (k : A -> M B) (s : State) :
  obeys_at (spends f 0) m s ->
  (forall a, r_val (m s) = inr a -> obeys_at (spends f c) (k a) (r_st (m s))) ->
  obeys_at (spends f c) (bind m k) s.
Proof.
  unfold obeys_at, bind. intros Hm Hk.
  destruct (r_val (m s)) as [e|a] eqn:Hval; cbn [r_st r_out].
  - unfold spends in *. lia.
  - exact (spends_trans f 0 c _ _ _ _ _ Hm (Hk a eq_refl)).
Qed.

(** A computation that may spend [c], then one that spends nothing. *)
Lemma spends_first {A B} (f c : nat) (m : M A) (k : A -> M B) (s : State) :
  obeys_at (spends f c) m s ->
  (forall a, r_val (m s) = inr a -> obeys_at (spends f 0) (k a) (r_st (m s))) ->
  obeys_at (spends f c) (bind m k) s.
Proof.
  unfold obeys_at, bind. intros Hm Hk.
  destruct (r_val (m s)) as [e|a] eqn:Hval; cbn [r_st r_out].
  - exact Hm.
  - pose proof (spends_trans f c 0 _ _ _ _ _ Hm (Hk a eq_refl)) as H.
    rewrite Nat.add_0_r in H. exact H.
Qed.

Lemma spends_free (f c : nat) (s s' : State) (out : list Effect) :
  spends f 0 s s' out -> spends f c s s' out.
Proof. unfold spends. lia. Qed.

Lemma list_sum_cons (x : nat) (l : list nat) : list_sum (x :: l) = (x + list_sum l)%nat.
Proof. reflexivity. Qed.

Lemma list_sum_nil : list_sum [] = 0%nat.
Proof. reflexivity. Qed.

(** Counts what the engine holds and what was called, field by field. *)
Ltac spend_now :=
  unfold spends, holds, calls; projs;
  rewrite ?map_app, ?list_sum_app;
  cbn [map filter List.length callback_of l_body e_callback owed immediate_owed app];
  rewrite ?list_sum_cons, ?list_sum_nil;
  repeat match goal with
         | |- context [Nat.eqb ?g ?f] => destruct (Nat.eqb g f)
         end;
  cbn [List.length]; lia.

Ltac spend_leaf :=
  first
    [ solve [apply comp_refl]
    | try match goal with |- context [indexOf ?b ?x] => destruct (indexOf b x) end;
      try match goal with |- context [_sp ?s] => destruct (_sp s) end;
      solve [spend_now] ].

Create HintDb spends discriminated.

Ltac spend_tac := obey_with ltac:(auto with spends) spend_leaf.

Lemma call_spends (f : nat) by_l cb a s :
  obeys_at (spends f (owed f cb)) (call by_l cb a) s.
Proof.
  unfold obeys_at, call, bind. destruct cb; cbn [r_val r_st r_out throw ret tell app];
    spend_now.
Qed.

Lemma call_undefined_spends (f : nat) by_l a s :
  obeys_at (spends f 0) (call by_l JUndefined a) s.
Proof. exact (call_spends f by_l JUndefined a s). Qed.

Lemma clearTimeout_spends (f : nat) which s : obeys_at (spends f 0) (clearTimeout which) s.
Proof. unfold clearTimeout. spend_tac. Qed.

Lemma setTimeout_spends (f : nat) ms k s : obeys_at (spends f 0) (setTimeout ms k) s.
Proof. unfold setTimeout. spend_tac. Qed.

Lemma unpi_send_spends (f : nat) t sub c p s : obeys_at (spends f 0) (unpi_send t sub c p) s.
Proof. unfold unpi_send. spend_tac. Qed.

Lemma setImmediate_sweep_spends (f : nat) backlog s :
  obeys_at (spends f 0) (setImmediate (ISweep backlog)) s.
Proof. unfold setImmediate. spend_tac. Qed.

#[local] Hint Resolve call_undefined_spends clearTimeout_spends setTimeout_spends
  unpi_send_spends setImmediate_sweep_spends : spends.

(** Dequeuing moves an entry from the queue to the loop. *)
Lemma _scheduleNextSend_spends (f : nat) early s :
  obeys_at (spends f 0) (_scheduleNextSend early) s.
Proof.
  unfold _scheduleNextSend, setImmediate. apply obeys_at_get_bind. cbv zeta.
  destruct (_txQueue s) as [|head tail] eqn:Hq; [spend_tac|].
  destruct early.
  - destruct (findIndex (not_in_backlog (_backlog s)) (head :: tail)) as [pos|] eqn:Hfind;
      [|spend_tac].
    destruct (findIndex_Some _ _ _ head Hfind) as (before & x & behind & Hl & _ & _ & Hn & Hs).
    unfold obeys_at. mrun. rewrite Hn, Hs. unfold ret. cbn [r_st r_out].
    unfold spends, holds, calls. projs. rewrite Hq, Hl, !map_app, !list_sum_app.
    cbn [map immediate_owed filter List.length].
    rewrite ?list_sum_cons, ?list_sum_nil. lia.
  - unfold obeys_at. mrun. unfold ret. cbn [r_st r_out].
    unfold spends, holds, calls. projs. rewrite Hq, !map_app, !list_sum_app.
    cbn [map immediate_owed filter List.length].
    rewrite ?list_sum_cons, ?list_sum_nil. lia.
Qed.

#[local] Hint Resolve _scheduleNextSend_spends : spends.

Lemma sreqNextQueue_spends (f : nat) txn evt argObj s :
  obeys_at (spends f 0) (sreqNextQueue txn evt argObj) s.
Proof. unfold sreqNextQueue. spend_tac. Qed.

Lemma reset_failsafe_spends (f : nat) s : obeys_at (spends f 0) reset_failsafe s.
Proof. unfold reset_failsafe. spend_tac. Qed.

#[local] Hint Resolve sreqNextQueue_spends reset_failsafe_spends : spends.

(** A listener's function calls its callback, once at most. *)
Lemma run_listener_spends (f : nat) (l : Listener) (a : EvArg) (s : State) :
  obeys_at (spends f (owed f (callback_of l))) (run_listener l a) s.
Proof.
  unfold run_listener, callback_of. destruct (l_body l) as [argObj valObj cb backlog|cb].
  - unfold srsp_listener. unfold obeys_at. rewrite bind_get. cbv zeta.
    repeat (apply spends_then; [solve [spend_tac]|intros ? _]).
    destruct a; try (apply spends_then; [solve [spend_tac]|intros ? _]); apply call_spends.
  - unfold reset_listener.
    repeat (apply spends_then; [solve [spend_tac]|intros ? _]). apply call_spends.
Qed.

Lemma once_spends (f : nat) evt body s :
  obeys_at (spends f (owed f (callback_of (mkListener (next_id s) evt body)))) (once evt body) s.
Proof. unfold once. apply obeys_at_modify. spend_now. Qed.

(** Sending a request either calls the callback or holds it in a
    listener. *)
Lemma _sendSREQ_spends (f : nat) argObj valObj cb s :
  obeys_at (spends f (owed f cb)) (_sendSREQ argObj valObj cb) s.
Proof.
  unfold _sendSREQ. unfold obeys_at. rewrite bind_get. cbv zeta.
  destruct (a_frame argObj) as [ex|[payload|]];
    [apply spends_free; apply comp_refl| |apply call_spends].
  repeat (apply spends_then; [solve [spend_tac]|intros ? _]).
  apply spends_first; [|intros ? _; spend_tac].
  apply once_spends.
Qed.

Lemma _sendAREQ_spends (f : nat) argObj cb s :
  obeys_at (spends f (owed f cb)) (_sendAREQ argObj cb) s.
Proof.
  unfold _sendAREQ. destruct (a_frame argObj) as [ex|[payload|]];
    [apply spends_free; apply comp_refl| |apply call_spends].
  apply spends_first; [|intros ? _; spend_tac].
  destruct (is_reset (a_cmd argObj)).
  - repeat (apply spends_then; [solve [spend_tac]|intros ? _]).
    apply spends_first; [|intros ? _; spend_tac].
    apply once_spends.
  - repeat (apply spends_then; [solve [spend_tac]|intros ? _]). apply call_spends.
Qed.

(** A request calls its callback, or holds it in the queue or in a
    listener. *)
Lemma request_spends (f : nat) subsys cmd valObj cb s :
  obeys_at (spends f (owed f cb)) (request subsys cmd valObj cb) s.
Proof.
  unfold request. unfold obeys_at. rewrite bind_get.
  destruct (negb (_init s)); [apply spends_free; apply comp_refl|].
  destruct (negb (truthy valObj) || negb (typeof_object valObj))%bool;
    [apply spends_free; apply comp_refl|].
  destruct (negb (typeof_function cb) && negb (typeof_undefined cb))%bool;
    [apply spends_free; apply comp_refl|].
  apply spends_then; [solve [spend_tac]|intros argObj _].
  destruct (_spinLock s).
  - apply obeys_at_modify. spend_now.
  - apply spends_then; [solve [spend_tac]|intros ? _].
    destruct (String.eqb (a_type argObj) "SREQ"); [apply _sendSREQ_spends|].
    destruct (String.eqb (a_type argObj) "AREQ"); [apply _sendAREQ_spends|].
    apply spends_free. apply comp_refl.
Qed.

(** The function of a dequeued entry, on an engine that has its unpi
    whenever it is initialized: the callback is called by the request
    or by the catch, not by both. *)
Lemma entry_fn_spends (f : nat) (entry : Entry) (s : State) :
  (_init s = true -> _unpi s = true) ->
  obeys_at (spends f (owed f (e_callback entry))) (entry_fn entry) s.
Proof.
  intros Hup. unfold entry_fn, obeys_at, try_catch. cbv zeta.
  pose proof (request_spends f (e_subsys entry) (e_cmd entry) (e_valObj entry)
                (e_callback entry) s) as Hreq.
  unfold obeys_at in Hreq.
  destruct (r_val (request (e_subsys entry) (e_cmd entry) (e_valObj entry)
                     (e_callback entry) s)) as [ex|[]] eqn:Hval; [|exact Hreq].
  cbn [r_val r_st r_out].
  assert (Hother : owed f (e_callback entry) = 0%nat ->
            spends f (owed f (e_callback entry)) s
              (r_st (call None (e_callback entry) (CbErr ex)
                       (r_st (request (e_subsys entry) (e_cmd entry) (e_valObj entry)
                                (e_callback entry) s))))
              (r_out (request (e_subsys entry) (e_cmd entry) (e_valObj entry)
                        (e_callback entry) s) ++
               r_out (call None (e_callback entry) (CbErr ex)
                        (r_st (request (e_subsys entry) (e_cmd entry) (e_valObj entry)
                                 (e_callback entry) s))))).
  { intros Hzero.
    pose proof (call_spends f None (e_callback entry) (CbErr ex)
                  (r_st (request (e_subsys entry) (e_cmd entry) (e_valObj entry)
                           (e_callback entry) s))) as Hcall.
    unfold obeys_at in Hcall. rewrite Hzero in *.
    exact (spends_trans f 0 0 _ _ _ _ _ Hreq Hcall). }
  destruct (request_throws _ _ _ _ _ _ Hup Hval)
    as [[Hr _]|[(argObj & _ & _ & _ & Hr)|[(Hcb & _)|(g & a & Hcb & _)]]].
  - rewrite Hr. cbn [r_st r_out app]. apply call_spends.
  - rewrite Hr. cbn [r_st r_out app].
    pose proof (call_spends f None (e_callback entry) (CbErr ex) (set_spinLock true s))
      as Hcall.
    unfold obeys_at, spends in Hcall |- *.
    assert (Hsame : holds f (set_spinLock true s) = holds f s) by reflexivity.
    lia.
  - apply Hother. rewrite Hcb. reflexivity.
  - apply Hother. rewrite Hcb. reflexivity.
Qed.

Lemma owed_truthy (f : nat) (cb : jsval) :
  owed f (if truthy cb then cb else JNoop) = owed f cb.
Proof. destruct cb; cbn; try reflexivity; match goal with |- context [if ?c then _ else _] => destruct c end; reflexivity. Qed.

Lemma _close_spends (f : nat) cb s : obeys_at (spends f (owed f cb)) (_close cb) s.
Proof.
  unfold _close, sp_close. unfold obeys_at. rewrite bind_get.
  destruct (_sp s) as [sp|]; [|apply call_spends].
  destruct (negb (isOpen sp)); [apply call_spends|]. cbv zeta.
  mrun. projs.
  destruct (closeCbs s) as [|c0 rest] eqn:Hcbs; cbn [app List.length Nat.eqb].
  - cbn [when]. rewrite bind_tell. unfold modify. cbn [r_st r_out].
    unfold spends, holds, calls. projs. rewrite Hcbs.
    cbn [filter List.length map app Nat.eqb Nat.add].
    rewrite ?list_sum_cons, ?list_sum_nil, ?owed_truthy.
    destruct (closing s =? 0)%nat; lia.
  - assert (Hlen : (List.length (rest ++ [if truthy cb then cb else JNoop]) =? 0)%nat = false)
      by (rewrite length_app; cbn; apply Nat.eqb_neq; lia).
    rewrite Hlen. unfold ret. cbn [r_st r_out].
    unfold spends, holds, calls. projs. rewrite Hcbs.
    cbn [filter List.length map app]. rewrite !map_app, !list_sum_cons, !list_sum_app.
    cbn [map]. rewrite ?list_sum_cons, ?list_sum_nil, ?owed_truthy.
    destruct (closing s =? 0)%nat; lia.
Qed.

Lemma close_spends (f : nat) cb s : obeys_at (spends f (owed f cb)) (close cb) s.
Proof.
  unfold close. unfold obeys_at. rewrite bind_get.
  destruct (_init s); [|apply call_spends].
  destruct (_sp s); [|apply spends_free; apply comp_refl].
  rewrite bind_tell. unfold modify. cbn [r_st r_out]. spend_now.
Qed.

(** The callbacks of a port close are called one by one, until one
    throws. *)
Lemma call_all_spends (f : nat) (cbs : list jsval) (arg : CbArg) (s : State) :
  r_st (call_all cbs arg s) = s /\
  (calls f (r_out (call_all cbs arg s)) <= list_sum (map (owed f) cbs))%nat.
Proof.
  induction cbs as [|cb rest IH]; cbn [call_all]; [split; [reflexivity|cbn; lia]|].
  pose proof (call_spends f None cb arg s) as Hcall. unfold obeys_at, spends in Hcall.
  assert (Hst : r_st (call None cb arg s) = s) by (unfold call; destruct cb; reflexivity).
  unfold bind. destruct (r_val (call None cb arg s)); cbn [r_st r_out map].
  - rewrite list_sum_cons. split; [exact Hst|]. rewrite Hst in Hcall. lia.
  - rewrite Hst. destruct IH as [IH1 IH2]. split; [exact IH1|].
    rewrite calls_app, list_sum_cons. rewrite Hst in Hcall. lia.
Qed.

Lemma list_sum_removed (w : Listener -> nat) (l : Listener) (ls : list Listener) :
  In l ls ->
  (list_sum (map w (filter (fun x => negb (Nat.eqb (l_id x) (l_id l))) ls)) + w l
   <= list_sum (map w ls))%nat.
Proof.
  induction ls as [|x ls IH]; [intros []|]. cbn [filter map].
  assert (Hle : (list_sum (map w (filter (fun x => negb (Nat.eqb (l_id x) (l_id l))) ls))
                 <= list_sum (map w ls))%nat).
  { clear. induction ls as [|y ls IH]; [cbn; lia|]. cbn [filter map].
    destruct (negb (Nat.eqb (l_id y) (l_id l))); cbn [map]; rewrite ?list_sum_cons; lia. }
  intros [->|Hin].
  - rewrite Nat.eqb_refl. cbn [negb]. rewrite list_sum_cons. lia.
  - specialize (IH Hin).
    destruct (negb (Nat.eqb (l_id x) (l_id l))); cbn [map]; rewrite ?list_sum_cons; lia.
Qed.

(** A one-shot wrapper: the listener leaves, then its function runs. *)
Lemma fire_one_spends (f : nat) (l : Listener) (a : EvArg) (s : State) :
  In l (listeners s) ->
  obeys_at (spends f 0) (removeListener (l_id l);; run_listener l a) s.
Proof.
  intros Hin. unfold obeys_at, removeListener. rewrite bind_modify.
  set (s1 := set_listeners (filter (fun x => negb (Nat.eqb (l_id x) (l_id l))) (listeners s)) s).
  pose proof (run_listener_spends f l a s1) as Hrun. unfold obeys_at, spends in Hrun.
  unfold spends.
  assert (Hs1 : (holds f s1 + owed f (callback_of l) <= holds f s)%nat).
  { subst s1. unfold holds. projs.
    pose proof (list_sum_removed (fun x => owed f (callback_of x)) l (listeners s) Hin). lia. }
  lia.
Qed.

Lemma fire_one_current (l : Listener) (rest : list Listener) (a : EvArg) (s : State) :
  current (l :: rest) s ->
  current rest (r_st (when (registered (l_id l) s)
                        (removeListener (l_id l);; run_listener l a) s)).
Proof.
  intros Hcur.
  set (s1 := r_st (when (registered (l_id l) s)
                     (removeListener (l_id l);; run_listener l a) s)).
  assert (Hls : listeners s1
                = if registered (l_id l) s
                  then filter (fun x => negb (Nat.eqb (l_id x) (l_id l))) (listeners s)
                  else listeners s).
  { subst s1. unfold when. destruct (registered (l_id l) s); [|reflexivity].
    unfold removeListener. rewrite bind_modify.
    destruct (run_listener_clears l a
                (set_listeners (filter (fun x => negb (Nat.eqb (l_id x) (l_id l)))
                                  (listeners s)) s)) as (Hl & _).
    rewrite Hl. reflexivity. }
  intros l' Hl' Hreg'. unfold registered in Hreg'. rewrite Hls in Hreg' |- *.
  destruct (registered (l_id l) s) eqn:Hreg.
  - apply existsb_exists in Hreg' as (x & Hx & Hid). apply Nat.eqb_eq in Hid.
    apply filter_In in Hx as [Hx Hne].
    apply negb_true_iff, Nat.eqb_neq in Hne.
    apply filter_In. split.
    + apply Hcur; [right; exact Hl'|]. apply existsb_exists. exists x.
      split; [exact Hx|apply Nat.eqb_eq; exact Hid].
    + apply negb_true_iff, Nat.eqb_neq. congruence.
  - apply Hcur; [right; exact Hl'|exact Hreg'].
Qed.

Lemma fire_spends (f : nat) (snapshot : list Listener) (a : EvArg) (s : State) :
  current snapshot s ->
  obeys_at (spends f 0) (fire run_listener snapshot a) s.
Proof.
  revert s. induction snapshot as [|l rest IH]; intros s Hcur; cbn [fire].
  - spend_tac.
  - apply obeys_at_get_bind. cbv zeta.
    apply obeys_at_bind; [typeclasses eauto| |intros ? _].
    + unfold when. destruct (registered (l_id l) s) eqn:Hreg; [|spend_tac].
      apply fire_one_spends. apply Hcur; [left; reflexivity|exact Hreg].
    + apply IH. apply fire_one_current. exact Hcur.
Qed.

#[local] Instance tally_compositional (f : nat) : Compositional (tally f).
Proof.
  split.
  - intros s. split; [apply comp_refl|]. intros _ _. apply comp_refl.
  - intros s1 s2 s3 o1 o2 [F1 C1] [F2 C2]. split.
    + eapply comp_trans; eassumption.
    + intros Hb Hu. destruct (F1 Hb Hu) as (Hb2 & Hu2 & _).
      exact (spends_trans f 0 0 _ _ _ _ _ (C1 Hb Hu) (C2 Hb2 Hu2)).
Qed.

Lemma tally_intro {A} (f : nat) (m : M A) (s : State) :
  obeys_at fresh m s -> obeys_at (spends f 0) m s -> obeys_at (tally f) m s.
Proof. unfold obeys_at. intros H1 H2. split; [exact H1|]. intros _ _. exact H2. Qed.

Create HintDb tally discriminated.

Ltac tally_known :=
  first
    [ solve [auto with tally]
    | solve [apply tally_intro; [fresh_known|auto with spends]] ].

Ltac tally_leaf :=
  first
    [ solve [apply comp_refl]
    | split; [fresh_leaf|intros _ _; spend_leaf] ].

Ltac tally_tac := obey_with tally_known tally_leaf.

Lemma on_error_tally (f : nat) (em : string -> EvArg -> M unit) data s :
  (forall evt a s', obeys_at (tally f) (em evt a) s') ->
  obeys_at (tally f) (on_error em data) s.
Proof. intros Hem. unfold on_error. tally_tac. Qed.

Lemma emit_within_tally (f : nat) :
  forall stack evt a s, obeys_at (tally f) (emit_within stack evt a) s.
Proof.
  assert (Hbody : forall stack,
            (forall evt a s, obeys_at (tally f) (nested_emit stack evt a) s) ->
            forall evt a s, obeys_at (tally f) (emit_within stack evt a) s).
  { intros stack Hnested evt a s. split; [apply emit_within_fresh|]. intros Hb Hu.
    rewrite emit_within_eq.
    apply obeys_at_tell_bind; [typeclasses eauto|spend_now|].
    apply obeys_at_get_bind. cbv zeta.
    set (snapshot := filter (on_evt evt) (listeners s)).
    set (m1 := when (String.eqb evt "_ready")
                 (modify (set_init true);; nested_emit stack "ready"%string ANone)).
    set (m2 := when (String.eqb evt "SRSP:RES0:error") (on_error (nested_emit stack) a)).
    pose proof (on_error_tally f) as Herr.
    assert (H1 : obeys_at (tally f) m1 s) by (subst m1; tally_tac).
    assert (H2 : forall s', obeys_at (tally f) m2 s') by (intros s'; subst m2; tally_tac).
    destruct H1 as [F1 C1]. destruct (F1 Hb Hu) as (Hb1 & Hu1 & _).
    apply obeys_at_bind; [typeclasses eauto|exact (C1 Hb Hu)|intros ? _].
    apply obeys_at_bind; [typeclasses eauto|exact (proj2 (H2 _) Hb1 Hu1)|intros ? _].
    apply fire_spends.
    apply (current_fresh snapshot s _ (r_out (m1 s) ++ r_out (m2 (r_st (m1 s)))) Hb Hu).
    - intros l Hl. subst snapshot. apply filter_In in Hl. tauto.
    - eapply comp_trans; [exact F1|exact (proj1 (H2 _))]. }
  induction stack as [|stack IH]; apply Hbody.
  - intros evt a s. cbn. tally_tac.
  - exact IH.
Qed.

Lemma emit_tally (f : nat) (evt : string) (a : EvArg) (s : State) :
  obeys_at (tally f) (emit evt a) s.
Proof. apply emit_within_tally. Qed.

#[local] Hint Resolve emit_tally : tally.

Lemma sreqTimeout_tally (f : nat) evt s : obeys_at (tally f) (sreqTimeout emit evt) s.
Proof. unfold sreqTimeout. tally_tac. Qed.

Lemma sweep_tally (f : nat) backlog s : obeys_at (tally f) (sweep emit backlog) s.
Proof. revert s. induction backlog as [|x rest IH]; intros s; cbn [sweep]; tally_tac. Qed.

Lemma _mtIncomingDataHdlr_tally (f : nat) err type subsys cmd result s :
  obeys_at (tally f) (_mtIncomingDataHdlr err type subsys cmd result) s.
Proof. unfold _mtIncomingDataHdlr. tally_tac. Qed.

#[local] Hint Resolve sreqTimeout_tally sweep_tally _mtIncomingDataHdlr_tally : tally.

Lemma _parseMtIncomingData_tally (f : nat) data s :
  obeys_at (tally f) (_parseMtIncomingData data) s.
Proof. unfold _parseMtIncomingData. tally_tac. Qed.

#[local] Hint Resolve _parseMtIncomingData_tally : tally.

(* ================================================================== *)
(** ** The pending port close *)
(* ================================================================== *)

#[local] Instance shut_compositional : Compositional shut.
Proof.
  split; unfold shut.
  - intros s. repeat split; reflexivity.
  - intros s1 s2 s3 o1 o2 (H1 & H2 & H3) (H4 & H5 & H6).
    rewrite transport_closes_app, H3, H6. repeat split; congruence.
Qed.

Ltac shut_leaf :=
  first
    [ solve [apply comp_refl]
    | try match goal with |- context [indexOf ?b ?x] => destruct (indexOf b x) end;
      try match goal with |- context [_sp ?s] => destruct (_sp s) end;
      unfold shut; projs; repeat split; reflexivity ].

Create HintDb shut discriminated.

Ltac shut_tac := obey_with ltac:(auto with shut) shut_leaf.

Lemma call_shut by_l cb a s : obeys_at shut (call by_l cb a) s.
Proof. unfold call. destruct cb; shut_tac. Qed.

Lemma _scheduleNextSend_shut early s : obeys_at shut (_scheduleNextSend early) s.
Proof. unfold _scheduleNextSend, setImmediate. shut_tac. Qed.

#[local] Hint Resolve call_shut _scheduleNextSend_shut : shut.

Lemma run_listener_shut (l : Listener) (a : EvArg) (s : State) :
  obeys_at shut (run_listener l a) s.
Proof.
  unfold run_listener, srsp_listener, reset_listener, clearTimeout, setImmediate.
  destruct (l_body l); shut_tac.
Qed.

#[local] Hint Resolve run_listener_shut : shut.

Lemma fire_shut (snapshot : list Listener) (a : EvArg) (s : State) :
  obeys_at shut (fire run_listener snapshot a) s.
Proof.
  revert s. induction snapshot as [|l rest IH]; intros s; cbn [fire]; unfold removeListener;
    shut_tac.
Qed.

#[local] Hint Resolve fire_shut : shut.

Lemma on_error_shut (em : string -> EvArg -> M unit) data s :
  (forall evt a s', obeys_at shut (em evt a) s') ->
  obeys_at shut (on_error em data) s.
Proof. intros Hem. unfold on_error. shut_tac. Qed.

Lemma emit_within_shut :
  forall stack evt a s, obeys_at shut (emit_within stack evt a) s.
Proof.
  assert (Hbody : forall stack,
            (forall evt a s, obeys_at shut (nested_emit stack evt a) s) ->
            forall evt a s, obeys_at shut (emit_within stack evt a) s).
  { intros stack Hnested evt a s. rewrite emit_within_eq.
    pose proof on_error_shut as Herr. shut_tac. }
  induction stack as [|stack IH]; apply Hbody.
  - intros evt a s. cbn. shut_tac.
  - exact IH.
Qed.

Lemma emit_shut (evt : string) (a : EvArg) (s : State) : obeys_at shut (emit evt a) s.
Proof. apply emit_within_shut. Qed.

#[local] Hint Resolve emit_shut : shut.

Lemma sweep_shut backlog s : obeys_at shut (sweep emit backlog) s.
Proof. revert s. induction backlog as [|x rest IH]; intros s; cbn [sweep]; shut_tac. Qed.

Lemma request_shut subsys cmd valObj cb s : obeys_at shut (request subsys cmd valObj cb) s.
Proof.
  unfold request, _sendSREQ, _sendAREQ, setTimeout, once, unpi_send. shut_tac.
Qed.

#[local] Hint Resolve sweep_shut request_shut : shut.

Lemma _parseMtIncomingData_shut data s : obeys_at shut (_parseMtIncomingData data) s.
Proof. unfold _parseMtIncomingData, _mtIncomingDataHdlr. shut_tac. Qed.

#[local] Hint Resolve _parseMtIncomingData_shut : shut.

Lemma shut_close_ok {A} (m : M A) (s : State) :
  obeys_at shut m s -> obeys_at (keeps close_ok) m s.
Proof.
  unfold obeys_at, shut, keeps, close_ok. intros (H1 & H2 & _). rewrite H1, H2. auto.
Qed.

Lemma _close_close_ok cb s : obeys_at (keeps close_ok) (_close cb) s.
Proof.
  assert (Hcall : forall by_l c a s', r_st (call by_l c a s') = s')
    by (intros; unfold call; destruct c; reflexivity).
  unfold obeys_at, keeps, _close, sp_close. rewrite bind_get.
  destruct (_sp s) as [sp|]; [|rewrite Hcall; auto].
  destruct (negb (isOpen sp)); [rewrite Hcall; auto|]. cbv zeta.
  mrun. projs. unfold close_ok. intros [Hone Hnone].
  destruct (closeCbs s) as [|c0 rest] eqn:Hcbs; cbn [app List.length Nat.eqb].
  - cbn [when]. rewrite bind_tell. unfold modify. cbn [r_st]. projs.
    rewrite (Hnone eq_refl). split; [lia|discriminate].
  - assert (Hlen : (List.length (rest ++ [if truthy cb then cb else JNoop]) =? 0)%nat = false)
      by (rewrite length_app; cbn; apply Nat.eqb_neq; lia).
    rewrite Hlen. unfold ret. cbn [r_st]. projs.
    split; [exact Hone|discriminate].
Qed.

Lemma step_close_ok (ev : Event) (s : State) : obeys_at (keeps close_ok) (step ev) s.
Proof.
  destruct ev; cbn [step];
    try (apply shut_close_ok;
         unfold spOpen, spClose, close, run_timer, run_immediate, sreqTimeout, sreqNextQueue,
           reset_failsafe, entry_fn;
         solve [shut_tac]).
  - unfold flush_done. apply obeys_at_get_bind.
    destruct (flushing s); [apply comp_refl|].
    apply obeys_at_modify_bind; [typeclasses eauto|unfold keeps, close_ok; projs; auto|].
    apply _close_close_ok.
  - apply obeys_at_get_bind. destruct (closing s) as [|n] eqn:Hclosing; [apply comp_refl|].
    unfold obeys_at, keeps, sp_close_done. rewrite bind_modify, bind_get. projs.
    intros [Hone _]. rewrite Hclosing in Hone. assert (n = 0)%nat by lia. subst n.
    destruct (call_all_spends 0 (closeCbs s) arg (set_closing 0 s)) as [Hst _].
    unfold bind. destruct (r_val (call_all (closeCbs s) arg (set_closing 0 s)));
      cbn [r_st modify]; rewrite Hst; unfold close_ok; projs; split; auto.
  - unfold spErr. apply obeys_at_get_bind.
    destruct (_sp s) as [sp|]; [|apply comp_refl].
    unfold when. destruct (isOpen sp && negb (_errClosing sp))%bool; [|apply comp_refl].
    apply obeys_at_modify_bind; [typeclasses eauto|unfold keeps, close_ok; projs; auto|].
    apply _close_close_ok.
Qed.

Lemma close_ok_new : close_ok new_CcZnp.
Proof. split; [cbn; lia|reflexivity]. Qed.

Lemma reachable_close_ok (s : State) : reachable s -> close_ok s.
Proof. intros [evs ->]. apply run_keeps; [apply step_close_ok|exact close_ok_new]. Qed.

Lemma reachable_ids (s : State) : reachable s -> ids_bounded s /\ ids_unique s.
Proof.
  intros [evs ->]. destruct (run_fresh evs new_CcZnp) as (Hb & Hu & _).
  - constructor.
  - exact ids_unique_new.
  - split; assumption.
Qed.

Lemma reachable_exec (ev : Event) (s : State) : reachable s -> reachable (fst (exec ev s)).
Proof.
  intros [evs ->]. exists (evs ++ [ev]). rewrite run_app. cbn [fst].
  rewrite run_cons. reflexivity.
Qed.

(** One event of the loop spends what it hands in, at most. *)
Lemma step_spends (f : nat) (ev : Event) (s : State) :
  wired s -> close_ok s -> ids_bounded s -> ids_unique s ->
  obeys_at (spends f (handed f ev)) (step ev) s.
Proof.
  intros Hw Hc Hb Hu.
  assert (Htally : forall m : M unit, obeys_at (tally f) m s -> obeys_at (spends f 0) m s)
    by (intros m [_ H]; exact (H Hb Hu)).
  destruct ev; cbn [step handed].
  - apply Htally. unfold spOpen. tally_tac.
  - apply request_spends.
  - apply close_spends.
  - apply Htally. tally_tac.
  - apply Htally. tally_tac.
  - apply Htally. unfold run_timer. tally_tac.
  - unfold obeys_at. rewrite bind_get.
    destruct (immediates s) as [|i rest] eqn:Himm; [apply comp_refl|].
    rewrite bind_modify.
    set (s1 := set_immediates rest s).
    assert (Hs1 : (holds f s1 + immediate_owed f i = holds f s)%nat).
    { subst s1. unfold holds. projs. rewrite Himm. cbn [map]. rewrite list_sum_cons. lia. }
    destruct i as [backlog|entry]; cbn [run_immediate immediate_owed] in *.
    + destruct (sweep_tally f backlog s1) as [_ Hsweep].
      specialize (Hsweep Hb Hu). unfold spends in *. lia.
    + pose proof (entry_fn_spends f entry s1) as Hfn. unfold obeys_at, spends in Hfn |- *.
      assert (Hup : _init s1 = true -> _unpi s1 = true).
      { subst s1. projs. intros Hinit. destruct Hw as (W1 & _). apply W1. exact Hinit. }
      specialize (Hfn Hup). lia.
  - unfold flush_done, obeys_at. rewrite bind_get.
    destruct (flushing s) as [|cb rest] eqn:Hfl; [apply comp_refl|].
    rewrite bind_modify.
    set (s1 := set_flushing rest s).
    assert (Hs1 : (holds f s1 + owed f cb = holds f s)%nat).
    { subst s1. unfold holds. projs. rewrite Hfl. cbn [map]. rewrite list_sum_cons. lia. }
    pose proof (_close_spends f cb s1) as Hcl. unfold obeys_at, spends in Hcl |- *. lia.
  - unfold obeys_at. rewrite bind_get.
    destruct (closing s) as [|n] eqn:Hclosing; [apply comp_refl|].
    destruct Hc as [Hone _]. rewrite Hclosing in Hone. assert (n = 0)%nat by lia. subst n.
    unfold sp_close_done. rewrite bind_modify, bind_get. projs.
    destruct (call_all_spends f (closeCbs s) arg (set_closing 0 s)) as [Hst Hcalls].
    assert (Hs : (holds f (set_closing 0 s) + list_sum (map (owed f) (closeCbs s))
                  = holds f s)%nat).
    { unfold holds. projs. rewrite Hclosing. cbn [Nat.eqb]. lia. }
    assert (Hs' : holds f (set_closeCbs [] (set_closing 0 s)) = holds f (set_closing 0 s)).
    { unfold holds. projs. reflexivity. }
    unfold bind. destruct (r_val (call_all (closeCbs s) arg (set_closing 0 s)));
      cbn [r_st r_out modify]; rewrite ?app_nil_r, Hst; unfold spends; lia.
  - apply Htally. unfold spClose. tally_tac.
  - unfold spErr, obeys_at. rewrite bind_get.
    destruct (_sp s) as [sp|] eqn:Hsp; [|apply comp_refl].
    unfold when. destruct (isOpen sp && negb (_errClosing sp))%bool; [|apply comp_refl].
    rewrite bind_modify.
    pose proof (_close_spends f JUndefined (set_sp (Some (mkPort (isOpen sp) true)) s)) as Hcl.
    unfold obeys_at, spends in Hcl |- *.
    assert (Hs : holds f (set_sp (Some (mkPort (isOpen sp) true)) s) = holds f s)
      by reflexivity.
    cbn [owed] in Hcl. lia.
  - apply Htally. tally_tac.
Qed.

Lemma run_spends (f : nat) (evs : list Event) (s : State) :
  reachable s ->
  spends f (list_sum (map (handed f) evs)) s (fst (run evs s)) (snd (run evs s)).
Proof.
  revert s. induction evs as [|ev rest IH]; intros s Hreach.
  - cbn. apply comp_refl.
  - rewrite run_cons. cbn [fst snd map]. rewrite list_sum_cons.
    apply (spends_trans f _ _ s (fst (exec ev s))); [|apply IH; apply reachable_exec; exact Hreach].
    destruct (reachable_ids s Hreach) as [Hb Hu].
    pose proof (step_spends f ev s (reachable_wired s Hreach) (reachable_close_ok s Hreach)
                  Hb Hu) as Hstep.
    unfold obeys_at, spends in Hstep. unfold exec, spends. cbn [fst snd].
    rewrite calls_app.
    destruct (r_val (step ev s)); cbn [calls filter List.length]; lia.
Qed.

(* ================================================================== *)
(** ** A callback that throws is called at most twice *)
(* ================================================================== *)

Lemma threw_app (f : nat) (o1 o2 : list Effect) :
  threw f (o1 ++ o2) = (threw f o1 + threw f o2)%nat.
Proof. unfold threw. rewrite filter_app, length_app. reflexivity. Qed.

Lemma twice_trans (f c d : nat) (s1 s2 s3 : State) (o1 o2 : list Effect) :
  twice f c s1 s2 o1 -> twice f d s2 s3 o2 -> twice f (c + d) s1 s3 (o1 ++ o2).
Proof. unfold twice. rewrite threw_app. lia. Qed.

#[local] Instance twice_compositional (f : nat) : Compositional (twice f 0).
Proof.
  split.
  - intros s. unfold twice. cbn. lia.
  - intros s1 s2 s3 o1 o2 H1 H2. exact (twice_trans f 0 0 _ _ _ _ _ H1 H2).
Qed.

(** A computation that uses nothing up, then one that may use [c]. *)
Lemma twice_then {A B} (f c : nat) (m : M A) (k : A -> M B) (s : State) :
  obeys_at (twice f 0) m s ->
  (forall a, r_val (m s) = inr a -> obeys_at (twice f c) (k a) (r_st (m s))) ->
  obeys_at (twice f c) (bind m k) s.
Proof.
  unfold obeys_at, bind. intros Hm Hk.
  destruct (r_val (m s)) as [e|a] eqn:Hval; cbn [r_st r_out].
  - unfold twice in *. lia.
  - exact (twice_trans f 0 c _ _ _ _ _ Hm (Hk a eq_refl)).
Qed.

(** A computation that may use [c], then one that uses nothing up. *)
Lemma twice_first {A B} (f c : nat) (m : M A) (k : A -> M B) (s : State) :
  obeys_at (twice f c) m s ->
  (forall a, r_val (m s) = inr a -> obeys_at (twice f 0) (k a) (r_st (m s))) ->
  obeys_at (twice f c) (bind m k) s.
Proof.
  unfold obeys_at, bind. intros Hm Hk.
  destruct (r_val (m s)) as [e|a] eqn:Hval; cbn [r_st r_out].
  - exact Hm.
  - pose proof (twice_trans f c 0 _ _ _ _ _ Hm (Hk a eq_refl)) as H.
    rewrite Nat.add_0_r in H. exact H.
Qed.

Lemma twice_free (f c : nat) (s s' : State) (out : list Effect) :
  twice f 0 s s' out -> twice f c s s' out.
Proof. unfold twice. lia. Qed.

(** Counts what the engine holds and what was called, field by field. *)
Ltac twice_now :=
  unfold twice, holds_thrower, threw; projs;
  rewrite ?map_app, ?list_sum_app;
  cbn [map filter List.length callback_of l_body e_callback owed_thrower immediate_owed_thrower app];
  rewrite ?list_sum_cons, ?list_sum_nil;
  repeat match goal with
         | |- context [Nat.eqb ?g ?f] => destruct (Nat.eqb g f)
         end;
  cbn [List.length]; lia.

Ltac twice_leaf :=
  first
    [ solve [apply comp_refl]
    | try match goal with |- context [indexOf ?b ?x] => destruct (indexOf b x) end;
      try match goal with |- context [_sp ?s] => destruct (_sp s) end;
      solve [twice_now] ].

Create HintDb twice discriminated.

Ltac twice_tac := obey_with ltac:(auto with twice) twice_leaf.

Lemma call_twice (f : nat) by_l cb a s :
  obeys_at (twice f (2 * owed_thrower f cb)) (call by_l cb a) s.
Proof.
  unfold obeys_at, call, bind. destruct cb; cbn [r_val r_st r_out throw ret tell app];
    twice_now.
Qed.

Lemma call_undefined_twice (f : nat) by_l a s :
  obeys_at (twice f 0) (call by_l JUndefined a) s.
Proof. exact (call_twice f by_l JUndefined a s). Qed.

Lemma clearTimeout_twice (f : nat) which s : obeys_at (twice f 0) (clearTimeout which) s.
Proof. unfold clearTimeout. twice_tac. Qed.

Lemma setTimeout_twice (f : nat) ms k s : obeys_at (twice f 0) (setTimeout ms k) s.
Proof. unfold setTimeout. twice_tac. Qed.

Lemma unpi_send_twice (f : nat) t sub c p s : obeys_at (twice f 0) (unpi_send t sub c p) s.
Proof. unfold unpi_send. twice_tac. Qed.

Lemma setImmediate_sweep_twice (f : nat) backlog s :
  obeys_at (twice f 0) (setImmediate (ISweep backlog)) s.
Proof. unfold setImmediate. twice_tac. Qed.

#[local] Hint Resolve call_undefined_twice clearTimeout_twice setTimeout_twice
  unpi_send_twice setImmediate_sweep_twice : twice.

(** Dequeuing moves an entry from the queue to the loop. *)
Lemma _scheduleNextSend_twice (f : nat) early s :
  obeys_at (twice f 0) (_scheduleNextSend early) s.
Proof.
  unfold _scheduleNextSend, setImmediate. apply obeys_at_get_bind. cbv zeta.
  destruct (_txQueue s) as [|head tail] eqn:Hq; [twice_tac|].
  destruct early.
  - destruct (findIndex (not_in_backlog (_backlog s)) (head :: tail)) as [pos|] eqn:Hfind;
      [|twice_tac].
    destruct (findIndex_Some _ _ _ head Hfind) as (before & x & behind & Hl & _ & _ & Hn & Hs).
    unfold obeys_at. mrun. rewrite Hn, Hs. unfold ret. cbn [r_st r_out].
    unfold twice, holds_thrower, threw. projs. rewrite Hq, Hl, !map_app, !list_sum_app.
    cbn [map immediate_owed_thrower filter List.length].
    rewrite ?list_sum_cons, ?list_sum_nil. lia.
  - unfold obeys_at. mrun. unfold ret. cbn [r_st r_out].
    unfold twice, holds_thrower, threw. projs. rewrite Hq, !map_app, !list_sum_app.
    cbn [map immediate_owed_thrower filter List.length].
    rewrite ?list_sum_cons, ?list_sum_nil. lia.
Qed.

#[local] Hint Resolve _scheduleNextSend_twice : twice.

Lemma sreqNextQueue_twice (f : nat) txn evt argObj s :
  obeys_at (twice f 0) (sreqNextQueue txn evt argObj) s.
Proof. unfold sreqNextQueue. twice_tac. Qed.

Lemma reset_failsafe_twice (f : nat) s : obeys_at (twice f 0) reset_failsafe s.
Proof. unfold reset_failsafe. twice_tac. Qed.

#[local] Hint Resolve sreqNextQueue_twice reset_failsafe_twice : twice.

(** A listener's function calls its callback, once at most. *)
Lemma run_listener_twice (f : nat) (l : Listener) (a : EvArg) (s : State) :
  obeys_at (twice f (2 * owed_thrower f (callback_of l))) (run_listener l a) s.
Proof.
  unfold run_listener, callback_of. destruct (l_body l) as [argObj valObj cb backlog|cb].
  - unfold srsp_listener. unfold obeys_at. rewrite bind_get. cbv zeta.
    repeat (apply twice_then; [solve [twice_tac]|intros ? _]).
    destruct a; try (apply twice_then; [solve [twice_tac]|intros ? _]); apply call_twice.
  - unfold reset_listener.
    repeat (apply twice_then; [solve [twice_tac]|intros ? _]). apply call_twice.
Qed.

Lemma once_twice (f : nat) evt body s :
  obeys_at (twice f (2 * owed_thrower f (callback_of (mkListener (next_id s) evt body)))) (once evt body) s.
Proof. unfold once. apply obeys_at_modify. twice_now. Qed.

(** Sending a request either calls the callback or holds it in a
    listener. *)
Lemma _sendSREQ_twice (f : nat) argObj valObj cb s :
  obeys_at (twice f (2 * owed_thrower f cb)) (_sendSREQ argObj valObj cb) s.
Proof.
  unfold _sendSREQ. unfold obeys_at. rewrite bind_get. cbv zeta.
  destruct (a_frame argObj) as [ex|[payload|]];
    [apply twice_free; apply comp_refl| |apply call_twice].
  repeat (apply twice_then; [solve [twice_tac]|intros ? _]).
  apply twice_first; [|intros ? _; twice_tac].
  apply once_twice.
Qed.

Lemma _sendAREQ_twice (f : nat) argObj cb s :
  obeys_at (twice f (2 * owed_thrower f cb)) (_sendAREQ argObj cb) s.
Proof.
  unfold _sendAREQ. destruct (a_frame argObj) as [ex|[payload|]];
    [apply twice_free; apply comp_refl| |apply call_twice].
  apply twice_first; [|intros ? _; twice_tac].
  destruct (is_reset (a_cmd argObj)).
  - repeat (apply twice_then; [solve [twice_tac]|intros ? _]).
    apply twice_first; [|intros ? _; twice_tac].
    apply once_twice.
  - repeat (apply twice_then; [solve [twice_tac]|intros ? _]). apply call_twice.
Qed.

(** A request calls its callback, or holds it in the queue or in a
    listener. *)
Lemma request_twice (f : nat) subsys cmd valObj cb s :
  obeys_at (twice f (2 * owed_thrower f cb)) (request subsys cmd valObj cb) s.
Proof.
  unfold request. unfold obeys_at. rewrite bind_get.
  destruct (negb (_init s)); [apply twice_free; apply comp_refl|].
  destruct (negb (truthy valObj) || negb (typeof_object valObj))%bool;
    [apply twice_free; apply comp_refl|].
  destruct (negb (typeof_function cb) && negb (typeof_undefined cb))%bool;
    [apply twice_free; apply comp_refl|].
  apply twice_then; [solve [twice_tac]|intros argObj _].
  destruct (_spinLock s).
  - apply obeys_at_modify. twice_now.
  - apply twice_then; [solve [twice_tac]|intros ? _].
    destruct (String.eqb (a_type argObj) "SREQ"); [apply _sendSREQ_twice|].
    destruct (String.eqb (a_type argObj) "AREQ"); [apply _sendAREQ_twice|].
    apply twice_free. apply comp_refl.
Qed.

(** Calling a callback leaves the state alone, and is one call at
    most. *)
Lemma call_threw (f : nat) by_l cb a s :
  r_st (call by_l cb a s) = s /\
  (threw f (r_out (call by_l cb a s)) <= owed_thrower f cb)%nat.
Proof.
  destruct cb; cbn; try (split; [reflexivity|lia]).
  destruct (Nat.eqb g f); cbn; split; try reflexivity; lia.
Qed.

(** The function of a dequeued entry, on an engine that has its unpi
    whenever it is initialized: a callback that throws when the
    request calls it is called once more by the catch, with what it
    threw. *)
Lemma entry_fn_twice (f : nat) (entry : Entry) (s : State) :
  (_init s = true -> _unpi s = true) ->
  obeys_at (twice f (2 * owed_thrower f (e_callback entry))) (entry_fn entry) s.
Proof.
  intros Hup. unfold entry_fn, obeys_at, try_catch. cbv zeta.
  pose proof (request_twice f (e_subsys entry) (e_cmd entry) (e_valObj entry)
                (e_callback entry) s) as Hreq.
  unfold obeys_at in Hreq.
  destruct (r_val (request (e_subsys entry) (e_cmd entry) (e_valObj entry)
                     (e_callback entry) s)) as [ex|[]] eqn:Hval; [|exact Hreq].
  cbn [r_val r_st r_out].
  destruct (call_threw f None (e_callback entry) (CbErr ex)
              (r_st (request (e_subsys entry) (e_cmd entry) (e_valObj entry)
                       (e_callback entry) s))) as [Hst Hcall].
  rewrite Hst. unfold twice in *. rewrite threw_app.
  assert (Htight :
            (threw f (r_out (request (e_subsys entry) (e_cmd entry) (e_valObj entry)
                               (e_callback entry) s)) +
             2 * holds_thrower f (r_st (request (e_subsys entry) (e_cmd entry)
                                          (e_valObj entry) (e_callback entry) s))
             <= 2 * holds_thrower f s + owed_thrower f (e_callback entry))%nat).
  { destruct (request_throws _ _ _ _ _ _ Hup Hval)
      as [[Hr _]|[(argObj & _ & _ & _ & Hr)|[(Hcb & _ & Hout)|(g & a & Hcb & Hout)]]].
    - rewrite Hr. cbn [r_st r_out threw filter List.length]. lia.
    - rewrite Hr. cbn [r_st r_out threw filter List.length].
      change (holds_thrower f (set_spinLock true s)) with (holds_thrower f s). lia.
    - rewrite Hcb in Hreq |- *. cbn [owed_thrower] in Hreq |- *. lia.
    - rewrite Hout in Hreq |- *. rewrite Hcb in Hreq |- *.
      cbn [owed_thrower threw filter List.length] in Hreq |- *.
      destruct (Nat.eqb g f); cbn [List.length] in Hreq |- *; lia. }
  lia.
Qed.

Lemma owed_thrower_truthy (f : nat) (cb : jsval) :
  owed_thrower f (if truthy cb then cb else JNoop) = owed_thrower f cb.
Proof. destruct cb; cbn; try reflexivity; match goal with |- context [if ?c then _ else _] => destruct c end; reflexivity. Qed.

Lemma _close_twice (f : nat) cb s : obeys_at (twice f (2 * owed_thrower f cb)) (_close cb) s.
Proof.
  unfold _close, sp_close. unfold obeys_at. rewrite bind_get.
  destruct (_sp s) as [sp|]; [|apply call_twice].
  destruct (negb (isOpen sp)); [apply call_twice|]. cbv zeta.
  mrun. projs.
  destruct (closeCbs s) as [|c0 rest] eqn:Hcbs; cbn [app List.length Nat.eqb].
  - cbn [when]. rewrite bind_tell. unfold modify. cbn [r_st r_out].
    unfold twice, holds_thrower, threw. projs. rewrite Hcbs.
    cbn [filter List.length map app Nat.eqb Nat.add].
    rewrite ?list_sum_cons, ?list_sum_nil, ?owed_thrower_truthy.
    destruct (closing s =? 0)%nat; lia.
  - assert (Hlen : (List.length (rest ++ [if truthy cb then cb else JNoop]) =? 0)%nat = false)
      by (rewrite length_app; cbn; apply Nat.eqb_neq; lia).
    rewrite Hlen. unfold ret. cbn [r_st r_out].
    unfold twice, holds_thrower, threw. projs. rewrite Hcbs.
    cbn [filter List.length map app]. rewrite !map_app, !list_sum_cons, !list_sum_app.
    cbn [map]. rewrite ?list_sum_cons, ?list_sum_nil, ?owed_thrower_truthy.
    destruct (closing s =? 0)%nat; lia.
Qed.

Lemma close_twice (f : nat) cb s : obeys_at (twice f (2 * owed_thrower f cb)) (close cb) s.
Proof.
  unfold close. unfold obeys_at. rewrite bind_get.
  destruct (_init s); [|apply call_twice].
  destruct (_sp s); [|apply twice_free; apply comp_refl].
  rewrite bind_tell. unfold modify. cbn [r_st r_out]. twice_now.
Qed.

(** The callbacks of a port close are called one by one, until one
    throws. *)
Lemma call_all_twice (f : nat) (cbs : list jsval) (arg : CbArg) (s : State) :
  r_st (call_all cbs arg s) = s /\
  (threw f (r_out (call_all cbs arg s)) <= list_sum (map (owed_thrower f) cbs))%nat.
Proof.
  induction cbs as [|cb rest IH]; cbn [call_all]; [split; [reflexivity|cbn; lia]|].
  destruct (call_threw f None cb arg s) as [Hst Hcall].
  unfold bind. destruct (r_val (call None cb arg s)); cbn [r_st r_out map].
  - rewrite list_sum_cons. split; [exact Hst|]. lia.
  - rewrite Hst. destruct IH as [IH1 IH2]. split; [exact IH1|].
    rewrite threw_app, list_sum_cons. lia.
Qed.

(** A one-shot wrapper: the listener leaves, then its function runs. *)
Lemma fire_one_twice (f : nat) (l : Listener) (a : EvArg) (s : State) :
  In l (listeners s) ->
  obeys_at (twice f 0) (removeListener (l_id l);; run_listener l a) s.
Proof.
  intros Hin. unfold obeys_at, removeListener. rewrite bind_modify.
  set (s1 := set_listeners (filter (fun x => negb (Nat.eqb (l_id x) (l_id l))) (listeners s)) s).
  pose proof (run_listener_twice f l a s1) as Hrun. unfold obeys_at, twice in Hrun.
  unfold twice.
  assert (Hs1 : (holds_thrower f s1 + owed_thrower f (callback_of l) <= holds_thrower f s)%nat).
  { subst s1. unfold holds_thrower. projs.
    pose proof (list_sum_removed (fun x => owed_thrower f (callback_of x)) l (listeners s) Hin). lia. }
  lia.
Qed.

Lemma fire_twice (f : nat) (snapshot : list Listener) (a : EvArg) (s : State) :
  current snapshot s ->
  obeys_at (twice f 0) (fire run_listener snapshot a) s.
Proof.
  revert s. induction snapshot as [|l rest IH]; intros s Hcur; cbn [fire].
  - twice_tac.
  - apply obeys_at_get_bind. cbv zeta.
    apply obeys_at_bind; [typeclasses eauto| |intros ? _].
    + unfold when. destruct (registered (l_id l) s) eqn:Hreg; [|twice_tac].
      apply fire_one_twice. apply Hcur; [left; reflexivity|exact Hreg].
    + apply IH. apply fire_one_current. exact Hcur.
Qed.

#[local] Instance twice_tally_compositional (f : nat) : Compositional (twice_tally f).
Proof.
  split.
  - intros s. split; [apply comp_refl|]. intros _ _. apply comp_refl.
  - intros s1 s2 s3 o1 o2 [F1 C1] [F2 C2]. split.
    + eapply comp_trans; eassumption.
    + intros Hb Hu. destruct (F1 Hb Hu) as (Hb2 & Hu2 & _).
      exact (twice_trans f 0 0 _ _ _ _ _ (C1 Hb Hu) (C2 Hb2 Hu2)).
Qed.

Lemma twice_tally_intro {A} (f : nat) (m : M A) (s : State) :
  obeys_at fresh m s -> obeys_at (twice f 0) m s -> obeys_at (twice_tally f) m s.
Proof. unfold obeys_at. intros H1 H2. split; [exact H1|]. intros _ _. exact H2. Qed.

Create HintDb twice_tally discriminated.

Ltac twice_tally_known :=
  first
    [ solve [auto with twice_tally]
    | solve [apply twice_tally_intro; [fresh_known|auto with twice]] ].

Ltac twice_tally_leaf :=
  first
    [ solve [apply comp_refl]
    | split; [fresh_leaf|intros _ _; twice_leaf] ].

Ltac twice_tally_tac := obey_with twice_tally_known twice_tally_leaf.

Lemma on_error_twice_tally (f : nat) (em : string -> EvArg -> M unit) data s :
  (forall evt a s', obeys_at (twice_tally f) (em evt a) s') ->
  obeys_at (twice_tally f) (on_error em data) s.
Proof. intros Hem. unfold on_error. twice_tally_tac. Qed.

Lemma emit_within_twice_tally (f : nat) :
  forall stack evt a s, obeys_at (twice_tally f) (emit_within stack evt a) s.
Proof.
  assert (Hbody : forall stack,
            (forall evt a s, obeys_at (twice_tally f) (nested_emit stack evt a) s) ->
            forall evt a s, obeys_at (twice_tally f) (emit_within stack evt a) s).
  { intros stack Hnested evt a s. split; [apply emit_within_fresh|]. intros Hb Hu.
    rewrite emit_within_eq.
    apply obeys_at_tell_bind; [typeclasses eauto|twice_now|].
    apply obeys_at_get_bind. cbv zeta.
    set (snapshot := filter (on_evt evt) (listeners s)).
    set (m1 := when (String.eqb evt "_ready")
                 (modify (set_init true);; nested_emit stack "ready"%string ANone)).
    set (m2 := when (String.eqb evt "SRSP:RES0:error") (on_error (nested_emit stack) a)).
    pose proof (on_error_twice_tally f) as Herr.
    assert (H1 : obeys_at (twice_tally f) m1 s) by (subst m1; twice_tally_tac).
    assert (H2 : forall s', obeys_at (twice_tally f) m2 s') by (intros s'; subst m2; twice_tally_tac).
    destruct H1 as [F1 C1]. destruct (F1 Hb Hu) as (Hb1 & Hu1 & _).
    apply obeys_at_bind; [typeclasses eauto|exact (C1 Hb Hu)|intros ? _].
    apply obeys_at_bind; [typeclasses eauto|exact (proj2 (H2 _) Hb1 Hu1)|intros ? _].
    apply fire_twice.
    apply (current_fresh snapshot s _ (r_out (m1 s) ++ r_out (m2 (r_st (m1 s)))) Hb Hu).
    - intros l Hl. subst snapshot. apply filter_In in Hl. tauto.
    - eapply comp_trans; [exact F1|exact (proj1 (H2 _))]. }
  induction stack as [|stack IH]; apply Hbody.
  - intros evt a s. cbn. twice_tally_tac.
  - exact IH.
Qed.

Lemma emit_twice_tally (f : nat) (evt : string) (a : EvArg) (s : State) :
  obeys_at (twice_tally f) (emit evt a) s.
Proof. apply emit_within_twice_tally. Qed.

#[local] Hint Resolve emit_twice_tally : twice_tally.

Lemma sreqTimeout_twice_tally (f : nat) evt s : obeys_at (twice_tally f) (sreqTimeout emit evt) s.
Proof. unfold sreqTimeout. twice_tally_tac. Qed.

Lemma sweep_twice_tally (f : nat) backlog s : obeys_at (twice_tally f) (sweep emit backlog) s.
Proof. revert s. induction backlog as [|x rest IH]; intros s; cbn [sweep]; twice_tally_tac. Qed.

Lemma _mtIncomingDataHdlr_twice_tally (f : nat) err type subsys cmd result s :
  obeys_at (twice_tally f) (_mtIncomingDataHdlr err type subsys cmd result) s.
Proof. unfold _mtIncomingDataHdlr. twice_tally_tac. Qed.

#[local] Hint Resolve sreqTimeout_twice_tally sweep_twice_tally _mtIncomingDataHdlr_twice_tally : twice_tally.

Lemma _parseMtIncomingData_twice_tally (f : nat) data s :
  obeys_at (twice_tally f) (_parseMtIncomingData data) s.
Proof. unfold _parseMtIncomingData. twice_tally_tac. Qed.

#[local] Hint Resolve _parseMtIncomingData_twice_tally : twice_tally.

(** One event of the loop uses up what it hands in, at most. *)
Lemma step_twice (f : nat) (ev : Event) (s : State) :
  wired s -> close_ok s -> ids_bounded s -> ids_unique s ->
  obeys_at (twice f (2 * handed_thrower f ev)) (step ev) s.
Proof.
  intros Hw Hc Hb Hu.
  assert (Htally : forall m : M unit, obeys_at (twice_tally f) m s -> obeys_at (twice f 0) m s)
    by (intros m [_ H]; exact (H Hb Hu)).
  destruct ev; cbn [step handed_thrower].
  - apply Htally. unfold spOpen. twice_tally_tac.
  - apply request_twice.
  - apply close_twice.
  - apply Htally. twice_tally_tac.
  - apply Htally. twice_tally_tac.
  - apply Htally. unfold run_timer. twice_tally_tac.
  - unfold obeys_at. rewrite bind_get.
    destruct (immediates s) as [|i rest] eqn:Himm; [apply comp_refl|].
    rewrite bind_modify.
    set (s1 := set_immediates rest s).
    assert (Hs1 : (holds_thrower f s1 + immediate_owed_thrower f i = holds_thrower f s)%nat).
    { subst s1. unfold holds_thrower. projs. rewrite Himm. cbn [map]. rewrite list_sum_cons. lia. }
    destruct i as [backlog|entry]; cbn [run_immediate immediate_owed_thrower] in *.
    + destruct (sweep_twice_tally f backlog s1) as [_ Hsweep].
      specialize (Hsweep Hb Hu). unfold twice in *. lia.
    + pose proof (entry_fn_twice f entry s1) as Hfn. unfold obeys_at, twice in Hfn |- *.
      assert (Hup : _init s1 = true -> _unpi s1 = true).
      { subst s1. projs. intros Hinit. destruct Hw as (W1 & _). apply W1. exact Hinit. }
      specialize (Hfn Hup). lia.
  - unfold flush_done, obeys_at. rewrite bind_get.
    destruct (flushing s) as [|cb rest] eqn:Hfl; [apply comp_refl|].
    rewrite bind_modify.
    set (s1 := set_flushing rest s).
    assert (Hs1 : (holds_thrower f s1 + owed_thrower f cb = holds_thrower f s)%nat).
    { subst s1. unfold holds_thrower. projs. rewrite Hfl. cbn [map]. rewrite list_sum_cons. lia. }
    pose proof (_close_twice f cb s1) as Hcl. unfold obeys_at, twice in Hcl |- *. lia.
  - unfold obeys_at. rewrite bind_get.
    destruct (closing s) as [|n] eqn:Hclosing; [apply comp_refl|].
    destruct Hc as [Hone _]. rewrite Hclosing in Hone. assert (n = 0)%nat by lia. subst n.
    unfold sp_close_done. rewrite bind_modify, bind_get. projs.
    destruct (call_all_twice f (closeCbs s) arg (set_closing 0 s)) as [Hst Hcalls].
    assert (Hs : (holds_thrower f (set_closing 0 s) + list_sum (map (owed_thrower f) (closeCbs s))
                  = holds_thrower f s)%nat).
    { unfold holds_thrower. projs. rewrite Hclosing. cbn [Nat.eqb]. lia. }
    assert (Hs' : holds_thrower f (set_closeCbs [] (set_closing 0 s)) = holds_thrower f (set_closing 0 s)).
    { unfold holds_thrower. projs. reflexivity. }
    unfold bind. destruct (r_val (call_all (closeCbs s) arg (set_closing 0 s)));
      cbn [r_st r_out modify]; rewrite ?app_nil_r, Hst; unfold twice; lia.
  - apply Htally. unfold spClose. twice_tally_tac.
  - unfold spErr, obeys_at. rewrite bind_get.
    destruct (_sp s) as [sp|] eqn:Hsp; [|apply comp_refl].
    unfold when. destruct (isOpen sp && negb (_errClosing sp))%bool; [|apply comp_refl].
    rewrite bind_modify.
    pose proof (_close_twice f JUndefined (set_sp (Some (mkPort (isOpen sp) true)) s)) as Hcl.
    unfold obeys_at, twice in Hcl |- *.
    assert (Hs : holds_thrower f (set_sp (Some (mkPort (isOpen sp) true)) s) = holds_thrower f s)
      by reflexivity.
    cbn [owed_thrower] in Hcl. lia.
  - apply Htally. twice_tally_tac.
Qed.

Lemma run_twice (f : nat) (evs : list Event) (s : State) :
  reachable s ->
  twice f (2 * list_sum (map (handed_thrower f) evs)) s (fst (run evs s)) (snd (run evs s)).
Proof.
  revert s. induction evs as [|ev rest IH]; intros s Hreach.
  - cbn. apply comp_refl.
  - rewrite run_cons. cbn [fst snd map]. rewrite list_sum_cons.
    pose proof (IH _ (reachable_exec ev s Hreach)) as Hrest.
    destruct (reachable_ids s Hreach) as [Hb Hu].
    pose proof (step_twice f ev s (reachable_wired s Hreach) (reachable_close_ok s Hreach)
                  Hb Hu) as Hstep.
    unfold obeys_at, twice in Hstep, Hrest. unfold exec, twice in Hrest |- *.
    cbn [fst snd] in Hrest |- *.
    rewrite !threw_app.
    destruct (r_val (step ev s)); cbn [threw filter List.length]; lia.
Qed.

(** No callback is called more often than it was handed in, unless it
    throws (lines 87-102, 203-257, 280-448).  Count how many times the
    engine holds a function to call it later - as the callback of a
    waiting listener, of a queued or dequeued request, of a [close]
    waiting for its flush or of a port close under way.  Whatever
    events arrive and whatever other callbacks do, for a function that
    returns when it is called the calls of the function and its
    holdings afterwards add up to no more than its holdings before and
    the times it was passed to [request] or [close] in between; from a
    new engine it is called at most as many times as it was passed in.
    A function that throws when it is called can be called a second
    time for one hand-in, by the catch of lines 239-242 with what it
    threw: its calls and twice its holdings afterwards add up to no
    more than twice its holdings before and twice the times it was
    passed in; from a new engine it is called at most twice as many
    times as it was passed in. *)
Theorem callbacks_called_at_most_as_handed (f : nat) (evs1 evs2 : list Event) :
  let first := run evs1 new_CcZnp in
  let later := run evs2 (fst first) in
  (calls f (snd later) + holds f (fst later)
   <= holds f (fst first) + list_sum (map (handed f) evs2))%nat /\
  (calls f (snd first ++ snd later) <= list_sum (map (handed f) (evs1 ++ evs2)))%nat /\
  (threw f (snd later) + 2 * holds_thrower f (fst later)
   <= 2 * holds_thrower f (fst first) + 2 * list_sum (map (handed_thrower f) evs2))%nat /\
  (threw f (snd first ++ snd later)
   <= 2 * list_sum (map (handed_thrower f) (evs1 ++ evs2)))%nat.
Proof.
  cbv zeta.
  assert (Hreach : reachable (fst (run evs1 new_CcZnp))) by (exists evs1; reflexivity).
  assert (Hnew : reachable new_CcZnp) by (exists []; reflexivity).
  pose proof (run_spends f evs2 _ Hreach) as H2.
  pose proof (run_spends f evs1 _ Hnew) as H1.
  pose proof (run_twice f evs2 _ Hreach) as T2.
  pose proof (run_twice f evs1 _ Hnew) as T1.
  unfold spends, twice in *.
  assert (Hzero : holds f new_CcZnp = 0%nat) by reflexivity.
  assert (Tzero : holds_thrower f new_CcZnp = 0%nat) by reflexivity.
  split; [exact H2|]. split; [|split; [exact T2|]].
  - rewrite calls_app, map_app, list_sum_app. lia.
  - rewrite threw_app, map_app, list_sum_app. lia.
Qed.

(* ================================================================== *)
(** ** No frame is written that was not requested *)
(* ================================================================== *)

Lemma sends_app (o1 o2 : list Effect) : sends (o1 ++ o2) = (sends o1 + sends o2)%nat.
Proof. unfold sends. rewrite filter_app, length_app. reflexivity. Qed.

Lemma writes_trans (c d : nat) (s1 s2 s3 : State) (o1 o2 : list Effect) :
  writes c s1 s2 o1 -> writes d s2 s3 o2 -> writes (c + d) s1 s3 (o1 ++ o2).
Proof. unfold writes. rewrite sends_app. lia. Qed.

#[local] Instance writes_compositional : Compositional (writes 0).
Proof.
  split.
  - intros s. unfold writes. cbn. lia.
  - intros s1 s2 s3 o1 o2 H1 H2. exact (writes_trans 0 0 _ _ _ _ _ H1 H2).
Qed.

Lemma writes_then {A B} (c : nat) (m : M A) (k : A -> M B) (s : State) :
  obeys_at (writes 0) m s ->
  (forall a, r_val (m s) = inr a -> obeys_at (writes c) (k a) (r_st (m s))) ->
  obeys_at (writes c) (bind m k) s.
Proof.
  unfold obeys_at, bind. intros Hm Hk.
  destruct (r_val (m s)) as [e|a] eqn:Hval; cbn [r_st r_out].
  - unfold writes in *. lia.
  - exact (writes_trans 0 c _ _ _ _ _ Hm (Hk a eq_refl)).
Qed.

Lemma writes_free (c : nat) (s s' : State) (out : list Effect) :
  writes 0 s s' out -> writes c s s' out.
Proof. unfold writes. lia. Qed.

Ltac write_now :=
  unfold writes, queued, sends; projs;
  rewrite ?filter_app, ?length_app;
  cbn [filter List.length is_dequeued app]; lia.

Ltac write_leaf :=
  first
    [ solve [apply comp_refl]
    | try match goal with |- context [indexOf ?b ?x] => destruct (indexOf b x) end;
      try match goal with |- context [_sp ?s] => destruct (_sp s) end;
      solve [write_now] ].

Create HintDb writes discriminated.

Ltac write_tac := obey_with ltac:(auto with writes) write_leaf.

Lemma call_writes by_l cb a s : obeys_at (writes 0) (call by_l cb a) s.
Proof. unfold call. destruct cb; write_tac. Qed.

Lemma splice1_length {A} (l : list A) (pos : nat) (x : A) :
  nth_error l pos = Some x -> S (List.length (splice1 pos l)) = List.length l.
Proof.
  intros Hnth. apply nth_error_split in Hnth as (l1 & l2 & -> & <-).
  rewrite splice1_split, !length_app. cbn [List.length]. lia.
Qed.

(** Dequeuing moves an entry from the queue to the loop. *)
Lemma _scheduleNextSend_writes early s : obeys_at (writes 0) (_scheduleNextSend early) s.
Proof.
  unfold _scheduleNextSend, setImmediate. apply obeys_at_get_bind. cbv zeta.
  destruct (_txQueue s) as [|head tail] eqn:Hq; [write_tac|].
  destruct early.
  - destruct (findIndex (not_in_backlog (_backlog s)) (head :: tail)) as [pos|] eqn:Hfind;
      [|write_tac].
    destruct (findIndex_Some _ _ _ head Hfind) as (before & x & behind & Hl & _ & _ & _ & Hs).
    unfold obeys_at. mrun. rewrite Hs. unfold ret. cbn [r_st r_out].
    unfold writes, queued, sends. projs. rewrite Hq, Hl, filter_app, !length_app.
    cbn [filter List.length is_dequeued]. lia.
  - unfold obeys_at. mrun. unfold ret. cbn [r_st r_out].
    unfold writes, queued, sends. projs. rewrite Hq, filter_app, !length_app.
    cbn [filter List.length is_dequeued]. lia.
Qed.

#[local] Hint Resolve call_writes _scheduleNextSend_writes : writes.

Lemma run_listener_writes (l : Listener) (a : EvArg) (s : State) :
  obeys_at (writes 0) (run_listener l a) s.
Proof.
  unfold run_listener, srsp_listener, reset_listener, clearTimeout, setImmediate.
  destruct (l_body l); write_tac.
Qed.

#[local] Hint Resolve run_listener_writes : writes.

Lemma fire_writes (snapshot : list Listener) (a : EvArg) (s : State) :
  obeys_at (writes 0) (fire run_listener snapshot a) s.
Proof.
  revert s. induction snapshot as [|l rest IH]; intros s; cbn [fire]; unfold removeListener;
    write_tac.
Qed.

#[local] Hint Resolve fire_writes : writes.

Lemma on_error_writes (em : string -> EvArg -> M unit) data s :
  (forall evt a s', obeys_at (writes 0) (em evt a) s') ->
  obeys_at (writes 0) (on_error em data) s.
Proof. intros Hem. unfold on_error. write_tac. Qed.

Lemma emit_within_writes :
  forall stack evt a s, obeys_at (writes 0) (emit_within stack evt a) s.
Proof.
  assert (Hbody : forall stack,
            (forall evt a s, obeys_at (writes 0) (nested_emit stack evt a) s) ->
            forall evt a s, obeys_at (writes 0) (emit_within stack evt a) s).
  { intros stack Hnested evt a s. rewrite emit_within_eq.
    pose proof on_error_writes as Herr. write_tac. }
  induction stack as [|stack IH]; apply Hbody.
  - intros evt a s. cbn. write_tac.
  - exact IH.
Qed.

Lemma emit_writes (evt : string) (a : EvArg) (s : State) : obeys_at (writes 0) (emit evt a) s.
Proof. apply emit_within_writes. Qed.

#[local] Hint Resolve emit_writes : writes.

Lemma sweep_writes backlog s : obeys_at (writes 0) (sweep emit backlog) s.
Proof. revert s. induction backlog as [|x rest IH]; intros s; cbn [sweep]; write_tac. Qed.

Lemma _parseMtIncomingData_writes data s : obeys_at (writes 0) (_parseMtIncomingData data) s.
Proof. unfold _parseMtIncomingData, _mtIncomingDataHdlr. write_tac. Qed.

Lemma call_all_writes (cbs : list jsval) (arg : CbArg) (s : State) :
  obeys_at (writes 0) (call_all cbs arg) s.
Proof. revert s. induction cbs as [|cb rest IH]; intros s; cbn [call_all]; write_tac. Qed.

#[local] Hint Resolve sweep_writes _parseMtIncomingData_writes call_all_writes : writes.

Lemma _close_writes cb s : obeys_at (writes 0) (_close cb) s.
Proof. unfold _close, sp_close. write_tac. Qed.

#[local] Hint Resolve _close_writes : writes.

(** A request writes its frame or waits in the queue. *)
Lemma request_writes subsys cmd valObj cb s :
  obeys_at (writes 1) (request subsys cmd valObj cb) s.
Proof.
  assert (Hsend : forall t sub c p s', obeys_at (writes 1) (unpi_send t sub c p) s').
  { intros. unfold unpi_send, obeys_at. rewrite bind_get.
    destruct (_unpi s'); cbn [tell throw r_st r_out]; write_now. }
  unfold request. unfold obeys_at. rewrite bind_get.
  destruct (negb (_init s)); [apply writes_free; apply comp_refl|].
  destruct (negb (truthy valObj) || negb (typeof_object valObj))%bool;
    [apply writes_free; apply comp_refl|].
  destruct (negb (typeof_function cb) && negb (typeof_undefined cb))%bool;
    [apply writes_free; apply comp_refl|].
  apply writes_then; [solve [write_tac]|intros argObj _].
  destruct (_spinLock s).
  - apply obeys_at_modify. write_now.
  - apply writes_then; [solve [write_tac]|intros ? _].
    destruct (String.eqb (a_type argObj) "SREQ").
    + unfold _sendSREQ, setTimeout, once, obeys_at. rewrite bind_get. cbv zeta.
      destruct (a_frame argObj) as [ex|[payload|]];
        [apply writes_free; apply comp_refl| |apply writes_free; apply call_writes].
      do 3 (apply writes_then; [solve [write_tac]|intros ? _]). apply Hsend.
    + destruct (String.eqb (a_type argObj) "AREQ"); [|apply writes_free; apply comp_refl].
      unfold _sendAREQ, setTimeout, once.
      destruct (a_frame argObj) as [ex|[payload|]];
        [apply writes_free; apply comp_refl| |apply writes_free; apply call_writes].
      apply writes_then; [|intros ? _; apply Hsend].
      destruct (is_reset (a_cmd argObj)); write_tac.
Qed.

Lemma entry_fn_writes entry s : obeys_at (writes 1) (entry_fn entry) s.
Proof.
  unfold entry_fn, obeys_at, try_catch. cbv zeta.
  pose proof (request_writes (e_subsys entry) (e_cmd entry) (e_valObj entry)
                (e_callback entry) s) as Hreq.
  unfold obeys_at in Hreq.
  destruct (r_val (request (e_subsys entry) (e_cmd entry) (e_valObj entry)
                     (e_callback entry) s)) as [ex|[]]; [|exact Hreq].
  cbn [r_val r_st r_out].
  pose proof (call_writes None (e_callback entry) (CbErr ex)
                (r_st (request (e_subsys entry) (e_cmd entry) (e_valObj entry)
                         (e_callback entry) s))) as Hcall.
  pose proof (writes_trans 1 0 _ _ _ _ _ Hreq Hcall) as H. exact H.
Qed.

Lemma step_writes (ev : Event) (s : State) : obeys_at (writes (requested ev)) (step ev) s.
Proof.
  destruct ev; cbn [step requested];
    try (unfold spOpen, spClose, spErr, close, flush_done, sp_close_done, run_timer,
           sreqTimeout, sreqNextQueue, reset_failsafe;
         solve [write_tac]).
  - apply request_writes.
  - unfold obeys_at. rewrite bind_get.
    destruct (immediates s) as [|i rest] eqn:Himm; [apply comp_refl|].
    rewrite bind_modify. destruct i as [backlog|entry]; cbn [run_immediate].
    + pose proof (sweep_writes backlog (set_immediates rest s)) as H.
      unfold obeys_at, writes, queued in *. revert H. projs. rewrite Himm.
      cbn [filter is_dequeued]. lia.
    + pose proof (entry_fn_writes entry (set_immediates rest s)) as H.
      unfold obeys_at, writes, queued in *. revert H. projs. rewrite Himm.
      cbn [filter is_dequeued List.length]. lia.
Qed.

Lemma run_writes (evs : list Event) (s : State) :
  writes (list_sum (map requested evs)) s (fst (run evs s)) (snd (run evs s)).
Proof.
  revert s. induction evs as [|ev rest IH]; intros s.
  - cbn. apply comp_refl.
  - rewrite run_cons. cbn [fst snd map]. rewrite list_sum_cons.
    apply (writes_trans _ _ s (fst (exec ev s))); [|apply IH].
    pose proof (step_writes ev s) as Hstep.
    unfold obeys_at, writes in Hstep. unfold exec, writes. cbn [fst snd].
    rewrite sends_app.
    destruct (r_val (step ev s)); cbn [sends filter List.length]; lia.
Qed.

(** No frame is written that was not requested (lines 215-257,
    280-448).  Whatever state the engine is in and whatever events
    arrive - replies, timers firing, the queue being served, the port
    closing - the frames written to the device and the requests still
    waiting to be dispatched afterwards add up to no more than the
    requests that waited before and the calls of [request] in between:
    a call of [request] puts at most one frame on the wire, and
    nothing else puts any. *)
Theorem frames_written_at_most_as_requested (evs : list Event) (s : State) :
  let r := run evs s in
  (sends (snd r) + queued (fst r) <= queued s + list_sum (map requested evs))%nat /\
  (Forall (fun ev => requested ev = 0%nat) evs -> queued s = 0%nat -> sends (snd r) = 0%nat).
Proof.
  cbv zeta. pose proof (run_writes evs s) as H. unfold writes in H. split; [exact H|].
  intros Hnone Hq.
  assert (Hsum : list_sum (map requested evs) = 0%nat).
  { clear H. induction Hnone as [|ev rest Hev _ IH]; [reflexivity|].
    cbn [map]. rewrite list_sum_cons. lia. }
  lia.
Qed.

(* ================================================================== *)
(** ** One request from rest to rest *)
(* ================================================================== *)

Lemma request_from_rest (s : State) (subsys cmd : ident) (valObj : jsval) (f : nat)
    (argObj : ArgObj) (payload : Payload) :
  at_rest s ->
  (truthy valObj && typeof_object valObj)%bool = true ->
  ZpiObject subsys cmd valObj = inr argObj ->
  a_type argObj = "SREQ"%string -> a_frame argObj = inr (Some payload) ->
  let evt := srsp_evt (a_subsys argObj) (a_cmd argObj) in
  step (EvRequest subsys cmd valObj (JFun f)) s =
    mkRes (inr tt)
      (set_next_id (S (next_id s))
         (set_listeners [mkListener (next_id s) evt
                           (BSrsp argObj valObj (JFun f) [RBacklogArray])]
            (set_timers [mkTimer (now s + 3500) (TSreqTimeout (next_id s) evt);
                         mkTimer (now s + 1800) (TSreqNextQueue (next_id s) evt argObj)]
               (set_spinLock true s))))
      [ESend "SREQ" (a_subsys argObj) (a_cmdId argObj) payload].
Proof.
  intros (Hinit & Hunpi & Hlock & Hq & Hb & Hl & Ht & Hi) Hval Hzpi Htype Hframe evt.
  cbn [step]. unfold request. rewrite bind_get, Hinit. cbn [negb].
  apply andb_prop in Hval as [Htruthy Hobj]. rewrite Htruthy, Hobj. cbn [negb orb andb typeof_function].
  rewrite Hzpi. cbn [lift]. rewrite bind_ret_l, Hlock, bind_modify, Htype.
  cbn [String.eqb Ascii.eqb Bool.eqb andb].
  unfold _sendSREQ, setTimeout, once, unpi_send. mrun. rewrite Hframe. mrun. projs.
  rewrite Hunpi, Hl, Ht. reflexivity.
Qed.

(** An event no listener waits for is only announced. *)
Lemma emit_unheard (evt : string) (a : EvArg) (s : State) :
  filter (on_evt evt) (listeners s) = [] ->
  String.eqb evt "_ready" = false -> String.eqb evt "SRSP:RES0:error" = false ->
  emit evt a s = mkRes (inr tt) s [EEmit evt a].
Proof.
  intros Hsnap Hready Herror. unfold emit. rewrite emit_within_eq.
  rewrite bind_tell, bind_get. cbv zeta. rewrite Hready, Herror, Hsnap. reflexivity.
Qed.

(** An event its one listener waits for: the listener leaves and its
    function runs. *)
Lemma emit_heard (evt : string) (a : EvArg) (l : Listener) (s : State) :
  listeners s = [l] -> l_evt l = evt ->
  String.eqb evt "_ready" = false -> String.eqb evt "SRSP:RES0:error" = false ->
  emit evt a s =
    let r := run_listener l a (set_listeners [] s) in
    mkRes (r_val r) (r_st r) (EEmit evt a :: r_out r).
Proof.
  intros Hl Hevt Hready Herror. unfold emit. rewrite emit_within_eq.
  rewrite bind_tell, bind_get. cbv zeta. rewrite Hready, Herror, Hl.
  cbn [filter]. unfold on_evt. rewrite Hevt, String.eqb_refl.
  cbn [when fire]. rewrite !bind_ret_l, bind_get. unfold registered. rewrite Hl.
  cbn [existsb]. rewrite Nat.eqb_refl. cbn [orb when].
  unfold removeListener. rewrite bind_assoc, bind_modify. rewrite Hl. cbn [filter].
  rewrite Nat.eqb_refl. cbn [negb].
  unfold bind. destruct (run_listener l a (set_listeners [] s)) as [[e|[]] s' o];
    cbn [r_val r_st r_out ret]; rewrite ?app_nil_r; reflexivity.
Qed.

(** The response listener of a transaction that holds the gate, with
    nothing queued behind it. *)
Lemma run_listener_alone (txn : nat) (evt : string) (argObj : ArgObj) (valObj : jsval)
    (f : nat) (backlog : list JsRef) (a : EvArg) (s : State) :
  _spinLock s = true -> _txQueue s = [] ->
  run_listener (mkListener txn evt (BSrsp argObj valObj (JFun f) backlog)) a s =
    mkRes (inr tt)
      ((match a with
        | ATimeout | AError => fun s' => s'
        | _ => set_resetting false
        end)
         (set_timers (purged_timers txn (timers s))
            (set_backlog
               (match indexOf (_backlog s) (REntry (ownEvent txn evt argObj)) with
                | Some pos => splice1 pos (_backlog s)
                | None => _backlog s
                end)
               (set_immediates (immediates s ++ [ISweep backlog])
                  (set_spinLock false s)))))
      [ECallback (Some txn) f (outcome a)].
Proof.
  intros Hlock Hq. unfold run_listener. cbn [l_body l_id l_evt].
  unfold srsp_listener, clearTimeout, setImmediate, _scheduleNextSend, purged_timers.
  rewrite bind_get. cbv zeta. rewrite Hlock. cbn [when negb]. mrun. projs.
  destruct (indexOf (_backlog s) (REntry (ownEvent txn evt argObj))) as [pos|];
    projs; rewrite Hq; mrun;
    destruct a; unfold call, outcome; mrun; unfold tell; f_equal; state_eq.
Qed.

Lemma exec_returns (ev : Event) (s s' : State) (out : list Effect) :
  step ev s = mkRes (inr tt) s' out -> exec ev s = (s', out).
Proof. intros H. unfold exec. rewrite H. cbn. rewrite app_nil_r. reflexivity. Qed.

Lemma run_returns (ev : Event) (rest : list Event) (s s' : State) (out : list Effect) :
  step ev s = mkRes (inr tt) s' out ->
  run (ev :: rest) s = (fst (run rest s'), out ++ snd (run rest s')).
Proof. intros H. rewrite run_cons, (exec_returns _ _ _ _ H). reflexivity. Qed.

(** The sweep of a transaction that started with an empty backlog
    finds nothing. *)
Lemma sweep_nothing (s : State) :
  sweep emit [RBacklogArray] s = mkRes (inr tt) s [].
Proof.
  cbn [sweep]. rewrite bind_get.
  assert (Hnone : indexOf (_backlog s) RBacklogArray = None).
  { unfold indexOf. apply findIndex_None. intros x _. reflexivity. }
  rewrite Hnone. rewrite bind_ret_l. reflexivity.
Qed.

(** The reply path: the frame is written, the reply settles the
    transaction, the sweep finds nothing. *)
Lemma reply_from_rest (s : State) (subsys cmd : ident) (valObj : jsval) (f : nat)
    (argObj : ArgObj) (payload : Payload) (data : Frame) (reply : ArgObj) (result : Obj) :
  at_rest s ->
  (truthy valObj && typeof_object valObj)%bool = true ->
  ZpiObject subsys cmd valObj = inr argObj ->
  a_type argObj = "SREQ"%string -> a_frame argObj = inr (Some payload) ->
  String.eqb (srsp_evt (a_subsys argObj) (a_cmd argObj)) "SRSP:RES0:error" = false ->
  f_fcs data = f_csum data ->
  ZpiObject (INum (f_subsys data)) (INum (f_cmd data)) JUndefined = inr reply ->
  a_subsys reply = a_subsys argObj -> a_cmd reply = a_cmd argObj ->
  CmdType_key (f_type data) = Some "SRSP"%string ->
  parse reply "SRSP" (f_len data) (f_payload data) = inr result ->
  let evt := srsp_evt (a_subsys argObj) (a_cmd argObj) in
  let txn := next_id s in
  let sent := ESend "SREQ" (a_subsys argObj) (a_cmdId argObj) payload in
  run [EvRequest subsys cmd valObj (JFun f); EvData data; EvImmediate] s =
    (set_resetting false (set_next_id (S txn) s),
     [sent; EEmit "data" (AFrame data); EEmit evt (AResult result);
      ECallback (Some txn) f (CbResult (AResult result))]).
Proof.
  intros Hrest Hval Hzpi Htype Hframe Herr Hcs Hreply Hsub Hcmd Htyp Hparse evt txn sent.
  pose proof (request_from_rest s subsys cmd valObj f argObj payload Hrest Hval Hzpi Htype
                Hframe) as Hreq.
  cbv zeta in Hreq. fold evt txn sent in Hreq.
  destruct Hrest as (Hinit & Hunpi & Hlock & Hq & Hb & Hl & Ht & Hi).
  set (l := mkListener txn evt (BSrsp argObj valObj (JFun f) [RBacklogArray])) in *.
  set (s1 := set_next_id (S txn) (set_listeners [l] _)) in Hreq.
  assert (Hready : String.eqb evt "_ready" = false) by reflexivity.
  change (String.eqb evt "SRSP:RES0:error" = false) in Herr.
  rewrite (run_returns _ _ _ _ _ Hreq).
  assert (Hdata : step (EvData data) s1 =
                  mkRes (inr tt)
                    (set_resetting false
                       (set_timers []
                          (set_immediates [ISweep [RBacklogArray]]
                             (set_spinLock false (set_listeners [] s1)))))
                    [EEmit "data" (AFrame data); EEmit evt (AResult result);
                     ECallback (Some txn) f (CbResult (AResult result))]).
  { cbn [step]. unfold _parseMtIncomingData.
    unfold bind at 1. rewrite emit_unheard; [|reflexivity|reflexivity|reflexivity].
    cbn [r_val r_st r_out]. unfold try_catch.
    rewrite Hcs, Z.eqb_refl. cbn [negb]. rewrite Hreply. cbn [lift]. rewrite bind_ret_l, Htyp,
      bind_ret_l, Hparse.
    unfold _mtIncomingDataHdlr. cbn [String.eqb Ascii.eqb Bool.eqb andb].
    rewrite bind_get, Hsub, Hcmd. fold evt.
    assert (Hcount : (0 <? listenerCount evt s1)%nat = true).
    { unfold listenerCount, permanent. rewrite Hready, Herr. subst s1. projs.
      cbn [filter on_evt l_evt l]. unfold on_evt. cbn [l_evt l].
      rewrite String.eqb_refl. reflexivity. }
    rewrite Hcount. cbn [when].
    rewrite (emit_heard evt (AResult result) l s1 eq_refl eq_refl Hready Herr).
    cbv zeta. subst l.
    rewrite run_listener_alone by (subst s1; projs; first [reflexivity|exact Hq]).
    cbn [r_val r_st r_out app]. f_equal. subst s1.
    state_eq; rewrite ?Hb, ?Hi; try reflexivity.
    unfold purged_timers. cbn [filter is_sreqTimeout is_sreqNextQueue t_kind].
    rewrite !Nat.eqb_refl. cbn [negb filter is_sreqNextQueue t_kind].
    rewrite ?Nat.eqb_refl. reflexivity. }
  rewrite (run_returns _ _ _ _ _ Hdata).
  assert (Himm : step EvImmediate
                   (set_resetting false
                      (set_timers []
                         (set_immediates [ISweep [RBacklogArray]]
                            (set_spinLock false (set_listeners [] s1))))) =
                 mkRes (inr tt) (set_resetting false (set_next_id (S txn) s)) []).
  { cbn [step]. rewrite bind_get. projs. rewrite bind_modify. cbn [run_immediate].
    rewrite sweep_nothing. f_equal. subst s1. state_eq; congruence. }
  rewrite (run_returns _ _ _ _ _ Himm). reflexivity.
Qed.

(** One request from rest to rest (lines 215-257, 280-376, 450-512).
    On an engine at rest, a valid request for a synchronous command
    that builds a frame writes that frame at once.  When the reply
    comes - a frame with a good checksum that the translator resolves
    to the same subsystem and command and parses - 'data' and the
    response event are emitted and the callback is called once, with
    the parsed result; when nothing comes for 3500 ms, the two timers
    run and the callback is called once, with 'request timeout'.
    Either way, once the sweep has run, the engine is at rest again:
    nothing of the transaction is left but the identity it used, and
    on a reply Reset State is cleared. *)
Theorem request_round_trip (s : State) (subsys cmd : ident) (valObj : jsval) (f : nat)
    (argObj : ArgObj) (payload : Payload) :
  at_rest s ->
  (truthy valObj && typeof_object valObj)%bool = true ->
  ZpiObject subsys cmd valObj = inr argObj ->
  a_type argObj = "SREQ"%string -> a_frame argObj = inr (Some payload) ->
  String.eqb (srsp_evt (a_subsys argObj) (a_cmd argObj)) "SRSP:RES0:error" = false ->
  let evt := srsp_evt (a_subsys argObj) (a_cmd argObj) in
  let txn := next_id s in
  let sent := ESend "SREQ" (a_subsys argObj) (a_cmdId argObj) payload in
  (forall data reply result,
     f_fcs data = f_csum data ->
     ZpiObject (INum (f_subsys data)) (INum (f_cmd data)) JUndefined = inr reply ->
     a_subsys reply = a_subsys argObj -> a_cmd reply = a_cmd argObj ->
     CmdType_key (f_type data) = Some "SRSP"%string ->
     parse reply "SRSP" (f_len data) (f_payload data) = inr result ->
     run [EvRequest subsys cmd valObj (JFun f); EvData data; EvImmediate] s =
       (set_resetting false (set_next_id (S txn) s),
        [sent; EEmit "data" (AFrame data); EEmit evt (AResult result);
         ECallback (Some txn) f (CbResult (AResult result))])) /\
  (forall dt, 3500 <= dt ->
     run [EvRequest subsys cmd valObj (JFun f); EvAdvance dt; EvTimer; EvTimer; EvImmediate] s =
       (set_now (now s + dt) (set_next_id (S txn) s),
        [sent; EEmit evt ATimeout; ECallback (Some txn) f (CbErr request_timeout)])) /\
  at_rest (set_resetting false (set_next_id (S txn) s)) /\
  (forall dt, at_rest (set_now (now s + dt) (set_next_id (S txn) s))).
Proof.
  intros Hrest Hval Hzpi Htype Hframe Herr evt txn sent.
  pose proof (request_from_rest s subsys cmd valObj f argObj payload Hrest Hval Hzpi Htype
                Hframe) as Hreq.
  cbv zeta in Hreq. fold evt txn sent in Hreq.
  destruct Hrest as (Hinit & Hunpi & Hlock & Hq & Hb & Hl & Ht & Hi).
  set (l := mkListener txn evt (BSrsp argObj valObj (JFun f) [RBacklogArray])) in *.
  set (s1 := set_next_id (S txn) (set_listeners [l] _)) in Hreq.
  assert (Hready : String.eqb evt "_ready" = false) by reflexivity.
  change (String.eqb evt "SRSP:RES0:error" = false) in Herr.
  split; [|split; [|split]].
  - intros data reply result Hcs Hreply Hsub Hcmd Htyp Hparse.
    exact (reply_from_rest s subsys cmd valObj f argObj payload data reply result
             (conj Hinit (conj Hunpi (conj Hlock (conj Hq (conj Hb (conj Hl (conj Ht Hi)))))))
             Hval Hzpi Htype Hframe Herr Hcs Hreply Hsub Hcmd Htyp Hparse).
  - intros dt Hdt.
    rewrite (run_returns _ _ _ _ _ Hreq).
    assert (Hmax : Z.max 0 dt = dt) by lia.
    assert (Hadv : step (EvAdvance dt) s1 = mkRes (inr tt) (set_now (now s + dt) s1) []).
    { cbn [step]. unfold modify. subst s1. projs. rewrite Hmax. reflexivity. }
    rewrite (run_returns _ _ _ _ _ Hadv).
    set (own := ownEvent txn evt argObj).
    assert (Hnext : step EvTimer (set_now (now s + dt) s1) =
                    mkRes (inr tt)
                      (set_backlog [own]
                         (set_timers [mkTimer (now s + 3500) (TSreqTimeout txn evt)]
                            (set_now (now s + dt) s1))) []).
    { cbn [step]. rewrite bind_get. subst s1. projs. cbn [earliest earliest_from t_due snd].
      assert (Hlt : (now s + 1800 <? now s + 3500) = true) by (apply Z.ltb_lt; lia).
      rewrite Hlt. cbn [t_due t_kind].
      assert (Hdue : (now s + 1800 <=? now s + dt) = true) by (apply Z.leb_le; lia).
      rewrite Hdue. cbn [when]. rewrite bind_modify. cbn [run_timer].
      unfold sreqNextQueue, _scheduleNextSend. mrun. projs. rewrite Hq. mrun.
      unfold ret. f_equal. state_eq. rewrite Hb. reflexivity. }
    rewrite (run_returns _ _ _ _ _ Hnext).
    assert (Hout : step EvTimer
                     (set_backlog [own]
                        (set_timers [mkTimer (now s + 3500) (TSreqTimeout txn evt)]
                           (set_now (now s + dt) s1))) =
                   mkRes (inr tt)
                     (set_backlog []
                        (set_timers []
                           (set_immediates [ISweep [RBacklogArray]]
                              (set_spinLock false
                                 (set_listeners [] (set_now (now s + dt) s1))))))
                     [EEmit evt ATimeout; ECallback (Some txn) f (CbErr request_timeout)]).
    { cbn [step]. rewrite bind_get. projs. cbn [earliest earliest_from t_due t_kind].
      assert (Hdue : (now s + 3500 <=? now s + dt) = true) by (apply Z.leb_le; lia).
      subst s1. projs. rewrite Hdue. cbn [when]. rewrite bind_modify. cbn [run_timer].
      unfold sreqTimeout. rewrite bind_get.
      assert (Hcount : forall s', listeners s' = [l] -> (0 <? listenerCount evt s')%nat = true).
      { intros s' Hs'. unfold listenerCount, permanent. rewrite Hready, Herr, Hs'.
        cbn [filter]. unfold on_evt. cbn [l_evt l]. rewrite String.eqb_refl. reflexivity. }
      rewrite Hcount by reflexivity. cbn [when].
      rewrite (emit_heard evt ATimeout l) by first [reflexivity|exact Hready|exact Herr].
      cbv zeta. subst l.
      rewrite run_listener_alone by (projs; first [reflexivity|exact Hq]).
      cbn [r_val r_st r_out app outcome]. f_equal.
      state_eq; rewrite ?Hi; try reflexivity.
      unfold indexOf. cbn [findIndex same_object b_id own ownEvent].
      subst own. cbn [b_id ownEvent]. rewrite Nat.eqb_refl. reflexivity. }
    rewrite (run_returns _ _ _ _ _ Hout).
    assert (Himm : step EvImmediate
                     (set_backlog []
                        (set_timers []
                           (set_immediates [ISweep [RBacklogArray]]
                              (set_spinLock false
                                 (set_listeners [] (set_now (now s + dt) s1)))))) =
                   mkRes (inr tt) (set_now (now s + dt) (set_next_id (S txn) s)) []).
    { cbn [step]. rewrite bind_get. projs. rewrite bind_modify. cbn [run_immediate].
      rewrite sweep_nothing. f_equal. subst s1. state_eq; congruence. }
    rewrite (run_returns _ _ _ _ _ Himm). reflexivity.
  - repeat split; projs; assumption.
  - intros dt. repeat split; projs; assumption.
Qed.

(* ================================================================== *)
(** ** A request queued behind another *)
(* ================================================================== *)

(** A valid request on an initialized engine whose gate is taken goes
    to the end of the queue. *)
Lemma request_enqueue (s : State) (subsys cmd : ident) (valObj cb : jsval) (argObj : ArgObj) :
  _init s = true -> valid_call valObj cb = true -> _spinLock s = true ->
  ZpiObject subsys cmd valObj = inr argObj ->
  step (EvRequest subsys cmd valObj cb) s =
    mkRes (inr tt) (set_txQueue (_txQueue s ++ [mkEntry subsys cmd valObj cb]) s) [].
Proof.
  intros Hinit Hvalid Hlock Hzpi. cbn [step].
  rewrite request_valid by assumption. rewrite Hzpi, Hlock. reflexivity.
Qed.

(** A valid synchronous request that builds a frame, on an engine
    whose gate is Idle. *)
Lemma request_dispatch (s : State) (subsys cmd : ident) (valObj cb : jsval)
    (argObj : ArgObj) (payload : Payload) :
  _init s = true -> _unpi s = true -> _spinLock s = false ->
  valid_call valObj cb = true ->
  ZpiObject subsys cmd valObj = inr argObj ->
  a_type argObj = "SREQ"%string -> a_frame argObj = inr (Some payload) ->
  let evt := srsp_evt (a_subsys argObj) (a_cmd argObj) in
  request subsys cmd valObj cb s =
    mkRes (inr tt)
      (set_next_id (S (next_id s))
         (set_listeners (listeners s ++ [mkListener (next_id s) evt
                                            (BSrsp argObj valObj cb [RBacklogArray])])
            (set_timers (timers s ++
                         [mkTimer (now s + 3500) (TSreqTimeout (next_id s) evt);
                          mkTimer (now s + 1800) (TSreqNextQueue (next_id s) evt argObj)])
               (set_spinLock true s))))
      [ESend "SREQ" (a_subsys argObj) (a_cmdId argObj) payload].
Proof.
  intros Hinit Hunpi Hlock Hvalid Hzpi Htype Hframe evt.
  rewrite request_valid by assumption. rewrite Hzpi, Hlock. unfold dispatch. rewrite Htype.
  cbn [String.eqb Ascii.eqb Bool.eqb andb].
  unfold _sendSREQ, setTimeout, once, unpi_send. mrun. rewrite Hframe. mrun. projs.
  rewrite Hunpi, <- app_assoc. reflexivity.
Qed.

(** The response listener of a transaction that holds the gate: the
    head of the queue is handed to the loop. *)
Lemma run_listener_gate (txn : nat) (evt : string) (argObj : ArgObj) (valObj : jsval)
    (f : nat) (backlog : list JsRef) (a : EvArg) (s : State) (head : Entry)
    (tail : list Entry) :
  _spinLock s = true -> _txQueue s = head :: tail ->
  run_listener (mkListener txn evt (BSrsp argObj valObj (JFun f) backlog)) a s =
    mkRes (inr tt)
      ((match a with
        | ATimeout | AError => fun s' => s'
        | _ => set_resetting false
        end)
         (set_txQueue tail
            (set_timers (purged_timers txn (timers s))
               (set_backlog
                  (match indexOf (_backlog s) (REntry (ownEvent txn evt argObj)) with
                   | Some pos => splice1 pos (_backlog s)
                   | None => _backlog s
                   end)
                  (set_immediates (immediates s ++ [ISweep backlog; ITxDeQueue head])
                     (set_spinLock false s))))))
      [ECallback (Some txn) f (outcome a)].
Proof.
  intros Hlock Hq. unfold run_listener. cbn [l_body l_id l_evt].
  unfold srsp_listener, clearTimeout, _scheduleNextSend, setImmediate, purged_timers.
  rewrite bind_get. cbv zeta. rewrite Hlock. cbn [when negb]. mrun. projs.
  destruct (indexOf (_backlog s) (REntry (ownEvent txn evt argObj))) as [pos|];
    projs; rewrite Hq; mrun;
    destruct a; unfold call, outcome; mrun; unfold tell; f_equal; state_eq;
    projs; rewrite <- app_assoc; reflexivity.
Qed.

Lemma try_catch_returns {A} (m : M A) (h : Error -> M A) (s : State) (a : A) (s' : State)
    (out : list Effect) :
  m s = mkRes (inr a) s' out -> try_catch m h s = mkRes (inr a) s' out.
Proof. intros H. unfold try_catch. rewrite H. reflexivity. Qed.

(** A request queued behind another is served (lines 232-257, 301-318,
    321-360, 417-448).  On an engine at rest, a first synchronous
    request is written at once and a second one, made while the first
    is outstanding, waits in the queue.  When the reply to the first
    comes, its listener hands the second to the loop, and once the
    loop has run it the engine is exactly where it would be had the
    second request been made after the first one settled: queueing
    changes nothing but the moment.  When no reply has come after
    1800 ms, the timer of the first request promotes the second one -
    its frame is written while the first is still outstanding - unless
    the test of lines 425-432 finds it in the backlog, in which case
    the second stays in the queue.  That test compares, with [==], the
    subsystem and the command as the second request was submitted
    with the names the translator resolved for the first: a second
    request submitted by name for the pair of the first stays queued,
    one submitted by number for the same pair is promoted. *)
Theorem queued_request_is_served (s : State)
    (subsys1 cmd1 : ident) (valObj1 : jsval) (f : nat) (argObj1 : ArgObj) (payload1 : Payload)
    (subsys2 cmd2 : ident) (valObj2 : jsval) (g : nat) (argObj2 : ArgObj) (payload2 : Payload) :
  at_rest s ->
  (truthy valObj1 && typeof_object valObj1)%bool = true ->
  ZpiObject subsys1 cmd1 valObj1 = inr argObj1 ->
  a_type argObj1 = "SREQ"%string -> a_frame argObj1 = inr (Some payload1) ->
  String.eqb (srsp_evt (a_subsys argObj1) (a_cmd argObj1)) "SRSP:RES0:error" = false ->
  (truthy valObj2 && typeof_object valObj2)%bool = true ->
  ZpiObject subsys2 cmd2 valObj2 = inr argObj2 ->
  a_type argObj2 = "SREQ"%string -> a_frame argObj2 = inr (Some payload2) ->
  let first := EvRequest subsys1 cmd1 valObj1 (JFun f) in
  let second := EvRequest subsys2 cmd2 valObj2 (JFun g) in
  let evt := srsp_evt (a_subsys argObj1) (a_cmd argObj1) in
  let txn := next_id s in
  let sent1 := ESend "SREQ" (a_subsys argObj1) (a_cmdId argObj1) payload1 in
  let sent2 := ESend "SREQ" (a_subsys argObj2) (a_cmdId argObj2) payload2 in
  let entry := mkEntry subsys2 cmd2 valObj2 (JFun g) in
  (forall data reply result,
     f_fcs data = f_csum data ->
     ZpiObject (INum (f_subsys data)) (INum (f_cmd data)) JUndefined = inr reply ->
     a_subsys reply = a_subsys argObj1 -> a_cmd reply = a_cmd argObj1 ->
     CmdType_key (f_type data) = Some "SRSP"%string ->
     parse reply "SRSP" (f_len data) (f_payload data) = inr result ->
     run [first; second; EvData data; EvImmediate; EvImmediate] s =
       run [first; EvData data; EvImmediate; second] s /\
     snd (run [first; second; EvData data; EvImmediate; EvImmediate] s) =
       [sent1; EEmit "data" (AFrame data); EEmit evt (AResult result);
        ECallback (Some txn) f (CbResult (AResult result)); sent2]) /\
  (forall dt, 1800 <= dt ->
     let r := run [first; second; EvAdvance dt; EvTimer; EvImmediate] s in
     if not_in_backlog [ownEvent txn evt argObj1] entry
     then snd r = [sent1; sent2] /\ _txQueue (fst r) = [] /\
          map l_id (listeners (fst r)) = [txn; S txn] /\ _spinLock (fst r) = true
     else snd r = [sent1] /\ _txQueue (fst r) = [entry] /\
          map l_id (listeners (fst r)) = [txn] /\ _spinLock (fst r) = true).
Proof.
  intros Hrest Hval1 Hzpi1 Htype1 Hframe1 Herr Hval2 Hzpi2 Htype2 Hframe2
    first second evt txn sent1 sent2 entry.
  pose proof (request_from_rest s subsys1 cmd1 valObj1 f argObj1 payload1 Hrest Hval1 Hzpi1
                Htype1 Hframe1) as Hreq.
  cbv zeta in Hreq. fold evt txn sent1 first in Hreq.
  pose proof Hrest as (Hinit & Hunpi & Hlock & Hq & Hb & Hl & Ht & Hi).
  set (l := mkListener txn evt (BSrsp argObj1 valObj1 (JFun f) [RBacklogArray])) in *.
  set (s1 := set_next_id (S txn) (set_listeners [l] _)) in Hreq.
  assert (Hready : String.eqb evt "_ready" = false) by reflexivity.
  change (String.eqb evt "SRSP:RES0:error" = false) in Herr.
  assert (Hvalid2 : valid_call valObj2 (JFun g) = true).
  { unfold valid_call. rewrite Hval2. reflexivity. }
  assert (Hwait : step second s1 = mkRes (inr tt) (set_txQueue [entry] s1) []).
  { subst second. rewrite (request_enqueue s1 subsys2 cmd2 valObj2 (JFun g) argObj2);
      try assumption; try (subst s1; projs; first [assumption|reflexivity]).
    subst s1. projs. rewrite Hq. reflexivity. }
  assert (Hcount : forall s', listeners s' = [l] -> (0 <? listenerCount evt s')%nat = true).
  { intros s' Hs'. unfold listenerCount, permanent. rewrite Hready, Herr, Hs'.
    cbn [filter]. unfold on_evt. cbn [l_evt l]. rewrite String.eqb_refl. reflexivity. }
  split.
  - intros data reply result Hcs Hreply Hsub Hcmd Htyp Hparse.
    pose proof (reply_from_rest s subsys1 cmd1 valObj1 f argObj1 payload1 data reply result
                  Hrest Hval1 Hzpi1 Htype1 Hframe1 Herr Hcs Hreply Hsub Hcmd Htyp Hparse)
      as Hround.
    cbv zeta in Hround. fold evt txn sent1 first in Hround.
    set (rested := set_resetting false (set_next_id (S txn) s)) in *.
    assert (Hlater : step second rested =
                     mkRes (inr tt)
                       (r_st (request subsys2 cmd2 valObj2 (JFun g) rested)) [sent2]).
    { subst second. cbn [step].
      rewrite (request_dispatch rested subsys2 cmd2 valObj2 (JFun g) argObj2 payload2);
        try assumption; try (subst rested; projs; assumption).
      reflexivity. }
    assert (Hright : run [first; EvData data; EvImmediate; second] s =
                     (r_st (request subsys2 cmd2 valObj2 (JFun g) rested),
                      [sent1; EEmit "data" (AFrame data); EEmit evt (AResult result);
                       ECallback (Some txn) f (CbResult (AResult result)); sent2])).
    { change [first; EvData data; EvImmediate; second]
        with ([first; EvData data; EvImmediate] ++ [second]).
      rewrite run_app, Hround. cbn [fst snd].
      rewrite (run_returns _ _ _ _ _ Hlater). reflexivity. }
    assert (Hleft : run [first; second; EvData data; EvImmediate; EvImmediate] s =
                    (r_st (request subsys2 cmd2 valObj2 (JFun g) rested),
                     [sent1; EEmit "data" (AFrame data); EEmit evt (AResult result);
                      ECallback (Some txn) f (CbResult (AResult result)); sent2])).
    { rewrite (run_returns _ _ _ _ _ Hreq), (run_returns _ _ _ _ _ Hwait).
      assert (Hdata : step (EvData data) (set_txQueue [entry] s1) =
                      mkRes (inr tt)
                        (set_immediates [ISweep [RBacklogArray]; ITxDeQueue entry] rested)
                        [EEmit "data" (AFrame data); EEmit evt (AResult result);
                         ECallback (Some txn) f (CbResult (AResult result))]).
      { cbn [step]. unfold _parseMtIncomingData.
        unfold bind at 1. rewrite emit_unheard; [|reflexivity|reflexivity|reflexivity].
        cbn [r_val r_st r_out]. unfold try_catch.
        rewrite Hcs, Z.eqb_refl. cbn [negb]. rewrite Hreply. cbn [lift].
        rewrite bind_ret_l, Htyp, bind_ret_l, Hparse.
        unfold _mtIncomingDataHdlr. cbn [String.eqb Ascii.eqb Bool.eqb andb].
        rewrite bind_get, Hsub, Hcmd. fold evt.
        rewrite Hcount by reflexivity. cbn [when].
        rewrite (emit_heard evt (AResult result) l) by first [reflexivity|assumption].
        cbv zeta. subst l.
        rewrite (run_listener_gate _ _ _ _ _ _ _ _ entry [])
          by (subst s1; projs; reflexivity).
        cbn [r_val r_st r_out app]. f_equal. subst s1 rested.
        state_eq; rewrite ?Hb, ?Hi, ?Hl, ?Hlock, ?Hq; try reflexivity.
        unfold purged_timers. cbn [filter is_sreqTimeout is_sreqNextQueue t_kind].
        rewrite !Nat.eqb_refl. cbn [negb filter is_sreqNextQueue t_kind].
        rewrite ?Nat.eqb_refl, ?Ht. reflexivity. }
      rewrite (run_returns _ _ _ _ _ Hdata).
      assert (Hsweep : step EvImmediate
                         (set_immediates [ISweep [RBacklogArray]; ITxDeQueue entry] rested) =
                       mkRes (inr tt) (set_immediates [ITxDeQueue entry] rested) []).
      { cbn [step]. rewrite bind_get. projs. rewrite bind_modify. cbn [run_immediate].
        rewrite sweep_nothing. f_equal. }
      rewrite (run_returns _ _ _ _ _ Hsweep).
      assert (Hserve : step EvImmediate (set_immediates [ITxDeQueue entry] rested) =
                       mkRes (inr tt)
                         (r_st (request subsys2 cmd2 valObj2 (JFun g) rested)) [sent2]).
      { cbn [step]. rewrite bind_get. projs. rewrite bind_modify. cbn [run_immediate].
        unfold entry_fn. subst entry. cbn [e_subsys e_cmd e_valObj e_callback].
        assert (Hsame : set_immediates [] (set_immediates [ITxDeQueue
                          (mkEntry subsys2 cmd2 valObj2 (JFun g))] rested) = rested).
        { subst rested. state_eq. rewrite Hi. reflexivity. }
        rewrite Hsame. apply try_catch_returns.
        rewrite (request_dispatch rested subsys2 cmd2 valObj2 (JFun g) argObj2 payload2);
          try assumption; try (subst rested; projs; assumption).
        reflexivity. }
      rewrite (run_returns _ _ _ _ _ Hserve). reflexivity. }
    rewrite Hleft, Hright. split; reflexivity.
  - intros dt Hdt.
    cbv zeta.
    rewrite (run_returns _ _ _ _ _ Hreq), (run_returns _ _ _ _ _ Hwait).
    assert (Hmax : Z.max 0 dt = dt) by lia.
    assert (Hadv : step (EvAdvance dt) (set_txQueue [entry] s1) =
                   mkRes (inr tt) (set_now (now s + dt) (set_txQueue [entry] s1)) []).
    { cbn [step]. unfold modify. subst s1. projs. rewrite Hmax. reflexivity. }
    rewrite (run_returns _ _ _ _ _ Hadv).
    set (own := ownEvent txn evt argObj1).
    set (s2 := set_now (now s + dt) (set_txQueue [entry] s1)).
    assert (Hfind : findIndex (not_in_backlog [own]) [entry] =
                    if not_in_backlog [own] entry then Some 0%nat else None).
    { cbn [findIndex]. destruct (not_in_backlog [own] entry); reflexivity. }
    assert (Hnext : step EvTimer s2 =
                    mkRes (inr tt)
                      (if not_in_backlog [own] entry
                       then set_spinLock false
                              (set_immediates [ITxDeQueue entry]
                                 (set_txQueue []
                                    (set_backlog [own]
                                       (set_timers
                                          [mkTimer (now s + 3500) (TSreqTimeout txn evt)]
                                          s2))))
                       else set_backlog [own]
                              (set_timers [mkTimer (now s + 3500) (TSreqTimeout txn evt)] s2))
                      []).
    { cbn [step]. rewrite bind_get. subst s2 s1. projs.
      cbn [earliest earliest_from t_due snd].
      assert (Hlt : (now s + 1800 <? now s + 3500) = true) by (apply Z.ltb_lt; lia).
      rewrite Hlt. cbn [t_due t_kind].
      assert (Hdue : (now s + 1800 <=? now s + dt) = true) by (apply Z.leb_le; lia).
      rewrite Hdue. cbn [when]. rewrite bind_modify. cbn [run_timer].
      unfold sreqNextQueue, _scheduleNextSend, setImmediate. mrun. projs.
      rewrite Hb. cbn [app]. fold own. rewrite Hfind.
      destruct (not_in_backlog [own] entry); mrun; unfold ret, modify; f_equal; state_eq;
        rewrite ?Hi; reflexivity. }
    rewrite (run_returns _ _ _ _ _ Hnext).
    destruct (not_in_backlog [own] entry).
    + set (s3 := set_spinLock false _).
      assert (Hserve : step EvImmediate s3 =
                       mkRes (inr tt)
                         (r_st (request subsys2 cmd2 valObj2 (JFun g)
                                  (set_immediates [] s3))) [sent2]).
      { cbn [step]. rewrite bind_get. subst s3. projs. rewrite bind_modify.
        cbn [run_immediate]. unfold entry_fn. subst entry.
        cbn [e_subsys e_cmd e_valObj e_callback]. apply try_catch_returns.
        rewrite (request_dispatch _ subsys2 cmd2 valObj2 (JFun g) argObj2 payload2);
          try assumption; try (subst s2 s1; projs; first [assumption|reflexivity]). }
      rewrite (run_returns _ _ _ _ _ Hserve). cbn [run fst snd app].
      rewrite (request_dispatch _ subsys2 cmd2 valObj2 (JFun g) argObj2 payload2);
        try assumption; try (subst s3 s2 s1; projs; first [assumption|reflexivity]).
      cbn [r_st]. subst s3 s2 s1. projs. repeat split.
    + set (s3 := set_backlog [own] _).
      assert (Hidle : step EvImmediate s3 = mkRes (inr tt) s3 []).
      { cbn [step]. rewrite bind_get. subst s3 s2 s1. projs. rewrite Hi. reflexivity. }
      rewrite (run_returns _ _ _ _ _ Hidle). cbn [run fst snd app].
      subst s3 s2 s1. projs. repeat split.
Qed.

(* ================================================================== *)
(** ** Nothing but a request moves a stalled queue *)
(* ================================================================== *)

Lemma emitted_app (evt : string) (o1 o2 : list Effect) :
  emitted evt (o1 ++ o2) = (emitted evt o1 || emitted evt o2)%bool.
Proof. unfold emitted. apply existsb_app. Qed.

#[local] Instance strands_compositional : Compositional strands.
Proof.
  split; unfold strands.
  - intros s H. split; [exact H|]. split; [left; reflexivity|reflexivity].
  - intros s1 s2 s3 o1 o2 H1 H2 Hs. destruct (H1 Hs) as (Hs2 & Hq1 & Ho1).
    destruct (H2 Hs2) as (Hs3 & Hq2 & Ho2). split; [exact Hs3|].
    split; [|rewrite sends_app; lia].
    rewrite emitted_app.
    destruct Hq2 as [Hq2|[Hq2 He2]].
    + rewrite Hq2. destruct Hq1 as [Hq1|[Hq1 He1]]; [left; exact Hq1|right].
      split; [exact Hq1|]. rewrite He1. reflexivity.
    + right. split; [exact Hq2|]. rewrite He2. apply orb_true_r.
Qed.

Lemma obeys_strands_assume {A} (m : M A) (s : State) :
  (stalled s -> obeys_at strands m s) -> obeys_at strands m s.
Proof. unfold obeys_at, strands. intros H Hs. exact (H Hs Hs). Qed.

Lemma same_strands (s s' : State) (out : list Effect) :
  listeners s' = listeners s -> immediates s' = immediates s -> timers s' = timers s ->
  _txQueue s' = _txQueue s -> sends out = 0%nat -> strands s s' out.
Proof.
  unfold strands, stalled. intros H1 H2 H3 H4 H5 Hs. rewrite H1, H2, H3, H4.
  split; [exact Hs|]. split; [left; reflexivity|exact H5].
Qed.

Ltac strand_leaf :=
  first
    [ solve [apply comp_refl]
    | try match goal with |- context [_sp ?s] => destruct (_sp s) end;
      apply same_strands; projs; reflexivity ].

Create HintDb strands discriminated.

Ltac strand_tac := obey_with ltac:(auto with strands) strand_leaf.

Lemma call_strands by_l cb a s : obeys_at strands (call by_l cb a) s.
Proof. unfold call. destruct cb; strand_tac. Qed.

#[local] Hint Resolve call_strands : strands.

Lemma removeListener_strands id s : obeys_at strands (removeListener id) s.
Proof.
  unfold removeListener. apply obeys_at_modify. unfold strands, stalled. projs.
  intros (Hl & Hi & Ht). split; [|split; [left; reflexivity|reflexivity]].
  split; [apply Forall_filter; exact Hl|]. split; assumption.
Qed.

#[local] Hint Resolve removeListener_strands : strands.

(** The listener of the reset notification releases the gate and
    schedules nothing. *)
Lemma run_listener_strands (l : Listener) (a : EvArg) (s : State) :
  is_response l = false -> obeys_at strands (run_listener l a) s.
Proof.
  unfold is_response, run_listener. destruct (l_body l); [discriminate|]. intros _.
  unfold reset_listener. strand_tac.
Qed.

Lemma fire_strands (snapshot : list Listener) (a : EvArg) (s : State) :
  Forall (fun l => is_response l = false) snapshot ->
  obeys_at strands (fire run_listener snapshot a) s.
Proof.
  intros Hsnap. revert s. induction Hsnap as [|l rest Hl Hrest IH]; intros s; cbn [fire].
  - strand_tac.
  - pose proof (run_listener_strands l a) as Hrun. strand_tac.
Qed.

Lemma on_error_strands (em : string -> EvArg -> M unit) data s :
  (forall evt a s', obeys_at strands (em evt a) s') ->
  obeys_at strands (on_error em data) s.
Proof. intros Hem. unfold on_error. strand_tac. Qed.

Lemma tell_emit_strands (evt : string) (a : EvArg) (s : State) : strands s s [EEmit evt a].
Proof. apply same_strands; reflexivity. Qed.

Lemma emit_within_strands :
  forall stack evt a s, obeys_at strands (emit_within stack evt a) s.
Proof.
  assert (Hbody : forall stack,
            (forall evt a s, obeys_at strands (nested_emit stack evt a) s) ->
            forall evt a s, obeys_at strands (emit_within stack evt a) s).
  { intros stack Hnested evt a s. rewrite emit_within_eq.
    apply obeys_at_tell_bind; [typeclasses eauto|apply tell_emit_strands|].
    apply obeys_at_get_bind. cbv zeta.
    apply obeys_strands_assume. intros (Hl & _).
    pose proof on_error_strands as Herr.
    pose proof (fun s' => fire_strands (filter (on_evt evt) (listeners s)) a s'
                            (Forall_filter _ _ _ Hl)) as Hfire.
    strand_tac. }
  induction stack as [|stack IH]; apply Hbody.
  - intros evt a s. cbn. strand_tac.
  - exact IH.
Qed.

Lemma emit_strands (evt : string) (a : EvArg) (s : State) : obeys_at strands (emit evt a) s.
Proof. apply emit_within_strands. Qed.

#[local] Hint Resolve emit_strands : strands.

Lemma _parseMtIncomingData_strands data s : obeys_at strands (_parseMtIncomingData data) s.
Proof. unfold _parseMtIncomingData, _mtIncomingDataHdlr. strand_tac. Qed.

Lemma call_all_strands (cbs : list jsval) (arg : CbArg) (s : State) :
  obeys_at strands (call_all cbs arg) s.
Proof. revert s. induction cbs as [|cb rest IH]; intros s; cbn [call_all]; strand_tac. Qed.

#[local] Hint Resolve _parseMtIncomingData_strands call_all_strands : strands.

Lemma _close_strands cb s : obeys_at strands (_close cb) s.
Proof. unfold _close, sp_close. strand_tac. Qed.

#[local] Hint Resolve _close_strands : strands.

(** The port's 'close' empties the queue, and says so. *)
Lemma spClose_strands s : obeys_at strands spClose s.
Proof.
  unfold spClose. apply obeys_at_get_bind. destruct (_sp s); [|strand_tac].
  unfold obeys_at. rewrite !bind_modify. intros Hs.
  pose proof (emit_strands "close" ANone
                (set_init false (set_unpi false (set_sp None (set_txQueue [] s))))) as Hemit.
  destruct Hemit as (Hs' & Hq & Hsends); [exact Hs|].
  split; [exact Hs'|]. split; [|exact Hsends]. right. split.
  - destruct Hq as [Hq|[Hq _]]; exact Hq.
  - unfold emit. rewrite emit_within_eq, bind_tell. reflexivity.
Qed.

Lemma step_strands (ev : Event) (s : State) :
  bystander ev = true -> obeys_at strands (step ev) s.
Proof.
  intros Hev. apply obeys_strands_assume. intros (_ & Himm & Htimers).
  destruct ev; try discriminate Hev;
    unfold step, close, flush_done, sp_close_done, spOpen, spErr.
  - strand_tac.
  - strand_tac.
  - strand_tac.
  - strand_tac.
  - apply obeys_at_get_bind. cbv zeta.
    destruct (earliest (timers s)) as [[pos t]|] eqn:He; [|strand_tac].
    apply earliest_nth in He. unfold when. destruct (t_due t <=? now s); [|strand_tac].
    assert (Hkind : t_kind t = TResetFailsafe).
    { rewrite Forall_forall in Htimers. apply Htimers. eapply nth_error_In. exact He. }
    rewrite Hkind. cbn [run_timer]. unfold reset_failsafe.
    apply obeys_at_modify_bind; [typeclasses eauto| |strand_tac].
    unfold strands, stalled. projs. intros (Hl & Hi & Ht).
    split; [|split; [left; reflexivity|reflexivity]].
    split; [exact Hl|]. split; [exact Hi|]. apply Forall_splice1. exact Ht.
  - apply obeys_at_get_bind. rewrite Himm. strand_tac.
  - strand_tac.
  - strand_tac.
  - apply spClose_strands.
  - strand_tac.
  - strand_tac.
Qed.

Lemma run_strands (evs : list Event) (s : State) :
  forallb bystander evs = true -> strands s (fst (run evs s)) (snd (run evs s)).
Proof.
  revert s. induction evs as [|ev rest IH]; intros s Hevs.
  - apply comp_refl.
  - cbn [forallb] in Hevs. apply andb_prop in Hevs as [Hev Hrest].
    rewrite run_cons. cbn [fst snd].
    eapply comp_trans; [|apply IH; exact Hrest].
    pose proof (step_strands ev s Hev) as H. unfold obeys_at in H. unfold exec. cbn [fst snd].
    destruct (r_val (step ev s)); [|rewrite app_nil_r; exact H].
    intros Hs. destruct (H Hs) as (Hs' & Hq & Hsends). split; [exact Hs'|].
    rewrite emitted_app, sends_app, Hsends. cbn [emitted existsb sends filter List.length].
    rewrite orb_false_r. split; [exact Hq|reflexivity].
Qed.

(** Nothing but a request moves a stalled queue (lines 394-406,
    417-448).  The queue is served only by a synchronous transaction
    that settles or promotes, or by a request that finds the gate
    Idle.  So while no synchronous transaction is outstanding and
    nothing is scheduled, no event other than a call of [request] -
    the reset notification arriving, the reset fail-safe firing,
    frames, timers, the loop, [close] - writes a frame or takes an
    entry from the queue: the listener of the reset notification and
    the fail-safe release the gate and schedule nothing.  Requests
    queued while a reset was pending stay queued until [request] is
    called again or the port's 'close' empties the queue. *)
Theorem queue_waits_for_next_request (s : State) (evs : list Event) :
  stalled s -> forallb bystander evs = true ->
  let r := run evs s in
  stalled (fst r) /\
  (_txQueue (fst r) = _txQueue s \/
   (_txQueue (fst r) = [] /\ emitted "close" (snd r) = true)) /\
  sends (snd r) = 0%nat.
Proof. intros Hs Hevs. exact (run_strands evs s Hevs Hs). Qed.

(* ================================================================== *)
(** ** One port close at a time *)
(* ================================================================== *)

Lemma call_all_shut (cbs : list jsval) (arg : CbArg) (s : State) :
  obeys_at shut (call_all cbs arg) s.
Proof. revert s. induction cbs as [|cb rest IH]; intros s; cbn [call_all]; shut_tac. Qed.

(** [_close] asks the port to close exactly when it adds to the
    pending closes. *)
Lemma _close_asks cb s :
  (transport_closes (r_out (_close cb s)) + closing s)%nat = closing (r_st (_close cb s)).
Proof.
  assert (Hcall : forall by_l c a s', r_st (call by_l c a s') = s' /\
                                      transport_closes (r_out (call by_l c a s')) = 0%nat)
    by (intros; unfold call; destruct c; split; reflexivity).
  unfold _close, sp_close. rewrite bind_get.
  destruct (_sp s) as [sp|]; [|destruct (Hcall None cb CbNull s) as [-> ->]; reflexivity].
  destruct (negb (isOpen sp)); [destruct (Hcall None cb CbNull s) as [-> ->]; reflexivity|].
  cbv zeta. mrun. projs.
  destruct (closeCbs s) as [|c0 rest]; cbn [app List.length Nat.eqb].
  - cbn [when]. rewrite bind_tell. unfold modify. cbn [r_st r_out]. projs. reflexivity.
  - assert (Hlen : (List.length (rest ++ [if truthy cb then cb else JNoop]) =? 0)%nat = false)
      by (rewrite length_app; cbn; apply Nat.eqb_neq; lia).
    rewrite Hlen. unfold ret. cbn [r_st r_out]. projs. reflexivity.
Qed.

(** One event asks the port to close at most as often as it adds to
    the pending closes, a completion apart. *)
Lemma step_asks (ev : Event) (s : State) :
  (transport_closes (r_out (step ev s)) + closing s
   <= closing (r_st (step ev s)) + completes ev)%nat.
Proof.
  assert (Hshut : forall m : M unit, obeys_at shut m s ->
            (transport_closes (r_out (m s)) + closing s <= closing (r_st (m s)) + 0)%nat).
  { intros m (H1 & _ & H3). rewrite H1, H3. lia. }
  destruct ev; cbn [step completes];
    try (apply Hshut;
         unfold spOpen, spClose, close, run_timer, run_immediate, sreqTimeout, sreqNextQueue,
           reset_failsafe, entry_fn;
         solve [shut_tac]).
  - unfold flush_done. rewrite bind_get.
    destruct (flushing s) as [|cb rest]; [cbn; lia|].
    rewrite bind_modify. pose proof (_close_asks cb (set_flushing rest s)) as H.
    revert H. projs. lia.
  - rewrite bind_get. destruct (closing s) as [|n]; [cbn; lia|].
    unfold sp_close_done. rewrite bind_modify.
    rewrite bind_get. projs.
    destruct (call_all_shut (closeCbs s) arg (set_closing n s)) as (Hclosing & _ & Hnone).
    revert Hclosing. projs. intros Hclosing.
    unfold bind. destruct (r_val (call_all (closeCbs s) arg (set_closing n s)));
      cbn [r_st r_out modify]; rewrite ?app_nil_r, Hnone; projs; lia.
  - unfold spErr. rewrite bind_get.
    destruct (_sp s) as [sp|]; [|cbn; lia].
    unfold when. destruct (isOpen sp && negb (_errClosing sp))%bool; [|cbn; lia].
    rewrite bind_modify.
    pose proof (_close_asks JUndefined (set_sp (Some (mkPort (isOpen sp) true)) s)) as H.
    revert H. projs. lia.
Qed.

Lemma run_asks (evs : list Event) (s : State) :
  (transport_closes (snd (run evs s)) + closing s
   <= closing (fst (run evs s)) + list_sum (map completes evs))%nat.
Proof.
  revert s. induction evs as [|ev rest IH]; intros s.
  - cbn. lia.
  - rewrite run_cons. cbn [fst snd map]. rewrite list_sum_cons, transport_closes_app.
    specialize (IH (fst (exec ev s))). pose proof (step_asks ev s) as Hstep.
    unfold exec in *. cbn [fst snd] in *. rewrite transport_closes_app.
    destruct (r_val (step ev s)); cbn [transport_closes filter List.length]; lia.
Qed.

(** One port close at a time (lines 87-102, 109-115, 203-213).
    Whatever happens to a new engine - [close] calls, port errors,
    flushes reported, requests, frames, timers - at most one close of
    the port is under way at any time, and none when no callback waits
    for one: the port is asked to close at most once more than it has
    called back from a close. *)
Theorem port_closes_one_at_a_time (evs : list Event) :
  let r := run evs new_CcZnp in
  (closing (fst r) <= 1)%nat /\
  (closeCbs (fst r) = [] -> closing (fst r) = 0%nat) /\
  (transport_closes (snd r) <= list_sum (map completes evs) + 1)%nat.
Proof.
  cbv zeta.
  assert (Hok : close_ok (fst (run evs new_CcZnp)))
    by (apply reachable_close_ok; exists evs; reflexivity).
  destruct Hok as [Hone Hnone]. split; [exact Hone|]. split; [exact Hnone|].
  pose proof (run_asks evs new_CcZnp) as H. lia.
Qed.

End Engine.

(* ================================================================== *)
(** ** The engine on the sample translator *)
(* ================================================================== *)

Notation "'sample_request'" := (request Sample.ZpiObject Sample.ToNumber).
Notation "'sample_entry_fn'" := (entry_fn Sample.ZpiObject Sample.ToNumber).
Notation "'sample_parseMtIncomingData'" :=
  (_parseMtIncomingData Sample.ZpiObject Sample.CmdType_key Sample.parse Sample.ToNumber
     Sample.max_stack).
Notation "'sample_run'" :=
  (run Sample.ZpiObject Sample.CmdType_key Sample.parse Sample.ToNumber Sample.max_stack).

Lemma ready_is_reached : Sample.ready = fst (sample_run [EvInitOpen] new_CcZnp).
Proof. reflexivity. Qed.

(** C7 at a ping on a ready engine: the frame leaves within the call
    and the gate stays Busy. *)
Lemma request_admission_ping :
  let r := sample_request (IStr "SYS") (IStr "ping") (JObj []) (JFun 1%nat) Sample.ready in
  r_val r = inr tt /\
  r_out r = [ESend "SREQ" "SYS" 1 []] /\
  _spinLock (r_st r) = true /\
  _txQueue (r_st r) = [].
Proof.
  refine (proj2 (proj2 (request_admission Sample.ZpiObject Sample.ToNumber Sample.ready
            (IStr "SYS") (IStr "ping") (JObj []) (JFun 1%nat)
            (mkArgObj "SREQ" "SYS" "ping" 1 (inr (Some []))) _ _ _)) _ _ _ [] _);
    reflexivity.
Defined.

(** C5 fails as stated: a command the translator cannot resolve makes
    [request] throw to its caller although the engine is initialized
    and the arguments are valid; the callback is not called. *)
Lemma unresolved_command_is_thrown :
  let r := sample_request (IStr "SYS") (IStr "nosuch") (JObj []) (JFun 1%nat) Sample.ready in
  _init Sample.ready = true /\
  valid_call (JObj []) (JFun 1%nat) = true /\
  r_val r = inl Sample.unrecognized_command /\
  r_out r = [].
Proof. repeat split. Qed.

(** C5 as amended, on the ready engine: a command the sample
    translator does not know, a command with no request parameters,
    and a command whose wire type is neither SREQ nor AREQ. *)
Lemma translator_failures_resetInd :
  sample_request (IStr "SYS") (IStr "nosuch") (JObj []) (JFun 1%nat) Sample.ready =
    mkRes (inl Sample.unrecognized_command) Sample.ready [] /\
  sample_request (IStr "SYS") (IStr "resetInd") (JObj []) (JFun 1%nat) Sample.ready =
    mkRes (inr tt) (set_spinLock true Sample.ready)
      [ECallback None 1%nat (CbErr fail_to_build)] /\
  sample_request (IStr "RES0") (IStr "error") (JObj []) (JFun 1%nat) Sample.ready =
    mkRes (inr tt) (set_spinLock true Sample.ready) [].
Proof.
  pose proof (translator_failures Sample.ZpiObject Sample.ToNumber Sample.ready
                (IStr "SYS") (IStr "nosuch") (JObj []) (JFun 1%nat) eq_refl eq_refl)
    as [H1 _].
  pose proof (translator_failures Sample.ZpiObject Sample.ToNumber Sample.ready
                (IStr "SYS") (IStr "resetInd") (JObj []) (JFun 1%nat) eq_refl eq_refl)
    as [_ [H2 _]].
  pose proof (translator_failures Sample.ZpiObject Sample.ToNumber Sample.ready
                (IStr "RES0") (IStr "error") (JObj []) (JFun 1%nat) eq_refl eq_refl)
    as [_ [H3 _]].
  split; [|split].
  - refine (proj1 (H1 _ _)). reflexivity.
  - specialize (H2 (mkArgObj "AREQ" "SYS" "resetInd" 128 (inr None)) eq_refl).
    destruct H2 as [_ H2]. specialize (H2 eq_refl). destruct H2 as [_ H2].
    specialize (H2 (or_intror eq_refl)). destruct H2 as [_ H2].
    specialize (H2 eq_refl). destruct H2 as (_ & _ & H2).
    exact (proj1 (H2 1%nat eq_refl)).
  - specialize (H3 (mkArgObj "SRSP" "RES0" "error" 0 (inr None)) eq_refl).
    destruct H3 as [_ H3]. specialize (H3 eq_refl). destruct H3 as [H3 _].
    refine (proj1 (H3 _ _)); discriminate.
Defined.

(** C10 fails as stated: a request made without a callback while a
    synchronous request is outstanding is queued; the reply hands its
    entry to the loop, the port closes, and the retry closure then
    throws a TypeError to the loop instead of delivering the error of
    line 221. *)
Lemma retry_without_callback_throws :
  let queued := mkEntry (IStr "ZDO") (IStr "bind") (JObj []) JUndefined in
  let before :=
    sample_run [Sample.nvWrite 1; EvRequest (IStr "ZDO") (IStr "bind") (JObj []) JUndefined]
      Sample.ready in
  let handed := sample_run [Sample.nvWrite_reply; EvSpClose; EvImmediate] (fst before) in
  let retried := sample_run [EvImmediate] (fst handed) in
  _txQueue (fst before) = [queued] /\
  immediates (fst handed) = [ITxDeQueue queued] /\
  _init (fst handed) = false /\
  r_val (sample_request (IStr "ZDO") (IStr "bind") (JObj []) JUndefined (fst handed)) =
    inl not_initialized /\
  sample_entry_fn queued (fst handed) =
    mkRes (inl (mkError KTypeError "callback is not a function")) (fst handed) [] /\
  snd retried = [EThrown (mkError KTypeError "callback is not a function")].
Proof. vm_compute. repeat split. Qed.

(** C10 as amended, on an engine that is not initialized. *)
Lemma retry_closure_catches_uninitialized :
  sample_entry_fn (mkEntry (IStr "SYS") (IStr "ping") (JObj []) (JFun 7%nat)) new_CcZnp =
    mkRes (inr tt) new_CcZnp [ECallback None 7%nat (CbErr not_initialized)].
Proof.
  pose proof (retry_closure_catches Sample.ZpiObject Sample.ToNumber new_CcZnp
                (mkEntry (IStr "SYS") (IStr "ping") (JObj []) (JFun 7%nat))) as H.
  cbv zeta in H. destruct H as (_ & _ & H & _).
  exact (proj2 (proj2 (H 7%nat eq_refl)) eq_refl).
Defined.

(** C4 fails as stated: the frame with a bad checksum is emitted as a
    'data' event. *)
Lemma bad_checksum_is_emitted :
  let data := mkFrame 254 0 3 1 1 [] 17 18 in
  f_fcs data <> f_csum data /\
  r_out (sample_parseMtIncomingData data Sample.ready) = [EEmit "data" (AFrame data)].
Proof. split; [discriminate | reflexivity]. Qed.

(** C4 as amended, at that frame. *)
Lemma checksum_mismatch_only_data_ready :
  let data := mkFrame 254 0 3 1 1 [] 17 18 in
  sample_parseMtIncomingData data Sample.ready =
    mkRes (inr tt) Sample.ready [EEmit "data" (AFrame data)].
Proof.
  intros data.
  apply (checksum_mismatch_only_data Sample.ZpiObject Sample.CmdType_key Sample.parse
           Sample.ToNumber Sample.max_stack [EvInitOpen] data).
  discriminate.
Defined.

(** C2 fails as stated: after [colliding_run] two synchronous
    transactions are outstanding on the pair (ZDO, bind). *)
Lemma colliding_pairs_outstanding :
  outstanding (fst (sample_run Sample.colliding_run Sample.ready)) =
    [("ZDO", "bind"); ("ZDO", "bind")]%string /\
  ~ NoDup (outstanding (fst (sample_run Sample.colliding_run Sample.ready))).
Proof.
  split; [reflexivity|].
  change (outstanding (fst (sample_run Sample.colliding_run Sample.ready)))
    with [("ZDO", "bind"); ("ZDO", "bind")]%string.
  intros H. inversion H as [|x l Hnotin _]; subst. apply Hnotin. left; reflexivity.
Qed.

(** C3 on [promoted_run]: the bind transaction started (at 1800 ms)
    with the nvWrite entry in the backlog and settled (at 1900 ms)
    with that entry still there, so the claim has the sweep resolve
    the nvWrite with a timeout and remove its entry.  The sweep the
    engine scheduled holds the array [new Array(self._backlog)]; when
    it runs, nothing is emitted, no callback is called, the nvWrite
    listener stays registered and the entry stays in the backlog. *)
Theorem stale_backlog_entry_survives_sweep :
  let entry := mkBacklogEntry 0 "SRSP:SYS:nvWrite" "SYS" "nvWrite" in
  let started := fst (sample_run (firstn 5 Sample.promoted_run) Sample.ready) in
  let settled := fst (sample_run Sample.promoted_run Sample.ready) in
  let swept := sample_run [EvImmediate] settled in
  _backlog started = [entry] /\
  outstanding started = [("SYS", "nvWrite"); ("ZDO", "bind")]%string /\
  _backlog settled = [entry] /\
  outstanding settled = [("SYS", "nvWrite")]%string /\
  immediates settled = [ISweep (new_Array RBacklogArray)] /\
  snd swept = [] /\
  _backlog (fst swept) = [entry] /\
  registered 0 (fst swept) = true /\
  immediates (fst swept) = [].
Proof. repeat split. Qed.

(** C9: whatever the state and the transaction, the response listener
    called with anything but the timeout or the error marker leaves
    [_resetting] false.  On [reset_run] a reset is pending, with
    [_resetting] set and its listener waiting for the notification;
    the reply to the unrelated nvWrite clears the flag while that
    listener is still waiting. *)
Theorem success_clears_reset_state :
  (forall ToNumber txn evt argObj valObj cb bl result s,
     result <> ATimeout -> result <> AError ->
     _resetting (r_st (srsp_listener ToNumber txn evt argObj valObj cb bl result s)) = false) /\
  (let pending := fst (sample_run Sample.reset_run Sample.ready) in
   let replied := sample_run [EvAdvance 200; Sample.nvWrite_reply] pending in
   _resetting pending = true /\
   map l_body (filter (on_evt "AREQ:SYS:RESET") (listeners pending)) = [BReset (JFun 2%nat)] /\
   snd replied =
     [EEmit "data" (AFrame (Sample.frame_of 3 1 9 [0]));
      EEmit "SRSP:SYS:nvWrite" (AResult [("status", 0)]%string);
      ECallback (Some 0%nat) 1%nat (CbResult (AResult [("status", 0)]%string))] /\
   _resetting (fst replied) = false /\
   map l_body (filter (on_evt "AREQ:SYS:RESET") (listeners (fst replied))) =
     [BReset (JFun 2%nat)]).
Proof.
  split.
  - intros. apply srsp_listener_success_resets; assumption.
  - repeat split.
Qed.

Notation "'sample_close_calls_coalesced'" :=
  (close_calls_coalesced Sample.ZpiObject Sample.CmdType_key Sample.parse Sample.ToNumber
     Sample.max_stack).

(** C8 fails as stated.  A second [close] made while the first is
    completing, on a port that reports closed by the time the second
    flush is done, has its callback called at once (line 89) and not
    on the completion.  On a port that still reports open, a second
    [close] whose flush is done only after the port reported the close
    complete has the port asked to close a second time.  And a
    callback that throws on the completion keeps the callbacks after
    it from being called. *)
Lemma close_during_close_not_coalesced :
  (let calls :=
     sample_run [EvClose (JFun 1%nat); EvFlushDone; EvPortIsOpen false;
                 EvClose (JFun 2%nat); EvFlushDone] Sample.ready in
   let completion := sample_run [EvSpCloseDone CbNull] (fst calls) in
   open_and_idle Sample.ready /\
   transport_closes (snd calls) = 1%nat /\
   callbacks (snd calls) = [(2%nat, CbNull)] /\
   flushing (fst calls) = [] /\
   callbacks (snd completion) = [(1%nat, CbNull)]) /\
  (let late :=
     sample_run [EvClose (JFun 1%nat); EvFlushDone; EvClose (JFun 2%nat);
                 EvSpCloseDone CbNull; EvFlushDone; EvSpCloseDone CbNull] Sample.ready in
   transport_closes (snd late) = 2%nat) /\
  (let thrown :=
     sample_run [EvClose (JFun 1%nat); EvClose (JThrows 2%nat (mkError KError "boom"));
                 EvClose (JFun 3%nat); EvFlushDone; EvFlushDone; EvFlushDone;
                 EvSpCloseDone CbNull] Sample.ready in
   transport_closes (snd thrown) = 1%nat /\
   callbacks (snd thrown) = [(1%nat, CbNull)] /\
   closeCbs (fst thrown) <> []).
Proof.
  split; [|split].
  - repeat split. exists false. reflexivity.
  - reflexivity.
  - repeat split. discriminate.
Qed.

(** C8 at three [close] calls, the third made after the first flush
    was reported done. *)
Lemma close_calls_coalesced_three :
  let evs := [EvClose (JFun 1%nat); EvClose (JFun 2%nat); EvFlushDone; EvClose (JFun 3%nat)] in
  let calls := sample_run evs Sample.ready in
  let completion :=
    sample_run
      (repeat EvFlushDone (List.length (flushing (fst calls))) ++ [EvSpCloseDone CbNull])
      (fst calls) in
  transport_closes (snd calls ++ snd completion) = 1%nat /\
  callbacks (snd calls) = [] /\
  callbacks (snd completion) = map (fun f => (f, CbNull)) (closers evs) /\
  closeCbs (fst completion) = [] /\
  flushing (fst completion) = [].
Proof.
  intros evs. apply sample_close_calls_coalesced.
  - repeat split. exists false. reflexivity.
  - repeat constructor.
  - discriminate.
Defined.


Notation "'sample_step'" :=
  (step Sample.ZpiObject Sample.CmdType_key Sample.parse Sample.ToNumber Sample.max_stack).
Notation "'sample_sendAREQ'" := (_sendAREQ Sample.ToNumber).
Notation "'sample_mtIncomingDataHdlr'" :=
  (_mtIncomingDataHdlr Sample.ZpiObject Sample.ToNumber Sample.max_stack).

Ltac not_passed :=
  repeat (first [apply Forall_nil | apply Forall_cons]);
  cbv; intros H; first [contradiction | discriminate].

Ltac all_free :=
  unfold free; repeat split; vm_compute;
  repeat (first [apply Forall_nil | apply Forall_cons]);
  first [exact I | discriminate].

(** A function nobody handed in is not called in a run with two
    colliding binds. *)
Lemma only_given_callbacks_are_called_colliding :
  silent 9 (snd (sample_run (EvInitOpen :: Sample.colliding_run) new_CcZnp)) /\
  free 9 (fst (sample_run (EvInitOpen :: Sample.colliding_run) new_CcZnp)).
Proof.
  apply (only_given_callbacks_are_called Sample.ZpiObject Sample.CmdType_key Sample.parse
           Sample.ToNumber Sample.max_stack 9%nat (EvInitOpen :: Sample.colliding_run)
           new_CcZnp).
  - all_free.
  - not_passed.
Defined.

(** A reset issued with a bind waiting in the queue: the bind is
    dropped and its callback is not called in what follows, up to the
    late reply of the nvWrite that was pending. *)
Lemma reset_discards_queue_bind :
  let s := fst (sample_run [EvInitOpen; Sample.nvWrite 1; Sample.zdo_bind 5] new_CcZnp) in
  let r := sample_sendAREQ (mkArgObj "AREQ" "SYS" "resetReq" 0 (inr (Some []))) (JFun 2) s in
  map e_callback (_txQueue s) = [JFun 5] /\
  _txQueue (r_st r) = [] /\
  silent 5 (snd (sample_run [EvAdvance 1800; EvTimer; EvImmediate; EvAdvance 200;
                             Sample.nvWrite_reply; EvImmediate; EvAdvance 30000; EvTimer]
                   (r_st r))).
Proof.
  cbv zeta.
  pose proof (reset_discards_queue Sample.ZpiObject Sample.CmdType_key Sample.parse
                Sample.ToNumber Sample.max_stack
                (mkArgObj "AREQ" "SYS" "resetReq" 0 (inr (Some []))) (JFun 2) []
                (fst (sample_run [EvInitOpen; Sample.nvWrite 1; Sample.zdo_bind 5] new_CcZnp))
                eq_refl eq_refl) as H.
  cbv zeta in H. destruct H as (Hq & _ & _ & _ & _ & _ & Hsilent).
  split; [vm_compute; reflexivity|]. split; [exact Hq|].
  apply Hsilent.
  - all_free.
  - discriminate.
  - not_passed.
Defined.

(** The port closes with a bind waiting in the queue. *)
Lemma port_close_discards_queue_bind :
  let s := fst (sample_run [EvInitOpen; Sample.nvWrite 1; Sample.zdo_bind 5] new_CcZnp) in
  let s' := set_init false (set_unpi false (set_sp None (set_txQueue [] s))) in
  sample_step EvSpClose s = mkRes (inr tt) s' [EEmit "close" ANone] /\
  silent 5 (snd (sample_run [EvAdvance 3500; EvTimer; EvTimer; EvImmediate; EvInitOpen] s')).
Proof.
  cbv zeta.
  assert (Hreach : reachable Sample.ZpiObject Sample.CmdType_key Sample.parse
                     Sample.ToNumber Sample.max_stack
                     (fst (sample_run [EvInitOpen; Sample.nvWrite 1; Sample.zdo_bind 5]
                             new_CcZnp)))
    by (eexists; reflexivity).
  assert (Hsp : _sp (fst (sample_run [EvInitOpen; Sample.nvWrite 1; Sample.zdo_bind 5]
                           new_CcZnp)) = Some (mkPort true false))
    by (vm_compute; reflexivity).
  pose proof (port_close_discards_queue Sample.ZpiObject Sample.CmdType_key Sample.parse
                Sample.ToNumber Sample.max_stack (mkPort true false) _ Hreach Hsp) as H.
  cbv zeta in H. destruct H as (Hstep & _ & Hsilent).
  split; [exact Hstep|]. apply Hsilent.
  - all_free.
  - not_passed.
Defined.

(** A reset whose notification never comes: through the late reply of
    the nvWrite, a ping and the fail-safe, its listener stays and its
    callback is not called. *)
Lemma listener_waits_for_its_event_reset :
  let l := mkListener 1 "AREQ:SYS:RESET" (BReset (JFun 2)) in
  let s := fst (sample_run (EvInitOpen :: Sample.reset_run) new_CcZnp) in
  let later := sample_run (Sample.reset_aftermath ++ [EvTimer]) s in
  In l (listeners (fst later)) /\ fired 1 (snd later) = 0%nat.
Proof.
  cbv zeta.
  pose proof (listener_waits_for_its_event Sample.ZpiObject Sample.CmdType_key Sample.parse
                Sample.ToNumber Sample.max_stack
                (EvInitOpen :: Sample.reset_run) (Sample.reset_aftermath ++ [EvTimer])
                (mkListener 1 "AREQ:SYS:RESET" (BReset (JFun 2)))) as H.
  destruct H as (Hin & Hfired & _).
  - vm_compute. right. left. reflexivity.
  - vm_compute. reflexivity.
  - split; [exact Hin|exact Hfired].
Defined.


(** A resetInd handed to [request]: the command is resolved but has no
    frame; pings, the clock, the port closing and opening again do not
    give the gate back. *)
Lemma failed_dispatch_wedges_gate_resetInd :
  let evs := [Sample.ping 3; EvAdvance 5000; EvTimer; EvImmediate; EvSpClose; EvInitOpen;
              Sample.ping 4] in
  let r := sample_request (IStr "SYS") (IStr "resetInd") (JObj []) (JFun 1%nat) Sample.ready in
  r_st r = set_spinLock true Sample.ready /\ sendless (r_out r) /\
  _spinLock (fst (sample_run evs (r_st r))) = true /\
  sendless (snd (sample_run evs (r_st r))).
Proof.
  cbv zeta.
  refine (failed_dispatch_wedges_gate Sample.ZpiObject Sample.CmdType_key Sample.parse
            Sample.ToNumber Sample.max_stack Sample.ready (IStr "SYS") (IStr "resetInd")
            (JObj []) (JFun 1%nat) (mkArgObj "AREQ" "SYS" "resetInd" 128 (inr None))
            [Sample.ping 3; EvAdvance 5000; EvTimer; EvImmediate; EvSpClose; EvInitOpen;
             Sample.ping 4] _ _ _ _ _ _ _ _);
    try reflexivity.
  left. reflexivity.
Defined.

(** A command the sample translator does not know, on an engine that
    is up: the translator's error comes out of [request], the engine
    is as it was. *)
Lemma request_exceptions_unknown_command :
  let s := fst (sample_run [EvInitOpen; Sample.ping 1] new_CcZnp) in
  let r := sample_request (IStr "SYS") (IStr "nosuch") (JObj []) (JFun 2%nat) s in
  (_init s = true -> _unpi s = true /\ _sp s <> None) /\
  sends (r_out r) = 0%nat /\
  ((r = mkRes (inl Sample.unrecognized_command) s [] /\
    (Sample.unrecognized_command = not_initialized \/
     Sample.unrecognized_command = valObj_not_object \/
     Sample.unrecognized_command = callback_not_function \/
     Sample.ZpiObject (IStr "SYS") (IStr "nosuch") (JObj []) = inl Sample.unrecognized_command)) \/
   (exists argObj,
      Sample.ZpiObject (IStr "SYS") (IStr "nosuch") (JObj []) = inr argObj /\
      a_frame argObj = inl Sample.unrecognized_command /\
      _spinLock s = false /\
      r = mkRes (inl Sample.unrecognized_command) (set_spinLock true s) []) \/
   (JFun 2%nat = JUndefined /\
    Sample.unrecognized_command = mkError KTypeError "callback is not a function" /\
    r_out r = []) \/
   (exists g a, JFun 2%nat = JThrows g Sample.unrecognized_command /\
      r_out r = [ECallbackThrew None g a])).
Proof.
  cbv zeta.
  refine (request_exceptions Sample.ZpiObject Sample.CmdType_key Sample.parse
            Sample.ToNumber Sample.max_stack [EvInitOpen; Sample.ping 1]
            (IStr "SYS") (IStr "nosuch") (JObj []) (JFun 2%nat) Sample.unrecognized_command _).
  vm_compute. reflexivity.
Defined.

(** A callback that throws, handed in once with a request that waits
    in the queue for a command the translator builds no frame for: the
    retried request calls it with the build error, and the catch of
    lines 239-242 calls it again with what it threw. *)
Lemma throwing_callback_called_twice :
  let boom := mkError KError "boom" in
  let evs :=
    [EvInitOpen; Sample.nvWrite 1;
     EvRequest (IStr "SYS") (IStr "resetInd") (JObj []) (JThrows 2%nat boom);
     Sample.nvWrite_reply; EvImmediate; EvImmediate] in
  list_sum (map (handed_thrower 2) evs) = 1%nat /\
  threw 2 (snd (sample_run evs new_CcZnp)) = 2%nat /\
  snd (sample_run [EvImmediate] (fst (sample_run (removelast evs) new_CcZnp))) =
    [ECallbackThrew None 2%nat (CbErr fail_to_build);
     ECallbackThrew None 2%nat (CbErr boom);
     EThrown boom].
Proof. repeat split. Qed.

(** A ping from the ready engine, and its reply. *)
Lemma request_round_trip_ping :
  let s := Sample.ready in
  let argObj := mkArgObj "SREQ" "SYS" "ping" 1 (inr (Some [])) in
  let data := Sample.frame_of 3 1 1 [0] in
  let evt := srsp_evt (a_subsys argObj) (a_cmd argObj) in
  let txn := next_id s in
  let sent := ESend "SREQ" (a_subsys argObj) (a_cmdId argObj) [] in
  sample_run [EvRequest (IStr "SYS") (IStr "ping") (JObj []) (JFun 1%nat); EvData data;
              EvImmediate] s =
    (set_resetting false (set_next_id (S txn) s),
     [sent; EEmit "data" (AFrame data); EEmit evt (AResult [("status"%string, 0)]);
      ECallback (Some txn) 1%nat (CbResult (AResult [("status"%string, 0)]))]).
Proof.
  cbv zeta.
  refine (proj1 (request_round_trip Sample.ZpiObject Sample.CmdType_key Sample.parse
                   Sample.ToNumber Sample.max_stack Sample.ready (IStr "SYS") (IStr "ping")
                   (JObj []) 1%nat (mkArgObj "SREQ" "SYS" "ping" 1 (inr (Some []))) [] _ _ _ _ _ _)
            (Sample.frame_of 3 1 1 [0]) (mkArgObj "SREQ" "SYS" "ping" 1 (inr None))
            [("status"%string, 0)] _ _ _ _ _ _);
    first [reflexivity | repeat split].
Defined.

(** A ping submitted by number while a ping submitted by name is
    outstanding.  When the reply comes it is served as if it had been
    made afterwards.  When 1800 ms pass without a reply it is promoted
    although it is for the pair of the first: its frame is written and
    two listeners wait for the one reply. *)
Lemma queued_request_is_served_ping_by_number :
  let s := Sample.ready in
  let first := EvRequest (IStr "SYS") (IStr "ping") (JObj []) (JFun 1%nat) in
  let second := EvRequest (INum 1) (INum 1) (JObj []) (JFun 2%nat) in
  let data := Sample.frame_of 3 1 1 [0] in
  let evt := "SRSP:SYS:ping"%string in
  let txn := next_id s in
  let sent := ESend "SREQ" "SYS" 1 [] in
  (sample_run [first; second; EvData data; EvImmediate; EvImmediate] s =
     sample_run [first; EvData data; EvImmediate; second] s /\
   snd (sample_run [first; second; EvData data; EvImmediate; EvImmediate] s) =
     [sent; EEmit "data" (AFrame data); EEmit evt (AResult [("status"%string, 0)]);
      ECallback (Some txn) 1%nat (CbResult (AResult [("status"%string, 0)])); sent]) /\
  (let r := sample_run [first; second; EvAdvance 1800; EvTimer; EvImmediate] s in
   snd r = [sent; sent] /\ _txQueue (fst r) = [] /\
   map l_id (listeners (fst r)) = [txn; S txn] /\ _spinLock (fst r) = true).
Proof.
  cbv zeta.
  pose proof (queued_request_is_served Sample.ZpiObject Sample.CmdType_key Sample.parse
                Sample.ToNumber Sample.max_stack Sample.ready
                (IStr "SYS") (IStr "ping") (JObj []) 1%nat
                (mkArgObj "SREQ" "SYS" "ping" 1 (inr (Some []))) []
                (INum 1) (INum 1) (JObj []) 2%nat
                (mkArgObj "SREQ" "SYS" "ping" 1 (inr (Some []))) []) as H.
  cbv zeta in H.
  assert (H' := H ltac:(repeat split) eq_refl eq_refl eq_refl eq_refl eq_refl eq_refl eq_refl
                  eq_refl eq_refl).
  destruct H' as [H1 H2].
  split.
  - refine (H1 (Sample.frame_of 3 1 1 [0]) (mkArgObj "SREQ" "SYS" "ping" 1 (inr None))
              [("status"%string, 0)] _ _ _ _ _ _); reflexivity.
  - refine (H2 1800 _). discriminate.
Defined.

(** After that promotion two synchronous transactions are outstanding
    on the pair (SYS, ping). *)
Lemma promoted_by_number_outstanding :
  outstanding
    (fst (sample_run [EvRequest (IStr "SYS") (IStr "ping") (JObj []) (JFun 1%nat);
                      EvRequest (INum 1) (INum 1) (JObj []) (JFun 2%nat);
                      EvAdvance 1800; EvTimer; EvImmediate] Sample.ready)) =
    [("SYS", "ping"); ("SYS", "ping")]%string.
Proof. reflexivity. Qed.

(** A ping and a bind made while a reset is pending: the reset
    notification, the fail-safe and a [close] leave them queued. *)
Lemma queue_waits_for_next_request_reset :
  let s := fst (sample_run [EvInitOpen; Sample.resetReq 1; Sample.ping 2; Sample.zdo_bind 3]
                  new_CcZnp) in
  let evs := [EvData (Sample.frame_of 2 1 128 [0]); EvAdvance 30000; EvTimer; EvImmediate;
              EvClose (JFun 9%nat); EvFlushDone] in
  let r := sample_run evs s in
  stalled (fst r) /\
  (_txQueue (fst r) = _txQueue s \/
   (_txQueue (fst r) = [] /\ emitted "close" (snd r) = true)) /\
  sends (snd r) = 0%nat.
Proof.
  cbv zeta.
  refine (queue_waits_for_next_request Sample.ZpiObject Sample.CmdType_key Sample.parse
            Sample.ToNumber Sample.max_stack
            (fst (sample_run [EvInitOpen; Sample.resetReq 1; Sample.ping 2; Sample.zdo_bind 3]
                    new_CcZnp))
            [EvData (Sample.frame_of 2 1 128 [0]); EvAdvance 30000; EvTimer; EvImmediate;
             EvClose (JFun 9%nat); EvFlushDone] _ _).
  - unfold stalled. repeat split; vm_compute;
      repeat (first [apply Forall_nil | apply Forall_cons]); reflexivity.
  - reflexivity.
Defined.
